(* ===== verification/_CoqProject ===== *)
-Q . S2P
Prelude.v
GoStrings.v
GoTime.v
NetAddr.v
Rbac.v
Routing.v
Listener.v
GoSsh.v
Json.v
GoCalendar.v
JsonDecode.v
JsonRound.v
HtmlEscape.v
GoTemplate.v
Revcheck.v
GoOs.v
Recording.v
Target.v
AuditLog.v
Channel.v
Channels.v
Pipe.v
SshServer.v
SshServing.v
SshAlone.v
Gateway.v
Portal.v
Pages.v
Trackers.v
Replay.v
Tunneld.v
AgentSession.v
GoEnv.v
CertClient.v
HostCert.v
ProxyMain.v
TunnelMain.v
Commands.v
