(* ===== verification/Prelude.v ===== *)
(** * tokyo3-ssh-proxy: a verification library

    The program is an SSH gateway.  [cmd/ssh-proxyd] terminates the users' SSH
    connections, authenticates them by certificate, dials the target they name
    (by TCP, or through the reverse tunnel of an agent), proxies their channels,
    records terminal sessions, publishes an audit stream and serves a read-only
    portal.  [cmd/ssh-tunneld] is the agent on a target behind a firewall: it
    keeps a yamux tunnel to the proxy open, joins its streams to the local sshd
    and renews the host certificate.  This library models both commands and
    every package under [internal/], and proves what makes them correct.

    ** The shape of the models

    A Go call is a function to [outcome] (below): a value, an error of the
    component's own error type, or a panic.  A component's state is a record
    and each method a function that returns the new state; what a method does
    to the outside (audit entries, requests forwarded, connections closed) is a
    list of actions in program order.  What the outside answers (a network
    library, a peer, the clock, a random draw, a failing system call) is an
    argument.  Goroutines are steps: a transition function on a shared state
    with a schedule, or a relation, with no fairness assumed unless a theorem
    says so.  Strings are byte strings; machine integers are [Z] with their
    wrap-around or saturation written out ([wrap64], [Time_Sub]); durations and
    instants are nanoseconds; [float64] is Stdlib's [spec_float] at binary64.

    ** The parts, and the source they model

    - Go itself.  [Prelude]: outcomes, tactics, hints, generic lemmas.
      [GoStrings]: UTF-8 as [range] decodes it and the [strings] functions in
      use.  [GoTime]: [time.Duration] and binary64.  [NetAddr]: [net] and
      [net/netip] parsing, CIDR containment, with the numeric reading of a
      block.  [Json], [JsonDecode], [JsonRound]: what [json.Marshal] writes, what
      [json.Unmarshal] reads, and that the one reads back the other.
      [GoCalendar]: dates, RFC 3339 and the printing of durations.
      [HtmlEscape], [GoTemplate]: [html/template], from the text of a template
      to the bytes of a page.  [GoOs]: [path/filepath] and a file system with
      symbolic links.  [GoSsh]: the data of x/crypto/ssh and the RFC 4254
      encodings.  [GoEnv]: environment variables.
    - [Rbac]: [internal/proxyd/rbac/enforcer.go].
    - [Routing], [Listener]: [internal/proxyd/routing/registry.go] (each method
      one atomic step, as its mutex makes it) and [listener.go] (SPIFFE labels;
      the accept loop and its handlers as a transition system over the
      registry).
    - [Revcheck]: [internal/proxyd/revcheck/revcheck.go], the poller and its
      loop.
    - [Recording]: [internal/proxyd/recording/recording.go] and [sink.go], down
      to the bytes of a cast.
    - [Target]: [session/route.go] and [dial.go].  [AuditLog]: the entry of
      [internal/audit/audit.go].
    - [Channel]: [session/recorder.go], [portforward.go], [subsystem.go] and
      [handleChannel] of [proxy.go]; the sink is the interface [CastSink].
      [Channels]: [HandleNewChannels], any number of channels of any number of
      connections interleaved over one store.  [Pipe]: the six goroutines of
      [pipeChannel] between two SSH channels.
    - [SshServer]: [internal/proxyd/ssh/server.go], from the public-key callback
      to the last event of a connection; [SshServing]: the same server with every
      connection a goroutine, over one store and one audit stream, its accept
      loop and its shutdown; [SshAlone]: the two agree on a connection by itself
      ([goroutine_is_handleConn]).
    - [Gateway]: the SSH server, the tunnel listener and the revocation poller
      in one process, over the registry and the snapshot they share.
    - [Portal], [Pages], [Trackers]: [internal/proxyd/portal/], that is the cast
      store, the decoders and the handlers; the templates and their rendering;
      the rings of sessions and events over the journal's, which is the class
      [Journal].
    - [Tunneld]: [internal/common/tunnel/yamux.go], [internal/tunneld/tunnel] and
      [internal/tunneld/forward], each function by itself; [AgentSession]: all
      the goroutines of one tunnel session of the agent.  [CertClient]:
      [internal/common/certclient].
      [HostCert]: [internal/tunneld/hostcert/renewer.go].
    - [ProxyMain], [TunnelMain]: [cmd/ssh-proxyd/main.go] and
      [cmd/ssh-tunneld/main.go], from the environment to the configured
      components; [Commands]: the command trees and the exit status.

    The components meet the way the code composes them.  [SshServer.handleConn],
    and step by step [SshServing.session_step], runs the channels with the proxier that
    [session_proxier] builds from the permissions [publicKeyCallback] returned,
    which reads [Rbac], [Revcheck] and [Target]; [tunnelTransport] reads the
    [Routing] registry that [Listener] fills, and in [Gateway] all of them step
    together; [Portal] opens the files
    [Recording] created, and [Replay] follows a session from the proxy through
    the audit stream to the portal; [ProxyMain.runServe] builds all of them,
    and [TunnelMain.runAgent] builds [Tunneld] and [HostCert].

    ** What the theorems show

    - Over the whole process: a session is open only for a certificate that the
      latest snapshot of its time did not name ([sessions_admitted]), and runs
      over the tunnel of an agent whose own certificate carries the name of its
      target whenever one is live ([sessions_reach_named_agent]).
    - Who gets in, and as whom: [authentication_sound],
      [attribution_not_forgeable], [source_address_gate], [parse_target_iff],
      [revoked_iff_last_snapshot], [minted_principal_authorized].
    - What a session may do: [server_gates], [channels_gated],
      [failed_session_rejects].
    - What is written down: [server_audited], [recording_isolated],
      [forward_accounted], [second_channel_unrecorded], [cast_roundtrip],
      [opencast_contained].
    - What the portal makes of it: every entry the proxy publishes is one the
      portal's decoders read ([published_entries_decode]), the recordings are
      listed newest first ([sessions_listed]), a page always renders
      ([pages_rendered]) and is not changed by what it shows
      ([page_markup_fixed]), its links lead to the recording
      ([replay_links_resolve]), and the bytes served there are those recorded
      ([recorded_session_replays], [recorded_cast_replays],
      [cast_served_under_root]).
    - What crosses the wire as JSON: [parse_Marshal], [parse_truncated] (a text
      cut short is never read), [snapshot_read_whole].
    - How targets are reached: [register_refines] and [lookup_refines] (the
      registry refines a partial map from labels to live sessions),
      [live_label_kept], [registered_iff_serving], [serve_returns_drained],
      [handler_shutdown], [spiffe_labels_roundtrip],
      [tunnel_transport_routes], [dial_target_conns].
    - That bytes arrive and goroutines end: [exit_status_delivered],
      [pipe_terminates], [forward_pipe_returns], [session_unwinds],
      [server_drains] (the shutdown of the SSH server), and in [Channels] that
      [HandleNewChannels] returns under every schedule, with every channel done
      ([HandleNewChannels_run]) and alone does what [handleChannel] does
      ([alone_handleChannel]).
    - The agent: [agent_connection], [dropped_session_redials_at_once],
      [cert_replaced_atomically], [sign_once_correct], [renewer_run_sound],
      [agent_host_certificate].
    - The wiring: [startup_sound], [tunnel_requires_client_certs],
      [unset_revocations_url_panics], [revocation_period_overflows],
      [healthy_iff_last_poll].

    Other theorems state behaviour that is easy to get wrong by reading:
    [eof_not_propagated], [stderr_may_be_lost], [cast_root_slash_refuses],
    [renewal_before_expiry], [renew_fraction_nan_accepted].

    ** Bounds and fuel

    [GoOs.max_links] (255) is the limit [filepath.EvalSymlinks] counts to and
    [GoOs.kernel_links] (40) the kernel's, both part of the behaviour modelled;
    the resolvers recurse on the links left and the path.  [HostCert.temp_attempts]
    (10000) is the retry limit of [os.CreateTemp].  UTF-8 decoding takes the
    string's length as fuel, which suffices because every rune is at least one
    byte.  [Channels.conn_drain] takes [conn_work], the number of steps left,
    and is proved to end with every goroutine done; [SshServing], [Pipe], [Tunneld.Forward]
    and [AgentSession] have measures that every step of the program decreases.  The
    parser of [GoTemplate] takes the number of tokens as fuel, and
    [GoTemplate.inline] the number of templates, which bounds the depth of calls
    that do not recur.
    The loops driven by the outside ([Run] of the poller, the dialer and the
    renewer, the accept loops) are functions of the finite list of answers they
    have had so far.  The renewal theorem needs a certificate lifetime below
    2^53 nanoseconds (about 104 days), where the conversion to [float64] is
    exact.

    ** Assumptions on code outside the repository

    Each is a class whose laws state documented behaviour, with an instance at
    which they hold: [CertAuthority] (the checks of [gossh.CertChecker] and
    their order), [SshWire] (the wire codec), [UnicodeTables] (case folding of
    non-ASCII runes), [HostKeys] (key parsing), the HTTP client of
    [CertClient], the base library's [EnvUtil], TLS reloader and journal
    sources of [ProxyMain], and [JournalLaws], the ring of [journal.Tracker], and
    [CobraLaws], the dispatch of a command line.  TLS handshakes, yamux and SSH transport are
    represented by what they hand to the code.

    ** Not modelled

    - Inside a request of [Channel], forwarding and replying are one step: while
      [SendRequest] waits, other goroutines of the channel may run in the code.
      What they share with it, the recorder, is not touched in between.
    - In [Gateway] a run of the public-key callback and a dial are one step each,
      at the moment they read the snapshot and the registry.  The portal and the
      trackers are not among its components: they meet the proxy only through the
      stream and the cast directory ([Replay]).
    - The NATS journal, [run.Group], signal handling and cobra are libraries:
      arguments or classes here.  Logging is left out.
    - Of [html/template], what the portal's templates do not use: a template with
      an unquoted attribute, a comment, a regular expression or a value inside
      a tag is refused by the model, and those of the source are not.
    - A page is rendered to memory; a client that goes away while it is written
      loses the rest of it.

    ** Next

    The granularity of a waiting request in [Channel]. *)

From Stdlib Require Import ZArith Lia.
From stdpp Require Import prelude strings gmap list.

(** ** Outcomes of a Go call

    A Go call returns a value, returns a non-nil [error], or panics.  [E] is
    the component's own error type, so that callers can match on sentinels
    the way [errors.Is] does. *)
Inductive outcome (E A : Type) : Type :=
  | Ret (a : A)
  | Err (e : E)
  | Panic.
Arguments Ret {E A} a.
Arguments Err {E A} e.
Arguments Panic {E A}.

Definition obind {E A B} (m : outcome E A) (k : A → outcome E B) : outcome E B :=
  match m with
  | Ret a => k a
  | Err e => Err e
  | Panic => Panic
  end.

Definition map_err {E F A} (f : E → F) (m : outcome E A) : outcome F A :=
  match m with
  | Ret a => Ret a
  | Err e => Err (f e)
  | Panic => Panic
  end.

Definition is_ret {E A} (m : outcome E A) : bool :=
  match m with Ret _ => true | _ => false end.

Declare Scope go_scope.
Delimit Scope go_scope with go.
Notation "'let!' x ':=' m 'in' k" := (obind m (fun x => k))
  (at level 10, x binder, m at level 100, k at level 200) : go_scope.

(** An early return: [if !cond { return nil, err }]. *)
Definition guard_else {E} (c : bool) (e : E) : outcome E unit :=
  if c then Ret tt else Err e.
Notation "'require' c 'else' e ;; k" := (obind (guard_else c e) (fun _ => k))
  (at level 100, c at next level, e at next level, right associativity) : go_scope.

Section Outcome.
Context {E A B : Type}.
Implicit Types (m : outcome E A).

Lemma obind_Ret_inv m (k : A → outcome E B) b :
  obind m k = Ret b → ∃ a, m = Ret a ∧ k a = Ret b.
Proof. destruct m; simpl; intros; simplify_eq; eauto. Qed.

Lemma obind_Err_inv m (k : A → outcome E B) e :
  obind m k = Err e → m = Err e ∨ ∃ a, m = Ret a ∧ k a = Err e.
Proof. destruct m; simpl; intros; simplify_eq; eauto. Qed.

Lemma guard_else_Ret_inv c (e : E) u : guard_else c e = Ret u → c = true.
Proof. by destruct c. Qed.

Lemma is_ret_true m : is_ret m = true ↔ ∃ a, m = Ret a.
Proof. destruct m; simpl; split; try done; [by eauto| |]; by intros [??]. Qed.
End Outcome.

(** [inv_outcome] peels binds and guards off a hypothesis [_ = Ret _]. *)
Ltac inv_outcome :=
  repeat match goal with
  | H : obind _ _ = Ret _ |- _ =>
      let a := fresh "a" in let H1 := fresh H "_m" in
      apply obind_Ret_inv in H as (a & H1 & H)
  | H : guard_else _ _ = Ret _ |- _ => apply guard_else_Ret_inv in H
  | H : Ret _ = Ret _ |- _ => injection H as H
  | H : Err _ = Ret _ |- _ => discriminate H
  | H : Panic = Ret _ |- _ => discriminate H
  end; simplify_eq.

(** ** Machine integers

    Go's [int], [int64] and [time.Duration] are 64-bit two's complement on the
    platforms the repository builds for; [uint32] is 32-bit. *)
Definition wrap64 (z : Z) : Z := ((z + 2^63) mod 2^64 - 2^63)%Z.
Definition int64_range (z : Z) : Prop := (-2^63 ≤ z < 2^63)%Z.

#[export] Instance int64_range_dec z : Decision (int64_range z).
Proof. unfold int64_range. apply _. Defined.

Lemma wrap64_range z : int64_range (wrap64 z).
Proof. unfold int64_range, wrap64. pose proof (Z.mod_pos_bound (z + 2^63) (2^64)). lia. Qed.

Lemma wrap64_id z : int64_range z → wrap64 z = z.
Proof. unfold int64_range, wrap64; intros. rewrite Z.mod_small; lia. Qed.

Lemma wrap64_idem z : wrap64 (wrap64 z) = wrap64 z.
Proof. apply wrap64_id, wrap64_range. Qed.

(** An equation between closed terms, by evaluation in the kernel. *)
Ltac by_vm := match goal with |- _ = ?b => vm_cast_no_check (eq_refl b) end.

(** [lia] with quotients and remainders by constants. *)
Ltac zdiv := Z.to_euclidean_division_equations; lia.

Create HintDb proxy.
#[export] Hint Resolve wrap64_range : proxy.
Create Rewrite HintDb proxy_rw.
#[export] Hint Rewrite wrap64_idem : proxy_rw.

(** ** Lists *)
Lemma take_but_last {A} (n : nat) (l k : list A) x :
  l = k ++ [x] → (n < length l)%nat → ∃ m, l = take n l ++ m ++ [x].
Proof.
  intros -> Hn. rewrite length_app in Hn. cbn in Hn. exists (drop n k).
  rewrite take_app_le, (assoc_L (++)), take_drop by lia. done.
Qed.

Lemma drop_S_app {A} (h p : list A) c : drop (S (length h)) (h ++ c :: p) = p.
Proof. induction h; simpl; [apply drop_0|done]. Qed.

Section Lists.
Context {A : Type}.
Implicit Types (l : list A).

(** [slices.DropWhile]-style scans used by the trimming functions. *)
Fixpoint drop_while (p : A → bool) l : list A :=
  match l with
  | [] => []
  | x :: l' => if p x then drop_while p l' else l
  end.

Definition drop_while_end (p : A → bool) l : list A :=
  reverse (drop_while p (reverse l)).

Lemma drop_while_suffix p l : ∃ k, l = k ++ drop_while p l ∧ Forall (λ x, p x = true) k.
Proof.
  induction l as [|x l (k & IH & Hk)]; simpl; [by exists []|].
  destruct (p x) eqn:Hp; [|by exists []].
  exists (x :: k). split; [by rewrite IH at 1|by constructor].
Qed.

Lemma drop_while_end_prefix p l :
  ∃ k, l = drop_while_end p l ++ k ∧ Forall (λ x, p x = true) k.
Proof.
  unfold drop_while_end.
  destruct (drop_while_suffix p (reverse l)) as (k & Hk & Hall).
  exists (reverse k). split; [|by apply Forall_reverse].
  rewrite <-reverse_app, <-Hk. by rewrite reverse_involutive.
Qed.

Lemma drop_while_head p l x l' : drop_while p l = x :: l' → p x = false.
Proof.
  induction l as [|y l IH]; simpl; [done|].
  destruct (p y) eqn:Hp; [done|]. by intros [= -> ->].
Qed.

Lemma drop_while_id p l :
  match l with [] => True | x :: _ => p x = false end → drop_while p l = l.
Proof. destruct l; simpl; [done|]. by intros ->. Qed.

Lemma drop_while_idem p l : drop_while p (drop_while p l) = drop_while p l.
Proof.
  apply drop_while_id. destruct (drop_while p l) eqn:H; [done|].
  by eapply drop_while_head.
Qed.

Lemma drop_while_Forall (P : A → Prop) p l : Forall P l → Forall P (drop_while p l).
Proof.
  induction 1; simpl; [constructor|]. case_match; [done|by constructor].
Qed.

Lemma drop_while_end_last p l x :
  last (drop_while_end p l) = Some x → p x = false.
Proof.
  unfold drop_while_end. rewrite last_reverse.
  destruct (drop_while p (reverse l)) eqn:H; simpl; [done|].
  intros [= ->]. by eapply drop_while_head.
Qed.

Lemma drop_while_end_id p l :
  match last l with None => True | Some x => p x = false end →
  drop_while_end p l = l.
Proof.
  unfold drop_while_end. intros H. rewrite drop_while_id; [by rewrite reverse_involutive|].
  rewrite <-(reverse_involutive l), last_reverse in H. by destruct (reverse l).
Qed.

Lemma drop_while_end_idem p l :
  drop_while_end p (drop_while_end p l) = drop_while_end p l.
Proof.
  apply drop_while_end_id. destruct (last _) eqn:H; [|done].
  by eapply drop_while_end_last.
Qed.
End Lists.

Lemma drop_while_fmap {A B} (p : A → bool) (q : B → bool) (f : A → B) l :
  (∀ x, q (f x) = p x) → drop_while q (f <$> l) = f <$> drop_while p l.
Proof.
  intros Hpq. induction l as [|x l IH]; simpl; [done|].
  rewrite Hpq. by destruct (p x).
Qed.

Lemma drop_while_end_fmap {A B} (p : A → bool) (q : B → bool) (f : A → B) l :
  (∀ x, q (f x) = p x) → drop_while_end q (f <$> l) = f <$> drop_while_end p l.
Proof.
  intros Hpq. unfold drop_while_end.
  by rewrite <-fmap_reverse, (drop_while_fmap p q), fmap_reverse.
Qed.

Lemma pair_snd {A B} (p : A * B) b : p.2 = b → p = (p.1, b).
Proof. by intros <-; destruct p. Qed.

Lemma mjoin_fmap_cons {A B} (f : A → list B) x l : mjoin (f <$> x :: l) = f x ++ mjoin (f <$> l).
Proof. done. Qed.

Lemma exists_cons {A} (P : A → Prop) x l :
  (∃ y, y ∈ x :: l ∧ P y) ↔ P x ∨ ∃ y, y ∈ l ∧ P y.
Proof. split; [intros (y & [->|Hy]%elem_of_cons & ?); eauto|intros [?|(y & ? & ?)]; set_solver]. Qed.

(** [for _, x := range xs { if p(x) { return x } }] *)
Fixpoint find_first {A} (p : A → bool) (l : list A) : option A :=
  match l with
  | [] => None
  | x :: l' => if p x then Some x else find_first p l'
  end.

Lemma find_first_Some {A} (p : A → bool) l x :
  find_first p l = Some x ↔
  ∃ l1 l2, l = l1 ++ x :: l2 ∧ p x = true ∧ Forall (λ y, p y = false) l1.
Proof.
  split.
  - induction l as [|y l IH]; simpl; [done|]. destruct (p y) eqn:Hp.
    + intros [= ->]. by exists [], l.
    + intros (l1 & l2 & -> & ? & ?)%IH. exists (y :: l1), l2. eauto.
  - intros (l1 & l2 & -> & Hx & Hl1). induction Hl1 as [|y l1 Hy _ IH]; simpl.
    + by rewrite Hx.
    + by rewrite Hy.
Qed.

Lemma find_first_None {A} (p : A → bool) l :
  find_first p l = None ↔ Forall (λ y, p y = false) l.
Proof.
  split.
  - induction l as [|y l IH]; simpl; [constructor|].
    destruct (p y) eqn:?; [done|]. intros ?. constructor; auto.
  - induction 1 as [|y l Hy _ IH]; simpl; [done|]. by rewrite Hy.
Qed.
