(* ===== verification/GoStrings.v ===== *)
(** * Go strings: bytes, UTF-8 and the functions of package [strings]

    A Go [string] and a [[]byte] are both finite sequences of bytes; both are
    a [string] here, one [ascii] per byte.  The file gives UTF-8 decoding as
    Go's [range] loop does it (an invalid byte yields U+FFFD and advances by
    one), and the functions of [strings] that the repository calls. *)

From Stdlib Require Import Ascii.
From stdpp Require Import prelude strings gmap list.
From S2P Require Import Prelude.

#[export] Set Default Goal Selector "!".
Local Open Scope Z_scope.

Abbreviation chars := String.list_ascii_of_string.
Abbreviation of_chars := String.string_of_list_ascii.

Definition byte_val (c : ascii) : Z := Z.of_N (Ascii.N_of_ascii c).
Definition byte_of (z : Z) : ascii := Ascii.ascii_of_N (Z.to_N z).

Lemma byte_val_range c : 0 ≤ byte_val c < 256.
Proof. unfold byte_val. pose proof (Ascii.N_ascii_bounded c). lia. Qed.

Lemma byte_val_of z : 0 ≤ z < 256 → byte_val (byte_of z) = z.
Proof. intros. unfold byte_val, byte_of. rewrite Ascii.N_ascii_embedding; lia. Qed.

Lemma byte_of_val c : byte_of (byte_val c) = c.
Proof. unfold byte_val, byte_of. by rewrite N2Z.id, Ascii.ascii_N_embedding. Qed.

Lemma byte_val_inj c d : byte_val c = byte_val d → c = d.
Proof. intros H. by rewrite <-(byte_of_val c), H, byte_of_val. Qed.

#[export] Hint Resolve byte_val_range : proxy.

(** ** String and list views *)

Lemma chars_of_chars l : chars (of_chars l) = l.
Proof. apply String.list_ascii_of_string_of_list_ascii. Qed.
Lemma of_chars_chars s : of_chars (chars s) = s.
Proof. apply String.string_of_list_ascii_of_string. Qed.
Lemma chars_app s t : chars (s +:+ t) = chars s ++ chars t.
Proof. induction s as [|c s IH]; [done|]. unfold String.append in *. simpl. by rewrite IH. Qed.
Lemma of_chars_app l k : of_chars (l ++ k) = of_chars l +:+ of_chars k.
Proof. induction l as [|c l IH]; [done|]. simpl. unfold String.append in *. by rewrite IH. Qed.
Lemma chars_inj s t : chars s = chars t → s = t.
Proof. intros H. by rewrite <-(of_chars_chars s), H, of_chars_chars. Qed.
Lemma chars_nil s : chars s = [] ↔ s = "".
Proof. split; [by destruct s|by intros ->]. Qed.

Create Rewrite HintDb chars.
#[export] Hint Rewrite chars_of_chars of_chars_chars chars_app of_chars_app : chars.

(** ** UTF-8 *)
Definition RuneError : Z := 0xFFFD.
Definition RuneSelf : Z := 0x80.

Definition is_cont (z : Z) : bool := (0x80 <=? z) && (z <=? 0xBF).

(** The accept ranges of the second byte ([utf8.acceptRanges]). *)
Definition lead3_ok (x y : Z) : bool :=
  ((x =? 0xE0) && (0xA0 <=? y) && (y <=? 0xBF)) ||
  ((x =? 0xED) && (0x80 <=? y) && (y <=? 0x9F)) ||
  ((((0xE1 <=? x) && (x <=? 0xEC)) || ((0xEE <=? x) && (x <=? 0xEF))) && is_cont y).
Definition lead4_ok (x y : Z) : bool :=
  ((x =? 0xF0) && (0x90 <=? y) && (y <=? 0xBF)) ||
  ((x =? 0xF4) && (0x80 <=? y) && (y <=? 0x8F)) ||
  ((0xF1 <=? x) && (x <=? 0xF3) && is_cont y).

(** [decode_first x l]: the rune that starts with byte [x] and continues in
    [l], with the number of further bytes it takes; [None] when the encoding
    is invalid, which Go reports as [(RuneError, 1)]. *)
Definition decode_first (x : ascii) (l : list ascii) : option (Z * nat) :=
  let a := byte_val x in
  if a <? RuneSelf then Some (a, 0%nat)
  else match l with
  | y :: l1 =>
      let b := byte_val y in
      if (0xC2 <=? a) && (a <=? 0xDF) then
        if is_cont b then Some ((a - 0xC0) * 64 + (b - 0x80), 1%nat) else None
      else match l1 with
      | z :: l2 =>
          let c := byte_val z in
          if lead3_ok a b then
            if is_cont c
            then Some ((a - 0xE0) * 4096 + (b - 0x80) * 64 + (c - 0x80), 2%nat)
            else None
          else match l2 with
          | w :: _ =>
              let d := byte_val w in
              if lead4_ok a b && is_cont c && is_cont d
              then Some ((a - 0xF0) * 262144 + (b - 0x80) * 4096
                         + (c - 0x80) * 64 + (d - 0x80), 3%nat)
              else None
          | [] => None
          end
      | [] => None
      end
  | [] => None
  end.

(** One step of [for i, r := range s]: the rune and the bytes it covers. *)
Fixpoint decode_fuel (n : nat) (l : list ascii) : list (Z * list ascii) :=
  match n, l with
  | S n, x :: l' =>
      match decode_first x l' with
      | Some (r, k) => (r, x :: take k l') :: decode_fuel n (drop k l')
      | None => (RuneError, [x]) :: decode_fuel n l'
      end
  | _, _ => []
  end.
Definition decode (l : list ascii) : list (Z * list ascii) := decode_fuel (length l) l.

(** The bytes covered by a list of decoded runes. *)
Definition seg_bytes (segs : list (Z * list ascii)) : list ascii := mjoin (segs.*2).

Definition valid_rune (r : Z) : Prop := 0 ≤ r < 0xD800 ∨ 0xE000 ≤ r < 0x110000.

(** [utf8.AppendRune]: an invalid rune is written as U+FFFD. *)
Definition encode_valid (r : Z) : list ascii :=
  if r <? 0x80 then [byte_of r]
  else if r <? 0x800 then [byte_of (0xC0 + r / 64); byte_of (0x80 + r mod 64)]
  else if r <? 0x10000 then
    [byte_of (0xE0 + r / 4096); byte_of (0x80 + r / 64 mod 64); byte_of (0x80 + r mod 64)]
  else [byte_of (0xF0 + r / 262144); byte_of (0x80 + r / 4096 mod 64);
        byte_of (0x80 + r / 64 mod 64); byte_of (0x80 + r mod 64)].
Definition rune_ok (r : Z) : bool :=
  ((0 <=? r) && (r <? 0xD800)) || ((0xE000 <=? r) && (r <? 0x110000)).
Definition encode_rune (r : Z) : list ascii :=
  encode_valid (if rune_ok r then r else RuneError).

Lemma rune_ok_spec r : rune_ok r = true ↔ valid_rune r.
Proof. unfold rune_ok, valid_rune. lia. Qed.

Ltac byte_bounds :=
  repeat match goal with
  | |- context [byte_val ?c] =>
      lazymatch goal with
      | _ : 0 ≤ byte_val c < 256 |- _ => fail
      | _ => pose proof (byte_val_range c)
      end
  | _ : context [byte_val ?c] |- _ =>
      lazymatch goal with
      | _ : 0 ≤ byte_val c < 256 |- _ => fail
      | _ => pose proof (byte_val_range c)
      end
  end.

Section Utf8.
Implicit Types (x : ascii) (l : list ascii).

Lemma decode_first_length x l r k : decode_first x l = Some (r, k) → (k ≤ length l)%nat.
Proof. unfold decode_first. intros. repeat case_match; simplify_eq/=; lia. Qed.

Lemma decode_first_app x l l' r k :
  decode_first x l = Some (r, k) → decode_first x (l ++ l') = Some (r, k).
Proof. unfold decode_first. destruct l as [|? [|? [|??]]]; simpl; intros; by repeat case_match. Qed.

Lemma byte_of_eq x z : byte_val x = z → byte_of z = x.
Proof. intros <-. apply byte_of_val. Qed.

Lemma decode_first_sound x l r k :
  decode_first x l = Some (r, k) → valid_rune r ∧ encode_valid r = x :: take k l.
Proof.
  unfold decode_first, RuneSelf, lead3_ok, lead4_ok, is_cont. intros H.
  repeat case_match; simplify_eq/=; byte_bounds; (split; [unfold valid_rune; lia|]);
    unfold encode_valid; repeat case_match; try lia;
    repeat f_equal; apply byte_of_eq; zdiv.
Qed.

Lemma decode_first_complete x t l r :
  valid_rune r → encode_valid r = x :: t → decode_first x (t ++ l) = Some (r, length t).
Proof.
  unfold valid_rune. intros Hr He. unfold encode_valid in He.
  repeat case_match; simplify_eq/=;
    unfold decode_first, RuneSelf, lead3_ok, lead4_ok, is_cont; simpl;
    rewrite ?byte_val_of by zdiv;
    repeat case_match; try zdiv; repeat f_equal; zdiv.
Qed.
End Utf8.

Section Decode.
Implicit Types (x : ascii) (l : list ascii) (segs : list (Z * list ascii)).

Lemma decode_fuel_irrel n m l :
  (length l ≤ n)%nat → (length l ≤ m)%nat → decode_fuel n l = decode_fuel m l.
Proof.
  revert m l. induction n as [|n IH]; intros m l; destruct l as [|x l]; simpl;
    destruct m as [|m]; simpl; try done; try lia.
  intros. destruct (decode_first x l) as [[r k]|]; f_equal; apply IH; rewrite ?length_drop; lia.
Qed.

Lemma decode_cons x l :
  decode (x :: l) =
    match decode_first x l with
    | Some (r, k) => (r, x :: take k l) :: decode (drop k l)
    | None => (RuneError, [x]) :: decode l
    end.
Proof.
  unfold decode at 1. simpl. destruct (decode_first x l) as [[r k]|]; [|done].
  f_equal. apply decode_fuel_irrel; rewrite length_drop; lia.
Qed.

(** Induction along the decoder. *)
Lemma decode_ind (P : list ascii → Prop) :
  P [] →
  (∀ x l r k, decode_first x l = Some (r, k) → P (drop k l) → P (x :: l)) →
  (∀ x l, decode_first x l = None → P l → P (x :: l)) →
  ∀ l, P l.
Proof.
  intros H0 H1 H2 l. remember (length l) as n eqn:Hn. revert l Hn.
  induction (lt_wf n) as [n _ IH]. intros [|x l] ->; [done|].
  destruct (decode_first x l) as [[r k]|] eqn:Hd.
  - eapply H1; [done|]. eapply IH; [|done]. rewrite length_drop. simpl. lia.
  - apply H2; [done|]. eapply IH; [|done]. simpl. lia.
Qed.

Lemma seg_bytes_cons r b segs : seg_bytes ((r, b) :: segs) = b ++ seg_bytes segs.
Proof. done. Qed.
Lemma seg_bytes_app segs segs' : seg_bytes (segs ++ segs') = seg_bytes segs ++ seg_bytes segs'.
Proof. unfold seg_bytes. by rewrite fmap_app, join_app. Qed.

(** Decoding loses no byte. *)
Lemma decode_bytes l : seg_bytes (decode l) = l.
Proof.
  induction l as [|x l r k Hd IH|x l Hd IH] using decode_ind; [done| |];
    rewrite decode_cons, Hd, seg_bytes_cons, IH; simpl; [|done].
  by rewrite take_drop.
Qed.

(** A decoded segment is a rune in its canonical encoding or one bad byte. *)
Lemma decode_segs l : Forall (λ '(r, b),
  (valid_rune r ∧ b = encode_valid r) ∨ (r = RuneError ∧ ∃ x, b = [x] ∧ RuneSelf ≤ byte_val x)) (decode l).
Proof.
  induction l as [|x l r k Hd IH|x l Hd IH] using decode_ind; [constructor| |];
    rewrite decode_cons, Hd; constructor; try done.
  - left. by destruct (decode_first_sound _ _ _ _ Hd) as [? ->].
  - right. split; [done|]. exists x. split; [done|].
    unfold decode_first in Hd. case_match; [done|]. unfold RuneSelf in *. lia.
Qed.

Lemma decode_encode_app r l :
  valid_rune r → decode (encode_valid r ++ l) = (r, encode_valid r) :: decode l.
Proof.
  intros Hr. destruct (encode_valid r) as [|x t] eqn:He.
  { unfold encode_valid in He. by repeat case_match. }
  simpl. rewrite decode_cons, (decode_first_complete x t l r) by done.
  by rewrite take_app_length, drop_app_length.
Qed.

(** Cutting a string at a rune boundary decodes each part as before. *)
Lemma decode_take l s1 s2 : decode l = s1 ++ s2 → decode (seg_bytes s1) = s1.
Proof.
  revert s1. induction l as [|x l r k Hd IH|x l Hd IH] using decode_ind; intros s1 Heq;
    (destruct s1 as [|[r' b] s1]; [done|]).
  - done.
  - rewrite decode_cons, Hd in Heq. injection Heq as <- <- Heq.
    rewrite seg_bytes_cons. destruct (decode_first_sound _ _ _ _ Hd) as [Hr <-].
    by rewrite decode_encode_app, IH.
  - rewrite decode_cons, Hd in Heq. injection Heq as <- <- Heq.
    rewrite seg_bytes_cons. simpl.
    assert (decode_first x (seg_bytes s1) = None) as Hd'.
    { destruct (decode_first x (seg_bytes s1)) as [[r k]|] eqn:Hd'; [|done].
      apply decode_first_app with (l' := seg_bytes s2) in Hd'.
      rewrite <-seg_bytes_app, <-Heq, decode_bytes in Hd'. congruence. }
    by rewrite decode_cons, Hd', IH.
Qed.

Lemma decode_drop l s1 s2 : decode l = s1 ++ s2 → decode (seg_bytes s2) = s2.
Proof.
  revert s1. induction l as [|x l r k Hd IH|x l Hd IH] using decode_ind; intros s1 Heq;
    (destruct s1 as [|[r' b] s1]; [simpl in Heq; rewrite <-Heq; by rewrite decode_bytes|]).
  - done.
  - rewrite decode_cons, Hd in Heq. injection Heq as <- <- Heq. eauto.
  - rewrite decode_cons, Hd in Heq. injection Heq as <- <- Heq. eauto.
Qed.

Lemma decode_encode_list (rs : list Z) :
  Forall valid_rune rs →
  decode (mjoin (encode_valid <$> rs)) = (λ r, (r, encode_valid r)) <$> rs.
Proof.
  induction 1 as [|r rs Hr _ IH]; [done|]. csimpl.
  by rewrite decode_encode_app, IH.
Qed.

Lemma decode_ascii l :
  Forall (λ x, byte_val x < RuneSelf) l → decode l = (λ x, (byte_val x, [x])) <$> l.
Proof.
  induction 1 as [|x l Hx _ IH]; [done|].
  rewrite decode_cons. unfold decode_first.
  destruct (byte_val x <? RuneSelf) eqn:?; [|lia]. csimpl. by rewrite drop_0, take_0, IH.
Qed.
End Decode.

(** The string is valid UTF-8: decoding meets no bad byte. *)
Definition valid_utf8 (l : list ascii) : Prop :=
  ∃ rs, Forall valid_rune rs ∧ l = mjoin (encode_valid <$> rs).

Lemma ascii_utf8 l : forallb (λ c, byte_val c <? RuneSelf) l = true → valid_utf8 l.
Proof.
  intros H. exists (byte_val <$> l). induction l as [|c l IH]; [by split; [constructor|]|].
  cbn in H. apply andb_true_iff in H as [Hc H]. destruct (IH H) as [Hv Hl]. pose proof (byte_val_range c).
  split; [constructor; [left; unfold RuneSelf in *; lia|done]|].
  csimpl. rewrite <-Hl. unfold encode_valid. replace (byte_val c <? 128) with true by (unfold RuneSelf in *; lia).
  by rewrite byte_of_val.
Qed.

(** ** unicode.IsSpace *)
Definition IsSpace (r : Z) : bool :=
  ((9 <=? r) && (r <=? 13)) || (r =? 0x20) || (r =? 0x85) || (r =? 0xA0) || (r =? 0x1680)
  || ((0x2000 <=? r) && (r <=? 0x200a)) || (r =? 0x2028) || (r =? 0x2029)
  || (r =? 0x202f) || (r =? 0x205f) || (r =? 0x3000).

(** [strings.TrimSpace].  The runes are those of the forward decoding: UTF-8
    is self-synchronising, so the backward scan of the library cuts at the
    same boundaries. *)
Definition space_seg (p : Z * list ascii) : bool := IsSpace p.1.
Definition trim_segs (segs : list (Z * list ascii)) : list (Z * list ascii) :=
  drop_while_end space_seg (drop_while space_seg segs).
Definition TrimSpace (s : string) : string :=
  of_chars (seg_bytes (trim_segs (decode (chars s)))).

(** [unicode.ToLower] beyond ASCII is Unicode's table; the model takes it as a
    parameter, with the facts of the Unicode standard that are used. *)
Class UnicodeTables := { unicode_lower : Z → Z }.
Class UnicodeLaws (U : UnicodeTables) : Prop := {
  lower_valid r : valid_rune r → RuneSelf ≤ r → valid_rune (unicode_lower r);
  lower_idem r : RuneSelf ≤ r → RuneSelf ≤ unicode_lower r →
    unicode_lower (unicode_lower r) = unicode_lower r;
  (** a non-ASCII rune whose lower case is ASCII maps to a lower-case letter
      (U+0130 to "i", U+212A to "k") *)
  lower_ascii r : RuneSelf ≤ r → unicode_lower r < RuneSelf → 97 ≤ unicode_lower r ≤ 122;
  lower_space r : RuneSelf ≤ r → IsSpace (unicode_lower r) = IsSpace r;
  lower_error : unicode_lower RuneError = RuneError
}.

Section Lower.
Context {U : UnicodeTables}.

Definition to_lower_rune (r : Z) : Z :=
  if r <? RuneSelf then (if (65 <=? r) && (r <=? 90) then r + 32 else r)
  else unicode_lower r.

Definition is_ascii (l : list ascii) : bool := forallb (λ c, byte_val c <? RuneSelf) l.

(** [strings.ToLower]: the ASCII fast path, otherwise [strings.Map]. *)
Definition ToLower (s : string) : string :=
  let l := chars s in
  if is_ascii l then of_chars ((λ c, byte_of (to_lower_rune (byte_val c))) <$> l)
  else of_chars (mjoin ((λ '(r, _), encode_rune (to_lower_rune r)) <$> decode l)).
End Lower.

Lemma trim_segs_split segs : ∃ a b, segs = a ++ trim_segs segs ++ b.
Proof.
  unfold trim_segs.
  destruct (drop_while_suffix space_seg segs) as (a & Ha & _).
  destruct (drop_while_end_prefix space_seg
    (drop_while space_seg segs)) as (b & Hb & _).
  exists a, b. by rewrite <-Hb.
Qed.

Lemma decode_inj l1 l2 : decode l1 = decode l2 → l1 = l2.
Proof. intros H. by rewrite <-(decode_bytes l1), H, decode_bytes. Qed.

Lemma decode_TrimSpace s : decode (chars (TrimSpace s)) = trim_segs (decode (chars s)).
Proof.
  unfold TrimSpace. rewrite chars_of_chars.
  destruct (trim_segs_split (decode (chars s))) as (a & b & Heq).
  assert (decode (seg_bytes (trim_segs (decode (chars s)) ++ b))
          = trim_segs (decode (chars s)) ++ b) as Hd by (by eapply decode_drop).
  by eapply decode_take.
Qed.

Lemma TrimSpace_idem s : TrimSpace (TrimSpace s) = TrimSpace s.
Proof.
  apply chars_inj, decode_inj. rewrite !decode_TrimSpace. unfold trim_segs.
  set (l := drop_while _ (decode (chars s))).
  rewrite (drop_while_id _ (drop_while_end _ l)); [by rewrite drop_while_end_idem|].
  destruct (drop_while_end_prefix space_seg l) as (k & Hk & _).
  destruct (drop_while_end _ l) as [|p l'] eqn:He; [done|].
  exact (drop_while_head space_seg (decode (chars s)) p (l' ++ k) Hk).
Qed.

Section LowerFacts.
Context {U : UnicodeTables} {UL : UnicodeLaws U}.

Lemma to_lower_rune_valid r : valid_rune r → valid_rune (to_lower_rune r).
Proof.
  intros Hr. unfold to_lower_rune. destruct (r <? RuneSelf) eqn:Hs.
  - unfold RuneSelf, valid_rune in *. case_match; lia.
  - apply lower_valid; [done|lia].
Qed.

Lemma to_lower_rune_idem r : to_lower_rune (to_lower_rune r) = to_lower_rune r.
Proof.
  unfold to_lower_rune at 2 3. destruct (r <? RuneSelf) eqn:Hs.
  - unfold to_lower_rune, RuneSelf in *. repeat case_match; lia.
  - unfold to_lower_rune. destruct (unicode_lower r <? RuneSelf) eqn:Hl.
    + pose proof (lower_ascii r). case_match; lia.
    + apply lower_idem; lia.
Qed.

Lemma to_lower_rune_space r : IsSpace (to_lower_rune r) = IsSpace r.
Proof.
  unfold to_lower_rune. destruct (r <? RuneSelf) eqn:Hs; [|apply lower_space; lia].
  case_match; [|done]. unfold IsSpace, RuneSelf in *. lia.
Qed.

Definition lower_seg (p : Z * list ascii) : Z * list ascii :=
  (to_lower_rune p.1, encode_valid (to_lower_rune p.1)).

Lemma decode_ToLower s : decode (chars (ToLower s)) = lower_seg <$> decode (chars s).
Proof.
  unfold ToLower. destruct (is_ascii (chars s)) eqn:Ha.
  - unfold is_ascii in Ha. rewrite chars_of_chars.
    assert (Forall (λ c, byte_val c < RuneSelf) (chars s)) as Hs.
    { apply Forall_forall. intros c Hc. rewrite forallb_forall in Ha.
      specialize (Ha c). rewrite <-list_elem_of_In in Ha. specialize (Ha Hc). lia. }
    assert (∀ c, byte_val c < RuneSelf → 0 ≤ to_lower_rune (byte_val c) < RuneSelf) as Hb.
    { intros c. pose proof (byte_val_range c). unfold to_lower_rune, RuneSelf in *.
      intros. repeat case_match; lia. }
    assert (∀ c, byte_val c < RuneSelf →
      byte_val (byte_of (to_lower_rune (byte_val c))) = to_lower_rune (byte_val c)) as Hv.
    { intros c Hc. specialize (Hb c Hc). apply byte_val_of. unfold RuneSelf in *. lia. }
    rewrite !decode_ascii; [|done|].
    2:{ apply Forall_fmap. eapply Forall_impl; [done|]. simpl. intros c Hc.
        rewrite Hv by done. by apply Hb. }
    rewrite <-!list_fmap_compose. apply list_fmap_ext. intros i c Hc.
    eapply Forall_lookup_1 in Hs; [|done]. simpl in *. unfold compose, lower_seg. simpl.
    rewrite Hv by done. f_equal. unfold encode_valid.
    destruct (to_lower_rune (byte_val c) <? 128) eqn:Hlt; [done|].
    specialize (Hb c Hs). unfold RuneSelf in *. lia.
  - rewrite chars_of_chars. pose proof (decode_segs (chars s)) as Hs.
    induction Hs as [|[r b] segs Hrb _ IH]; [done|]. csimpl.
    assert (valid_rune (to_lower_rune r)) as Hv.
    { apply to_lower_rune_valid. destruct Hrb as [[??]|[-> _]]; [done|].
      unfold valid_rune, RuneError. lia. }
    unfold encode_rune at 1. rewrite (proj2 (rune_ok_spec _) Hv).
    by rewrite decode_encode_app, IH.
Qed.

Lemma ToLower_idem s : ToLower (ToLower s) = ToLower s.
Proof.
  apply chars_inj, decode_inj. rewrite !decode_ToLower, <-list_fmap_compose.
  apply list_fmap_ext. intros i [r b] _. unfold lower_seg, compose. simpl.
  by rewrite to_lower_rune_idem.
Qed.

Lemma TrimSpace_ToLower s : TrimSpace (ToLower s) = ToLower (TrimSpace s).
Proof.
  apply chars_inj, decode_inj.
  rewrite decode_TrimSpace, !decode_ToLower, decode_TrimSpace. unfold trim_segs.
  rewrite (drop_while_fmap space_seg space_seg lower_seg).
  - apply drop_while_end_fmap. intros [r b]. apply to_lower_rune_space.
  - intros [r b]. apply to_lower_rune_space.
Qed.
End LowerFacts.

(** ** Byte-indexed functions of package [strings] *)

(** [s[:i]] and [s[i:]]; in range at every call site. *)
Definition str_take (i : nat) (s : string) : string := of_chars (take i (chars s)).
Definition str_drop (i : nat) (s : string) : string := of_chars (drop i (chars s)).
Definition str_len (s : string) : nat := length (chars s).
Definition str_at (s : string) (i : nat) : option ascii := chars s !! i.

Fixpoint index_of (c : ascii) (l : list ascii) : option nat :=
  match l with
  | [] => None
  | x :: l' => if decide (x = c) then Some 0%nat else S <$> index_of c l'
  end.
Fixpoint last_index_of (c : ascii) (l : list ascii) : option nat :=
  match l with
  | [] => None
  | x :: l' => match last_index_of c l' with
               | Some i => Some (S i)
               | None => if decide (x = c) then Some 0%nat else None
               end
  end.
Definition IndexByte (s : string) (c : ascii) : option nat := index_of c (chars s).
Definition LastIndexByte (s : string) (c : ascii) : option nat := last_index_of c (chars s).
Definition contains_byte (s : string) (c : ascii) : bool := bool_decide (is_Some (IndexByte s c)).

Definition HasPrefix (s p : string) : bool := bool_decide (chars p `prefix_of` chars s).
Definition TrimPrefix (s p : string) : string := if HasPrefix s p then str_drop (str_len p) s else s.

(** [strings.Split] and [strings.SplitSeq] with a one-byte separator. *)
Fixpoint split_chars (c : ascii) (l : list ascii) : list (list ascii) :=
  match l with
  | [] => [[]]
  | x :: l' =>
      if decide (x = c) then [] :: split_chars c l'
      else match split_chars c l' with
           | p :: ps => (x :: p) :: ps
           | [] => [[x]]
           end
  end.
Definition Split (s : string) (c : ascii) : list string := of_chars <$> split_chars c (chars s).

Definition Join (sep : string) (parts : list string) : string := String.concat sep parts.

(** [strings.TrimRight(s, cutset)] with a one-byte cutset. *)
Definition TrimRightByte (s : string) (c : ascii) : string :=
  of_chars (drop_while_end (λ x, bool_decide (x = c)) (chars s)).

(** [strings.EqualFold(s, t)] where [t] is lower-case ASCII, as at its only
    call: a rune of [s] folds to an ASCII letter when it is that letter in
    either case, or U+017F (to "s") or U+212A (to "k"). *)
Definition fold_rune (r : Z) : Z :=
  if (65 <=? r) && (r <=? 90) then r + 32
  else if r =? 0x17F then 115 else if r =? 0x212A then 107 else r.
Definition EqualFold_lower (s t : string) : bool :=
  bool_decide ((λ '(r, _), fold_rune r) <$> decode (chars s) = byte_val <$> chars t).

(** [strconv.ParseInt(s, 10, 64)]. *)
Definition digit_val (c : ascii) : option Z :=
  let z := byte_val c in if (48 <=? z) && (z <=? 57) then Some (z - 48) else None.
Fixpoint parse_digits (acc : Z) (l : list ascii) : option Z :=
  match l with
  | [] => Some acc
  | c :: l' => d ← digit_val c; parse_digits (acc * 10 + d) l'
  end.
Definition ParseInt (s : string) : option Z :=
  let mag (neg : bool) (l : list ascii) :=
    match l with
    | [] => None
    | _ => n ← parse_digits 0 l;
           let z := if neg then - n else n in
           if bool_decide (int64_range z) then Some z else None
    end in
  match chars s with
  | "+"%char :: l => mag false l
  | "-"%char :: l => mag true l
  | l => mag false l
  end.

Section Indexing.
Implicit Types (c : ascii) (l : list ascii) (s : string).

Lemma index_of_None c l : index_of c l = None ↔ c ∉ l.
Proof.
  induction l as [|x l IH]; simpl; [split; [set_solver|done]|].
  case_decide; [set_solver|]. rewrite fmap_None, IH. set_solver.
Qed.

Lemma index_of_Some c l i :
  index_of c l = Some i → l = take i l ++ c :: drop (S i) l ∧ c ∉ take i l.
Proof.
  revert i. induction l as [|x l IH]; intros i; simpl; [done|].
  case_decide; [intros [= <-]; subst; split; [done|set_solver]|].
  destruct (index_of c l) as [j|] eqn:Hj; simpl; [|done]. intros [= <-].
  destruct (IH j eq_refl) as [Heq Hn]. simpl. split; [by rewrite <-Heq|set_solver].
Qed.

Lemma index_of_app c l k : c ∉ l → index_of c (l ++ c :: k) = Some (length l).
Proof.
  induction l as [|x l IH]; simpl; intros; [by rewrite decide_True|].
  rewrite decide_False by set_solver. rewrite IH; [done|set_solver].
Qed.

Lemma last_index_of_None c l : last_index_of c l = None ↔ c ∉ l.
Proof.
  induction l as [|x l IH]; simpl; [split; [set_solver|done]|].
  rewrite not_elem_of_cons, <-IH.
  destruct (last_index_of c l); [split; [done|by intros [? ?]]|].
  case_decide; subst; split; try done; by intros [??].
Qed.

Lemma last_index_of_Some c l i :
  last_index_of c l = Some i → l = take i l ++ c :: drop (S i) l ∧ c ∉ drop (S i) l.
Proof.
  revert i. induction l as [|x l IH]; intros i; simpl; [done|].
  destruct (last_index_of c l) as [j|] eqn:Hj.
  - intros [= <-]. destruct (IH j eq_refl) as [Heq Hn]. simpl. by rewrite <-Heq.
  - case_decide; [|done]. intros [= <-]. subst. simpl. rewrite drop_0. split; [done|].
    by apply last_index_of_None.
Qed.

Lemma last_index_of_app c l k : c ∉ k → last_index_of c (l ++ c :: k) = Some (length l).
Proof.
  intros Hk. induction l as [|x l IH]; simpl; [|by rewrite IH].
  rewrite (proj2 (last_index_of_None c k) Hk). by rewrite decide_True.
Qed.

Lemma split_chars_not_nil c l : split_chars c l ≠ [].
Proof. induction l; simpl; [done|]. repeat case_match; done. Qed.

Lemma split_chars_nosep c l : Forall (λ p, c ∉ p) (split_chars c l).
Proof.
  induction l as [|x l IH]; simpl; [repeat constructor; set_solver|].
  case_decide; [constructor; [set_solver|done]|].
  destruct (split_chars c l) as [|p ps]; [repeat constructor; set_solver|].
  inversion IH; subst. constructor; [set_solver|done].
Qed.

(** The parts, joined with the separator, give the string back. *)
Fixpoint join_chars (c : ascii) (ps : list (list ascii)) : list ascii :=
  match ps with
  | [] => []
  | [p] => p
  | p :: ps => p ++ c :: join_chars c ps
  end.

Lemma join_split c l : join_chars c (split_chars c l) = l.
Proof.
  induction l as [|x l IH]; simpl; [done|]. pose proof (split_chars_not_nil c l).
  case_decide; [subst; destruct (split_chars c l); [done|]; simpl in *; by rewrite IH|].
  destruct (split_chars c l) as [|p [|q ps]]; simpl in *; by rewrite ?IH; subst.
Qed.

Lemma split_chars_single c p : c ∉ p → split_chars c p = [p].
Proof.
  induction p as [|x p IH]; simpl; intros; [done|].
  rewrite decide_False by set_solver. rewrite IH; [done|set_solver].
Qed.

Lemma split_chars_app c p l : c ∉ p → split_chars c (p ++ c :: l) = p :: split_chars c l.
Proof.
  induction p as [|x p IH]; simpl; intros; [by rewrite decide_True|].
  rewrite decide_False by set_solver. rewrite IH; [done|set_solver].
Qed.

Lemma split_join c ps :
  ps ≠ [] → Forall (λ p, c ∉ p) ps → split_chars c (join_chars c ps) = ps.
Proof.
  intros Hne Hall. induction ps as [|p [|q ps] IH]; [done| |].
  - simpl. apply split_chars_single. by inversion Hall.
  - change (join_chars c (p :: q :: ps)) with (p ++ c :: join_chars c (q :: ps)).
    inversion Hall; subst. rewrite split_chars_app by done. by rewrite IH.
Qed.

Lemma contains_byte_true s c : contains_byte s c = true ↔ c ∈ chars s.
Proof.
  unfold contains_byte, IndexByte.
  rewrite bool_decide_eq_true, <-not_eq_None_Some, index_of_None.
  split; [apply dec_stable|tauto].
Qed.

Lemma contains_byte_false s c : contains_byte s c = false ↔ c ∉ chars s.
Proof. rewrite <-contains_byte_true. destruct (contains_byte s c); naive_solver. Qed.

Lemma str_take_drop i s : str_take i s +:+ str_drop i s = s.
Proof. unfold str_take, str_drop. by rewrite <-of_chars_app, take_drop, of_chars_chars. Qed.
End Indexing.
#[export] Hint Rewrite join_split : chars.

(** A concrete table (ASCII only), at which the laws hold. *)
Definition identity_tables : UnicodeTables := {| unicode_lower := λ r, r |}.
Lemma identity_tables_laws : UnicodeLaws identity_tables.
Proof. split; simpl; [done|done|unfold RuneSelf; lia|done|done]. Qed.
