(* ===== verification/GoTime.v ===== *)
(** * Package [time] and binary64 arithmetic

    Durations are 64-bit counts of nanoseconds, instants integers of
    nanoseconds; [float64] is Stdlib's [spec_float] at binary64's precision,
    and the conversion of a product back to an integer is bounded. *)

From Stdlib Require Import ZArith Lia.
From Stdlib Require Import Floats.SpecFloat.
From stdpp Require Import prelude.
From S2P Require Import Prelude.

Local Open Scope Z_scope.

(** ** Durations and instants *)
Definition second : Z := 10^9.
Definition minute : Z := 60 * second.
Definition minDuration : Z := -2^63.
Definition maxDuration : Z := 2^63 - 1.

(** [t.Sub(u)] saturates. *)
Definition Time_Sub (t u : Z) : Z := Z.max minDuration (Z.min maxDuration (t - u)).
Definition Time_Add (t d : Z) : Z := t + d.

(** ** Binary64 arithmetic *)
Definition f64_of_Z (z : Z) : spec_float := binary_normalize 53 1024 z 0 false.
Definition f64_add := SFadd 53 1024.
Definition f64_mul := SFmul 53 1024.
Definition f64_div := SFdiv 53 1024.

(** [int64(f)], by truncation. *)
Definition int_of_f64 (f : spec_float) : Z :=
  match f with
  | S754_finite s m e =>
      let mag := if 0 <=? e then Zpos m * 2^e else Zpos m / 2^(- e) in
      if s then - mag else mag
  | _ => 0
  end.

Definition f64_zero : spec_float := S754_zero false.
Definition f64_is_zero (f : spec_float) : bool := match f with S754_zero _ => true | _ => false end.
Definition f64_lt (a b : spec_float) : bool :=
  match SFcompare a b with Some Lt => true | _ => false end.
Definition f64_le (a b : spec_float) : bool :=
  match SFcompare a b with Some Lt | Some Eq => true | _ => false end.

(** [time.Duration.Seconds] *)
Definition Seconds (d : Z) : spec_float :=
  f64_add (f64_of_Z (Z.quot d second)) (f64_div (f64_of_Z (Z.rem d second)) (f64_of_Z second)).

(** ** Bounds on rounded products *)
Section Rounding.
Implicit Types (m p : positive) (e n : Z).

Local Abbreviation fexp := (SpecFloat.fexp 53 1024).
Local Abbreviation round_aux := (binary_round_aux 53 1024).

Lemma fexp_eq d : fexp d = Z.max (d - 53) (-1074).
Proof. reflexivity. Qed.

Lemma digits2_pos_bounds p : 2 ^ (Zpos (digits2_pos p) - 1) ≤ Zpos p < 2 ^ Zpos (digits2_pos p).
Proof.
  induction p as [p IH|p IH|]; cbn [digits2_pos]; [| |done]; rewrite Pos2Z.inj_succ;
    (assert (1 ≤ Zpos (digits2_pos p)) by lia); set (d := Zpos (digits2_pos p)) in *; clearbody d;
    replace (Z.succ d - 1) with (Z.succ (d - 1)) by lia;
    rewrite !Z.pow_succ_r by lia; lia.
Qed.

Lemma digits2_pos_le p k : 0 ≤ k → Zpos p < 2 ^ k → Zpos (digits2_pos p) ≤ k.
Proof.
  intros Hk Hp. destruct (digits2_pos_bounds p) as [Hlo _].
  destruct (Z.le_gt_cases (Zpos (digits2_pos p)) k) as [|Hgt]; [done|].
  pose proof (Z.pow_le_mono_r 2 k (Zpos (digits2_pos p) - 1)). lia.
Qed.

Lemma shr_1_half r : 0 ≤ shr_m r → shr_m (shr_1 r) = shr_m r / 2.
Proof. destruct r as [[|[p|p|]|p] b s]; cbn; intros; try done; try lia; zdiv. Qed.

Lemma iter_shr_1 p r : 0 ≤ shr_m r → shr_m (SpecFloat.iter_pos shr_1 p r) = shr_m r / 2 ^ Zpos p.
Proof.
  revert r. induction p as [p IH|p IH|]; intros r Hr; cbn [SpecFloat.iter_pos].
  - assert (0 ≤ shr_m (shr_1 r)) as H1 by (rewrite shr_1_half by done; zdiv).
    assert (0 ≤ shr_m (SpecFloat.iter_pos shr_1 p (shr_1 r))) as H2
      by (rewrite IH by done; apply Z.div_pos; [done|]; apply Z.pow_pos_nonneg; lia).
    rewrite !IH, shr_1_half, !Z.div_div by (done || lia || apply Z.pow_nonzero; lia || apply Z.pow_pos_nonneg; lia).
    f_equal. rewrite <-Z.pow_add_r, <-Z.pow_succ_r by lia. f_equal. lia.
  - assert (0 ≤ shr_m (SpecFloat.iter_pos shr_1 p r)) as H2
      by (rewrite IH by done; apply Z.div_pos; [done|]; apply Z.pow_pos_nonneg; lia).
    rewrite !IH, !Z.div_div by (done || lia || apply Z.pow_nonzero; lia || apply Z.pow_pos_nonneg; lia).
    f_equal. rewrite <-Z.pow_add_r by lia. f_equal. lia.
  - by rewrite shr_1_half.
Qed.

(** [shr_fexp] on an exact mantissa: shift right to the format's exponent. *)
Lemma shr_fexp_exact P E :
  0 ≤ P →
  let k := Z.max 0 (fexp (Zdigits2 P + E) - E) in
  (shr_fexp 53 1024 P E loc_Exact).2 = E + k ∧
  shr_m (shr_fexp 53 1024 P E loc_Exact).1 = P / 2 ^ k ∧
  (k = 0 → loc_of_shr_record (shr_fexp 53 1024 P E loc_Exact).1 = loc_Exact).
Proof.
  intros HP k. unfold shr_fexp, shr_record_of_loc, k. clear k.
  destruct (fexp (Zdigits2 P + E) - E) as [|d|d]; cbn [shr fst snd].
  - rewrite Z.div_1_r. repeat split; cbn; lia.
  - rewrite Z.max_r by lia. rewrite iter_shr_1 by done. repeat split; cbn; lia.
  - rewrite Z.max_l by lia. rewrite Z.div_1_r. repeat split; cbn; lia.
Qed.

Lemma round_nearest_even_cases z l :
  round_nearest_even z l = z ∨ (l ≠ loc_Exact ∧ round_nearest_even z l = z + 1).
Proof. destruct l as [|[]]; cbn; [by left|destruct (Z.even z)|by left|]; auto. Qed.

(** Shifting a mantissa at most [M * 2^(e-E)] stays within [M * 2^e]. *)
Lemma shr_fexp_bound P E M e :
  E ≤ e → -1074 ≤ e → 0 < M < 2 ^ 53 → 0 ≤ P ≤ M * 2 ^ (e - E) →
  E ≤ (shr_fexp 53 1024 P E loc_Exact).2 ≤ e ∧
  0 ≤ shr_m (shr_fexp 53 1024 P E loc_Exact).1 ≤ M * 2 ^ (e - (shr_fexp 53 1024 P E loc_Exact).2).
Proof.
  intros HE He HM HP. destruct (shr_fexp_exact P E) as (-> & -> & _); [lia|].
  assert (Zdigits2 P ≤ 53 + (e - E)) as Hd.
  { destruct P as [|p|p]; [cbn; lia| |lia]. apply digits2_pos_le; [lia|].
    eapply Z.le_lt_trans; [apply HP|]. rewrite Z.pow_add_r by lia.
    apply Z.mul_lt_mono_pos_r; [apply Z.pow_pos_nonneg|]; lia. }
  rewrite fexp_eq. set (k := Z.max 0 _). assert (0 ≤ k ≤ e - E) as Hk by lia. clearbody k.
  split; [lia|]. split; [apply Z.div_pos; [|apply Z.pow_pos_nonneg]; lia|].
  apply Z.div_le_upper_bound; [apply Z.pow_pos_nonneg; lia|].
  replace (2 ^ k * (M * 2 ^ (e - (E + k)))) with (M * (2 ^ k * 2 ^ (e - (E + k)))) by ring.
  rewrite <-Z.pow_add_r by lia. replace (k + (e - (E + k))) with (e - E) by lia. lia.
Qed.

(** A positive exact value below [M * 2^e] rounds to at most [M * 2^e], when
    that is in the format. *)
Lemma round_aux_le p E M e :
  E ≤ e → -1074 ≤ e ≤ 971 → 0 < M < 2 ^ 53 → Zpos p < M * 2 ^ (e - E) →
  round_aux false (Zpos p) E loc_Exact = S754_zero false ∨
  ∃ m' e', round_aux false (Zpos p) E loc_Exact = S754_finite false m' e' ∧
           e' ≤ e ∧ Zpos m' ≤ M * 2 ^ (e - e').
Proof.
  intros HE He HM Hp. unfold binary_round_aux.
  destruct (shr_fexp_exact (Zpos p) E) as (Ee & Em & _); [lia|].
  destruct (shr_fexp_bound (Zpos p) E M e) as [He1 _]; [lia..|].
  destruct (shr_fexp 53 1024 (Zpos p) E loc_Exact) as [r1 e1]. cbn [fst snd] in *.
  set (k := Z.max 0 (fexp (Zdigits2 (Zpos p) + E) - E)) in *.
  assert (0 ≤ shr_m r1 < M * 2 ^ (e - e1)) as Hm1.
  { rewrite Em. split; [apply Z.div_pos; [|apply Z.pow_pos_nonneg]; lia|].
    apply Z.div_lt_upper_bound; [apply Z.pow_pos_nonneg; lia|].
    replace (2 ^ k * (M * 2 ^ (e - e1))) with (M * (2 ^ k * 2 ^ (e - e1))) by ring.
    rewrite <-Z.pow_add_r by lia. replace (k + (e - e1)) with (e - E) by lia. lia. }
  assert (0 ≤ round_nearest_even (shr_m r1) (loc_of_shr_record r1) ≤ M * 2 ^ (e - e1)) as Hm2
    by (destruct (round_nearest_even_cases (shr_m r1) (loc_of_shr_record r1)) as [->|[_ ->]]; lia).
  set (m2 := round_nearest_even _ _) in *. clearbody m2.
  destruct (shr_fexp_bound m2 e1 M e) as [He2 Hm3]; [lia..|].
  destruct (shr_fexp 53 1024 m2 e1 loc_Exact) as [r2 e2]. cbn [fst snd] in *.
  destruct (shr_m r2) as [|m3|m3]; [by left| |lia].
  right. exists m3, e2. rewrite (proj2 (Z.leb_le e2 (1024 - 53))) by lia. split; [done|lia].
Qed.

Lemma iter_xO p k : Zpos (Pos.iter xO p k) = Zpos p * 2 ^ Zpos k.
Proof.
  induction k as [|k IH] using Pos.peano_ind; [cbn; lia|].
  rewrite Pos.iter_succ, Pos2Z.inj_succ, Z.pow_succ_r, Pos2Z.inj_xO, IH by lia. ring.
Qed.

Lemma digits2_pos_full p : 2 ^ 52 ≤ Zpos p < 2 ^ 53 → Zpos (digits2_pos p) = 53.
Proof.
  intros Hp. pose proof (digits2_pos_le p 53). destruct (digits2_pos_bounds p) as [_ Hhi].
  destruct (Z.le_gt_cases 53 (Zpos (digits2_pos p))); [lia|].
  pose proof (Z.pow_le_mono_r 2 (Zpos (digits2_pos p)) 52). lia.
Qed.

(** A full mantissa in range is its own rounding. *)
Lemma round_aux_canonical p e :
  2 ^ 52 ≤ Zpos p < 2 ^ 53 → -1074 ≤ e ≤ 971 → round_aux false (Zpos p) e loc_Exact = S754_finite false p e.
Proof.
  intros Hp He. unfold binary_round_aux, shr_fexp. cbn [Zdigits2].
  assert (fexp (Zpos (digits2_pos p) + e) - e = 0) as Hk
    by (rewrite digits2_pos_full, fexp_eq by done; lia).
  cbn [shr_record_of_loc]. rewrite Hk. cbn [shr shr_m loc_of_shr_record round_nearest_even Zdigits2].
  rewrite Hk. cbn [shr shr_m]. by rewrite (proj2 (Z.leb_le e (1024 - 53))) by lia.
Qed.

(** The conversion to binary64 of an integer below 2^53 is exact. *)
Lemma f64_of_Z_exact z :
  0 < z < 2 ^ 53 →
  ∃ m d, 0 ≤ d ≤ 52 ∧ f64_of_Z z = S754_finite false m (- d) ∧ Zpos m = z * 2 ^ d ∧ Zpos m < 2 ^ 53.
Proof.
  destruct z as [|p|p]; intros Hz; try lia. unfold f64_of_Z, binary_normalize, binary_round.
  pose proof (digits2_pos_bounds p) as [Hlo Hhi].
  assert (Zpos (digits2_pos p) ≤ 53) as Hd by (apply digits2_pos_le; lia).
  rewrite Z.add_0_r, fexp_eq, Z.max_l by lia. unfold shl_align. rewrite Z.sub_0_r.
  set (d := Zpos (digits2_pos p)) in *. assert (1 ≤ d) by (unfold d; lia). clearbody d.
  destruct (d - 53) as [|k|k] eqn:Hk; [|lia|].
  - exists p, 0. replace d with 53 in * by lia. rewrite round_aux_canonical by lia. repeat split; lia.
  - exists (Pos.iter xO p k), (Zpos k).
    assert (2 ^ 52 = 2 ^ (d - 1) * 2 ^ Zpos k) as E1 by (rewrite <-Z.pow_add_r by lia; f_equal; lia).
    assert (2 ^ 53 = 2 ^ d * 2 ^ Zpos k) as E2 by (rewrite <-Z.pow_add_r by lia; f_equal; lia).
    pose proof (iter_xO p k) as Hm.
    assert (2 ^ 52 ≤ Zpos (Pos.iter xO p k) < 2 ^ 53) as Hr.
    { rewrite Hm, E1, E2. split; [apply Z.mul_le_mono_nonneg_r|apply Z.mul_lt_mono_pos_r]; lia. }
    rewrite round_aux_canonical by lia. repeat split; try lia.
Qed.

(** A binary64 number strictly between 0 and 1. *)
Definition proper_fraction (f : spec_float) : Prop :=
  ∃ m e, f = S754_finite false m e ∧ -1074 ≤ e ≤ 0 ∧ Zpos m < 2 ^ (- e).

(** [time.Duration(float64(z) * f)] for a proper fraction never exceeds [z]. *)
Lemma f64_fraction_le z f :
  0 ≤ z < 2 ^ 53 → proper_fraction f → 0 ≤ int_of_f64 (f64_mul (f64_of_Z z) f) ≤ z.
Proof.
  intros Hz (mf & ef & -> & He & Hf). destruct (decide (z = 0)) as [->|]; [cbn; lia|].
  destruct (f64_of_Z_exact z) as (m & d & Hd & -> & Hm & Hm53); [lia|].
  unfold f64_mul. cbn [SFmul xorb].
  destruct (round_aux_le (m * mf) (- d + ef) (Zpos m) (- d)) as [->|(m' & e' & -> & He' & Hle)];
    [lia..| |cbn; lia|].
  { rewrite Pos2Z.inj_mul. apply Z.mul_lt_mono_pos_l; [lia|].
    replace (- d - (- d + ef)) with (- ef) by lia. done. }
  rewrite Hm, <-Z.mul_assoc, <-Z.pow_add_r in Hle by lia.
  replace (d + (- d - e')) with (- e') in Hle by lia.
  unfold int_of_f64. destruct (Z.leb_spec 0 e').
  - replace e' with 0 in * by lia. lia.
  - split; [apply Z.div_pos; [|apply Z.pow_pos_nonneg]; lia|].
    apply Z.div_le_upper_bound; [apply Z.pow_pos_nonneg; lia|]. lia.
Qed.

(** A float64 that is a number and passes [!(f <= 0 || f >= 1)]. *)
Lemma proper_fraction_compare f :
  valid_binary 53 1024 f = true → f ≠ S754_nan →
  f64_le f f64_zero = false → f64_le (f64_of_Z 1) f = false → proper_fraction f.
Proof.
  intros Hv Hn H0 H1. destruct f as [s|[]| |[] m e]; try done.
  exists m, e. split; [done|]. cbn in Hv. apply andb_true_iff in Hv as [Hc _].
  apply Z.eqb_eq in Hc. rewrite fexp_eq in Hc.
  pose proof (digits2_pos_bounds m) as [_ Hhi].
  assert (f64_of_Z 1 = S754_finite false 4503599627370496 (-52)) as E1 by reflexivity.
  unfold f64_le in H1. rewrite E1 in H1. cbn [SFcompare] in H1.
  destruct (Z.compare_spec (-52) e) as [<-| |Hlt]; [|done|].
  - assert (∀ a b, Pos.compare_cont Eq a b = Pos.compare a b) as Ec by reflexivity. rewrite Ec in H1.
    destruct (Pos.compare_spec 4503599627370496 m); try done; lia.
  - split; [lia|]. eapply Z.lt_le_trans; [apply Hhi|]. apply Z.pow_le_mono_r; lia.
Qed.
End Rounding.
