(* ===== verification/NetAddr.v ===== *)
(** * Package [net]: host:port strings, IP addresses and CIDR blocks

    The functions of Go's [net] and [net/netip] that the repository calls, as
    far as it depends on them: [SplitHostPort], [JoinHostPort], [ParseIP],
    [ParseCIDR], [IPNet.Contains] and [IP.Equal].  An [IP] is its byte slice
    (4 or 16 bytes; [[]] is Go's nil).  The file ends with the numeric reading
    of a CIDR block that the byte-and-mask code implements. *)

From Stdlib Require Import ZArith Lia Ascii.
From stdpp Require Import prelude strings list.
From S2P Require Import Prelude GoStrings.

Local Open Scope Z_scope.
Local Open Scope go_scope.

(** ** host:port *)
Inductive AddrError := MissingPort | TooManyColons | MissingBracket | UnexpectedBracket.

Definition SplitHostPort (hostport : string) : outcome AddrError (string * string) :=
  let l := chars hostport in
  match last_index_of ":" l with
  | None => Err MissingPort
  | Some i =>
      let finish (host : list ascii) (j k : nat) :=
        if bool_decide (is_Some (index_of "[" (drop j l))) then Err UnexpectedBracket
        else if bool_decide (is_Some (index_of "]" (drop k l))) then Err UnexpectedBracket
        else Ret (of_chars host, of_chars (drop (S i) l)) in
      if bool_decide (head l = Some "["%char) then
        match index_of "]" l with
        | None => Err MissingBracket
        | Some e =>
            if bool_decide (S e = length l) then Err MissingPort
            else if bool_decide (S e = i) then finish (take (e - 1) (drop 1 l)) 1%nat (S e)
            else if bool_decide (l !! S e = Some ":"%char) then Err TooManyColons
            else Err MissingPort
        end
      else
        let host := take i l in
        if bool_decide (is_Some (index_of ":" host)) then Err TooManyColons
        else finish host 0%nat 0%nat
  end.

Definition JoinHostPort (host port : string) : string :=
  if contains_byte host ":" then "[" +:+ host +:+ "]:" +:+ port
  else host +:+ ":" +:+ port.

Lemma index_of_decide_false c l : c ∉ l → bool_decide (is_Some (index_of c l)) = false.
Proof.
  intros H. apply bool_decide_eq_false. rewrite <-not_eq_None_Some.
  rewrite index_of_None. tauto.
Qed.

(** Splitting what [JoinHostPort] builds gives host and port back. *)
Lemma SplitHostPort_JoinHostPort host port :
  "["%char ∉ chars host → "]"%char ∉ chars host →
  "["%char ∉ chars port → "]"%char ∉ chars port → ":"%char ∉ chars port →
  SplitHostPort (JoinHostPort host port) = Ret (host, port).
Proof.
  intros H1 H2 H3 H4 H5. unfold JoinHostPort, SplitHostPort.
  destruct (contains_byte host ":") eqn:Hc.
  - remember (chars (("[" +:+ host +:+ "]:" +:+ port))) as l eqn:Hl.
    rewrite !chars_app in Hl. simpl in Hl.
    assert (l = ("["%char :: chars host) ++ "]"%char :: ":"%char :: chars port) as Hl1 by done.
    assert (l = ("["%char :: chars host ++ ["]"%char]) ++ ":"%char :: chars port) as Hl2
      by (rewrite Hl; simpl; by rewrite <-app_assoc).
    assert (last_index_of ":" l = Some (S (S (length (chars host))))) as ->.
    { rewrite Hl2, last_index_of_app by done. simpl. rewrite length_app. simpl. do 2 f_equal. lia. }
    assert (index_of "]" l = Some (S (length (chars host)))) as ->
      by (rewrite Hl1, index_of_app by set_solver; done).
    assert (length l = (3 + length (chars host) + length (chars port))%nat) as ->
      by (rewrite Hl1, length_app; simpl; lia).
    assert (drop (S (S (length (chars host)))) l = ":"%char :: chars port) as Hd1
      by (rewrite Hl1; apply (drop_S_app ("["%char :: chars host))).
    assert (drop (S (S (S (length (chars host))))) l = chars port) as Hd2.
    { rewrite <-(drop_S_app [] (chars port) ":"%char). simpl app. rewrite <-Hd1, drop_drop.
      f_equal. simpl. lia. }
    rewrite Hd1, Hd2. rewrite bool_decide_eq_true_2 by (by rewrite Hl).
    rewrite bool_decide_eq_false_2 by lia. rewrite bool_decide_eq_true_2 by done.
    rewrite !index_of_decide_false by (rewrite ?Hl; simpl; set_solver).
    rewrite Hl. simpl. by rewrite Nat.sub_0_r, drop_0, take_app_length, !of_chars_chars.
  - apply contains_byte_false in Hc. rewrite !chars_app. simpl (chars ":"). simpl app.
    rewrite last_index_of_app by done.
    rewrite bool_decide_eq_false_2 by (destruct (chars host); set_solver).
    rewrite take_app_length, drop_S_app, index_of_decide_false by done.
    rewrite !index_of_decide_false by (rewrite drop_0; set_solver).
    by rewrite !of_chars_chars.
Qed.

(** ** IP addresses *)
Definition IP := list Z.

Definition v4InV6Prefix : IP := [0; 0; 0; 0; 0; 0; 0; 0; 0; 0; 0xff; 0xff].

(** [netip.Addr]: the parsed address, with an IPv6 zone. *)
Inductive NetipAddr :=
  | Addr4 (b : list Z)
  | Addr6 (b : list Z) (zone : string).

(** The loop of [netip.parseIPv4Fields]. *)
Fixpoint ipv4_fields (val digLen : Z) (fields : list Z) (l : list ascii) : option (list Z) :=
  match l with
  | [] => if bool_decide (length fields = 3%nat) then Some (fields ++ [val]) else None
  | c :: l' =>
      match digit_val c with
      | Some d =>
          if (digLen =? 1) && (val =? 0) then None
          else let v := val * 10 + d in
               if 255 <? v then None else ipv4_fields v (digLen + 1) fields l'
      | None =>
          if bool_decide (c = "."%char) then
            if (digLen =? 0) || bool_decide (l' = []) || bool_decide (length fields = 3%nat)
            then None
            else ipv4_fields 0 0 (fields ++ [val]) l'
          else None
      end
  end.

Definition hex_val (c : ascii) : option Z :=
  let z := byte_val c in
  if (48 <=? z) && (z <=? 57) then Some (z - 48)
  else if (97 <=? z) && (z <=? 102) then Some (z - 97 + 10)
  else if (65 <=? z) && (z <=? 70) then Some (z - 65 + 10)
  else None.

(** One group of hexadecimal digits: its value, its length, and the rest.
    More than four digits fail. *)
Fixpoint hex_group (off : nat) (acc : Z) (l : list ascii) : option (Z * nat * list ascii) :=
  match l with
  | c :: l' =>
      match hex_val c with
      | Some d => if (3 <? off)%nat then None else hex_group (S off) (acc * 16 + d) l'
      | None => Some (acc, off, l)
      end
  | [] => Some (acc, off, l)
  end.

(** The end of [netip.parseIPv6]: expand the ellipsis to 16 bytes. *)
Definition expand_ellipsis (ip : list Z) (ellipsis : option nat) : option (list Z) :=
  match ellipsis with
  | None => if bool_decide (length ip = 16%nat) then Some ip else None
  | Some e =>
      if bool_decide (length ip < 16)%nat
      then Some (take e ip ++ replicate (16 - length ip) 0 ++ drop e ip)
      else None
  end.

(** The loop of [netip.parseIPv6]; eight groups at most, so fuel 9 suffices. *)
Fixpoint ipv6_loop (fuel : nat) (ip : list Z) (ellipsis : option nat) (s : list ascii)
    : option (list Z) :=
  let finish (ip : list Z) (ell : option nat) (s : list ascii) :=
    if bool_decide (s = []) then expand_ellipsis ip ell else None in
  match fuel with
  | O => None
  | S fuel =>
      if (16 <=? length ip)%nat then finish ip ellipsis s
      else
        '(acc, off, rest) ← hex_group 0 0 s;
        if (off =? 0)%nat then None
        else match rest with
        | "."%char :: _ =>
            if bool_decide (ellipsis = None) && negb (length ip =? 12)%nat then None
            else if (16 <? length ip + 4)%nat then None
            else v4 ← ipv4_fields 0 0 [] s; finish (ip ++ v4) ellipsis []
        | _ =>
            let ip' := ip ++ [acc / 256; acc mod 256] in
            match rest with
            | [] => finish ip' ellipsis []
            | ":"%char :: [] => None
            | ":"%char :: ":"%char :: s2 =>
                match ellipsis with
                | Some _ => None
                | None => if bool_decide (s2 = []) then finish ip' (Some (length ip')) []
                          else ipv6_loop fuel ip' (Some (length ip')) s2
                end
            | ":"%char :: s1 => ipv6_loop fuel ip' ellipsis s1
            | _ => None
            end
        end
  end.

Definition parse_ipv6 (l : list ascii) : option NetipAddr :=
  '(s, zone) ← match index_of "%" l with
               | Some i => if bool_decide (drop (S i) l = []) then None
                           else Some (take i l, of_chars (drop (S i) l))
               | None => Some (l, "")
               end;
  b ← match s with
      | ":"%char :: ":"%char :: [] => Some (replicate 16 0)
      | ":"%char :: ":"%char :: s2 => ipv6_loop 9 [] (Some 0%nat) s2
      | _ => ipv6_loop 9 [] None s
      end;
  Some (Addr6 b zone).

(** [netip.ParseAddr]: the first of [.], [:] and [%] decides the family. *)
Fixpoint addr_family (l : list ascii) : option bool :=
  match l with
  | [] => None
  | c :: l' => if decide (c = "."%char) then Some true
               else if decide (c = ":"%char) then Some false
               else if decide (c = "%"%char) then None
               else addr_family l'
  end.
Definition ParseAddr (s : string) : option NetipAddr :=
  match addr_family (chars s) with
  | Some true => Addr4 <$> ipv4_fields 0 0 [] (chars s)
  | Some false => parse_ipv6 (chars s)
  | None => None
  end.

Definition addr_zone (a : NetipAddr) : string :=
  match a with Addr4 _ => "" | Addr6 _ z => z end.
Definition As16 (a : NetipAddr) : IP :=
  match a with Addr4 b => v4InV6Prefix ++ b | Addr6 b _ => b end.
Definition BitLen (a : NetipAddr) : Z :=
  match a with Addr4 _ => 32 | Addr6 _ _ => 128 end.

(** [net.ParseIP]; [None] is nil. *)
Definition ParseIP (s : string) : option IP :=
  a ← ParseAddr s; if bool_decide (addr_zone a = "") then Some (As16 a) else None.

Definition To4 (ip : IP) : option IP :=
  if bool_decide (length ip = 4%nat) then Some ip
  else if bool_decide (length ip = 16%nat) && bool_decide (take 12 ip = v4InV6Prefix)
  then Some (drop 12 ip) else None.

Definition IP_Equal (ip x : IP) : bool :=
  if bool_decide (length ip = length x) then bool_decide (ip = x)
  else if bool_decide (length ip = 4%nat) && bool_decide (length x = 16%nat)
  then bool_decide (take 12 x = v4InV6Prefix) && bool_decide (ip = drop 12 x)
  else if bool_decide (length ip = 16%nat) && bool_decide (length x = 4%nat)
  then bool_decide (take 12 ip = v4InV6Prefix) && bool_decide (drop 12 ip = x)
  else false.

(** ** CIDR blocks *)
Record IPNet := { net_IP : IP; net_Mask : list Z }.

(** [net.CIDRMask], for [ones] within [8 * n] bits. *)
Fixpoint cidr_mask (ones : Z) (n : nat) : list Z :=
  match n with
  | O => []
  | S n => if 8 <=? ones then 0xff :: cidr_mask (ones - 8) n
           else (256 - 2 ^ (8 - ones)) :: cidr_mask 0 n
  end.

Definition IP_Mask (ip : IP) (mask : list Z) : IP :=
  let mask := if bool_decide (length mask = 16%nat) && bool_decide (length ip = 4%nat)
                 && forallb (Z.eqb 0xff) (take 12 mask)
              then drop 12 mask else mask in
  let ip := if bool_decide (length mask = 4%nat) && bool_decide (length ip = 16%nat)
               && bool_decide (take 12 ip = v4InV6Prefix)
            then drop 12 ip else ip in
  if bool_decide (length ip = length mask) then zip_with Z.land ip mask else [].

(** [net.dtoi]: leading decimal digits, below 0xFFFFFF. *)
Fixpoint dtoi (n : Z) (l : list ascii) : option (Z * list ascii) :=
  match l with
  | c :: l' => match digit_val c with
               | Some d => let n' := n * 10 + d in
                           if 0xFFFFFF <=? n' then None else dtoi n' l'
               | None => Some (n, l)
               end
  | [] => Some (n, [])
  end.

(** The address and prefix length that [net.ParseCIDR] reads. *)
Definition cidr_parts (s : string) : option (NetipAddr * Z) :=
  i ← IndexByte s "/";
  a ← ParseAddr (str_take i s);
  if bool_decide (addr_zone a = "") then
    let mask := chars (str_drop (S i) s) in
    '(n, rest) ← dtoi 0 mask;
    if bool_decide (mask = []) || negb (bool_decide (rest = [])) || (n <? 0) || (BitLen a <? n)
    then None
    else Some (a, n)
  else None.

Definition ParseCIDR (s : string) : option IPNet :=
  '(a, n) ← cidr_parts s;
  let m := cidr_mask n (Z.to_nat (BitLen a / 8)) in
  Some {| net_IP := IP_Mask (As16 a) m; net_Mask := m |}.

Definition networkNumberAndMask (n : IPNet) : option (IP * list Z) :=
  ip ← match To4 (net_IP n) with
       | Some ip => Some ip
       | None => if bool_decide (length (net_IP n) = 16%nat) then Some (net_IP n) else None
       end;
  match length (net_Mask n) with
  | 4%nat => if bool_decide (length ip = 4%nat) then Some (ip, net_Mask n) else None
  | 16%nat => Some (ip, if bool_decide (length ip = 4%nat) then drop 12 (net_Mask n) else net_Mask n)
  | _ => None
  end.

(** [IPNet.Contains]: a nil network number makes the lengths differ. *)
Definition Contains (n : IPNet) (ip : IP) : bool :=
  match networkNumberAndMask n with
  | None => false
  | Some (nn, m) =>
      let ip := default ip (To4 ip) in
      bool_decide (length ip = length nn) &&
      bool_decide (zip_with Z.land nn m = zip_with Z.land ip m)
  end.

Example parse_ip_ex : ParseIP "203.0.113.7" = Some (v4InV6Prefix ++ [203; 0; 113; 7]).
Proof. vm_compute. reflexivity. Qed.
Example parse_ip6_ex : ParseIP "fe80::1:2" =
  Some [0xfe; 0x80; 0; 0; 0; 0; 0; 0; 0; 0; 0; 0; 0; 1; 0; 2].
Proof. vm_compute. reflexivity. Qed.
Example parse_ip_bad : ParseIP "010.0.0.1" = None ∧ ParseIP "fe80::1%eth0" = None
  ∧ ParseIP "1.2.3" = None ∧ ParseIP "1::2::3" = None ∧ ParseIP "::ffff:1.2.3.4"
  = Some (v4InV6Prefix ++ [1; 2; 3; 4]).
Proof. vm_compute. auto. Qed.
Example cidr_ex : (n ← ParseCIDR "10.0.0.0/8"; Some (Contains n [10; 9; 8; 7])) = Some true.
Proof. vm_compute. reflexivity. Qed.
Example cidr_ex2 : (n ← ParseCIDR "10.0.0.0/8"; Some (Contains n (v4InV6Prefix ++ [11; 9; 8; 7]))) = Some false.
Proof. vm_compute. reflexivity. Qed.

(** ** The numeric reading of a CIDR block *)
Definition is_byte (z : Z) : Prop := 0 ≤ z < 256.

Ltac solve_bytes :=
  repeat first [ assumption | apply Forall_nil_2 | apply Forall_cons_2
               | apply Forall_app_2 | unfold is_byte; lia ].

Lemma v4InV6Prefix_bytes : Forall is_byte v4InV6Prefix.
Proof. unfold v4InV6Prefix. solve_bytes. Qed.
#[export] Hint Resolve v4InV6Prefix_bytes : proxy.

(** The address as one big-endian integer. *)
Fixpoint ip_num (bs : list Z) : Z :=
  match bs with
  | [] => 0
  | b :: bs' => b * 2 ^ (8 * Z.of_nat (length bs')) + ip_num bs'
  end.

(** [same_prefix n a b]: the top [n] bits of two addresses of equal length
    agree, i.e. they agree after division by the host part. *)
Definition same_prefix (n : Z) (a b : list Z) : Prop :=
  length a = length b ∧
  ip_num a / 2 ^ (8 * Z.of_nat (length a) - n) = ip_num b / 2 ^ (8 * Z.of_nat (length b) - n).
#[export] Instance same_prefix_dec n a b : Decision (same_prefix n a b).
Proof. unfold same_prefix. apply _. Defined.

Section Numeric.
Implicit Types (a b m : list Z) (n : Z).

Lemma ip_num_range a : Forall is_byte a → 0 ≤ ip_num a < 2 ^ (8 * Z.of_nat (length a)).
Proof.
  induction 1 as [|x a Hx _ IH]; simpl; [lia|]. unfold is_byte in Hx.
  replace (8 * Z.of_nat (S (length a))) with (8 + 8 * Z.of_nat (length a)) by lia.
  rewrite Z.pow_add_r by lia. nia.
Qed.

Lemma land_byte_mask x k :
  is_byte x → 0 ≤ k < 8 → Z.land x (256 - 2 ^ (8 - k)) = x / 2 ^ (8 - k) * 2 ^ (8 - k).
Proof.
  intros Hx Hk. unfold is_byte in Hx.
  rewrite <-Z.shiftr_div_pow2, <-Z.shiftl_mul_pow2 by lia.
  apply Z.bits_inj'. intros i Hi.
  rewrite Z.land_spec, Z.shiftl_spec by lia.
  replace (256 - 2 ^ (8 - k)) with (Z.shiftl (Z.ones k) (8 - k)).
  2:{ rewrite Z.shiftl_mul_pow2, Z.ones_equiv, Z.mul_pred_l, <-Z.pow_add_r by lia.
      replace (k + (8 - k)) with 8 by lia. lia. }
  rewrite Z.shiftl_spec by lia.
  destruct (Z.lt_ge_cases i (8 - k)).
  - rewrite !(Z.testbit_neg_r _ (i - (8 - k))) by lia. by rewrite andb_false_r.
  - rewrite Z.shiftr_spec by lia. replace (i - (8 - k) + (8 - k)) with i by lia.
    destruct (Z.lt_ge_cases i 8).
    + rewrite Z.ones_spec_low by lia. by rewrite andb_true_r.
    + rewrite (Z.bits_above_log2 x i), ?andb_false_l; [done|lia|].
      destruct (Z.eq_dec x 0) as [->|]; [simpl; lia|].
      apply Z.log2_lt_pow2; [lia|]. assert (2 ^ 8 ≤ 2 ^ i) by (apply Z.pow_le_mono_r; lia). lia.
Qed.

Lemma land_byte_ff x : is_byte x → Z.land x 0xff = x.
Proof.
  intros Hx. change 0xff with (Z.ones 8). rewrite Z.land_ones by lia.
  unfold is_byte in Hx. apply Z.mod_small. lia.
Qed.

(** Splitting the integer quotient at the first byte. *)
Lemma ip_num_div_hi x a e :
  Forall is_byte a → 0 ≤ e ≤ 8 * Z.of_nat (length a) →
  ip_num (x :: a) / 2 ^ e = x * 2 ^ (8 * Z.of_nat (length a) - e) + ip_num a / 2 ^ e.
Proof.
  intros Ha He. simpl.
  replace (8 * Z.of_nat (length a)) with ((8 * Z.of_nat (length a) - e) + e) at 1 by lia.
  rewrite Z.pow_add_r, Z.mul_assoc by lia.
  rewrite Z.div_add_l; [done|]. pose proof (Z.pow_pos_nonneg 2 e). lia.
Qed.

Lemma ip_num_div_lo x a e :
  Forall is_byte a → 8 * Z.of_nat (length a) ≤ e →
  ip_num (x :: a) / 2 ^ e = x / 2 ^ (e - 8 * Z.of_nat (length a)).
Proof.
  intros Ha He. simpl. pose proof (ip_num_range a Ha).
  replace e with (8 * Z.of_nat (length a) + (e - 8 * Z.of_nat (length a))) at 1 by lia.
  rewrite Z.pow_add_r by lia.
  assert (0 < 2 ^ (8 * Z.of_nat (length a))) by (apply Z.pow_pos_nonneg; lia).
  rewrite <-Z.div_div by (try apply Z.pow_nonzero; lia).
  rewrite Z.div_add_l by lia. rewrite (Z.div_small (ip_num a)) by lia. by rewrite Z.add_0_r.
Qed.

Lemma length_cidr_mask n k : length (cidr_mask n k) = k.
Proof. revert n. induction k; intros; simpl; [done|]. case_match; simpl; by f_equal. Qed.

Lemma cidr_mask_zero a : zip_with Z.land a (cidr_mask 0 (length a)) = replicate (length a) 0.
Proof.
  induction a as [|x a IH]; simpl; [done|]. by rewrite IH, Z.land_0_r.
Qed.

(** Byte-wise comparison under the mask is comparison of the top bits. *)
Lemma masked_eq_same_prefix a b n :
  Forall is_byte a → Forall is_byte b → length a = length b →
  0 ≤ n ≤ 8 * Z.of_nat (length a) →
  zip_with Z.land a (cidr_mask n (length a)) = zip_with Z.land b (cidr_mask n (length a))
  ↔ same_prefix n a b.
Proof.
  intros Ha Hb Hl Hn. unfold same_prefix. rewrite <-Hl.
  revert b n Hb Hl Hn. induction Ha as [|x a Hx Ha IH]; intros [|y b] n Hb Hl Hn; try discriminate Hl.
  { done. }
  injection Hl as Hl. apply Forall_cons in Hb as [Hy Hb]. simpl length in *. simpl cidr_mask.
  destruct (Z.leb_spec 8 n) as [H8|H8]; simpl zip_with.
  - rewrite !ip_num_div_hi by (done || lia). rewrite <-Hl.
    rewrite !land_byte_ff by done.
    replace (8 * Z.of_nat (S (length a)) - n) with (8 * Z.of_nat (length a) - (n - 8)) by lia.
    set (e := 8 * Z.of_nat (length a) - (n - 8)).
    replace (8 * Z.of_nat (length a) - e) with (n - 8) by lia.
    assert (0 < 2 ^ e) by (apply Z.pow_pos_nonneg; lia).
    assert (2 ^ (8 * Z.of_nat (length a)) = 2 ^ (n - 8) * 2 ^ e) as Hp
      by (rewrite <-Z.pow_add_r by lia; f_equal; lia).
    pose proof (ip_num_range a Ha). pose proof (ip_num_range b Hb). rewrite <-Hl in *.
    assert (0 ≤ ip_num a / 2 ^ e < 2 ^ (n - 8)) by (split; [apply Z.div_pos|apply Z.div_lt_upper_bound]; nia).
    assert (0 ≤ ip_num b / 2 ^ e < 2 ^ (n - 8)) by (split; [apply Z.div_pos|apply Z.div_lt_upper_bound]; nia).
    specialize (IH b (n - 8) Hb Hl ltac:(lia)). fold e in IH. split.
    + intros [= -> Heq]. apply IH in Heq as [_ ->]. split; [lia|done].
    + intros [_ Heq]. assert (x = y) as -> by nia. f_equal. apply IH. split; [lia|nia].
  - rewrite !ip_num_div_lo by (done || lia). rewrite <-Hl.
    replace (8 * Z.of_nat (S (length a)) - n - 8 * Z.of_nat (length a)) with (8 - n) by lia.
    rewrite !land_byte_mask by (done || lia). rewrite cidr_mask_zero, Hl, cidr_mask_zero.
    assert (0 < 2 ^ (8 - n)) by (apply Z.pow_pos_nonneg; lia). split.
    + intros [= Heq]. split; [lia|]. nia.
    + intros [_ ->]. done.
Qed.
End Numeric.

(** ** Shape of parsed addresses *)
Definition ip_wf (k : nat) (b : list Z) : Prop := length b = k ∧ Forall is_byte b.
Definition addr_wf (a : NetipAddr) : Prop :=
  match a with Addr4 b => ip_wf 4 b | Addr6 b _ => ip_wf 16 b end.

Section ParseShape.
Lemma digit_val_range c d : digit_val c = Some d → 0 ≤ d < 10.
Proof. unfold digit_val. case_match; intros; simplify_eq. lia. Qed.

Lemma hex_val_range c d : hex_val c = Some d → 0 ≤ d < 16.
Proof. unfold hex_val. repeat case_match; intros; simplify_eq; lia. Qed.

Lemma ipv4_fields_wf val dl fields l b :
  is_byte val → Forall is_byte fields → ipv4_fields val dl fields l = Some b → ip_wf 4 b.
Proof.
  revert val dl fields. induction l as [|c l IH]; intros val dl fields Hv Hf; simpl.
  - case_bool_decide as H3; [|done]. intros [= <-]. split; [rewrite length_app; simpl; lia|].
    apply Forall_app_2; [done|solve_bytes].
  - destruct (digit_val c) as [d|] eqn:Hd.
    + apply digit_val_range in Hd. unfold is_byte in *. repeat case_match; try done.
      apply IH; [unfold is_byte; lia|done].
    + repeat case_match; try done. apply IH; [unfold is_byte; lia|].
      apply Forall_app_2; [done|solve_bytes].
Qed.

Lemma hex_group_range off acc l acc' off' rest :
  (off ≤ 4)%nat → 0 ≤ acc < 16 ^ Z.of_nat off →
  hex_group off acc l = Some (acc', off', rest) → (off' ≤ 4)%nat ∧ 0 ≤ acc' < 16 ^ Z.of_nat off'.
Proof.
  revert off acc. induction l as [|c l IH]; intros off acc Ho Ha; simpl; [by intros; simplify_eq|].
  destruct (hex_val c) as [d|] eqn:Hd; [|by intros; simplify_eq].
  destruct (Nat.ltb_spec 3 off); [done|]. apply hex_val_range in Hd.
  apply IH; [lia|]. rewrite Nat2Z.inj_succ, Z.pow_succ_r by lia. lia.
Qed.

Lemma hex_group_word l acc off rest :
  hex_group 0 0 l = Some (acc, off, rest) → is_byte (acc / 256) ∧ is_byte (acc mod 256).
Proof.
  intros H. apply hex_group_range in H as [Ho Ha]; [|lia|simpl; lia].
  assert (16 ^ Z.of_nat off ≤ 16 ^ 4) by (apply Z.pow_le_mono_r; lia).
  change (16 ^ 4) with 65536 in *. unfold is_byte. split; zdiv.
Qed.

Lemma expand_ellipsis_wf ip e b :
  Forall is_byte ip → expand_ellipsis ip e = Some b → ip_wf 16 b.
Proof.
  intros Hip. unfold expand_ellipsis. repeat case_match; try case_bool_decide; intros; simplify_eq.
  - split.
    + rewrite !length_app, length_take, length_drop, length_replicate. lia.
    + rewrite !Forall_app. split; [by apply Forall_take|]. split; [|by apply Forall_drop].
      apply Forall_replicate. unfold is_byte; lia.
  - by split.
Qed.

Lemma ipv6_loop_wf fuel ip e s b :
  Forall is_byte ip → ipv6_loop fuel ip e s = Some b → ip_wf 16 b.
Proof.
  assert (∀ ip e (s : list ascii), Forall is_byte ip →
    (if bool_decide (s = []) then expand_ellipsis ip e else None) = Some b → ip_wf 16 b) as Hfin.
  { intros ip' e' s' ?. case_bool_decide; [by apply expand_ellipsis_wf|done]. }
  revert ip e s. induction fuel as [|fuel IH]; intros ip e s Hip; cbn [ipv6_loop]; [done|].
  destruct (16 <=? length ip)%nat; [by apply Hfin|].
  destruct (hex_group 0 0 s) as [[[acc off] rest]|] eqn:Hg; [|done]. cbn [mbind option_bind].
  apply hex_group_word in Hg as [Hhi Hlo].
  assert (Forall is_byte (ip ++ [acc / 256; acc mod 256])) as Hip'
    by (apply Forall_app_2; [done|solve_bytes]).
  assert (∀ v4, ipv4_fields 0 0 [] s = Some v4 → Forall is_byte (ip ++ v4)) as H4.
  { intros v4 [_ ?]%ipv4_fields_wf; [|unfold is_byte; lia|constructor].
    by apply Forall_app_2. }
  repeat (case_match; simplify_eq); try done; try (by apply IH);
    try (by apply expand_ellipsis_wf).
  destruct (ipv4_fields 0 0 [] s) eqn:?; cbn [mbind option_bind]; [|done].
  apply expand_ellipsis_wf; eauto.
Qed.

#[local] Arguments ipv6_loop : simpl never.

Lemma ParseAddr_wf s a : ParseAddr s = Some a → addr_wf a.
Proof.
  unfold ParseAddr. destruct (addr_family (chars s)) as [[]|]; [| |done].
  - intros (b & Hb & ->)%fmap_Some. simpl.
    eapply ipv4_fields_wf; [| |exact Hb]; solve_bytes.
  - unfold parse_ipv6. intros ([s' z] & _ & H)%bind_Some. simpl in H.
    apply bind_Some in H as (b & Hb & [= <-]). simpl.
    repeat case_match; simplify_eq/=;
      try (eapply ipv6_loop_wf; [|done]; solve_bytes).
    split; [done|]. solve_bytes.
Qed.

Lemma As16_wf a : addr_wf a → ip_wf 16 (As16 a).
Proof.
  destruct a as [b|b z]; [|done]. intros [Hl Hb]. unfold As16, ip_wf, v4InV6Prefix.
  split; [simpl; lia|]. apply Forall_app_2; auto with proxy.
Qed.
End ParseShape.

(** ** What [Contains] computes *)

(** The 16-byte form of an address, and the position of a prefix in it. *)
Definition to16 (ip : IP) : IP :=
  if bool_decide (length ip = 4%nat) then v4InV6Prefix ++ ip else ip.
Definition prefix16 (a : NetipAddr) (n : Z) : Z := n + (128 - BitLen a).

Section ContainsSpec.
Lemma cidr_mask_add k n l :
  0 ≤ n → cidr_mask (8 * Z.of_nat k + n) (k + l) = replicate k 0xff ++ cidr_mask n l.
Proof.
  intros Hn. induction k as [|k IH]; [done|]. cbn [Nat.add cidr_mask replicate app].
  destruct (Z.leb_spec 8 (8 * Z.of_nat (S k) + n)); [|lia]. rewrite <-IH. do 2 f_equal. lia.
Qed.

Lemma land_replicate_ff a k :
  Forall is_byte a → length a = k → zip_with Z.land a (replicate k 0xff) = a.
Proof.
  intros Ha <-. induction Ha as [|x a Hx _ IH]; simpl; [done|]. by rewrite land_byte_ff, IH.
Qed.

Lemma land_idem a m :
  zip_with Z.land (zip_with Z.land a m) m = zip_with Z.land a m.
Proof.
  revert m. induction a as [|x a IH]; intros [|y m]; simpl; [done..|].
  by rewrite IH, <-Z.land_assoc, Z.land_diag.
Qed.

(** A 16-byte address under a mask that covers its first 12 bytes. *)
Lemma mask_hi a n :
  ip_wf 16 a → 96 ≤ n →
  zip_with Z.land a (cidr_mask n 16) = take 12 a ++ zip_with Z.land (drop 12 a) (cidr_mask (n - 96) 4).
Proof.
  intros [Hl Ha] Hn. replace n with (8 * Z.of_nat 12 + (n - 96)) at 1 by lia.
  change 16%nat with (12 + 4)%nat. rewrite cidr_mask_add by lia.
  rewrite <-(take_drop 12 a) at 1. rewrite zip_with_app
    by (rewrite length_take, length_replicate; lia).
  rewrite land_replicate_ff; [done|by apply Forall_take|rewrite length_take; lia].
Qed.

Lemma cidr_mask_lookup_lt n k i m :
  0 ≤ n → n < 8 * Z.of_nat (S i) → cidr_mask n k !! i = Some m → 0 ≤ m < 0xff.
Proof.
  revert n i. induction k as [|k IH]; intros n i Hn Hlt; simpl; [done|].
  destruct (Z.leb_spec 8 n).
  - destruct i as [|i]; simpl; [lia|]. apply IH; lia.
  - assert (2 ^ 1 ≤ 2 ^ (8 - n) ≤ 2 ^ 8) by (split; apply Z.pow_le_mono_r; lia).
    destruct i as [|i]; simpl; [intros; simplify_eq; lia|]. apply IH; lia.
Qed.

Lemma land_le_l m x : 0 ≤ m → Z.land m x ≤ m.
Proof.
  intros Hm. assert (Z.ldiff (Z.land m x) m = 0) as H0.
  { apply Z.bits_inj'. intros i _. rewrite Z.ldiff_spec, Z.land_spec, Z.bits_0.
    by destruct (Z.testbit m i), (Z.testbit x i). }
  apply Z.sub_nocarry_ldiff in H0.
  assert (0 ≤ Z.ldiff m (Z.land m x)) by (apply Z.ldiff_nonneg; lia). lia.
Qed.

(** Below 96 bits the masked address is no longer an embedded IPv4 address. *)
Lemma mask_lo_not_v4 a n :
  ip_wf 16 a → 0 ≤ n < 96 → take 12 (zip_with Z.land a (cidr_mask n 16)) ≠ v4InV6Prefix.
Proof.
  intros _ Hn Heq.
  assert (zip_with Z.land a (cidr_mask n 16) !! 11%nat = Some 0xff) as Hz.
  { rewrite <-(lookup_take_lt _ 12%nat 11%nat), Heq by lia. done. }
  apply lookup_zip_with_Some in Hz as (x & m & Hxm & _ & Hm).
  apply cidr_mask_lookup_lt in Hm; [|lia|lia].
  pose proof (land_le_l m x). rewrite Z.land_comm in Hxm. lia.
Qed.

Lemma To4_to16 ip x :
  To4 ip = Some x → to16 ip = v4InV6Prefix ++ x ∧ length x = 4%nat.
Proof.
  unfold To4, to16. destruct (bool_decide (length ip = 4%nat)) eqn:H4.
  - intros [= ->]. split; [done|by apply bool_decide_eq_true in H4].
  - case_match; [|done]. intros [= <-].
    apply andb_prop in H as [H16 Hp]. apply bool_decide_eq_true in H16, Hp.
    split; [by rewrite <-Hp, take_drop|rewrite length_drop; lia].
Qed.

Lemma To4_None ip :
  length ip = 16%nat → To4 ip = None → take 12 ip ≠ v4InV6Prefix ∧ to16 ip = ip.
Proof.
  intros Hl. unfold To4, to16. rewrite bool_decide_eq_false_2 by lia.
  rewrite bool_decide_eq_true_2 by done. simpl. case_bool_decide; [done|]. by intros _.
Qed.

(** An [IP] as the standard library produces it. *)
Definition ip_ok (ip : IP) : Prop := Forall is_byte ip ∧ (length ip = 4%nat ∨ length ip = 16%nat).

Lemma to16_wf ip : ip_ok ip → ip_wf 16 (to16 ip).
Proof.
  intros [Hb Hl]. unfold to16, ip_wf. case_bool_decide as H4.
  - rewrite length_app, H4. split; [done|]. apply Forall_app_2; auto with proxy.
  - destruct Hl; [lia|done].
Qed.

Lemma To4_ok ip x : ip_ok ip → To4 ip = Some x → ip_wf 4 x.
Proof.
  intros Hip Hx. destruct (to16_wf ip Hip) as [_ Hb].
  apply To4_to16 in Hx as [Heq Hl]. rewrite Heq in Hb. apply Forall_app in Hb as [_ Hb]. by split.
Qed.

(** [Contains] when the network number is a 4-byte address. *)
Lemma Contains_v4 net b k ip :
  ip_wf 4 b → 0 ≤ k ≤ 32 → ip_ok ip →
  networkNumberAndMask net = Some (zip_with Z.land b (cidr_mask k 4), cidr_mask k 4) →
  Contains net ip = true ↔ same_prefix (96 + k) (v4InV6Prefix ++ b) (to16 ip).
Proof.
  intros [Hbl Hb] Hk Hip Hnet. unfold Contains. rewrite Hnet, land_idem.
  assert (ip_wf 16 (v4InV6Prefix ++ b)) as Hb16 by (apply (As16_wf (Addr4 b)); by split).
  pose proof (to16_wf ip Hip) as Ht.
  pose proof (masked_eq_same_prefix (v4InV6Prefix ++ b) (to16 ip) (96 + k)) as Hm.
  destruct Hb16 as [Hl16 Hb16], Ht as [Htl Htb].
  rewrite Hl16 in Hm. specialize (Hm Hb16 Htb ltac:(lia) ltac:(lia)). rewrite <-Hm. clear Hm.
  rewrite !mask_hi by (by split || lia). replace (96 + k - 96) with k by lia.
  change (take 12 (v4InV6Prefix ++ b)) with v4InV6Prefix.
  change (drop 12 (v4InV6Prefix ++ b)) with b.
  destruct (To4 ip) as [x|] eqn:Hx; cbn [default from_option id].
  - apply To4_to16 in Hx as [-> Hxl].
    change (take 12 (v4InV6Prefix ++ x)) with v4InV6Prefix.
    change (drop 12 (v4InV6Prefix ++ x)) with x.
    rewrite bool_decide_eq_true_2 by (rewrite length_zip_with, length_cidr_mask; lia).
    cbn [andb]. rewrite bool_decide_eq_true. split; [by intros ->|].
    intros [_ ?]%app_inj_1; done.
  - destruct Hip as [? [H4|H16]].
    { unfold To4 in Hx. by rewrite bool_decide_eq_true_2 in Hx. }
    rewrite bool_decide_eq_false_2 by (rewrite length_zip_with, length_cidr_mask; lia).
    split; [done|]. apply To4_None in Hx as [Hne ->]; [|done].
    intros [? _]%app_inj_1; [congruence|]. by rewrite length_take, H16.
Qed.

(** [Contains] when the network number stays a 16-byte address. *)
Lemma Contains_v6 net b n ip :
  ip_wf 16 b → 0 ≤ n ≤ 128 → ip_ok ip →
  (take 12 b ≠ v4InV6Prefix ∨ n < 96) →
  networkNumberAndMask net = Some (zip_with Z.land b (cidr_mask n 16), cidr_mask n 16) →
  Contains net ip = true ↔ same_prefix n b (to16 ip) ∧ (To4 ip = None ∨ 96 ≤ n).
Proof.
  intros [Hbl Hb] Hn Hip Hcase Hnet. unfold Contains. rewrite Hnet, land_idem.
  pose proof (to16_wf ip Hip) as [Htl Htb].
  pose proof (masked_eq_same_prefix b (to16 ip) n) as Hm. rewrite Hbl in Hm.
  specialize (Hm Hb Htb ltac:(lia) ltac:(lia)). rewrite <-Hm. clear Hm.
  rewrite length_zip_with, length_cidr_mask, Hbl, Nat.min_id.
  destruct (To4 ip) as [x|] eqn:Hx; cbn [default from_option id].
  - apply To4_to16 in Hx as [Hx Hxl]. rewrite Hx in *.
    rewrite bool_decide_eq_false_2 by lia. split; [done|].
    intros [Heq [|Hge]]; [done|]. destruct Hcase as [Hne|]; [|lia].
    rewrite (mask_hi b), (mask_hi (v4InV6Prefix ++ x)) in Heq by (first [lia|by split]).
    apply app_inj_1 in Heq as [Heq _]; [done|]. by rewrite length_take, Hbl.
  - destruct Hip as [? [H4|H16]].
    { unfold To4 in Hx. by rewrite bool_decide_eq_true_2 in Hx. }
    apply To4_None in Hx as [_ ->]; [|done].
    rewrite bool_decide_eq_true_2 by done. cbn [andb]. rewrite bool_decide_eq_true.
    split; [intros ?; split; [done|by left]|by intros [? _]].
Qed.

#[local] Arguments cidr_mask : simpl never.

Lemma cidr_parts_wf s a n :
  cidr_parts s = Some (a, n) → addr_wf a ∧ 0 ≤ n ≤ BitLen a.
Proof.
  unfold cidr_parts. intros (i & _ & (a' & Ha & H)%bind_Some)%bind_Some.
  case_bool_decide; [|done]. apply bind_Some in H as ([n' rest] & _ & H).
  destruct (_ || _) eqn:Hc in H; [done|]. injection H as <- <-.
  apply orb_false_elim in Hc as [[_ ?]%orb_false_elim ?].
  split; [by eapply ParseAddr_wf|lia].
Qed.

(** A parsed IPv4 block keeps a 4-byte network number. *)
Lemma network_v4 b n :
  ip_wf 4 b → networkNumberAndMask
    {| net_IP := IP_Mask (v4InV6Prefix ++ b) (cidr_mask n 4); net_Mask := cidr_mask n 4 |}
  = Some (zip_with Z.land b (cidr_mask n 4), cidr_mask n 4).
Proof.
  intros [Hl _]. pose proof (length_cidr_mask n 4) as Hm. revert Hm.
  generalize (cidr_mask n 4) as m. intros m Hm.
  by destruct b as [|? [|? [|? [|? []]]]], m as [|? [|? [|? [|? []]]]].
Qed.

Lemma IP_Mask_16 (b m : list Z) :
  length b = 16%nat → length m = 16%nat → IP_Mask b m = zip_with Z.land b m.
Proof.
  intros Hb Hm. unfold IP_Mask.
  assert (bool_decide (length m = 4%nat) = false) as H4 by (by rewrite Hm).
  assert (bool_decide (length b = 4%nat) = false) as H4b by (by rewrite Hb).
  rewrite H4b, andb_false_r. cbn [andb]. rewrite H4. cbn [andb].
  by rewrite bool_decide_eq_true_2 by congruence.
Qed.

(** A parsed IPv6 block of at least 96 bits over the IPv4-mapped prefix
    has a 4-byte network number. *)
Lemma network_v6_mapped b n :
  ip_wf 4 b → 96 ≤ n → networkNumberAndMask
    {| net_IP := IP_Mask (v4InV6Prefix ++ b) (cidr_mask n 16); net_Mask := cidr_mask n 16 |}
  = Some (zip_with Z.land b (cidr_mask (n - 96) 4), cidr_mask (n - 96) 4).
Proof.
  intros [Hl Hb] Hn.
  assert (ip_wf 16 (v4InV6Prefix ++ b)) as Hb16 by (apply (As16_wf (Addr4 b)); by split).
  rewrite IP_Mask_16 by (apply length_cidr_mask || apply Hb16).
  rewrite mask_hi by done.
  replace (cidr_mask n 16) with (replicate 12 0xff ++ cidr_mask (n - 96) 4).
  2:{ replace n with (8 * Z.of_nat 12 + (n - 96)) at 2 by lia.
      change 16%nat with (12 + 4)%nat. rewrite cidr_mask_add; [done|lia]. }
  pose proof (length_cidr_mask (n - 96) 4) as Hm. revert Hm.
  generalize (cidr_mask (n - 96) 4) as m. intros m Hm.
  by destruct b as [|? [|? [|? [|? []]]]], m as [|? [|? [|? [|? []]]]].
Qed.

(** Otherwise it stays a 16-byte address. *)
Lemma network_v6 b n :
  ip_wf 16 b → 0 ≤ n → (take 12 b ≠ v4InV6Prefix ∨ n < 96) → networkNumberAndMask
    {| net_IP := IP_Mask b (cidr_mask n 16); net_Mask := cidr_mask n 16 |}
  = Some (zip_with Z.land b (cidr_mask n 16), cidr_mask n 16).
Proof.
  intros Hb Hn Hcase. rewrite IP_Mask_16 by (apply length_cidr_mask || apply Hb).
  unfold networkNumberAndMask. simpl net_IP. simpl net_Mask.
  set (z := zip_with Z.land b (cidr_mask n 16)).
  assert (length z = 16%nat) as Hz.
  { unfold z. rewrite length_zip_with, length_cidr_mask. destruct Hb as [-> _]. done. }
  assert (take 12 z ≠ v4InV6Prefix) as Hne.
  { destruct (Z.lt_ge_cases n 96); [by apply mask_lo_not_v4|].
    destruct Hcase; [|lia]. unfold z. rewrite mask_hi by done.
    rewrite take_app_le, take_take by (rewrite length_take; destruct Hb as [-> _]; done). done. }
  assert (To4 z = None) as ->.
  { unfold To4. rewrite Hz, (bool_decide_eq_false_2 (16 = 4)%nat) by lia.
    by rewrite (bool_decide_eq_false_2 (take 12 z = _)), andb_false_r. }
  rewrite bool_decide_eq_true_2 by done. cbn [mbind option_bind].
  rewrite length_cidr_mask, Hz. by rewrite bool_decide_eq_false_2 by lia.
Qed.

(** The numeric reading of a parsed block, for every address the standard
    library produces. *)
Lemma ParseCIDR_Contains s net ip :
  ParseCIDR s = Some net → ip_ok ip →
  ∃ a n, cidr_parts s = Some (a, n) ∧
    (Contains net ip = true ↔
     same_prefix (prefix16 a n) (As16 a) (to16 ip) ∧ (To4 ip = None ∨ 96 ≤ prefix16 a n)).
Proof.
  unfold ParseCIDR. intros ([a n] & Hp & [= <-])%bind_Some Hip. exists a, n. split; [done|].
  destruct (cidr_parts_wf s a n Hp) as [Ha Hn]. clear Hp.
  destruct a as [b|b z]; simpl in *; unfold prefix16; simpl BitLen.
  - replace (n + (128 - 32)) with (96 + n) by lia.
    rewrite (Contains_v4 _ b n); [|done|done|done|by apply network_v4].
    split; [intros ?; split; [done|right; lia]|by intros [? _]].
  - replace (n + (128 - 128)) with n by lia.
    destruct (decide (take 12 b = v4InV6Prefix ∧ 96 ≤ n)) as [[Hpre H96]|Hno].
    + assert (b = v4InV6Prefix ++ drop 12 b) as Hb by (by rewrite <-Hpre, take_drop).
      assert (ip_wf 4 (drop 12 b)) as Hd
        by (destruct Ha as [Hl Hf]; split; [rewrite length_drop; lia|by apply Forall_drop]).
      rewrite (Contains_v4 _ (drop 12 b) (n - 96)); [|done|lia|done|].
      2:{ rewrite Hb at 1. by apply network_v6_mapped. }
      rewrite <-Hb. replace (96 + (n - 96)) with n by lia.
      split; [intros ?; split; [done|by right]|by intros [? _]].
    + assert (take 12 b ≠ v4InV6Prefix ∨ n < 96) as Hcase.
      { destruct (decide (take 12 b = v4InV6Prefix)); [right|by left].
        destruct (Z.lt_ge_cases n 96); [done|]. by destruct Hno. }
      apply Contains_v6; [done|done|done|done|]. apply network_v6; [done|lia|done].
Qed.
End ContainsSpec.

Section EqualSpec.
Lemma ParseIP_wf s ip : ParseIP s = Some ip → ip_wf 16 ip.
Proof.
  unfold ParseIP. intros (a & Ha%ParseAddr_wf & H)%bind_Some.
  case_bool_decide; simplify_eq. by apply As16_wf.
Qed.

(** [IP.Equal] identifies an IPv4 address with its IPv4-mapped form. *)
Lemma IP_Equal_to16 ip x : ip_ok ip → ip_ok x → IP_Equal ip x = true ↔ to16 ip = to16 x.
Proof.
  intros [_ Hi] [_ Hx]. unfold IP_Equal, to16.
  destruct Hi as [Hi|Hi], Hx as [Hx|Hx]; rewrite !Hi, !Hx; simpl.
  - rewrite bool_decide_eq_true. split; [by intros ->|intros [= ?]; done].
  - rewrite andb_true_iff, !bool_decide_eq_true. split.
    + intros [Hp ->]. etransitivity; [|apply (take_drop 12 x)]. by rewrite Hp.
    + intros <-. done.
  - rewrite andb_true_iff, !bool_decide_eq_true. split.
    + intros [Hp <-]. etransitivity; [symmetry; apply (take_drop 12 ip)|]. by rewrite Hp.
    + intros ->. done.
  - by rewrite bool_decide_eq_true.
Qed.
End EqualSpec.

(** A [net.Addr]: its dynamic type and the text its [String] method returns. *)
Inductive Addr :=
  | AddrNil
  | TCPAddr (ip : IP) (text : string)
  | UDPAddr (ip : IP) (text : string)
  | IPAddr (ip : IP) (text : string)
  | OtherAddr (text : string).

Definition addr_String (a : Addr) : string :=
  match a with
  | AddrNil => ""
  | TCPAddr _ t | UDPAddr _ t | IPAddr _ t | OtherAddr t => t
  end.
