(* ===== verification/Rbac.v ===== *)
(** * Package [rbac]: what the user certificate grants

    [internal/proxyd/rbac/enforcer.go].  [CertEnforcer] reads the
    [Permissions] of an authenticated connection: default-deny extensions, the
    default-allow [source-address] option, and [force-command]. *)

From Stdlib Require Import ZArith Lia Ascii.
From stdpp Require Import prelude strings gmap list.
From S2P Require Import Prelude GoStrings NetAddr.

Definition extPermitPTY : string := "permit-pty".
Definition extPermitPortForwarding : string := "permit-port-forwarding".
Definition extPermitAgentForwarding : string := "permit-agent-forwarding".
Definition extPermitX11Forwarding : string := "permit-X11-forwarding".
Definition extPermitUserRC : string := "permit-user-rc".
Definition optSourceAddress : string := "source-address".
Definition optForceCommand : string := "force-command".

(** [gossh.Permissions]; [None] is a nil map.  Reading a nil map finds
    nothing, writing to one panics. *)
Record Permissions := {
  CriticalOptions : option (gmap string string);
  Extensions : option (gmap string string)
}.

Definition map_get (m : option (gmap string string)) (k : string) : option string :=
  m ← m; m !! k.

(** [perms] is a pointer, and so is the enforcer; [None] is nil. *)
Record CertEnforcer := { perms : option Permissions }.

Definition New (p : option Permissions) : option CertEnforcer := Some {| perms := p |}.

(** [if e == nil || e.perms == nil] *)
Definition enforcer_perms (e : option CertEnforcer) : option Permissions := e ← e; perms e.

Definition hasExtension (e : option CertEnforcer) (name : string) : bool :=
  match enforcer_perms e with
  | None => false
  | Some p => bool_decide (is_Some (map_get (Extensions p) name))
  end.

Definition PermitsPTY e := hasExtension e extPermitPTY.
Definition PermitsPortForwarding e := hasExtension e extPermitPortForwarding.
Definition PermitsAgentForwarding e := hasExtension e extPermitAgentForwarding.
Definition PermitsX11Forwarding e := hasExtension e extPermitX11Forwarding.
Definition PermitsUserRC e := hasExtension e extPermitUserRC.

Definition ForceCommand (e : option CertEnforcer) : string :=
  match enforcer_perms e with
  | None => ""
  | Some p => default "" (map_get (CriticalOptions p) optForceCommand)
  end.

(** [remoteIP]: [[]] is a nil IP. *)
Definition remoteIP (addr : Addr) : IP :=
  match addr with
  | AddrNil => []
  | TCPAddr ip _ | UDPAddr ip _ | IPAddr ip _ => ip
  | OtherAddr text =>
      let host := match SplitHostPort text with
                  | Ret (h, _) => h
                  | _ => text
                  end in
      default [] (ParseIP host)
  end.

Definition matchAddress (entry : string) (ip : IP) : bool :=
  if contains_byte entry "/" then
    match ParseCIDR entry with
    | None => false
    | Some network => Contains network ip
    end
  else match ParseIP entry with
       | None => false
       | Some parsed => IP_Equal parsed ip
       end.

(** The loop over the comma-separated entries. *)
Fixpoint any_entry_matches (entries : list string) (ip : IP) : bool :=
  match entries with
  | [] => false
  | entry :: rest =>
      let entry := TrimSpace entry in
      if bool_decide (entry = "") then any_entry_matches rest ip
      else if matchAddress entry ip then true
      else any_entry_matches rest ip
  end.

Definition SourceAddressOK (e : option CertEnforcer) (remote : Addr) : bool :=
  match enforcer_perms e with
  | None => true
  | Some p =>
      match map_get (CriticalOptions p) optSourceAddress with
      | None => true
      | Some raw =>
          if bool_decide (raw = "") then true
          else let ip := remoteIP remote in
               if bool_decide (ip = []) then false
               else any_entry_matches (Split raw ",") ip
      end
  end.

(** ** Specification of the source-address option *)

(** The addresses an entry admits, read numerically: an address block of the
    given prefix length, or the one address written. *)
Definition entry_admits (entry : string) (ip : IP) : Prop :=
  if contains_byte entry "/" then
    ∃ a n, cidr_parts entry = Some (a, n) ∧
      same_prefix (prefix16 a n) (As16 a) (to16 ip) ∧ (To4 ip = None ∨ 96 ≤ prefix16 a n)%Z
  else ∃ a, ParseIP entry = Some a ∧ a = to16 ip.

Section Facts.
Lemma matchAddress_spec entry ip :
  ip_ok ip → matchAddress entry ip = true ↔ entry_admits entry ip.
Proof.
  intros Hip. unfold matchAddress, entry_admits.
  destruct (contains_byte entry "/").
  - split.
    + destruct (ParseCIDR entry) as [net|] eqn:Hn; [|done]. intros Hc.
      destruct (ParseCIDR_Contains _ _ _ Hn Hip) as (a & n & Hp & Hiff).
      exists a, n. split; [done|]. by apply Hiff.
    + intros (a & n & Hp & Hs). unfold ParseCIDR at 1.
      rewrite Hp. cbn [mbind option_bind].
      destruct (ParseCIDR_Contains entry
        {| net_IP := IP_Mask (As16 a) (cidr_mask n (Z.to_nat (BitLen a / 8)));
           net_Mask := cidr_mask n (Z.to_nat (BitLen a / 8)) |} ip)
        as (a' & n' & Hp' & Hiff); [by unfold ParseCIDR; rewrite Hp|done|].
      simplify_eq. by apply Hiff.
  - destruct (ParseIP entry) as [a|] eqn:Ha; [|naive_solver].
    destruct (ParseIP_wf _ _ Ha) as [Hl Hb].
    assert (to16 a = a) as Ht by (unfold to16; by rewrite Hl).
    assert (ip_ok a) as Hok by (split; auto).
    rewrite (IP_Equal_to16 a ip Hok Hip), Ht. naive_solver.
Qed.

Lemma any_entry_matches_spec entries ip :
  any_entry_matches entries ip = true ↔
  ∃ entry, entry ∈ entries ∧ TrimSpace entry ≠ "" ∧ matchAddress (TrimSpace entry) ip = true.
Proof.
  induction entries as [|x entries IH]; simpl; [set_solver|].
  setoid_rewrite elem_of_cons. case_bool_decide as Hx.
  - rewrite IH. split; [naive_solver|]. intros (y & [->|Hy] & ? & ?); [done|eauto].
  - destruct (matchAddress (TrimSpace x) ip) eqn:Hm; [naive_solver|].
    rewrite IH. split; [naive_solver|]. intros (y & [->|Hy] & ? & ?); [congruence|eauto].
Qed.

Lemma hasExtension_spec p name :
  hasExtension (New (Some p)) name = true ↔ is_Some (map_get (Extensions p) name).
Proof. unfold hasExtension. simpl. by rewrite bool_decide_eq_true. Qed.
End Facts.

(** ** Properties *)

(** C8: the source-address gate of a handshake.  For every certificate and
    every peer address the network library produces, the check passes exactly
    when the option is absent or empty, or when the peer's address is known and
    some comma-separated entry, trimmed and not empty, denotes it: a CIDR entry
    by agreement of the top bits of the address read as one integer (an IPv6
    block shorter than /96 never admits an IPv4 peer), a bare entry by being
    that address, an IPv4 address and its IPv4-mapped form being the same. *)
Theorem source_address_gate (p : Permissions) (remote : Addr) :
  ip_ok (remoteIP remote) ∨ remoteIP remote = [] →
  SourceAddressOK (New (Some p)) remote = true ↔
    default "" (map_get (CriticalOptions p) optSourceAddress) = "" ∨
    (remoteIP remote ≠ [] ∧
     ∃ entry, entry ∈ Split (default "" (map_get (CriticalOptions p) optSourceAddress)) "," ∧
       TrimSpace entry ≠ "" ∧ entry_admits (TrimSpace entry) (remoteIP remote)).
Proof.
  intros Hip. unfold SourceAddressOK. simpl.
  destruct (map_get (CriticalOptions p) optSourceAddress) as [raw|]; simpl; [|naive_solver].
  case_bool_decide as Hraw; [naive_solver|].
  case_bool_decide as Hnil; [naive_solver|]. destruct Hip as [Hip|]; [|done].
  rewrite any_entry_matches_spec. setoid_rewrite (matchAddress_spec _ _ Hip). naive_solver.
Qed.

Definition example_perms : Permissions :=
  {| CriticalOptions := Some {[ optSourceAddress := "10.0.0.0/8, 203.0.113.7" ]};
     Extensions := None |}.

Lemma source_address_gate_witness :
  SourceAddressOK (New (Some example_perms)) (TCPAddr [10; 9; 8; 7]%Z "10.9.8.7:4242") = true
  ∧ ∃ entry, entry ∈ Split "10.0.0.0/8, 203.0.113.7" "," ∧ TrimSpace entry ≠ "" ∧
      entry_admits (TrimSpace entry) [10; 9; 8; 7]%Z.
Proof.
  split; [by vm_compute|].
  assert (ip_ok [10; 9; 8; 7]%Z) as Hip by (split; [solve_bytes|by left]).
  destruct (source_address_gate example_perms (TCPAddr [10; 9; 8; 7]%Z "10.9.8.7:4242")
    (or_introl Hip)) as [Hfw _].
  destruct (Hfw ltac:(by vm_compute)) as [Habs|[_ H]]; [by vm_compute in Habs|exact H].
Defined.
