(* ===== verification/Routing.v ===== *)
(** * Package [routing]: the tunnel registry

    [internal/proxyd/routing/registry.go].  A yamux session is a pointer: a
    [nat] here, with [None] for nil.  Whether a session has closed is the
    state of the yamux library; [dead] is its [IsClosed] predicate at the
    moment of the call.  The mutex makes each operation one atomic step. *)

From Stdlib Require Import ZArith Lia Ascii.
From stdpp Require Import prelude strings gmap list.
From S2P Require Import Prelude GoStrings.

Local Open Scope go_scope.

Inductive RegError :=
  | ErrNilSession | ErrNoHosts | ErrEmptyLabel | ErrRegistryClosed
  | ErrConflict (h : string)
  | ErrNoTunnel
  | ErrCtx
  | ErrOpenStream (host : string) (cause : string).
#[export] Instance RegError_eq_dec : EqDecision RegError.
Proof. solve_decision. Defined.

Record entry := Entry { session : nat; hosts : list string }.
#[export] Instance entry_eq_dec : EqDecision entry.
Proof. solve_decision. Defined.

Record Registry := { tunnels : gmap string entry; reg_closed : bool }.

Definition New : Registry := {| tunnels := ∅; reg_closed := false |}.

Section Registry.
Context {U : UnicodeTables}.

Definition normalize (host : string) : string := ToLower (TrimSpace host).

Section WithLiveness.
Context (dead : nat → bool).

Definition isDead (s : option nat) : bool :=
  match s with None => true | Some s => dead s end.

(** Also the loop of [Unregister]: deleting while ranging over a Go map
    visits every remaining key. *)
Definition evictSession (t : gmap string entry) (s : nat) : gmap string entry :=
  filter (λ he, session he.2 ≠ s) t.

(** The normalisation loop at the head of [Register]. *)
Fixpoint normalize_hosts (hs : list string) : outcome RegError (list string) :=
  match hs with
  | [] => Ret []
  | h :: hs' =>
      let h := normalize h in
      require (negb (bool_decide (h = ""))) else ErrEmptyLabel;;
      let! rest := normalize_hosts hs' in Ret (h :: rest)
  end.

(** The validation loop: dead owners are evicted in place; the first label
    of a live other session is a conflict.  The map changes even when a
    later label conflicts. *)
Fixpoint check_labels (s : nat) (t : gmap string entry) (ls : list string)
    : gmap string entry * option string :=
  match ls with
  | [] => (t, None)
  | h :: ls' =>
      match t !! h with
      | None => check_labels s t ls'
      | Some existing =>
          if bool_decide (session existing = s) then check_labels s t ls'
          else if isDead (Some (session existing))
          then check_labels s (evictSession t (session existing)) ls'
          else (t, Some h)
      end
  end.

Fixpoint insert_labels (e : entry) (t : gmap string entry) (ls : list string) : gmap string entry :=
  match ls with
  | [] => t
  | h :: ls' => insert_labels e (<[h := e]> t) ls'
  end.

Definition Register (r : Registry) (s : option nat) (hs : list string)
    : Registry * outcome RegError (list string) :=
  match s with
  | None => (r, Err ErrNilSession)
  | Some s =>
      if bool_decide (length hs = 0) then (r, Err ErrNoHosts)
      else match normalize_hosts hs with
      | Err e => (r, Err e)
      | Panic => (r, Panic)
      | Ret normalized =>
          if reg_closed r then (r, Err ErrRegistryClosed)
          else match check_labels s (tunnels r) normalized with
          | (t, Some h) => ({| tunnels := t; reg_closed := false |}, Err (ErrConflict h))
          | (t, None) =>
              let e := {| session := s; hosts := normalized |} in
              ({| tunnels := insert_labels e t normalized; reg_closed := false |}, Ret normalized)
          end
      end
  end.

Definition Unregister (r : Registry) (s : option nat) : Registry :=
  match s with
  | None => r
  | Some s => {| tunnels := evictSession (tunnels r) s; reg_closed := reg_closed r |}
  end.

Definition Lookup (r : Registry) (host : string) : Registry * outcome RegError nat :=
  let host := normalize host in
  match tunnels r !! host with
  | None => (r, Err ErrNoTunnel)
  | Some e =>
      if isDead (Some (session e)) then (Unregister r (Some (session e)), Err ErrNoTunnel)
      else (r, Ret (session e))
  end.

(** [yamux_open] is [Session.Open] of the yamux library. *)
Definition Open {stream} (yamux_open : nat → outcome string stream)
    (ctx_done : bool) (r : Registry) (host : string) : Registry * outcome RegError stream :=
  if ctx_done then (r, Err ErrCtx)
  else let '(r', res) := Lookup r host in
       (r', let! s := res in map_err (ErrOpenStream host) (yamux_open s)).

Definition Len (r : Registry) : nat := size (tunnels r).

(** [Close] returns the set of sessions it calls [Session.Close] on. *)
Definition Close (r : Registry) : Registry * gset nat :=
  if reg_closed r then (r, ∅)
  else ({| tunnels := ∅; reg_closed := true |},
        map_to_set (λ _ e, session e) (tunnels r)).
End WithLiveness.
End Registry.

(** ** Abstract specification

    To its clients the registry is a partial map from labels to live
    sessions. *)
Section Spec.
Context {U : UnicodeTables} (dead : nat → bool).

Definition view (r : Registry) (h : string) : option nat :=
  e ← tunnels r !! h; if dead (session e) then None else Some (session e).

(** A label is refused exactly when a live session other than [s] owns it. *)
Definition refused (v : string → option nat) (s : nat) (h : string) : bool :=
  match v h with None => false | Some s' => negb (bool_decide (s' = s)) end.
Definition abs_register (v : string → option nat) (s : nat) (ls : list string)
    : (string → option nat) * outcome RegError (list string) :=
  match find_first (refused v s) ls with
  | Some h => (v, Err (ErrConflict h))
  | None => (λ h, if bool_decide (h ∈ ls) then (if dead s then None else Some s) else v h, Ret ls)
  end.

Implicit Types (t : gmap string entry) (r : Registry).

Lemma lookup_evict t s h :
  evictSession t s !! h = e ← t !! h; if decide (session e = s) then None else Some e.
Proof.
  unfold evictSession. rewrite map_lookup_filter.
  destruct (t !! h) as [e|]; simpl; [|done]. case_guard; case_decide; simplify_eq/=; done.
Qed.

(** The label map seen through liveness. *)
Definition tview t h : option nat :=
  e ← t !! h; if dead (session e) then None else Some (session e).

Lemma tview_evict t s h : dead s = true → tview (evictSession t s) h = tview t h.
Proof.
  intros Hs. unfold tview. rewrite lookup_evict. destruct (t !! h) as [e|]; simpl; [|done].
  case_decide as Heq; simpl; [by rewrite Heq, Hs|done].
Qed.

Lemma check_labels_spec s t ls t' c :
  check_labels dead s t ls = (t', c) →
  (∀ h, tview t' h = tview t h) ∧ c = find_first (refused (tview t) s) ls.
Proof.
  revert t. induction ls as [|h ls IH]; intros t; simpl; [by intros [= <- <-]|].
  unfold refused at 1, tview at 3.
  destruct (t !! h) as [e|] eqn:He; simpl; [|by apply IH].
  case_bool_decide as Hs.
  { destruct (dead (session e)); simpl; [by apply IH|].
    rewrite bool_decide_eq_true_2 by done. by apply IH. }
  destruct (dead (session e)) eqn:Hd; simpl.
  - intros [Hv ->]%IH. split.
    + intros h'. by rewrite Hv, tview_evict.
    + clear -Hd. induction ls as [|x ls IH]; simpl; [done|].
      unfold refused at 1 3. by rewrite tview_evict, IH.
  - rewrite bool_decide_eq_false_2 by done. by intros [= <- <-].
Qed.

Lemma lookup_insert_labels e t ls h :
  insert_labels e t ls !! h = if bool_decide (h ∈ ls) then Some e else t !! h.
Proof.
  revert t. induction ls as [|x ls IH]; intros t; simpl; [done|].
  rewrite IH, lookup_insert. repeat case_bool_decide; repeat case_decide; set_solver.
Qed.

Lemma check_labels_keys s t ls t' c h e :
  check_labels dead s t ls = (t', c) → t' !! h = Some e → t !! h = Some e.
Proof.
  revert t. induction ls as [|x ls IH]; intros t; simpl; [by intros [= <- <-]|].
  destruct (t !! x) as [e'|] eqn:He; [|by apply IH].
  repeat case_match; [by apply IH| |by intros [= <- <-]].
  intros Hc Hl. specialize (IH _ Hc Hl). rewrite lookup_evict in IH.
  destruct (t !! h); simpl in IH; [|done]. by case_decide; simplify_eq.
Qed.
End Spec.

(** ** Well-formedness *)
Section Invariant.
Context {U : UnicodeTables} {UL : UnicodeLaws U}.
Implicit Types (r : Registry).

Lemma normalize_idem h : normalize (normalize h) = normalize h.
Proof. unfold normalize. by rewrite TrimSpace_ToLower, TrimSpace_idem, ToLower_idem. Qed.

Lemma normalize_hosts_Ret hs ls :
  normalize_hosts hs = Ret ls → ls = normalize <$> hs ∧ Forall (λ h, h ≠ "") ls.
Proof.
  revert ls. induction hs as [|h hs IH]; intros ls; simpl; [by intros [= <-]|].
  intros H. inv_outcome. destruct (IH _ ltac:(done)) as [-> ?].
  apply negb_true_iff, bool_decide_eq_false in H_m. split; [done|by constructor].
Qed.

(** Every label is normalised, not empty and listed by its own entry; a
    closed registry holds nothing. *)
Definition reg_wf r : Prop :=
  (∀ h e, tunnels r !! h = Some e → h ∈ hosts e ∧ normalize h = h ∧ h ≠ "") ∧
  (reg_closed r = true → tunnels r = ∅).

Lemma New_wf : reg_wf New.
Proof. split; [|done]. by intros h e; simpl; rewrite lookup_empty. Qed.

Lemma Register_wf dead r s hs r' res :
  reg_wf r → Register dead r s hs = (r', res) → reg_wf r'.
Proof.
  intros Hwf HR. pose proof Hwf as [Hk Hc]. unfold Register in HR. destruct s as [s|]; [|by simplify_eq].
  case_bool_decide; [by simplify_eq|].
  destruct (normalize_hosts hs) as [ls|e|] eqn:Hn; [|by simplify_eq..].
  destruct (reg_closed r) eqn:Hcl; [by simplify_eq|].
  destruct (normalize_hosts_Ret _ _ Hn) as [Hls Hne].
  destruct (check_labels dead s (tunnels r) ls) as [t c] eqn:Hch.
  assert (∀ h e, t !! h = Some e → h ∈ hosts e ∧ normalize h = h ∧ h ≠ "") as Ht.
  { intros h e He. apply (Hk h e). by eapply check_labels_keys. }
  destruct c; simplify_eq; split; simpl; try done.
  intros h e. rewrite lookup_insert_labels. case_bool_decide as Hin; [|by apply Ht].
  intros [= <-]. simpl. split; [done|]. split; [|by eapply Forall_forall in Hne].
  apply list_elem_of_fmap in Hin as (x & -> & _). apply normalize_idem.
Qed.

Lemma Unregister_wf r s : reg_wf r → reg_wf (Unregister r s).
Proof.
  intros [Hk Hc]. destruct s as [s|]; [|done]. split; simpl.
  - intros h e. rewrite lookup_evict. destruct (tunnels r !! h) as [e'|] eqn:He; simpl; [|done].
    case_decide; simpl; intros; simplify_eq. by apply Hk.
  - intros H. rewrite (Hc H). apply map_filter_empty.
Qed.

Lemma Lookup_wf dead r h : reg_wf r → reg_wf (Lookup dead r h).1.
Proof.
  intros Hwf. unfold Lookup. repeat case_match; simplify_eq/=; auto using Unregister_wf.
  by apply (Unregister_wf r (Some _)).
Qed.

Lemma Close_wf r : reg_wf r → reg_wf (Close r).1.
Proof. unfold Close. case_match; [done|]. intros _. split; [|done]. by intros h e; simpl; rewrite lookup_empty. Qed.
End Invariant.
#[export] Hint Resolve New_wf Register_wf Unregister_wf Lookup_wf Close_wf : proxy.

(** ** The registry as a transition system

    Handlers of different connections interleave at the granularity of the
    mutex; sessions die on their own.  [LookupRead] and [Scrub] are the two
    critical sections of [Lookup]: the read under the read lock, and the
    clean-up of a session seen dead, with anything in between. *)
Record world := { reg : Registry; dead_set : gset nat }.
Definition is_closed (w : world) (s : nat) : bool := bool_decide (s ∈ dead_set w).

Inductive event :=
  | EvRegister (s : nat) (hs : list string)
  | EvUnregister (s : nat)
  | EvLookup (h : string)
  | EvScrub (s : nat)
  | EvDie (s : nat)
  | EvClose.

Section Steps.
Context {U : UnicodeTables} {UL : UnicodeLaws U}.

Inductive step : world → event → world → Prop :=
  | step_register w s hs :
      step w (EvRegister s hs)
        {| reg := (Register (is_closed w) (reg w) (Some s) hs).1; dead_set := dead_set w |}
  | step_unregister w s :
      step w (EvUnregister s) {| reg := Unregister (reg w) (Some s); dead_set := dead_set w |}
  | step_lookup w h :
      step w (EvLookup h) {| reg := (Lookup (is_closed w) (reg w) h).1; dead_set := dead_set w |}
  | step_scrub w s :
      s ∈ dead_set w →
      step w (EvScrub s) {| reg := Unregister (reg w) (Some s); dead_set := dead_set w |}
  | step_die w s :
      step w (EvDie s) {| reg := reg w; dead_set := {[s]} ∪ dead_set w |}
  | step_close w :
      step w EvClose {| reg := (Close (reg w)).1; dead_set := (Close (reg w)).2 ∪ dead_set w |}.

Inductive steps : world → list event → world → Prop :=
  | steps_nil w : steps w [] w
  | steps_cons w e w' es w'' : step w e w' → steps w' es w'' → steps w (e :: es) w''.

Lemma steps_invariant (P : world → Prop) :
  (∀ w e w', P w → step w e w' → P w') → ∀ w es w', P w → steps w es w' → P w'.
Proof. intros Hs w es w' Hw Hst. induction Hst; eauto. Qed.

Definition world_wf (w : world) : Prop := reg_wf (reg w).

Lemma step_wf w e w' : world_wf w → step w e w' → world_wf w'.
Proof.
  intros Hwf Hst. destruct Hst; unfold world_wf in *; cbn [reg]; eauto using surjective_pairing with proxy.
Qed.

Lemma view_unregister dead r s h :
  view dead (Unregister r (Some s)) h =
    match view dead r h with Some s' => if bool_decide (s' = s) then None else Some s' | None => None end.
Proof.
  unfold view. simpl. rewrite lookup_evict. destruct (tunnels r !! h) as [e|]; simpl; [|done].
  destruct (dead (session e)) eqn:Hd; case_decide; simpl; rewrite ?Hd; try done;
    [by rewrite bool_decide_eq_true_2|by rewrite bool_decide_eq_false_2].
Qed.

(** What [Register] does to the live view. *)
Lemma view_register dead r s hs r' res ls :
  reg_closed r = false → hs ≠ [] → normalize_hosts hs = Ret ls →
  Register dead r (Some s) hs = (r', res) →
  res = (abs_register dead (view dead r) s ls).2 ∧
  ∀ h, view dead r' h = (abs_register dead (view dead r) s ls).1 h.
Proof.
  intros Hcl Hne Hn HR. unfold Register in HR.
  rewrite bool_decide_eq_false_2 in HR by (by destruct hs). rewrite Hn, Hcl in HR.
  destruct (check_labels dead s (tunnels r) ls) as [t c] eqn:Hch.
  apply check_labels_spec in Hch as [Hv Hc]. unfold abs_register.
  change (tview dead (tunnels r)) with (view dead r) in *. rewrite <-Hc.
  destruct c as [h|]; simplify_eq; split; try done; intros h; simpl.
  unfold view at 1. simpl. rewrite lookup_insert_labels.
  case_bool_decide; simpl; [done|]. rewrite <-Hv. done.
Qed.
End Steps.

Section Ownership.
Context {U : UnicodeTables} {UL : UnicodeLaws U}.

(** Events that may take label [h] away from session [s]: [s] itself dies or
    is unregistered, or the registry closes. *)
Definition releases (s : nat) (e : event) : bool :=
  match e with
  | EvUnregister s' | EvScrub s' | EvDie s' => bool_decide (s' = s)
  | EvClose => true
  | EvRegister _ _ | EvLookup _ => false
  end.

Lemma view_Some_live dead r h s : view dead r h = Some s → dead s = false.
Proof.
  unfold view. destruct (tunnels r !! h) as [e|]; simpl; [|done].
  destruct (dead (session e)) eqn:?; [done|]. by intros [= <-].
Qed.

Lemma view_open dead r h s : reg_wf r → view dead r h = Some s → reg_closed r = false.
Proof.
  intros [_ Hc] Hv. destruct (reg_closed r) eqn:Hcl; [|done].
  unfold view in Hv. rewrite (Hc eq_refl), lookup_empty in Hv. done.
Qed.

Lemma Register_keeps dead r s' hs h s :
  view dead r h = Some s → reg_closed r = false →
  view dead (Register dead r (Some s') hs).1 h = Some s.
Proof.
  intros Hv Hcl. destruct (decide (hs = [])) as [->|Hne]; [done|].
  destruct (normalize_hosts hs) as [ls|e|] eqn:Hn.
  2,3: unfold Register; rewrite bool_decide_eq_false_2 by (by destruct hs); by rewrite Hn.
  destruct (Register dead r (Some s') hs) as [r' res] eqn:HR.
  destruct (view_register _ _ _ _ _ _ _ Hcl Hne Hn HR) as [_ ->].
  unfold abs_register. destruct (find_first _ ls) eqn:Hf; simpl; [done|].
  case_bool_decide as Hin; [|done].
  apply find_first_None in Hf. eapply Forall_forall in Hf; [|done].
  unfold refused in Hf. rewrite Hv in Hf. apply negb_false_iff, bool_decide_eq_true in Hf as ->.
  by rewrite (view_Some_live _ _ _ _ Hv).
Qed.

Lemma Lookup_keeps dead r host h s :
  view dead r h = Some s → view dead (Lookup dead r host).1 h = Some s.
Proof.
  intros Hv. unfold Lookup. destruct (tunnels r !! normalize host) as [e|]; [|done].
  destruct (isDead dead (Some (session e))) eqn:Hd; [|done]. cbn [fst].
  rewrite view_unregister, Hv. rewrite bool_decide_eq_false_2; [done|].
  intros ->. simpl in Hd. pose proof (view_Some_live _ _ _ _ Hv). congruence.
Qed.

Lemma step_keeps w e w' h s :
  world_wf w → view (is_closed w) (reg w) h = Some s → releases s e = false →
  step w e w' → view (is_closed w') (reg w') h = Some s.
Proof.
  intros Hwf Hv Hrel Hst. pose proof (view_open _ _ _ _ Hwf Hv) as Hcl.
  destruct Hst; simpl in Hrel; cbn [reg]; try apply bool_decide_eq_false in Hrel.
  - by apply Register_keeps.
  - rewrite view_unregister. replace (view _ (reg w) h) with (Some s) by (symmetry; exact Hv).
    by rewrite bool_decide_eq_false_2.
  - by apply Lookup_keeps.
  - rewrite view_unregister. replace (view _ (reg w) h) with (Some s) by (symmetry; exact Hv).
    by rewrite bool_decide_eq_false_2.
  - unfold view, is_closed in *. simpl in *. destruct (tunnels (reg w) !! h) as [e|]; simpl in *; [|done].
    destruct (bool_decide (session e ∈ dead_set w)) eqn:Hd; [done|]. simplify_eq.
    apply bool_decide_eq_false in Hd. rewrite bool_decide_eq_false_2 by set_solver. done.
  - done.
Qed.
End Ownership.

(** ** Properties *)
Section RegisterSpec.
Context {U : UnicodeTables}.

Lemma normalize_hosts_eq hs :
  normalize_hosts hs =
    if bool_decide ("" ∈ normalize <$> hs) then Err ErrEmptyLabel else Ret (normalize <$> hs).
Proof.
  induction hs as [|h hs IH]; simpl; [done|].
  destruct (decide (normalize h = "")) as [Hh|Hh].
  - rewrite bool_decide_eq_true_2 by done. simpl.
    by rewrite bool_decide_eq_true_2 by (rewrite Hh; set_solver).
  - rewrite bool_decide_eq_false_2 by done. simpl. rewrite IH.
    repeat case_bool_decide; simpl; set_solver.
Qed.

(** C11: [Register] refines the abstract registry.  Refused inputs leave the
    registry as it was; otherwise the call returns what the specification
    returns and the live view becomes the specified one: a label owned by
    another live session rejects the whole call and changes no live binding,
    while labels of dead owners are taken over. *)
Theorem register_refines (dead : nat → bool) (r : Registry) (s : nat) (hs : list string) :
  let ls := normalize <$> hs in
  let r' := (Register dead r (Some s) hs).1 in
  let res := (Register dead r (Some s) hs).2 in
  if bool_decide (hs = []) then r' = r ∧ res = Err ErrNoHosts
  else if bool_decide ("" ∈ ls) then r' = r ∧ res = Err ErrEmptyLabel
  else if reg_closed r then r' = r ∧ res = Err ErrRegistryClosed
  else res = (abs_register dead (view dead r) s ls).2 ∧
       ∀ h, view dead r' h = (abs_register dead (view dead r) s ls).1 h.
Proof.
  cbv zeta. case_bool_decide as Hne; [by subst|].
  pose proof (normalize_hosts_eq hs) as Hn. case_bool_decide as Hin.
  { unfold Register. rewrite bool_decide_eq_false_2 by (by destruct hs). by rewrite Hn. }
  destruct (reg_closed r) eqn:Hcl.
  { unfold Register. rewrite bool_decide_eq_false_2 by (by destruct hs). by rewrite Hn, Hcl. }
  by eapply view_register; [..|apply surjective_pairing].
Qed.

End RegisterSpec.

Section Properties.
Context {U : UnicodeTables} {UL : UnicodeLaws U}.

(** What was registered is found.  After a successful [Register] of a
    live session, every spelling of a host that normalises to one of the
    returned labels, and each returned label itself, resolves to that session
    and leaves the registry unchanged. *)
Theorem register_lookup (dead : nat → bool) (r r' : Registry) (s : nat) (hs ls : list string) :
  Register dead r (Some s) hs = (r', Ret ls) → dead s = false →
  ls = normalize <$> hs ∧
  ∀ host, normalize host ∈ ls ∨ host ∈ ls → Lookup dead r' host = (r', Ret s).
Proof.
  intros HR Hs. unfold Register in HR. case_bool_decide; [done|].
  destruct (normalize_hosts hs) as [ls'|e|] eqn:Hn; [|done..].
  destruct (normalize_hosts_Ret _ _ Hn) as [Hls _].
  destruct (reg_closed r); [done|].
  destruct (check_labels dead s (tunnels r) ls') as [t [c|]]; [done|].
  injection HR as <- <-. split; [done|]. intros host Hhost.
  assert (normalize host ∈ ls') as Hin.
  { destruct Hhost as [|Hhost]; [done|]. pose proof Hhost as Hhost'. rewrite Hls in Hhost.
    apply list_elem_of_fmap in Hhost as (x & -> & _). by rewrite normalize_idem. }
  unfold Lookup. simpl tunnels. rewrite lookup_insert_labels, bool_decide_eq_true_2 by done.
  simpl. by rewrite Hs.
Qed.

(** C12: [Lookup] returns exactly the live owner, [ErrNoTunnel] otherwise, and
    the clean-up of a dead owner changes no live binding. *)
Theorem lookup_refines (dead : nat → bool) (r : Registry) (host : string) :
  (Lookup dead r host).2 =
    match view dead r (normalize host) with Some s => Ret s | None => Err ErrNoTunnel end ∧
  ∀ h, view dead (Lookup dead r host).1 h = view dead r h.
Proof.
  unfold Lookup, view at 1. destruct (tunnels r !! normalize host) as [e|] eqn:He; [|done].
  cbn [mbind option_bind isDead]. destruct (dead (session e)) eqn:Hd; [|done]. split; [done|].
  intros h. cbn [fst]. rewrite view_unregister. destruct (view dead r h) as [s'|] eqn:Hv; [|done].
  rewrite bool_decide_eq_false_2; [done|]. intros ->.
  pose proof (view_Some_live _ _ _ _ Hv). congruence.
Qed.

(** No silent takeover.  Starting from a well-formed registry in which a
    live session owns a label, through any interleaving of registrations by
    any sessions, lookups, clean-ups of dead sessions and deaths of other
    sessions, the label keeps resolving to that session until it dies, is
    unregistered or the registry closes. *)
Theorem live_label_kept (w w' : world) (es : list event) (h : string) (s : nat) :
  world_wf w → view (is_closed w) (reg w) h = Some s →
  steps w es w' → Forall (λ e, releases s e = false) es →
  view (is_closed w') (reg w') h = Some s ∧ world_wf w'.
Proof.
  intros Hwf Hv Hst. induction Hst as [|w e w1 es w2 He _ IH]; intros Hall; [done|].
  apply Forall_cons in Hall as [Hrel Hall].
  apply IH; [by eapply step_wf|by eapply step_keeps|done].
Qed.
End Properties.

Section Witnesses.
#[local] Existing Instance identity_tables.
#[local] Existing Instance identity_tables_laws.

Definition nobody_dead : nat → bool := λ _, false.

Lemma register_lookup_witness :
  Lookup nobody_dead (Register nobody_dead New (Some 7) [" DB-1 "; "db-1.prod"]).1 "Db-1.PROD"
  = ((Register nobody_dead New (Some 7) [" DB-1 "; "db-1.prod"]).1, Ret 7).
Proof.
  refine (proj2 (register_lookup nobody_dead New _ 7 [" DB-1 "; "db-1.prod"]
    ["db-1"; "db-1.prod"] _ eq_refl) "Db-1.PROD" _).
  - vm_compute. reflexivity.
  - left. vm_compute. right. left.
Defined.

Definition world1 : world :=
  {| reg := (Register nobody_dead New (Some 7) ["db-1"]).1; dead_set := ∅ |}.

Lemma live_label_kept_witness :
  ∃ w', steps world1 [EvRegister 8 ["db-1"; "db-2"]; EvDie 8; EvLookup "db-2"] w' ∧
        view (is_closed w') (reg w') "db-1" = Some 7.
Proof.
  eexists. split; [eapply steps_cons; [apply step_register|]; eapply steps_cons; [apply step_die|];
    eapply steps_cons; [apply step_lookup|]; apply steps_nil|].
  eapply (live_label_kept world1 _ [EvRegister 8 ["db-1"; "db-2"]; EvDie 8; EvLookup "db-2"] "db-1" 7).
  - unfold world_wf. eapply (Register_wf nobody_dead New (Some 7) ["db-1"]);
      [apply New_wf|apply surjective_pairing].
  - vm_compute. reflexivity.
  - eapply steps_cons; [apply step_register|]; eapply steps_cons; [apply step_die|];
    eapply steps_cons; [apply step_lookup|]; apply steps_nil.
  - repeat constructor.
Defined.
End Witnesses.
