(* ===== verification/Listener.v ===== *)
(** * Package [routing]: the tunnel listener

    [internal/proxyd/routing/listener.go].  The SPIFFE host extractor, the
    validation of the configuration, and the accept loop with its
    per-connection handlers as a transition system over the registry of
    [Routing].  TLS and yamux are library code: what a connection yields (a
    verified chain, a yamux session) is data of the accepted connection. *)

From Stdlib Require Import ZArith Lia Ascii.
From stdpp Require Import prelude strings gmap list.
From S2P Require Import Prelude GoStrings Routing.

Local Open Scope go_scope.

(** ** Host labels of a workload certificate *)

(** The fields of [url.URL] and [x509.Certificate] the extractor reads. *)
Record URL := { Scheme : string; Path : string }.
Record Certificate := { URIs : list URL }.

Inductive SpiffeError :=
  | NilCert | MultipleSpiffeURIs | NoSpiffeURI
  | BadPath (path : string) | NoHostComponent | EmptyHostComponent.

(** The loop over [leaf.URIs]. *)
Fixpoint scan_spiffe (found : option URL) (uris : list URL) : outcome SpiffeError (option URL) :=
  match uris with
  | [] => Ret found
  | u :: rest =>
      if EqualFold_lower (Scheme u) "spiffe" then
        match found with
        | Some _ => Err MultipleSpiffeURIs
        | None => scan_spiffe (Some u) rest
        end
      else scan_spiffe found rest
  end.

(** The loop over the comma-separated parts. *)
Fixpoint host_parts (parts : list string) : list string :=
  match parts with
  | [] => []
  | p :: rest =>
      let p := TrimSpace p in
      if bool_decide (p = "") then host_parts rest else p :: host_parts rest
  end.

Definition spiffe_prefix : string := "/host/".

Definition HostFromSPIFFE (leaf : option Certificate) : outcome SpiffeError (list string) :=
  match leaf with
  | None => Err NilCert
  | Some leaf =>
      let! spiffeURI := scan_spiffe None (URIs leaf) in
      match spiffeURI with
      | None => Err NoSpiffeURI
      | Some u =>
          require HasPrefix (Path u) spiffe_prefix else BadPath (Path u);;
          let tail := TrimPrefix (Path u) spiffe_prefix in
          require negb (bool_decide (tail = "")) else NoHostComponent;;
          let out := host_parts (Split tail ",") in
          require negb (bool_decide (length out = 0)) else EmptyHostComponent;;
          Ret out
      end
  end.

Definition defaultHostExtractor := HostFromSPIFFE.

(** ** Configuration *)

(** [TLSConfig] and [CfgRegistry] are pointers; [None] is nil. *)
Record ListenerConfig := {
  Addr : string;
  TLSConfig : option nat;
  CfgRegistry : option nat;
  HostExtractor : option (option Certificate → outcome SpiffeError (list string))
}.
Inductive ListenerError := AddrRequired | TLSConfigRequired | RegistryRequired.

Definition NewListener (cfg : ListenerConfig) : outcome ListenerError ListenerConfig :=
  require negb (bool_decide (Addr cfg = "")) else AddrRequired;;
  require bool_decide (is_Some (TLSConfig cfg)) else TLSConfigRequired;;
  require bool_decide (is_Some (CfgRegistry cfg)) else RegistryRequired;;
  Ret {| Addr := Addr cfg; TLSConfig := TLSConfig cfg; CfgRegistry := CfgRegistry cfg;
         HostExtractor := Some (default defaultHostExtractor (HostExtractor cfg)) |}.

(** ** Connections and handlers *)

(** What an accepted connection turns out to be: whether it is a TLS
    connection, whether the handshake succeeds, the peer's chain, and the
    session [yamux.Server] builds ([None]: it fails). *)
Record Conn := {
  is_tls : bool;
  handshake_ok : bool;
  PeerCertificates : list Certificate;
  yamux_server : option nat
}.

(** Where a handler goroutine is: each constructor sits between two accesses
    to state shared with other goroutines. *)
Inductive phase :=
  | PhStart (c : Conn)
  | PhRegister (s : nat) (hosts : list string)
  | PhRefused (s : nat)
  | PhServing (s : nat) (registered : list string)
  | PhClosing (s : nat)
  | PhDone.

Section Handler.
Context {U : UnicodeTables}.
Context (extractor : option Certificate → outcome SpiffeError (list string)).

(** [handleConn] up to [yamux.Server]. *)
Definition handle_prologue (c : Conn) : phase :=
  if negb (is_tls c) then PhDone
  else if negb (handshake_ok c) then PhDone
  else match PeerCertificates c with
  | [] => PhDone
  | leaf :: _ =>
      match extractor (Some leaf) with
      | Ret hosts =>
          if bool_decide (length hosts = 0) then PhDone
          else match yamux_server c with
               | None => PhDone
               | Some s => PhRegister s hosts
               end
      | _ => PhDone
      end
  end.

Definition close_session (w : world) (s : nat) : world :=
  {| reg := reg w; dead_set := {[s]} ∪ dead_set w |}.

(** One step of [handleConn]; [None] while it blocks in [select] or when it
    has returned. *)
Definition handleConn (ctx_done : bool) (w : world) (p : phase) : option (world * phase) :=
  match p with
  | PhStart c => Some (w, handle_prologue c)
  | PhRegister s hosts =>
      let '(r, res) := Register (is_closed w) (reg w) (Some s) hosts in
      let w' := {| reg := r; dead_set := dead_set w |} in
      match res with
      | Ret registered => Some (w', PhServing s registered)
      | _ => Some (w', PhRefused s)
      end
  | PhRefused s => Some (close_session w s, PhDone)
  | PhServing s _ =>
      if is_closed w s || ctx_done
      then Some ({| reg := Unregister (reg w) (Some s); dead_set := dead_set w |}, PhClosing s)
      else None
  | PhClosing s => Some (close_session w s, PhDone)
  | PhDone => None
  end.
End Handler.

(** ** The accept loop *)
Inductive serve_error := ServeCtx | ServeAccept.

Inductive loop :=
  | Accepting
  | Draining (e : serve_error)
  | Returned (e : serve_error).

Record server := {
  srv_world : world;
  ctx_done : bool;
  srv_loop : loop;
  handlers : gmap nat phase
}.

Definition phase_session (p : phase) : option nat :=
  match p with
  | PhStart c => yamux_server c
  | PhRegister s _ | PhRefused s | PhServing s _ | PhClosing s => Some s
  | PhDone => None
  end.

Section Serve.
Context {U : UnicodeTables}.
Context (extractor : option Certificate → outcome SpiffeError (list string)).

(** A yamux session is a fresh object: no other handler holds it. *)
Definition fresh_conn (st : server) (c : Conn) : Prop :=
  ∀ i p s, handlers st !! i = Some p → yamux_server c = Some s → phase_session p ≠ Some s.

Inductive serve : server → server → Prop :=
  | serve_accept w d hs i c :
      hs !! i = None →
      fresh_conn {| srv_world := w; ctx_done := d; srv_loop := Accepting; handlers := hs |} c →
      serve {| srv_world := w; ctx_done := d; srv_loop := Accepting; handlers := hs |}
            {| srv_world := w; ctx_done := d; srv_loop := Accepting;
               handlers := <[i := PhStart c]> hs |}
  | serve_accept_err w (d : bool) hs :
      serve {| srv_world := w; ctx_done := d; srv_loop := Accepting; handlers := hs |}
            {| srv_world := w; ctx_done := d;
               srv_loop := Draining (if d then ServeCtx else ServeAccept); handlers := hs |}
  | serve_return w d e hs :
      map_Forall (λ _ p, p = PhDone) hs →
      serve {| srv_world := w; ctx_done := d; srv_loop := Draining e; handlers := hs |}
            {| srv_world := w; ctx_done := d; srv_loop := Returned e; handlers := hs |}
  | serve_handler w d l hs i p w' p' :
      hs !! i = Some p → handleConn extractor d w p = Some (w', p') →
      serve {| srv_world := w; ctx_done := d; srv_loop := l; handlers := hs |}
            {| srv_world := w'; ctx_done := d; srv_loop := l; handlers := <[i := p']> hs |}
  | serve_cancel w d l hs :
      serve {| srv_world := w; ctx_done := d; srv_loop := l; handlers := hs |}
            {| srv_world := w; ctx_done := true; srv_loop := l; handlers := hs |}
  (** the rest of the program: lookups by user sessions, sessions that die,
      the shutdown of the registry *)
  | serve_client w d l hs e w' :
      match e with EvLookup _ | EvScrub _ | EvDie _ | EvClose => True | _ => False end →
      step w e w' →
      serve {| srv_world := w; ctx_done := d; srv_loop := l; handlers := hs |}
            {| srv_world := w'; ctx_done := d; srv_loop := l; handlers := hs |}.

Definition server_init : server :=
  {| srv_world := {| reg := New; dead_set := ∅ |}; ctx_done := false;
     srv_loop := Accepting; handlers := ∅ |}.

Definition reachable : server → Prop := rtc serve server_init.
End Serve.

(** ** Facts about the extractor *)
Definition is_spiffe (u : URL) : bool := EqualFold_lower (Scheme u) "spiffe".

Section SpiffeFacts.
Lemma scan_spiffe_spec found uris :
  scan_spiffe found uris =
    match found, List.filter is_spiffe uris with
    | _, [] => Ret found
    | None, [u] => Ret (Some u)
    | _, _ => Err MultipleSpiffeURIs
    end.
Proof.
  revert found. induction uris as [|u uris IH]; intros found; simpl; [by destruct found|].
  change (is_spiffe u) with (EqualFold_lower (Scheme u) "spiffe").
  destruct (EqualFold_lower (Scheme u) "spiffe"); [|apply IH].
  destruct found; [done|]. rewrite IH. by destruct (List.filter is_spiffe uris).
Qed.

Lemma host_parts_spec parts :
  host_parts parts = filter (.≠ "") (TrimSpace <$> parts).
Proof.
  induction parts as [|p parts IH]; [done|]. cbn [host_parts]. rewrite IH, fmap_cons, filter_cons.
  case_bool_decide; case_decide; done.
Qed.

Lemma HasPrefix_app p s : HasPrefix (p +:+ s) p = true.
Proof.
  unfold HasPrefix. apply bool_decide_eq_true. rewrite chars_app. by apply prefix_app_r.
Qed.

Lemma TrimPrefix_app p s : TrimPrefix (p +:+ s) p = s.
Proof.
  unfold TrimPrefix. rewrite HasPrefix_app. unfold str_drop, str_len.
  by rewrite chars_app, drop_app_length, of_chars_chars.
Qed.

Lemma HostFromSPIFFE_ok u leaf tail :
  List.filter is_spiffe (URIs leaf) = [u] → Path u = spiffe_prefix +:+ tail →
  HostFromSPIFFE (Some leaf) =
    let hs := filter (.≠ "") (TrimSpace <$> Split tail ",") in
    if bool_decide (tail = "") then Err NoHostComponent
    else if bool_decide (hs = []) then Err EmptyHostComponent else Ret hs.
Proof.
  intros Hu Hp. unfold HostFromSPIFFE. rewrite scan_spiffe_spec, Hu. cbn [obind].
  rewrite Hp, HasPrefix_app, TrimPrefix_app. cbn [guard_else obind].
  case_bool_decide; [done|]. cbn [negb guard_else obind]. rewrite host_parts_spec. cbv zeta.
  destruct (filter _ _); done.
Qed.

(** Comma-joined lists of labels. *)
Fixpoint comma_join (labels : list string) : string :=
  match labels with
  | [] => ""
  | [l] => l
  | l :: ls => l +:+ "," +:+ comma_join ls
  end.

Lemma chars_comma_join labels : chars (comma_join labels) = join_chars "," (chars <$> labels).
Proof.
  induction labels as [|l [|l' ls] IH]; [done|done|].
  change (comma_join (l :: l' :: ls)) with (l +:+ "," +:+ comma_join (l' :: ls)).
  rewrite !chars_app, IH. done.
Qed.

Lemma Split_comma_join labels :
  labels ≠ [] → Forall (λ l, contains_byte l "," = false) labels →
  Split (comma_join labels) "," = labels.
Proof.
  intros Hne Hall. unfold Split. rewrite chars_comma_join, split_join.
  - rewrite <-list_fmap_compose. etransitivity; [|apply list_fmap_id].
    apply list_fmap_ext. intros i l _. unfold compose. apply of_chars_chars.
  - by destruct labels.
  - apply Forall_fmap. eapply Forall_impl; [done|]. intros l. by rewrite contains_byte_false.
Qed.
End SpiffeFacts.

(** ** Facts about the accept loop *)
Section ServeFacts.
Context {U : UnicodeTables} {UL : UnicodeLaws U}.
Context (extractor : option Certificate → outcome SpiffeError (list string)).

(** Every binding of the registry belongs to a serving handler, and every
    handler has a session of its own. *)
Record owned (st : server) : Prop := {
  owned_wf : world_wf (srv_world st);
  owned_entry h e : tunnels (reg (srv_world st)) !! h = Some e →
    ∃ i, handlers st !! i = Some (PhServing (session e) (hosts e));
  owned_distinct i j p q s : handlers st !! i = Some p → handlers st !! j = Some q →
    phase_session p = Some s → phase_session q = Some s → i = j;
  owned_returned e : srv_loop st = Returned e → map_Forall (λ _ p, p = PhDone) (handlers st)
}.

Lemma owned_init : owned server_init.
Proof. split; simpl; [split; by simpl|intros h e; by rewrite lookup_empty|..]; done. Qed.

(** Steps of the registry that only remove bindings. *)
Lemma Unregister_sub r s h e : tunnels (Unregister r s) !! h = Some e → tunnels r !! h = Some e.
Proof.
  destruct s as [s|]; [|done]. simpl. rewrite lookup_evict.
  destruct (tunnels r !! h); simpl; [|done]. by case_decide.
Qed.

Lemma Lookup_sub dead r host h e :
  tunnels (Lookup dead r host).1 !! h = Some e → tunnels r !! h = Some e.
Proof.
  unfold Lookup. destruct (tunnels r !! normalize host) as [e'|]; [|done].
  destruct (isDead _ _); [|done]. apply (Unregister_sub r (Some _)).
Qed.

Lemma client_step_sub w e w' h x :
  match e with EvLookup _ | EvScrub _ | EvDie _ | EvClose => True | _ => False end →
  step w e w' → tunnels (reg w') !! h = Some x → tunnels (reg w) !! h = Some x.
Proof.
  intros He Hst. destruct Hst; try done; cbn [reg].
  - apply Lookup_sub.
  - apply (Unregister_sub _ (Some s)).
  - unfold Close. case_match; [done|]. cbn [fst tunnels]. by rewrite lookup_empty.
Qed.

Lemma check_labels_sub dead s t ls t' c h e :
  check_labels dead s t ls = (t', c) → t' !! h = Some e → t !! h = Some e.
Proof.
  revert t. induction ls as [|l ls IH]; intros t; cbn [check_labels]; [by intros [= <- <-]|].
  destruct (t !! l) as [x|]; [|by apply IH]. case_bool_decide; [by apply IH|].
  case_match; [|by intros [= <- <-]]. intros Hc Ht'. specialize (IH _ Hc Ht').
  rewrite lookup_evict in IH. destruct (t !! h); simpl in *; [|done]. by case_decide.
Qed.

(** A registration binds its own labels and otherwise only removes. *)
Lemma Register_entries dead r s hs h e :
  tunnels (Register dead r (Some s) hs).1 !! h = Some e →
  tunnels r !! h = Some e ∨
  (session e = s ∧ (Register dead r (Some s) hs).2 = Ret (hosts e)).
Proof.
  unfold Register. case_bool_decide; [by left|].
  destruct (normalize_hosts hs) as [ls|?|]; [|by left..].
  destruct (reg_closed r); [by left|].
  destruct (check_labels dead s (tunnels r) ls) as [t [c|]] eqn:Hc; cbn [fst tunnels].
  - left. by eapply check_labels_sub.
  - rewrite lookup_insert_labels. case_bool_decide; intros; simplify_eq; simpl; [by right|].
    left. by eapply check_labels_sub.
Qed.

Lemma handleConn_session d w p w' p' s :
  handleConn extractor d w p = Some (w', p') → phase_session p' = Some s → phase_session p = Some s.
Proof.
  destruct p as [c|s' hs| | | |]; cbn [handleConn phase_session]; intros Hh Hs; simplify_eq;
    cbn [phase_session] in *; try done.
  - unfold handle_prologue in Hs. repeat case_match; simplify_eq/=; done.
  - destruct (Register (is_closed w) (reg w) (Some s') hs) as [r [| |]]; simplify_eq/=; done.
  - case_match; simplify_eq/=; done.
Qed.

Lemma handleConn_wf d w p w' p' :
  handleConn extractor d w p = Some (w', p') → world_wf w → world_wf w'.
Proof.
  intros Hh Hwf. unfold world_wf in *. destruct p as [c|s hs|s|s ls|s|]; cbn [handleConn] in Hh; simplify_eq; try done.
  - destruct (Register (is_closed w) (reg w) (Some s) hs) as [r res] eqn:HR.
    assert (reg_wf r) by (eapply Register_wf; done). destruct res; by simplify_eq.
  - case_match; simplify_eq. cbn [reg]. by apply (Unregister_wf _ (Some s)).
Qed.

(** Which bindings can remain after a handler's step. *)
Lemma handleConn_entries d w p w' p' h e :
  handleConn extractor d w p = Some (w', p') → tunnels (reg w') !! h = Some e →
  (tunnels (reg w) !! h = Some e ∧ ∀ ls, p = PhServing (session e) ls → False)
  ∨ p' = PhServing (session e) (hosts e)
  ∨ (tunnels (reg w) !! h = Some e ∧ phase_session p ≠ Some (session e)).
Proof.
  intros Hh Ht. destruct p as [c|s hs|s|s ls|s|]; cbn [handleConn] in Hh; simplify_eq; try by left.
  - destruct (Register (is_closed w) (reg w) (Some s) hs) as [r res] eqn:HR.
    pose proof (Register_entries (is_closed w) (reg w) s hs h e) as HE. rewrite HR in HE.
    assert (r = reg w') as -> by (by destruct res; simplify_eq).
    destruct (HE Ht) as [|[<- Hres]]; [by left|]. simpl in Hres. subst res. simplify_eq.
    by right; left.
  - case_match; simplify_eq. right; right. cbn [reg Unregister tunnels] in Ht.
    rewrite lookup_evict in Ht. destruct (tunnels (reg w) !! h) as [x|]; simpl in *; [|done].
    case_decide; simplify_eq. split; [done|]. simpl. congruence.
Qed.

Lemma owned_handler w d l hs i p w' p' :
  owned {| srv_world := w; ctx_done := d; srv_loop := l; handlers := hs |} →
  hs !! i = Some p → handleConn extractor d w p = Some (w', p') →
  owned {| srv_world := w'; ctx_done := d; srv_loop := l; handlers := <[i := p']> hs |}.
Proof.
  intros [Hwf Hent Hdis Hret] Hi Hh; simpl in *. split; simpl.
  - by eapply handleConn_wf.
  - intros h e He. assert (∀ j ls, j ≠ i → hs !! j = Some (PhServing (session e) ls) →
      <[i:=p']> hs !! j = Some (PhServing (session e) ls)) as Hj.
    { intros. by rewrite lookup_insert_ne. }
    destruct (handleConn_entries _ _ _ _ _ _ _ Hh He) as [[Ho Hp]|[->|[Ho Hp]]].
    + destruct (Hent h e Ho) as [j Hjs]. exists j. apply Hj; [|done]. intros ->.
      rewrite Hi in Hjs. simplify_eq. by eapply Hp.
    + exists i. by rewrite lookup_insert_eq.
    + destruct (Hent h e Ho) as [j Hjs]. exists j. apply Hj; [|done]. intros ->.
      rewrite Hi in Hjs. by simplify_eq.
  - intros j k q r s. rewrite !lookup_insert.
    case_decide; case_decide; simplify_eq/=; intros; simplify_eq; try done.
    + eapply (Hdis j k p r); eauto using handleConn_session.
    + eapply (Hdis j k q p); eauto using handleConn_session.
    + by eapply Hdis.
  - intros e Hl. specialize (Hret e Hl). apply Hret in Hi. simpl in Hi. by subst p.
Qed.

Lemma owned_step st st' : owned st → serve extractor st st' → owned st'.
Proof.
  intros Ho Hst. destruct Hst as [w d hs i c Hi Hfr|w d hs|w d e hs Hall|w d l hs i p w' p' Hi Hh|w d l hs|w d l hs ev w' Hev Hw].
  - destruct Ho as [Hwf Hent Hdis Hret]; simpl in *. split; simpl; [done| |..]; try done.
    + intros h e He. destruct (Hent h e He) as [j Hj]. exists j.
      rewrite lookup_insert_ne; [done|]. congruence.
    + intros j k q r s. rewrite !lookup_insert.
      case_decide; case_decide; simplify_eq/=; intros; simplify_eq/=; try done.
      * by destruct (Hfr k r s).
      * by destruct (Hfr j q s).
      * by eapply Hdis.
  - destruct Ho; by split.
  - destruct Ho; split; try done.
  - by eapply owned_handler.
  - destruct Ho; by split.
  - destruct Ho as [Hwf Hent Hdis Hret]; simpl in *. split; simpl; try done.
    + by eapply step_wf.
    + intros h e He. eapply Hent, client_step_sub; eauto.
Qed.

Lemma owned_reachable st : reachable extractor st → owned st.
Proof.
  intros Hr. unfold reachable in Hr.
  assert (∀ a b, rtc (serve extractor) a b → owned a → owned b) as H.
  { intros a b Hab. induction Hab; eauto using owned_step. }
  eapply H; [done|apply owned_init].
Qed.
End ServeFacts.

(** ** Properties *)

(** C37: the labels of a workload certificate.  For a certificate with exactly
    one URI of scheme [spiffe] (in any case) whose path is "/host/" followed by
    comma-separated labels, [HostFromSPIFFE] gives back exactly those labels,
    whatever other URIs the certificate carries. *)
Theorem spiffe_labels_roundtrip (leaf : Certificate) (u : URL) (labels : list string) :
  List.filter is_spiffe (URIs leaf) = [u] →
  Path u = "/host/" +:+ comma_join labels →
  labels ≠ [] →
  Forall (λ l, l ≠ "" ∧ TrimSpace l = l ∧ contains_byte l "," = false) labels →
  HostFromSPIFFE (Some leaf) = Ret labels.
Proof.
  intros Hu Hp Hne Hall. rewrite (HostFromSPIFFE_ok u leaf (comma_join labels)) by done.
  rewrite Split_comma_join; [|done|eapply Forall_impl; [done|]; by intros l (_&_&?)].
  assert (filter (.≠ "") (TrimSpace <$> labels) = labels) as ->.
  { clear -Hall. induction Hall as [|l ls (Hl & Ht & _) _ IH]; [done|].
    rewrite fmap_cons, Ht, filter_cons, decide_True, IH by done. done. }
  cbv zeta. rewrite (bool_decide_eq_false_2 (labels = [])) by done.
  rewrite bool_decide_eq_false_2; [done|].
  intros Hj. destruct labels as [|l ls]; [done|].
  apply Forall_cons in Hall as [(Hl & _) _]. apply Hl.
  apply chars_nil. apply chars_nil in Hj. rewrite chars_comma_join in Hj.
  destruct ls; [done|]. simpl in Hj. by destruct (chars l).
Qed.

(** What a peer certificate can register.  [HostFromSPIFFE] succeeds only
    on a certificate with exactly one SPIFFE URI, of a path under "/host/", and
    then every label is non-empty and trimmed, and there is at
    least one. *)
Theorem spiffe_labels_sound (leaf : Certificate) (hs : list string) :
  HostFromSPIFFE (Some leaf) = Ret hs →
  (∃ u, List.filter is_spiffe (URIs leaf) = [u] ∧ HasPrefix (Path u) "/host/" = true) ∧
  hs ≠ [] ∧ Forall (λ l, l ≠ "" ∧ TrimSpace l = l) hs.
Proof.
  intros H. cbn [HostFromSPIFFE] in H. inv_outcome.
  rewrite scan_spiffe_spec in H_m.
  destruct (List.filter is_spiffe (URIs leaf)) as [|u [|??]] eqn:Hf; simplify_eq.
  cbv zeta in H. inv_outcome.
  split; [by exists u|]. rewrite host_parts_spec in *. split.
  - intros Hn. rewrite Hn in H_m1. done.
  - apply Forall_forall. intros l Hl. apply list_elem_of_filter in Hl as [Hl Hin].
    apply list_elem_of_fmap in Hin as (x & -> & _). by rewrite TrimSpace_idem.
Qed.

Section ServeProperties.
Context {U : UnicodeTables} {UL : UnicodeLaws U}.
Context (extractor : option Certificate → outcome SpiffeError (list string)).

(** C13: no registration outlives its handler.  In every reachable state of the
    listener, with any number of connections, lookups, dying sessions and
    cancellation interleaved, each label the registry resolves is held by a
    handler that is blocked serving that very session with that very label
    list; so a connection that was refused, or whose handler has passed its
    clean-up, is never routed to. *)
Theorem registered_iff_serving (st : server) (h : string) (e : entry) :
  reachable extractor st → tunnels (reg (srv_world st)) !! h = Some e →
  h ∈ hosts e ∧ ∃ i, handlers st !! i = Some (PhServing (session e) (hosts e)) ∧
    ∀ j p, handlers st !! j = Some p → phase_session p = Some (session e) → j = i.
Proof.
  intros [Hwf Hent Hdis _]%owned_reachable He. split; [apply (proj1 Hwf h e He)|].
  destruct (Hent h e He) as [i Hi]. exists i. split; [done|].
  intros j p Hj Hp. by eapply Hdis.
Qed.

(** [Serve] returns only after every handler has, and then the registry is
    empty: [wg.Wait] runs after the last clean-up. *)
Theorem serve_returns_drained (st : server) (e : serve_error) :
  reachable extractor st → srv_loop st = Returned e →
  map_Forall (λ _ p, p = PhDone) (handlers st) ∧ Len (reg (srv_world st)) = 0.
Proof.
  intros [Hwf Hent Hdis Hret]%owned_reachable Hl. specialize (Hret e Hl). split; [done|].
  unfold Len. apply map_size_empty_iff, map_empty. intros h.
  destruct (tunnels (reg (srv_world st)) !! h) as [x|] eqn:Hx; [|done].
  destruct (Hent h x Hx) as [i Hi]. apply Hret in Hi. done.
Qed.
End ServeProperties.

(** The handler run alone from a phase, at most [n] steps. *)
Section Shutdown.
Context {U : UnicodeTables}.
Context (extractor : option Certificate → outcome SpiffeError (list string)).

Fixpoint handler_run (n : nat) (d : bool) (w : world) (p : phase) : world * phase :=
  match n with
  | O => (w, p)
  | S n => match handleConn extractor d w p with
           | None => (w, p)
           | Some (w', p') => handler_run n d w' p'
           end
  end.

Lemma handler_run_S n d w p w' p' :
  handleConn extractor d w p = Some (w', p') →
  handler_run (S n) d w p = handler_run n d w' p'.
Proof. intros H. cbn [handler_run]. by rewrite H. Qed.

Lemma handler_run_done n d w : handler_run n d w PhDone = (w, PhDone).
Proof. by destruct n. Qed.

(** Shutdown terminates.  Once the context is cancelled (or the session is
    dead), every handler that has its session finishes within three of its own
    steps, whatever the registry answers; it ends with the yamux session closed
    and no label resolving to it. *)
Theorem handler_shutdown (d : bool) (w : world) (p : phase) (s : nat) :
  d = true ∨ s ∈ dead_set w →
  p = PhRefused s ∨ (∃ hs, p = PhRegister s hs) ∨ (∃ ls, p = PhServing s ls) ∨ p = PhClosing s →
  let '(w', p') := handler_run 3 d w p in
  p' = PhDone ∧ s ∈ dead_set w' ∧ ∀ h, view (is_closed w') (reg w') h ≠ Some s.
Proof.
  intros Hd Hp.
  assert (∀ w, s ∈ dead_set w → ∀ h, view (is_closed w) (reg w) h ≠ Some s) as Hdead.
  { intros w0 Hs h Hv. apply view_Some_live in Hv. unfold is_closed in Hv.
    by apply bool_decide_eq_false in Hv. }
  assert (∀ r ds, s ∈ dead_set (close_session {| reg := r; dead_set := ds |} s)) as Hcs
    by (intros; unfold close_session; simpl; set_solver).
  assert (∀ n w, n ≠ 0 → handler_run n d w (PhClosing s) = (close_session w s, PhDone)) as Hclo.
  { intros [|n] w0 ?; [done|]. cbn [handler_run handleConn]. apply handler_run_done. }
  assert (∀ n w ls, (d = true ∨ s ∈ dead_set w) → 2 ≤ n →
    handler_run n d w (PhServing s ls) =
      (close_session {| reg := Unregister (reg w) (Some s); dead_set := dead_set w |} s, PhDone)) as Hser.
  { intros [|n] w0 ls Hw Hn; [lia|]. cbn [handler_run handleConn].
    assert (is_closed w0 s || d = true) as ->.
    { unfold is_closed. destruct Hw as [->|]; [apply orb_true_r|].
      by rewrite bool_decide_eq_true_2. }
    apply Hclo. lia. }
  destruct Hp as [->|[[hs ->]|[[ls ->]| ->]]].
  - cbn [handler_run handleConn]. split; [done|]. destruct w. eauto.
  - assert (∃ r, (∃ ls, handleConn extractor d w (PhRegister s hs) =
        Some ({| reg := r; dead_set := dead_set w |}, PhServing s ls)) ∨
      handleConn extractor d w (PhRegister s hs) =
        Some ({| reg := r; dead_set := dead_set w |}, PhRefused s)) as [r Hr].
    { cbn [handleConn]. destruct (Register (is_closed w) (reg w) (Some s) hs) as [r [ls| |]];
        exists r; eauto. }
    destruct Hr as [[ls Hr]|Hr]; rewrite (handler_run_S _ _ _ _ _ _ Hr).
    + rewrite Hser; [eauto|done|lia].
    + cbn [handler_run handleConn]. eauto.
  - rewrite Hser by (done || lia). eauto.
  - rewrite Hclo by lia. destruct w. eauto.
Qed.
End Shutdown.

(** ** Witnesses *)
Section Witnesses.
#[local] Existing Instance identity_tables.
#[local] Existing Instance identity_tables_laws.

Definition example_leaf : Certificate :=
  {| URIs := [{| Scheme := "https"; Path := "/x" |};
              {| Scheme := "SPIFFE"; Path := "/host/db-1.prod,db-1" |}] |}.

Lemma spiffe_labels_roundtrip_witness :
  HostFromSPIFFE (Some example_leaf) = Ret ["db-1.prod"; "db-1"].
Proof.
  apply (spiffe_labels_roundtrip example_leaf
    {| Scheme := "SPIFFE"; Path := "/host/db-1.prod,db-1" |}).
  - vm_compute. reflexivity.
  - vm_compute. reflexivity.
  - discriminate.
  - repeat constructor; try discriminate; vm_compute; reflexivity.
Defined.

Lemma spiffe_labels_sound_witness :
  HostFromSPIFFE (Some example_leaf) = Ret ["db-1.prod"; "db-1"] ∧
  Forall (λ l, l ≠ "" ∧ TrimSpace l = l) ["db-1.prod"; "db-1"].
Proof.
  split; [vm_compute; reflexivity|].
  eapply (spiffe_labels_sound example_leaf). vm_compute. reflexivity.
Defined.

Definition example_conn : Conn :=
  {| is_tls := true; handshake_ok := true; PeerCertificates := [example_leaf];
     yamux_server := Some 7 |}.

(** The server with one connection accepted and registered. *)
Definition example_world : world :=
  {| reg := (Register nobody_dead New (Some 7) ["db-1.prod"; "db-1"]).1; dead_set := ∅ |}.
Definition example_server : server :=
  {| srv_world := example_world; ctx_done := false; srv_loop := Accepting;
     handlers := <[0 := PhServing 7 ["db-1.prod"; "db-1"]]>
       (<[0 := PhRegister 7 ["db-1.prod"; "db-1"]]> (<[0 := PhStart example_conn]> ∅)) |}.

Lemma example_reachable : reachable HostFromSPIFFE example_server.
Proof.
  eapply rtc_l; [apply (serve_accept _ _ _ _ 0 example_conn)|].
  { vm_compute. reflexivity. }
  { intros i p s. simpl. by rewrite lookup_empty. }
  pose (w0 := {| reg := New; dead_set := ∅ |}).
  eapply rtc_l; [apply (serve_handler HostFromSPIFFE w0 false Accepting _ 0 (PhStart example_conn) w0
    (PhRegister 7 ["db-1.prod"; "db-1"])); vm_compute; reflexivity|].
  eapply rtc_l; [apply (serve_handler HostFromSPIFFE w0 false Accepting _ 0
    (PhRegister 7 ["db-1.prod"; "db-1"]) example_world
    (PhServing 7 ["db-1.prod"; "db-1"])); vm_compute; reflexivity|].
  apply rtc_refl.
Qed.

Lemma registered_iff_serving_witness :
  ∃ e, tunnels (reg (srv_world example_server)) !! "db-1" = Some e ∧ "db-1" ∈ hosts e ∧
    ∃ i, handlers example_server !! i = Some (PhServing (session e) (hosts e)).
Proof.
  eexists. split; [vm_compute; reflexivity|].
  destruct (registered_iff_serving HostFromSPIFFE example_server "db-1" _
    example_reachable ltac:(vm_compute; reflexivity)) as (Hin & i & Hi & _).
  split; [exact Hin|]. exists i. exact Hi.
Defined.

Definition drained_server : server :=
  {| srv_world := {| reg := New; dead_set := ∅ |}; ctx_done := true;
     srv_loop := Returned ServeCtx; handlers := ∅ |}.

Lemma drained_reachable : reachable HostFromSPIFFE drained_server.
Proof.
  eapply rtc_l; [apply serve_cancel|]. eapply rtc_l; [apply serve_accept_err|].
  eapply rtc_l; [apply serve_return; apply map_Forall_empty|apply rtc_refl].
Qed.

Lemma serve_returns_drained_witness : Len (reg (srv_world drained_server)) = 0.
Proof.
  exact (proj2 (serve_returns_drained HostFromSPIFFE drained_server ServeCtx
    drained_reachable eq_refl)).
Defined.

Lemma handler_shutdown_witness :
  let '(w', p') := handler_run HostFromSPIFFE 3 true example_world
                     (PhServing 7 ["db-1.prod"; "db-1"]) in
  p' = PhDone ∧ 7 ∈ dead_set w' ∧ ∀ h, view (is_closed w') (reg w') h ≠ Some 7.
Proof.
  refine (handler_shutdown HostFromSPIFFE true example_world
    (PhServing 7 ["db-1.prod"; "db-1"]) 7 _ _).
  - left; reflexivity.
  - right; right; left. eexists. reflexivity.
Defined.
End Witnesses.
