(* ===== verification/GoSsh.v ===== *)
(** * Data of golang.org/x/crypto/ssh

    The data types of the SSH library that the proxy's own code reads or
    builds.  The library's functions stay parameters: the wire decoder
    [Unmarshal] is the class [SshWire], with the round trips of RFC 4251/4254
    it documents as [SshWireLaws]. *)

From Stdlib Require Import ZArith Lia Ascii.
From stdpp Require Import prelude strings gmap list.
From S2P Require Import Prelude GoStrings Rbac.

Local Open Scope Z_scope.

(** The fields of [gossh.Certificate] that are read; [SignatureKey] is the
    marshalled key of the signing CA. *)
Definition UserCert : Z := 1.
Record Certificate := {
  Serial : Z;
  CertType : Z;
  KeyId : string;
  ValidPrincipals : list string;
  CertPermissions : Permissions;
  SignatureKey : string
}.

(** [gossh.PublicKey]: a certificate or a bare key. *)
Inductive PublicKey :=
  | CertKey (c : Certificate)
  | RawKey (blob : string).

Record Request := { Type_ : string; WantReply : bool; Payload : list ascii }.

(** [gossh.RejectionReason]. *)
Definition Prohibited : Z := 1.
Definition ConnectionFailed : Z := 2.

(** An error of [Client.OpenChannel]: the peer's refusal, or anything else. *)
Inductive open_error :=
  | OpenChannelError (reason : Z) (message : string)
  | OtherOpenError (text : string).

(** ** Wire format *)
Definition uint32_range (z : Z) : Prop := 0 ≤ z < 2^32.

Definition be32 (z : Z) : list ascii :=
  [byte_of (z / 2^24); byte_of (z / 2^16 mod 256); byte_of (z / 2^8 mod 256); byte_of (z mod 256)].

(** [binary.BigEndian.Uint32(b[0:4])] *)
Definition Uint32 (b : list ascii) : option (Z * list ascii) :=
  match b with
  | b0 :: b1 :: b2 :: b3 :: rest =>
      Some (byte_val b0 * 2^24 + byte_val b1 * 2^16 + byte_val b2 * 2^8 + byte_val b3, rest)
  | _ => None
  end.

Definition ssh_string (s : string) : list ascii :=
  be32 (Z.of_nat (str_len s)) ++ chars s.

Record ptyRequestMsg := {
  Term : string; Cols : Z; Rows : Z; WidthPixels : Z; HeightPixels : Z; Modes : string
}.
Record directTCPIPRequest := {
  DestHost : string; DestPort : Z; OriginHost : string; OriginPort : Z
}.

Definition marshal_pty (p : ptyRequestMsg) : list ascii :=
  ssh_string (Term p) ++ be32 (Cols p) ++ be32 (Rows p) ++
  be32 (WidthPixels p) ++ be32 (HeightPixels p) ++ ssh_string (Modes p).
Definition marshal_tcpip (r : directTCPIPRequest) : list ascii :=
  ssh_string (DestHost r) ++ be32 (DestPort r) ++
  ssh_string (OriginHost r) ++ be32 (OriginPort r).

Definition short (s : string) : Prop := uint32_range (Z.of_nat (str_len s)).
Definition pty_ok (p : ptyRequestMsg) : Prop :=
  short (Term p) ∧ uint32_range (Cols p) ∧ uint32_range (Rows p) ∧
  uint32_range (WidthPixels p) ∧ uint32_range (HeightPixels p) ∧ short (Modes p).
Definition tcpip_ok (r : directTCPIPRequest) : Prop :=
  short (DestHost r) ∧ uint32_range (DestPort r) ∧
  short (OriginHost r) ∧ uint32_range (OriginPort r).

(** [gossh.Unmarshal] at the three struct types it is used at. *)
Class SshWire := {
  Unmarshal_string : list ascii → option string;
  Unmarshal_pty : list ascii → option ptyRequestMsg;
  Unmarshal_tcpip : list ascii → option directTCPIPRequest
}.
Class SshWireLaws (W : SshWire) : Prop := {
  unmarshal_string s : short s → Unmarshal_string (ssh_string s) = Some s;
  unmarshal_pty p : pty_ok p → Unmarshal_pty (marshal_pty p) = Some p;
  unmarshal_pty_range l p : Unmarshal_pty l = Some p → uint32_range (Cols p) ∧ uint32_range (Rows p);
  unmarshal_tcpip r : tcpip_ok r → Unmarshal_tcpip (marshal_tcpip r) = Some r
}.

(** ** A concrete decoder, at which the laws hold *)
Definition take_string (b : list ascii) : option (string * list ascii) :=
  '(n, rest) ← Uint32 b;
  if bool_decide (n ≤ Z.of_nat (length rest))
  then Some (of_chars (take (Z.to_nat n) rest), drop (Z.to_nat n) rest) else None.

Definition at_end {A} (p : A * list ascii) : option A :=
  match p with (a, []) => Some a | _ => None end.

Definition rfc_wire : SshWire := {|
  Unmarshal_string b := take_string b ≫= at_end;
  Unmarshal_pty b :=
    '(term, b) ← take_string b; '(cols, b) ← Uint32 b; '(rows, b) ← Uint32 b;
    '(wpx, b) ← Uint32 b; '(hpx, b) ← Uint32 b; '(modes, b) ← take_string b;
    at_end ({| Term := term; Cols := cols; Rows := rows; WidthPixels := wpx;
               HeightPixels := hpx; Modes := modes |}, b);
  Unmarshal_tcpip b :=
    '(dh, b) ← take_string b; '(dp, b) ← Uint32 b;
    '(oh, b) ← take_string b; '(op, b) ← Uint32 b;
    at_end ({| DestHost := dh; DestPort := dp; OriginHost := oh; OriginPort := op |}, b)
|}.

Lemma Uint32_be32 z rest : uint32_range z → Uint32 (be32 z ++ rest) = Some (z, rest).
Proof.
  intros Hz. unfold uint32_range in Hz. unfold be32, Uint32. cbn [app].
  rewrite !byte_val_of by zdiv. do 2 f_equal. zdiv.
Qed.

Lemma Uint32_range b z rest : Uint32 b = Some (z, rest) → uint32_range z.
Proof.
  destruct b as [|b0 [|b1 [|b2 [|b3 b]]]]; try done. intros [= <- _].
  pose proof (byte_val_range b0); pose proof (byte_val_range b1);
  pose proof (byte_val_range b2); pose proof (byte_val_range b3). unfold uint32_range. lia.
Qed.

Lemma take_string_app s rest : short s → take_string (ssh_string s ++ rest) = Some (s, rest).
Proof.
  intros Hs. unfold ssh_string, take_string. rewrite <-(assoc_L (++)), Uint32_be32 by done.
  cbn [mbind option_bind]. rewrite bool_decide_eq_true_2 by (rewrite length_app; unfold str_len; lia).
  unfold str_len. by rewrite Nat2Z.id, take_app_length, drop_app_length, of_chars_chars.
Qed.

#[local] Arguments take_string : simpl never.
#[local] Arguments ssh_string : simpl never.
#[local] Arguments Uint32 : simpl never.
#[local] Arguments be32 : simpl never.

Lemma rfc_wire_laws : SshWireLaws rfc_wire.
Proof.
  split.
  - intros s Hs. cbn. rewrite <-(app_nil_r (ssh_string s)), take_string_app by done. done.
  - intros [] (?&?&?&?&?&?). cbn in *. unfold marshal_pty. cbn.
    rewrite take_string_app by done. cbn [mbind option_bind].
    do 4 (rewrite Uint32_be32 by done; cbn [mbind option_bind]).
    rewrite <-(app_nil_r (ssh_string _)), take_string_app by done. done.
  - intros l p. cbn. destruct (take_string l) as [[t l1]|]; cbn; [|done].
    destruct (Uint32 l1) as [[c l2]|] eqn:Hc; cbn; [|done].
    destruct (Uint32 l2) as [[r l3]|] eqn:Hr; cbn; [|done].
    destruct (Uint32 l3) as [[w l4]|]; cbn; [|done].
    destruct (Uint32 l4) as [[h l5]|]; cbn; [|done].
    destruct (take_string l5) as [[m [|]]|]; cbn; intros; simplify_eq; cbn.
    split; by eapply Uint32_range.
  - intros [] (?&?&?&?). cbn in *. unfold marshal_tcpip. cbn.
    rewrite take_string_app by done. cbn [mbind option_bind].
    rewrite Uint32_be32 by done. cbn [mbind option_bind].
    rewrite take_string_app by done. cbn [mbind option_bind].
    rewrite <-(app_nil_r (be32 _)), Uint32_be32 by done. done.
Qed.
