(* ===== verification/Json.v ===== *)
(** * encoding/json: what the program writes

    The encoder of [json.Marshal] for the values the program passes to it:
    strings (with the HTML escaping [Marshal] applies and the replacement of
    invalid UTF-8), integers, arrays, structs in field order and maps in key
    order.  A reference decoder of string literals states what is preserved. *)

From Stdlib Require Import ZArith Lia Ascii.
From stdpp Require Import prelude strings pretty gmap list sorting.
From S2P Require Import Prelude GoStrings.

Local Open Scope Z_scope.

(** ** Strings *)
Definition hex_digit (n : Z) : ascii := byte_of (if n <? 10 then 48 + n else 87 + n).

(** [htmlSafeSet] is false on these bytes below 0x80. *)
Definition needs_escape (z : Z) : bool :=
  (z <? 0x20) || (z =? 0x22) || (z =? 0x5C) || (z =? 0x3C) || (z =? 0x3E) || (z =? 0x26).

Definition escape_ascii (c : ascii) : list ascii :=
  let z := byte_val c in
  if negb (needs_escape z) then [c]
  else if (z =? 0x22) || (z =? 0x5C) then ["\"%char; c]
  else if z =? 8 then ["\"; "b"]%char
  else if z =? 12 then ["\"; "f"]%char
  else if z =? 10 then ["\"; "n"]%char
  else if z =? 13 then ["\"; "r"]%char
  else if z =? 9 then ["\"; "t"]%char
  else ["\"; "u"; "0"; "0"]%char ++ [hex_digit (z / 16); hex_digit (z mod 16)].

Definition escape_seg (p : Z * list ascii) : list ascii :=
  match p with
  | (r, b) =>
      if r <? RuneSelf then mjoin (escape_ascii <$> b)
      else if (r =? RuneError) && bool_decide (length b = 1%nat) then chars "\ufffd"
      else if (r =? 0x2028) || (r =? 0x2029)
      then chars "\u202" ++ [hex_digit (Z.land r 0xF)]
      else b
  end.

(** The literal without its quotes. *)
Definition escape (l : list ascii) : list ascii := mjoin (escape_seg <$> decode l).
Definition quote : ascii := Ascii.ascii_of_nat 34.
Definition MarshalString (l : list ascii) : list ascii := quote :: escape l ++ [quote].

(** ** Values *)
Inductive json :=
  | JRaw (text : list ascii)
  | JString (s : list ascii)
  | JInt (z : Z)
  | JArray (vs : list json)
  | JObject (fields : list (string * json)).

Definition comma : list ascii := [","%char].
Fixpoint intersperse (parts : list (list ascii)) : list ascii :=
  match parts with
  | [] => []
  | [p] => p
  | p :: ps => p ++ comma ++ intersperse ps
  end.

Fixpoint Marshal (v : json) : list ascii :=
  match v with
  | JRaw t => t
  | JString s => MarshalString s
  | JInt z => chars (pretty z)
  | JArray vs => "["%char :: intersperse (map Marshal vs) ++ ["]"%char]
  | JObject fs =>
      "{"%char :: intersperse (map (λ '(k, v), MarshalString (chars k) ++ ":"%char :: Marshal v) fs)
      ++ ["}"%char]
  end.

(** A field tagged [omitempty]. *)
Definition omitempty (name : string) (empty : bool) (v : json) : list (string * json) :=
  if empty then [] else [(name, v)].
Definition omitempty_string (name s : string) : list (string * json) :=
  omitempty name (bool_decide (s = "")) (JString (chars s)).

(** A Go map is marshalled with its keys sorted. *)
Definition key_le (p q : string * json) : Prop := String.le p.1 q.1.
#[export] Instance key_le_dec p q : Decision (key_le p q).
Proof. unfold key_le. apply _. Defined.
Definition JMap (fields : list (string * json)) : json := JObject (merge_sort key_le fields).

(** ** The reference decoder of string literals *)
Definition hex_value (c : ascii) : option Z :=
  let z := byte_val c in
  if (48 <=? z) && (z <=? 57) then Some (z - 48)
  else if (97 <=? z) && (z <=? 102) then Some (z - 87)
  else if (65 <=? z) && (z <=? 70) then Some (z - 55) else None.

Definition simple_escape (c : ascii) : option ascii :=
  match c with
  | "\" => Some "\" | "/" => Some "/"
  | "b" => Some (byte_of 8) | "f" => Some (byte_of 12)
  | "n" => Some (byte_of 10) | "r" => Some (byte_of 13) | "t" => Some (byte_of 9)
  | c => if bool_decide (c = quote) then Some quote else None
  end%char.

Definition high_surrogate (r : Z) : bool := (0xD800 <=? r) && (r <? 0xDC00).
Definition low_surrogate (r : Z) : bool := (0xDC00 <=? r) && (r <? 0xE000).

(** The escapes of a literal.  [hi] is a high surrogate that waits for its low
    half; one that does not get it becomes U+FFFD, as does a lone low half. *)
Fixpoint unescape_from (hi : option Z) (l : list ascii) : option (list ascii) :=
  let flush k := match hi with Some _ => encode_rune RuneError ++ k | None => k end in
  match l with
  | [] => Some (flush [])
  | "\"%char :: "u"%char :: a :: b :: c :: d :: rest =>
      a ← hex_value a; b ← hex_value b; c ← hex_value c; d ← hex_value d;
      let r := a * 4096 + b * 256 + c * 16 + d in
      if high_surrogate r then k ← unescape_from (Some r) rest; Some (flush k)
      else match hi with
      | Some h =>
          k ← unescape_from None rest;
          Some (if low_surrogate r
                then encode_rune (0x10000 + (h - 0xD800) * 1024 + (r - 0xDC00)) ++ k
                else flush (encode_rune r ++ k))
      | None => k ← unescape_from None rest; Some (encode_rune r ++ k)
      end
  | "\"%char :: e :: rest => c ← simple_escape e; k ← unescape_from None rest; Some (flush (c :: k))
  | c :: rest =>
      if bool_decide (c = "\"%char) then None
      else k ← unescape_from None rest; Some (flush (c :: k))
  end.
Definition unescape : list ascii → option (list ascii) := unescape_from None.

(** Invalid bytes replaced one by one. *)
Definition sanitize (l : list ascii) : list ascii :=
  mjoin ((λ '(r, _), encode_valid r) <$> decode l).

(** ** Facts *)
Section Facts.
Implicit Types (l : list ascii).

Lemma unescape_plain c l :
  c ≠ "\"%char → unescape (c :: l) = k ← unescape l; Some (c :: k).
Proof.
  intros Hc. destruct c as [[] [] [] [] [] [] [] []]; try reflexivity. done.
Qed.

Lemma unescape_high b l :
  Forall (λ x, RuneSelf ≤ byte_val x) b → unescape (b ++ l) = k ← unescape l; Some (b ++ k).
Proof.
  induction 1 as [|x b Hx _ IH]; cbn [app]; [by destruct (unescape l)|].
  rewrite unescape_plain, IH; [by destruct (unescape l)|].
  intros ->. by vm_compute in Hx.
Qed.

Lemma unescape_ascii c l :
  byte_val c < RuneSelf → unescape (escape_ascii c ++ l) = k ← unescape l; Some (c :: k).
Proof.
  intros Hc. destruct c as [b0 b1 b2 b3 b4 b5 b6 b7].
  destruct b7; [by destruct b0, b1, b2, b3, b4, b5, b6; vm_compute in Hc|]. clear Hc.
  destruct b0, b1, b2, b3, b4, b5, b6;
    (set (e := escape_ascii _); vm_compute in e; subst e; cbn [app];
     first [reflexivity | apply unescape_plain; done]).
Qed.

(** Bytes of a multi-byte encoding are all at least 0x80. *)
Lemma encode_valid_high r :
  valid_rune r → RuneSelf ≤ r → Forall (λ x, RuneSelf ≤ byte_val x) (encode_valid r).
Proof.
  intros Hv Hr. unfold encode_valid, valid_rune, RuneSelf in *.
  repeat (case_match; [try lia|]); repeat constructor; rewrite byte_val_of; zdiv.
Qed.

Lemma encode_rune_hex_2028 r l :
  r = 0x2028 ∨ r = 0x2029 →
  unescape (chars "\u202" ++ [hex_digit (Z.land r 0xF)] ++ l)
  = k ← unescape l; Some (encode_valid r ++ k).
Proof. intros [->| ->]; reflexivity. Qed.

Lemma unescape_seg r b l :
  (valid_rune r ∧ b = encode_valid r) ∨ (r = RuneError ∧ ∃ x, b = [x] ∧ RuneSelf ≤ byte_val x) →
  unescape (escape_seg (r, b) ++ l) = k ← unescape l; Some (encode_valid r ++ k).
Proof.
  intros [[Hr ->]|[-> (x & -> & _)]]; unfold escape_seg.
  - destruct (r <? RuneSelf) eqn:Hs.
    + assert (encode_valid r = [byte_of r]) as ->.
      { unfold encode_valid, RuneSelf in *. by rewrite Hs. }
      cbn [fmap list_fmap mjoin list_join]. rewrite app_nil_r. rewrite unescape_ascii; [done|].
      unfold RuneSelf in *. destruct Hr; rewrite byte_val_of; lia.
    + assert (RuneSelf ≤ r) as Hge by lia. pose proof (encode_valid_high r Hr Hge) as Hh.
      assert (length (encode_valid r) ≠ 1%nat) as Hl.
      { unfold encode_valid, RuneSelf in *. rewrite Hs. by repeat case_match. }
      rewrite bool_decide_eq_false_2, andb_false_r by done.
      destruct ((r =? 0x2028) || (r =? 0x2029)) eqn:H28.
      * rewrite <-(assoc_L (++)). apply encode_rune_hex_2028. lia.
      * by apply unescape_high.
  - reflexivity.
Qed.

#[local] Arguments escape_seg : simpl never.
#[local] Arguments encode_valid : simpl never.
Lemma unescape_escape l : unescape (escape l) = Some (sanitize l).
Proof.
  unfold escape, sanitize. pose proof (decode_segs l) as Hs.
  induction Hs as [|[r b] segs Hrb _ IH]; [done|]. csimpl.
  rewrite unescape_seg by done. by rewrite IH.
Qed.

Lemma sanitize_valid l : valid_utf8 l → sanitize l = l.
Proof.
  intros (rs & Hrs & ->). unfold sanitize. rewrite decode_encode_list by done.
  f_equal. rewrite <-list_fmap_compose. done.
Qed.

(** An escaped literal holds no control character and no bare quote. *)
Definition plain_byte (c : ascii) : Prop := 0x20 ≤ byte_val c.

Lemma escape_ascii_plain c : byte_val c < RuneSelf → Forall plain_byte (escape_ascii c).
Proof.
  intros Hc. destruct c as [b0 b1 b2 b3 b4 b5 b6 b7].
  destruct b0, b1, b2, b3, b4, b5, b6, b7; cbn; repeat constructor; unfold plain_byte; by vm_compute.
Qed.

Lemma escape_plain l : Forall plain_byte (escape l).
Proof.
  unfold escape. pose proof (decode_segs l) as Hs.
  induction Hs as [|[r b] segs Hrb _ IH]; [constructor|]. cbn [fmap list_fmap mjoin list_join].
  apply Forall_app. split; [|done]. clear IH. unfold escape_seg.
  destruct (r <? RuneSelf) eqn:Hr.
  - destruct Hrb as [[Hv ->]|[-> _]]; [|done].
    assert (encode_valid r = [byte_of r]) as ->.
    { unfold encode_valid, RuneSelf in *. by rewrite Hr. }
    cbn [fmap list_fmap mjoin list_join]. rewrite app_nil_r. apply escape_ascii_plain.
    unfold RuneSelf in *. destruct Hv; rewrite byte_val_of; lia.
  - destruct ((r =? RuneError) && _) eqn:He; [by repeat constructor|].
    destruct (_ || _) eqn:H28.
    + assert (r = 0x2028 ∨ r = 0x2029) as [->| ->] by lia; by repeat constructor.
    + destruct Hrb as [[Hv ->]|[-> (x & -> & _)]]; [|done].
      eapply Forall_impl; [apply encode_valid_high; [done|lia]|].
      intros x. unfold plain_byte, RuneSelf. lia.
Qed.

Lemma MarshalString_plain l : Forall plain_byte (MarshalString l).
Proof.
  unfold MarshalString. constructor; [by vm_compute|].
  apply Forall_app. split; [apply escape_plain|]. by repeat constructor.
Qed.
End Facts.
#[export] Hint Resolve escape_plain MarshalString_plain : proxy.

(** ** Decimal digits *)
Definition is_digit (c : ascii) : Prop := 48 ≤ byte_val c ≤ 57.

Lemma pretty_N_char_digit x : is_digit (pretty_N_char x).
Proof. unfold pretty_N_char, is_digit. repeat case_match; by vm_compute. Qed.

Lemma pretty_N_go_digits x s : Forall is_digit (chars s) → Forall is_digit (chars (pretty_N_go x s)).
Proof.
  revert s. induction (N.lt_wf_0 x) as [x _ IH]; intros s Hs.
  destruct (decide (x = 0)%N) as [->|Hx]; [by rewrite pretty_N_go_0|].
  rewrite pretty_N_go_step by lia. apply IH; [apply N.div_lt; lia|].
  constructor; [apply pretty_N_char_digit|done].
Qed.

Lemma pretty_N_digits (n : N) : Forall is_digit (chars (pretty n)).
Proof.
  unfold pretty, pretty_N. case_decide; [by repeat constructor; vm_compute|].
  apply pretty_N_go_digits. constructor.
Qed.

Lemma pretty_Z_bytes (z : Z) : Forall (λ c, is_digit c ∨ c = "-"%char) (chars (pretty z)).
Proof.
  assert (∀ n : N, Forall (λ c, is_digit c ∨ c = "-"%char) (chars (pretty n))) as H.
  { intros n. eapply Forall_impl; [apply pretty_N_digits|by left]. }
  destruct z; [by repeat constructor; vm_compute|apply (H (Npos p))|].
  constructor; [by right|apply (H (Npos p))].
Qed.

Lemma pretty_N_nonempty (n : N) : chars (pretty n) ≠ [].
Proof.
  assert (∀ x s, s ≠ "" → pretty_N_go x s ≠ "") as Hgo.
  { intros x. induction (N.lt_wf_0 x) as [x _ IH]; intros s Hs.
    destruct (decide (x = 0)%N) as [->|Hx]; [by rewrite pretty_N_go_0|].
    rewrite pretty_N_go_step by lia. apply IH; [apply N.div_lt; lia|done]. }
  intros Hn%chars_nil. unfold pretty, pretty_N in Hn. case_decide as Hz; [done|].
  rewrite pretty_N_go_step in Hn by lia. by eapply Hgo in Hn.
Qed.
#[export] Hint Resolve pretty_N_digits pretty_Z_bytes : proxy.
