(* ===== verification/GoCalendar.v ===== *)
(** * Package [time]: dates and RFC 3339

    Instants are integers of nanoseconds since the epoch.  The file gives the
    Gregorian calendar, the layouts the program formats with and the parser
    that [time.Time]'s JSON decoding uses, and proves that a formatted instant
    parses back to itself. *)

From Stdlib Require Import ZArith Lia Ascii.
From stdpp Require Import prelude strings pretty list.
From S2P Require Import Prelude GoStrings GoTime Json.

Local Open Scope Z_scope.

(** ** The calendar *)

(** Days since the epoch to year, month and day. *)
Definition civil (days : Z) : Z * Z * Z :=
  let z := days + 719468 in
  let era := z / 146097 in
  let doe := z - era * 146097 in
  let yoe := (doe - doe / 1460 + doe / 36524 - doe / 146096) / 365 in
  let doy := doe - (365 * yoe + yoe / 4 - yoe / 100) in
  let mp := (5 * doy + 2) / 153 in
  let d := doy - (153 * mp + 2) / 5 + 1 in
  let m := if mp <? 10 then mp + 3 else mp - 9 in
  let y := yoe + era * 400 + (if m <=? 2 then 1 else 0) in
  (y, m, d).

(** Year, month and day to days since the epoch. *)
Definition days_of_civil (y m d : Z) : Z :=
  let y := if m <=? 2 then y - 1 else y in
  let era := y / 400 in
  let yoe := y - era * 400 in
  let doy := (153 * (if 2 <? m then m - 3 else m + 9) + 2) / 5 + d - 1 in
  era * 146097 + (yoe * 365 + yoe / 4 - yoe / 100 + doy) - 719468.

Definition isLeap (y : Z) : bool := (y mod 4 =? 0) && (negb (y mod 100 =? 0) || (y mod 400 =? 0)).
Definition daysIn (m y : Z) : Z :=
  if m =? 2 then (if isLeap y then 29 else 28)
  else if (m =? 4) || (m =? 6) || (m =? 9) || (m =? 11) then 30 else 31.

Section Calendar.
(** A day of an era of 400 years, counted from March. *)
Context (doe : Z) (Hdoe : 0 ≤ doe < 146097).
Let yoe := (doe - doe / 1460 + doe / 36524 - doe / 146096) / 365.
Let doy := doe - (365 * yoe + yoe / 4 - yoe / 100).

Lemma yoe_range : 0 ≤ yoe < 400.
Proof. subst yoe. zdiv. Qed.

Lemma doy_range : 0 ≤ doy ≤ 365.
Proof. subst doy yoe. zdiv. Qed.

Lemma last_day_leap era : doy = 365 → isLeap (yoe + era * 400 + 1) = true.
Proof.
  intros Hd. unfold isLeap.
  assert ((yoe + 1) mod 4 = 0) by (subst doy yoe; zdiv).
  assert ((yoe + 1) mod 100 ≠ 0 ∨ (yoe + 1) mod 400 = 0) by (subst doy yoe; zdiv).
  zdiv.
Qed.
End Calendar.

Lemma civil_spec days y m d :
  civil days = (y, m, d) → 1 ≤ m ≤ 12 ∧ 1 ≤ d ≤ daysIn m y ∧ days_of_civil y m d = days.
Proof.
  unfold civil. set (era := (days + 719468) / 146097). set (doe := days + 719468 - era * 146097).
  assert (0 ≤ doe < 146097) as Hdoe by (subst doe era; zdiv).
  pose proof (yoe_range doe Hdoe) as Hyoe. pose proof (doy_range doe Hdoe) as Hdoy.
  pose proof (last_day_leap doe Hdoe era) as Hleap. cbv zeta in Hyoe, Hdoy, Hleap.
  set (yoe := (doe - doe / 1460 + doe / 36524 - doe / 146096) / 365) in *.
  set (doy := doe - (365 * yoe + yoe / 4 - yoe / 100)) in *.
  set (mp := (5 * doy + 2) / 153). intros [= <- <- <-].
  assert (0 ≤ mp ≤ 11) as Hmp by (subst mp; clearbody doy; zdiv).
  assert (1 ≤ doy - (153 * mp + 2) / 5 + 1 ≤ 31) as Hd by (subst mp; clearbody doy; zdiv).
  split; [destruct (Z.ltb_spec mp 10); lia|]. split.
  - split; [lia|]. unfold daysIn.
    assert (mp = 11 → doy - (153 * mp + 2) / 5 + 1 ≤ 28 ∨ doy = 365) as H11
      by (subst mp; clearbody doy; zdiv).
    assert (doy = 365 → doy - (153 * mp + 2) / 5 + 1 = 29) as H29 by (subst mp; clearbody doy; zdiv).
    assert (mp = 1 ∨ mp = 3 ∨ mp = 6 ∨ mp = 8 → doy - (153 * mp + 2) / 5 + 1 ≤ 30) as H30
      by (subst mp; clearbody doy; zdiv).
    clearbody mp doy. destruct (Z.ltb_spec mp 10).
    + destruct (Z.eqb_spec (mp + 3) 2); [lia|]. destruct (_ || _ || _ || _) eqn:Hm; lia.
    + destruct (Z.eqb_spec (mp - 9) 2).
      * destruct (Z.leb_spec (mp - 9) 2); [|lia]. destruct (isLeap _) eqn:Hl; [lia|].
        destruct H11 as [|Heq]; [lia|lia|]. specialize (Hleap Heq). congruence.
      * destruct (_ || _ || _ || _) eqn:Hm; lia.
  - unfold days_of_civil. set (m := if mp <? 10 then mp + 3 else mp - 9).
    assert ((if 2 <? m then m - 3 else m + 9) = mp) as ->.
    { subst m. destruct (Z.ltb_spec mp 10);
        [destruct (Z.ltb_spec 2 (mp + 3))|destruct (Z.ltb_spec 2 (mp - 9))]; lia. }
    assert ((if m <=? 2 then yoe + era * 400 + (if m <=? 2 then 1 else 0) - 1
             else yoe + era * 400 + (if m <=? 2 then 1 else 0)) = yoe + era * 400) as ->.
    { destruct (m <=? 2); lia. }
    replace ((yoe + era * 400) / 400) with era by (clearbody yoe era; zdiv).
    replace (yoe + era * 400 - era * 400) with yoe by lia.
    subst doy doe. clearbody yoe. lia.
Qed.

(** ** Layouts *)

(** A number in at least [w] digits. *)
Definition appendInt (x : Z) (w : nat) : list ascii :=
  let digits := chars (pretty (Z.to_N (Z.abs x))) in
  (if x <? 0 then ["-"%char] else []) ++ replicate (w - length digits)%nat "0"%char ++ digits.

(** Trailing zeros of a fraction dropped. *)
Definition trim_zeros : list ascii → list ascii := drop_while_end (λ c, bool_decide (c = "0"%char)).

Definition dash : ascii := "-".
Definition colon : ascii := ":".

(** [t.UTC().Format("2006-01-02")] *)
Definition format_day (t : Z) : string :=
  let '(y, m, d) := civil (t / (86400 * second)) in
  of_chars (appendInt y 4 ++ dash :: appendInt m 2 ++ dash :: appendInt d 2).

(** [time.RFC3339Nano] of a UTC time, as its JSON text has it. *)
Definition format_rfc3339 (t : Z) : list ascii :=
  let ns := t mod (86400 * second) in
  let s := ns / second in
  chars (format_day t) ++ "T"%char :: appendInt (s / 3600) 2 ++ colon ::
    appendInt (s / 60 mod 60) 2 ++ colon :: appendInt (s mod 60) 2 ++
    match trim_zeros (appendInt (ns mod second) 9) with
    | [] => ["Z"%char]
    | frac => "."%char :: frac ++ ["Z"%char]
    end.

(** [time.RFC3339] of a UTC time. *)
Definition format_rfc3339_seconds (t : Z) : list ascii :=
  let s := t mod (86400 * second) / second in
  chars (format_day t) ++ "T"%char :: appendInt (s / 3600) 2 ++ colon ::
    appendInt (s / 60 mod 60) 2 ++ colon :: appendInt (s mod 60) 2 ++ ["Z"%char].

(** [fmtFrac]: the last [prec] digits as a fraction, and the rest. *)
Definition fmtFrac (v : Z) (prec : nat) : list ascii * Z :=
  (match trim_zeros (appendInt (v mod 10 ^ Z.of_nat prec) prec) with
   | [] => []
   | frac => "."%char :: frac
   end, v / 10 ^ Z.of_nat prec).

(** [Duration.String] *)
Definition Duration_String (d : Z) : list ascii :=
  let u := Z.abs d in
  let number (prec : nat) (v : Z) := let '(frac, v) := fmtFrac v prec in appendInt v 1 ++ frac in
  (if d <? 0 then ["-"%char] else []) ++
  if u =? 0 then chars "0s"
  else if u <? 10^3 then appendInt u 1 ++ chars "ns"
  else if u <? 10^6 then number 3%nat u ++ chars "µs"
  else if u <? second then number 6%nat u ++ chars "ms"
  else
    let '(frac, secs) := fmtFrac u 9 in
    let mins := secs / 60 in
    (if 0 <? mins / 60 then appendInt (mins / 60) 1 ++ chars "h" else []) ++
    (if 0 <? mins then appendInt (mins mod 60) 1 ++ chars "m" else []) ++
    appendInt (secs mod 60) 1 ++ frac ++ chars "s".

(** [json.Marshal] of a UTC [time.Time]. *)
Definition marshal_time (t : Z) : json := JString (format_rfc3339 t).

(** *** Parsing

    [Time.UnmarshalJSON] accepts what [time.Parse(time.RFC3339, ...)] does: the
    hour may have one digit, the fraction may follow a comma and have any
    number of digits (the first nine count), an offset may reach 24:60. *)
Definition isDigit (c : ascii) : bool := (48 <=? byte_val c) && (byte_val c <=? 57).

(** [w] digits, exactly. *)
Definition fixed (w : nat) (l : list ascii) : option (Z * list ascii) :=
  if bool_decide (w ≤ length l)%nat then v ← parse_digits 0 (take w l); Some (v, drop w l) else None.
Definition ranged (lo hi : Z) (p : option (Z * list ascii)) : option (Z * list ascii) :=
  '(v, l) ← p; if (lo <=? v) && (v <=? hi) then Some (v, l) else None.
Definition expect (c : ascii) (l : list ascii) : option (list ascii) :=
  match l with x :: l' => if bool_decide (x = c) then Some l' else None | [] => None end.

Definition parse_hour (l : list ascii) : option (Z * list ascii) :=
  match l with
  | _ :: c :: _ => if isDigit c then fixed 2 l else fixed 1 l
  | _ => fixed 1 l
  end.

Fixpoint span_digits (l : list ascii) : list ascii * list ascii :=
  match l with
  | c :: l' => if isDigit c then let '(a, b) := span_digits l' in (c :: a, b) else ([], l)
  | [] => ([], [])
  end.

Definition parse_fraction (l : list ascii) : option (Z * list ascii) :=
  match l with
  | c :: d :: _ =>
      if (bool_decide (c = "."%char) || bool_decide (c = ","%char)) && isDigit d then
        let '(ds, rest) := span_digits (tail l) in
        let ds := take 9 ds in
        v ← parse_digits 0 ds; Some (v * 10 ^ (9 - Z.of_nat (length ds)), rest)
      else Some (0, l)
  | _ => Some (0, l)
  end.

(** Seconds east of UTC. *)
Definition parse_zone (l : list ascii) : option (Z * list ascii) :=
  match l with
  | c :: rest =>
      if bool_decide (c = "Z"%char) then Some (0, rest)
      else if bool_decide (c = "+"%char) || bool_decide (c = dash) then
        '(h, rest) ← ranged 0 24 (fixed 2 rest);
        rest ← expect colon rest;
        '(m, rest) ← ranged 0 60 (fixed 2 rest);
        let off := h * 3600 + m * 60 in
        Some (if bool_decide (c = dash) then - off else off, rest)
      else None
  | [] => None
  end.

Definition parse_rfc3339 (l : list ascii) : option Z :=
  '(y, l) ← fixed 4 l; l ← expect dash l;
  '(m, l) ← ranged 1 12 (fixed 2 l); l ← expect dash l;
  '(d, l) ← ranged 1 (daysIn m y) (fixed 2 l); l ← expect "T"%char l;
  '(h, l) ← ranged 0 23 (parse_hour l); l ← expect colon l;
  '(mi, l) ← ranged 0 59 (fixed 2 l); l ← expect colon l;
  '(s, l) ← ranged 0 59 (fixed 2 l);
  '(ns, l) ← parse_fraction l;
  '(off, l) ← parse_zone l;
  match l with
  | [] => Some ((days_of_civil y m d * 86400 + h * 3600 + mi * 60 + s - off) * second + ns)
  | _ => None
  end.

(** [time.Time{}], as an instant: midnight of 1 January of the year 1. *)
Definition zero_instant : Z := -62135596800 * second.

(** ** Digits *)
Lemma is_digit_spec c : Json.is_digit c ↔ isDigit c = true.
Proof. unfold Json.is_digit, isDigit. lia. Qed.

Lemma parse_digits_app a l k :
  parse_digits a (l ++ k) = v ← parse_digits a l; parse_digits v k.
Proof.
  revert a. induction l as [|c l IH]; intros a; [done|]. cbn [app parse_digits].
  destruct (digit_val c); [apply IH|done].
Qed.

Lemma digit_val_pretty x : (x < 10)%N → digit_val (pretty_N_char x) = Some (Z.of_N x).
Proof.
  intros Hx. assert (x = 0 ∨ x = 1 ∨ x = 2 ∨ x = 3 ∨ x = 4 ∨ x = 5 ∨ x = 6 ∨ x = 7 ∨ x = 8 ∨ x = 9)%N as H by lia.
  by destruct_or! H; subst.
Qed.

Lemma parse_pretty_go x s :
  parse_digits 0 (chars (pretty_N_go x s)) = parse_digits (Z.of_N x) (chars s).
Proof.
  revert s. induction (N.lt_wf_0 x) as [x _ IH]; intros s.
  destruct (decide (x = 0)%N) as [->|Hx]; [by rewrite pretty_N_go_0|].
  rewrite pretty_N_go_step by lia. rewrite IH by (apply N.div_lt; lia). cbn [String.list_ascii_of_string parse_digits].
  rewrite digit_val_pretty by (apply N.mod_lt; lia). cbn [mbind option_bind].
  f_equal. rewrite N2Z.inj_div, N2Z.inj_mod. pose proof (Z.div_mod (Z.of_N x) (Z.of_N 10)). lia.
Qed.

Lemma parse_pretty (x : N) : parse_digits 0 (chars (pretty x)) = Some (Z.of_N x).
Proof.
  unfold pretty, pretty_N. case_decide; [by subst|]. by rewrite parse_pretty_go.
Qed.

Lemma pretty_go_length x s w :
  (x < 10 ^ N.of_nat w)%N → (length (chars (pretty_N_go x s)) ≤ w + length (chars s))%nat.
Proof.
  revert x s. induction w as [|w IH]; intros x s Hx.
  - replace x with 0%N by lia. by rewrite pretty_N_go_0.
  - destruct (decide (x = 0)%N) as [->|Hne]; [rewrite pretty_N_go_0; lia|].
    rewrite pretty_N_go_step by lia. etrans; [apply IH|cbn; lia].
    apply N.Div0.div_lt_upper_bound. rewrite Nat2N.inj_succ, N.pow_succ_r' in Hx. lia.
Qed.

Lemma pretty_length (x : N) w :
  (0 < w)%nat → (x < 10 ^ N.of_nat w)%N → (length (chars (pretty x)) ≤ w)%nat.
Proof.
  intros Hw Hx. unfold pretty, pretty_N. case_decide; [cbn; lia|].
  etrans; [by apply pretty_go_length|]. cbn. lia.
Qed.

Lemma parse_zeros n k l : parse_digits 0 (replicate n "0"%char ++ l) = parse_digits 0 l ∧
  parse_digits k (replicate n "0"%char) = Some (k * 10 ^ Z.of_nat n).
Proof.
  split; [by induction n|]. revert k. induction n as [|n IH]; intros k; [cbn; f_equal; lia|].
  cbn [replicate parse_digits]. change (digit_val "0") with (Some 0). cbn [mbind option_bind].
  rewrite IH. f_equal. rewrite Nat2Z.inj_succ, Z.pow_succ_r by lia. lia.
Qed.

Lemma appendInt_spec x w :
  0 ≤ x < 10 ^ Z.of_nat w → (0 < w)%nat →
  length (appendInt x w) = w ∧ parse_digits 0 (appendInt x w) = Some x.
Proof.
  intros Hx Hw. unfold appendInt. rewrite (proj2 (Z.ltb_ge x 0)) by lia. cbn [app].
  rewrite Z.abs_eq by lia.
  assert (Z.to_N x < 10 ^ N.of_nat w)%N as Hn.
  { apply N2Z.inj_lt. rewrite Z2N.id, N2Z.inj_pow, nat_N_Z by lia. lia. }
  pose proof (pretty_length _ w Hw Hn). split; [rewrite length_app, length_replicate; lia|].
  rewrite (proj1 (parse_zeros _ 0 _)), parse_pretty. f_equal. lia.
Qed.

Lemma appendInt_digits x w : 0 ≤ x → Forall (λ c, isDigit c = true) (appendInt x w).
Proof.
  intros Hx. unfold appendInt. rewrite (proj2 (Z.ltb_ge x 0)) by lia. cbn [app]. apply Forall_app. split.
  - by apply Forall_replicate.
  - eapply Forall_impl; [apply pretty_N_digits|]. intros c. apply is_digit_spec.
Qed.

Lemma fixed_appendInt x w l :
  0 ≤ x < 10 ^ Z.of_nat w → (0 < w)%nat → fixed w (appendInt x w ++ l) = Some (x, l).
Proof.
  intros Hx Hw. destruct (appendInt_spec x w Hx Hw) as [Hl Hp]. unfold fixed.
  rewrite bool_decide_eq_true_2 by (rewrite length_app; lia).
  by rewrite take_app_length', drop_app_length', Hp by done.
Qed.

Lemma expect_eq c l : expect c (c :: l) = Some l.
Proof. cbn. by rewrite bool_decide_eq_true_2. Qed.

(** ** A formatted instant parses back *)
Lemma parse_hour_appendInt h l : 0 ≤ h < 24 → parse_hour (appendInt h 2 ++ l) = Some (h, l).
Proof.
  intros Hh. destruct (appendInt_spec h 2 ltac:(lia) ltac:(lia)) as [Hl _].
  pose proof (appendInt_digits h 2 ltac:(lia)) as Hd.
  assert (parse_hour (appendInt h 2 ++ l) = fixed 2 (appendInt h 2 ++ l)) as ->.
  { destruct (appendInt h 2) as [|a [|b [|]]]; try done. cbn [app parse_hour].
    apply Forall_cons in Hd as [_ [Hb _]%Forall_cons]. by rewrite Hb. }
  apply fixed_appendInt; lia.
Qed.

Lemma span_digits_app ds c l :
  Forall (λ c, isDigit c = true) ds → isDigit c = false → span_digits (ds ++ c :: l) = (ds, c :: l).
Proof.
  induction 1 as [|d ds Hd _ IH]; intros Hc; cbn [app span_digits]; [by rewrite Hc|].
  by rewrite Hd, IH.
Qed.

(** The fraction, with its trailing zeros dropped, still counts nanoseconds. *)
Lemma parse_trimmed x :
  0 ≤ x < second → let frac := trim_zeros (appendInt x 9) in
  (length frac ≤ 9)%nat ∧ Forall (λ c, isDigit c = true) frac ∧
  ∃ v, parse_digits 0 frac = Some v ∧ v * 10 ^ (9 - Z.of_nat (length frac)) = x.
Proof.
  intros Hx. cbv zeta. destruct (appendInt_spec x 9 Hx ltac:(lia)) as [Hl Hp].
  pose proof (appendInt_digits x 9 ltac:(lia)) as Hd.
  destruct (drop_while_end_prefix (λ c, bool_decide (c = "0"%char)) (appendInt x 9)) as (k & Hk & Hz).
  fold trim_zeros in Hk. set (frac := trim_zeros _) in *. rewrite Hk in Hl, Hp, Hd.
  rewrite length_app in Hl. apply Forall_app in Hd as [Hd _]. split; [lia|]. split; [done|].
  assert (k = replicate (length k) "0"%char) as Hk0.
  { clear -Hz. induction Hz as [|c k Hc _ IH]; [done|]. cbn. apply bool_decide_eq_true in Hc as ->.
    by f_equal. }
  rewrite parse_digits_app, Hk0 in Hp. destruct (parse_digits 0 frac) as [v|] eqn:Hv; [|done].
  exists v. split; [done|]. cbn [mbind option_bind] in Hp. rewrite (proj2 (parse_zeros _ v [])) in Hp.
  injection Hp as <-. do 2 f_equal. lia.
Qed.

Lemma parse_fraction_format x :
  0 ≤ x < second →
  parse_fraction (match trim_zeros (appendInt x 9) with [] => ["Z"%char] | frac => "."%char :: frac ++ ["Z"%char] end)
  = Some (x, ["Z"%char]).
Proof.
  intros Hx. destruct (parse_trimmed x Hx) as (Hl & Hd & v & Hp & Hv).
  destruct (trim_zeros (appendInt x 9)) as [|d ds] eqn:Hf.
  - cbn in Hp. injection Hp as <-. cbn. by rewrite <-Hv.
  - cbn [parse_fraction app tail]. pose proof Hd as [Hd1 _]%Forall_cons. rewrite Hd1.
    rewrite bool_decide_eq_true_2 by done. cbn [orb andb].
    change (d :: ds ++ ["Z"%char]) with ((d :: ds) ++ ["Z"%char]). rewrite span_digits_app by done.
    cbv zeta iota beta. rewrite take_ge by done. rewrite Hp. cbn [mbind option_bind]. by rewrite Hv.
Qed.

(** The years that RFC 3339 can write. *)
Definition rfc3339_range (t : Z) : Prop := let '(y, _, _) := civil (t / (86400 * second)) in 0 ≤ y ≤ 9999.
#[export] Instance rfc3339_range_dec t : Decision (rfc3339_range t).
Proof. unfold rfc3339_range. destruct (civil _) as [[y m] d]. apply _. Defined.

Lemma ranged_Some lo hi v l : lo ≤ v ≤ hi → ranged lo hi (Some (v, l)) = Some (v, l).
Proof. intros H. cbn. by rewrite (proj2 (Z.leb_le lo v)), (proj2 (Z.leb_le v hi)) by lia. Qed.

#[local] Ltac next_field := cbn [mbind option_bind app]; rewrite <-?(assoc_L (++)); cbn [app].

Lemma parse_format_rfc3339 t : rfc3339_range t → parse_rfc3339 (format_rfc3339 t) = Some t.
Proof.
  unfold rfc3339_range, format_rfc3339, format_day.
  destruct (civil (t / (86400 * second))) as [[y m] d] eqn:Hc. intros Hy.
  apply civil_spec in Hc as (Hm & Hd & Hdays).
  set (ns := t mod (86400 * second)). set (s := ns / second).
  assert (0 ≤ ns < 86400 * second) as Hns by (apply Z.mod_pos_bound; done).
  assert (0 ≤ s < 86400) as Hs by (subst s; unfold second in *; zdiv).
  assert (daysIn m y ≤ 31) as Hdi by (unfold daysIn; repeat case_match; lia).
  rewrite chars_of_chars. unfold parse_rfc3339. next_field.
  rewrite fixed_appendInt by lia. next_field. rewrite expect_eq. next_field.
  rewrite fixed_appendInt, ranged_Some by lia. next_field. rewrite expect_eq. next_field.
  rewrite fixed_appendInt, ranged_Some by lia. next_field. rewrite expect_eq. next_field.
  rewrite parse_hour_appendInt, ranged_Some by zdiv. next_field. rewrite expect_eq. next_field.
  rewrite fixed_appendInt, ranged_Some by zdiv. next_field. rewrite expect_eq. next_field.
  rewrite fixed_appendInt, ranged_Some by zdiv. next_field.
  rewrite parse_fraction_format by (apply Z.mod_pos_bound; done). next_field.
  cbn. rewrite bool_decide_eq_true_2 by done. cbn. f_equal. rewrite Hdays.
  assert (s / 3600 * 3600 + s / 60 mod 60 * 60 + s mod 60 = s) as Hhms by zdiv.
  pose proof (Z.div_mod ns second ltac:(done)) as Hsec. fold s in Hsec.
  pose proof (Z.div_mod t (86400 * second) ltac:(done)) as Hday. fold ns in Hday. clearbody s ns.
  unfold second in *. lia.
Qed.
