(* ===== verification/JsonDecode.v ===== *)
(** * encoding/json: what the program reads

    [json.Unmarshal] as the program uses it: the scanner that accepts the
    grammar of RFC 8259 byte by byte, the tree of what it accepted, and the
    decoding of a tree into strings, integers, floats, times, slices and the
    fields of a struct. *)

From Stdlib Require Import ZArith Lia Ascii.
From Stdlib Require Import Floats.SpecFloat.
From stdpp Require Import prelude strings pretty gmap list.
From S2P Require Import Prelude GoStrings GoTime Json GoCalendar.

Local Open Scope Z_scope.

(** ** The scanner

    A string token is the literal between its quotes, with its escapes. *)
Inductive token :=
  | TOpenBrace | TCloseBrace | TOpenBracket | TCloseBracket | TComma | TColon
  | TString (raw : list ascii) | TNumber (lit : list ascii) | TTrue | TFalse | TNull.

(** The states inside a number: after the sign, a leading zero, the integer
    digits, the point, the fraction, the exponent mark, its sign, its digits. *)
Inductive num_state := NumNeg | Num0 | Num1 | NumDot | NumFrac | NumE | NumESign | NumExp.

Inductive lex_state :=
  | Between
  | InString (raw : list ascii) (escaped : bool)
  | InNumber (s : num_state) (lit : list ascii)
  | InLiteral (rest : list ascii) (tok : token).

Definition is_exp (c : ascii) : bool := bool_decide (c = "e"%char) || bool_decide (c = "E"%char).

Definition num_begin (c : ascii) : option num_state :=
  if bool_decide (c = "-"%char) then Some NumNeg
  else if bool_decide (c = "0"%char) then Some Num0 else if isDigit c then Some Num1 else None.
Definition num_step (s : num_state) (c : ascii) : option num_state :=
  match s with
  | NumNeg => if bool_decide (c = "0"%char) then Some Num0 else if isDigit c then Some Num1 else None
  | Num0 => if bool_decide (c = "."%char) then Some NumDot else if is_exp c then Some NumE else None
  | Num1 => if isDigit c then Some Num1 else if bool_decide (c = "."%char) then Some NumDot
            else if is_exp c then Some NumE else None
  | NumDot => if isDigit c then Some NumFrac else None
  | NumFrac => if isDigit c then Some NumFrac else if is_exp c then Some NumE else None
  | NumE => if bool_decide (c = "+"%char) || bool_decide (c = "-"%char) then Some NumESign
            else if isDigit c then Some NumExp else None
  | NumESign | NumExp => if isDigit c then Some NumExp else None
  end.
Definition num_end (s : num_state) : bool :=
  match s with Num0 | Num1 | NumFrac | NumExp => true | _ => false end.

Definition is_space (c : ascii) : bool :=
  let z := byte_val c in (z =? 32) || (z =? 9) || (z =? 13) || (z =? 10).

(** A byte between tokens. *)
Definition lex_begin (c : ascii) : option (list token * lex_state) :=
  if is_space c then Some ([], Between)
  else if bool_decide (c = quote) then Some ([], InString [] false)
  else if bool_decide (c = "{"%char) then Some ([TOpenBrace], Between)
  else if bool_decide (c = "}"%char) then Some ([TCloseBrace], Between)
  else if bool_decide (c = "["%char) then Some ([TOpenBracket], Between)
  else if bool_decide (c = "]"%char) then Some ([TCloseBracket], Between)
  else if bool_decide (c = ","%char) then Some ([TComma], Between)
  else if bool_decide (c = ":"%char) then Some ([TColon], Between)
  else if bool_decide (c = "t"%char) then Some ([], InLiteral (chars "rue") TTrue)
  else if bool_decide (c = "f"%char) then Some ([], InLiteral (chars "alse") TFalse)
  else if bool_decide (c = "n"%char) then Some ([], InLiteral (chars "ull") TNull)
  else s ← num_begin c; Some ([], InNumber s [c]).

(** A literal whose escapes are well formed. *)
Definition string_token (raw : list ascii) : option token := _ ← unescape raw; Some (TString raw).

Definition lex_step (st : lex_state) (c : ascii) : option (list token * lex_state) :=
  match st with
  | Between => lex_begin c
  | InString raw true => Some ([], InString (raw ++ [c]) false)
  | InString raw false =>
      if bool_decide (c = quote) then t ← string_token raw; Some ([t], Between)
      else if byte_val c <? 0x20 then None
      else Some ([], InString (raw ++ [c]) (bool_decide (c = "\"%char)))
  | InNumber s lit =>
      match num_step s c with
      | Some s' => Some ([], InNumber s' (lit ++ [c]))
      | None =>
          if num_end s then '(ts, st') ← lex_begin c; Some (TNumber lit :: ts, st') else None
      end
  | InLiteral [] tok => None
  | InLiteral (x :: rest) tok =>
      if bool_decide (c = x)
      then match rest with [] => Some ([tok], Between) | _ => Some ([], InLiteral rest tok) end
      else None
  end.

Definition lex_end (st : lex_state) : option (list token) :=
  match st with
  | Between => Some []
  | InNumber s lit => if num_end s then Some [TNumber lit] else None
  | _ => None
  end.

Fixpoint lex (st : lex_state) (l : list ascii) : option (list token) :=
  match l with
  | [] => lex_end st
  | c :: l => '(ts, st') ← lex_step st c; k ← lex st' l; Some (ts ++ k)
  end.

(** ** The tree

    Keys and strings are literals still; numbers are their text. *)
Inductive tree :=
  | VNull
  | VBool (b : bool)
  | VNumber (lit : list ascii)
  | VString (raw : list ascii)
  | VArray (vs : list tree)
  | VObject (fs : list (list ascii * tree)).

(** An open array with its elements, or an open object with its fields and
    the key whose value comes next. *)
Inductive frame := FArray (done : list tree) | FObject (done : list (list ascii * tree)) (key : list ascii).
Inductive open_value := OArray (done : list tree) | OObject (done : list (list ascii * tree)).

Inductive parse_state :=
  | PValue (stk : list frame)
  | PArrayFirst (stk : list frame)
  | PKey (stk : list frame) (done : list (list ascii * tree))
  | PColon (stk : list frame) (done : list (list ascii * tree)) (key : list ascii)
  | PNext (stk : list frame) (v : open_value)
  | PDone (v : tree).

Definition complete (v : tree) (stk : list frame) : parse_state :=
  match stk with
  | [] => PDone v
  | FArray done :: stk => PNext stk (OArray (done ++ [v]))
  | FObject done k :: stk => PNext stk (OObject (done ++ [(k, v)]))
  end.

Definition maxNestingDepth : Z := 10000.
Definition may_nest (stk : list frame) : bool := Z.of_nat (length stk) <? maxNestingDepth.

Definition begin_value (stk : list frame) (t : token) : option parse_state :=
  match t with
  | TNull => Some (complete VNull stk)
  | TTrue => Some (complete (VBool true) stk)
  | TFalse => Some (complete (VBool false) stk)
  | TNumber lit => Some (complete (VNumber lit) stk)
  | TString raw => Some (complete (VString raw) stk)
  | TOpenBracket => if may_nest stk then Some (PArrayFirst stk) else None
  | TOpenBrace => if may_nest stk then Some (PKey stk []) else None
  | _ => None
  end.

Definition parse_step (st : parse_state) (t : token) : option parse_state :=
  match st, t with
  | PValue stk, t => begin_value stk t
  | PArrayFirst stk, TCloseBracket => Some (complete (VArray []) stk)
  | PArrayFirst stk, t => begin_value (FArray [] :: stk) t
  | PKey stk done, TString k => Some (PColon stk done k)
  | PKey stk [], TCloseBrace => Some (complete (VObject []) stk)
  | PColon stk done k, TColon => Some (PValue (FObject done k :: stk))
  | PNext stk (OArray done), TComma => Some (PValue (FArray done :: stk))
  | PNext stk (OArray done), TCloseBracket => Some (complete (VArray done) stk)
  | PNext stk (OObject done), TComma => Some (PKey stk done)
  | PNext stk (OObject done), TCloseBrace => Some (complete (VObject done) stk)
  | _, _ => None
  end.

Fixpoint parse_tokens (st : parse_state) (ts : list token) : option parse_state :=
  match ts with
  | [] => Some st
  | t :: ts => st' ← parse_step st t; parse_tokens st' ts
  end.

(** [checkValid] and the tree; [None] is a syntax error. *)
Definition parse (l : list ascii) : option tree :=
  ts ← lex Between l;
  st ← parse_tokens (PValue []) ts;
  match st with PDone v => Some v | _ => None end.

(** ** Decoding a tree

    A decoder changes the value a variable holds; [None] is an error, which
    every caller of the program answers by dropping the whole value.  [null]
    leaves a variable as it is. *)
Definition decoder (A : Type) : Type := tree → A → option A.

(** [unquote]: escapes, then invalid UTF-8 replaced. *)
Definition text (raw : list ascii) : option (list ascii) := sanitize <$> unescape raw.

Definition decode_string : decoder string := λ v old,
  match v with VNull => Some old | VString raw => of_chars <$> text raw | _ => None end.
Definition decode_bytes : decoder (list ascii) := λ v old,
  match v with VNull => Some old | VString raw => text raw | _ => None end.

(** [strconv.ParseUint(lit, 10, 64)] *)
Definition decode_uint64 : decoder Z := λ v old,
  match v with
  | VNull => Some old
  | VNumber lit => n ← parse_digits 0 lit; if n <? 2^64 then Some n else None
  | _ => None
  end.

(** A number literal as sign, digits and power of ten.  The exponent stops
    growing once it has five digits. *)
Fixpoint exp_digits (acc : Z) (l : list ascii) : option Z :=
  match l with
  | [] => Some acc
  | c :: l => d ← digit_val c; exp_digits (if acc <? 10000 then acc * 10 + d else acc) l
  end.
Definition strip (c : ascii) (l : list ascii) : bool * list ascii :=
  match l with x :: l' => if bool_decide (x = c) then (true, l') else (false, l) | [] => (false, []) end.
Definition parse_exp (l : list ascii) : option Z :=
  match l with
  | [] => Some 0
  | c :: l =>
      if is_exp c then
        let '(neg, l') := strip "-"%char l in
        let '(_, l') := strip "+"%char l' in
        e ← exp_digits 0 l'; Some (if neg then - e else e)
      else None
  end.
Definition parse_decimal (lit : list ascii) : option (bool * Z * Z) :=
  let '(neg, l) := strip "-"%char lit in
  let '(int, l) := span_digits l in
  let '(point, l) := strip "."%char l in
  let '(frac, l) := if point then span_digits l else ([], l) in
  m ← parse_digits 0 (int ++ frac);
  e ← parse_exp l;
  Some (neg, m, e - Z.of_nat (length frac)).

(** The binary64 number nearest to m * 10^e, ties to even. *)
Definition f64_of_decimal (neg : bool) (m e : Z) : spec_float :=
  match m with
  | Zpos p =>
      if 0 <=? e then binary_normalize 53 1024 (if neg then - (m * 10 ^ e) else m * 10 ^ e) 0 neg
      else f64_div (S754_finite neg p 0) (S754_finite false (Z.to_pos (10 ^ (- e))) 0)
  | _ => S754_zero neg
  end.

(** [strconv.ParseFloat(lit, 64)]; out of range is an error. *)
Definition ParseFloat (lit : list ascii) : option spec_float :=
  '(neg, m, e) ← parse_decimal lit;
  match f64_of_decimal neg m e with
  | S754_infinity _ => None
  | f => Some f
  end.
Definition decode_float64 : decoder spec_float := λ v old,
  match v with VNull => Some old | VNumber lit => ParseFloat lit | _ => None end.

(** [Time.UnmarshalJSON] reads the literal as it stands, escapes included;
    [None] is the zero time. *)
Definition decode_time : decoder (option Z) := λ v old,
  match v with
  | VNull => Some old
  | VString raw => t ← parse_rfc3339 raw; Some (if t =? zero_instant then None else Some t)
  | _ => None
  end.

(** A slice is a length over a backing array, which a shorter array decoded
    over it leaves behind: elements decode over what the backing array holds. *)
Record slice (A : Type) := { backing : list A; len : nat }.
Arguments backing {A} _.
Arguments len {A} _.
Definition nil_slice {A} : slice A := {| backing := []; len := 0 |}.
Definition elements {A} (s : slice A) : list A := take (len s) (backing s).

Fixpoint decode_elements {A} (dec : decoder A) (zero : A) (vs : list tree) (b : list A) : option (list A) :=
  match vs with
  | [] => Some b
  | v :: vs => x ← dec v (default zero (head b)); k ← decode_elements dec zero vs (tail b); Some (x :: k)
  end.
Definition decode_slice {A} (dec : decoder A) (zero : A) : decoder (slice A) := λ v s,
  match v with
  | VNull | VArray [] => Some nil_slice
  | VArray vs => b ← decode_elements dec zero vs (backing s); Some {| backing := b; len := length vs |}
  | _ => None
  end.

(** The fields of a struct by their JSON names; a key that is no name exactly
    matches the first it equals but for case, and one that matches none is
    skipped. *)
Definition field (S : Type) : Type := string * decoder S.
Definition set_field {S A} (name : string) (get : S → A) (set : A → S → S) (dec : decoder A) : field S :=
  (name, λ v s, x ← dec v (get s); Some (set x s)).

Definition find_field {S} (fs : list (field S)) (key : string) : option (decoder S) :=
  match find_first (λ f, bool_decide (f.1 = key)) fs with
  | Some f => Some f.2
  | None => snd <$> find_first (λ f, EqualFold_lower key f.1) fs
  end.

Fixpoint decode_members {S} (fs : list (field S)) (kvs : list (list ascii * tree)) (s : S) : option S :=
  match kvs with
  | [] => Some s
  | (raw, v) :: kvs =>
      key ← text raw;
      s ← match find_field fs (of_chars key) with Some dec => dec v s | None => Some s end;
      decode_members fs kvs s
  end.
Definition decode_struct {S} (fs : list (field S)) : decoder S := λ v s,
  match v with VNull => Some s | VObject kvs => decode_members fs kvs s | _ => None end.

(** [json.Unmarshal(data, &x)] where [x] is [zero]. *)
Definition Unmarshal {S} (dec : decoder S) (zero : S) (data : list ascii) : option S :=
  v ← parse data; dec v zero.
