(* ===== verification/JsonRound.v ===== *)
(** * encoding/json: what is written is read back

    The text [json.Marshal] writes parses to the tree of the value, is UTF-8,
    and decodes field by field into the struct it came from; a proper beginning
    of an object's text is not JSON. *)

From Stdlib Require Import ZArith Lia Ascii.
From stdpp Require Import prelude strings pretty gmap list.
From S2P Require Import Prelude GoStrings GoTime Json GoCalendar JsonDecode.

Local Open Scope Z_scope.

(** ** Well-formed values and their trees *)

Fixpoint number_from (s : num_state) (l : list ascii) : bool :=
  match l with
  | [] => num_end s
  | c :: l => match num_step s c with Some s' => number_from s' l | None => false end
  end.
Definition is_number (l : list ascii) : bool :=
  match l with
  | c :: l => match num_begin c with Some s => number_from s l | None => false end
  | [] => false
  end.

(** Raw text is a number's, and the value does not nest too deep inside [d]
    open brackets. *)
Fixpoint json_ok (d : nat) (v : json) : bool :=
  match v with
  | JRaw t => is_number t
  | JString _ | JInt _ => true
  | JArray vs => (Z.of_nat d <? maxNestingDepth) && forallb (json_ok (S d)) vs
  | JObject fs => (Z.of_nat d <? maxNestingDepth) && forallb (λ '(_, v), json_ok (S d) v) fs
  end.

Fixpoint tree_of (v : json) : tree :=
  match v with
  | JRaw t => VNumber t
  | JString s => VString (escape s)
  | JInt z => VNumber (chars (pretty z))
  | JArray vs => VArray (map tree_of vs)
  | JObject fs => VObject (map (λ '(k, v), (escape (chars k), tree_of v)) fs)
  end.

Fixpoint commas (parts : list (list token)) : list token :=
  match parts with
  | [] => []
  | [p] => p
  | p :: ps => p ++ TComma :: commas ps
  end.
Fixpoint tokens_of (v : json) : list token :=
  match v with
  | JRaw t => [TNumber t]
  | JString s => [TString (escape s)]
  | JInt z => [TNumber (chars (pretty z))]
  | JArray vs => TOpenBracket :: commas (map tokens_of vs) ++ [TCloseBracket]
  | JObject fs =>
      TOpenBrace :: commas (map (λ '(k, v), TString (escape (chars k)) :: TColon :: tokens_of v) fs)
      ++ [TCloseBrace]
  end.

Section JsonInd.
Context (P : json → Prop) (Hraw : ∀ t, P (JRaw t)) (Hstring : ∀ s, P (JString s)) (Hint : ∀ z, P (JInt z)).
Context (Harray : ∀ vs, Forall P vs → P (JArray vs)) (Hobject : ∀ fs, Forall (λ f, P f.2) fs → P (JObject fs)).
Fixpoint json_nested_ind (v : json) : P v :=
  match v with
  | JRaw t => Hraw t
  | JString s => Hstring s
  | JInt z => Hint z
  | JArray vs => Harray vs
      ((fix go vs := match vs return Forall P vs with
        | [] => Forall_nil_2 P
        | v :: vs => Forall_cons_2 P v vs (json_nested_ind v) (go vs) end) vs)
  | JObject fs => Hobject fs
      ((fix go fs := match fs return Forall (λ f, P f.2) fs with
        | [] => Forall_nil_2 _
        | f :: fs => Forall_cons_2 _ f fs (json_nested_ind f.2) (go fs) end) fs)
  end.
End JsonInd.

(** *** Tokens *)

(** The text a value is followed by: nothing, or a byte that ends a number. *)
Definition delimited (l : list ascii) : Prop :=
  match l with [] => True | c :: _ => c = ","%char ∨ c = "]"%char ∨ c = "}"%char end.

Lemma lex_number s acc l rest :
  number_from s l = true → delimited rest →
  lex (InNumber s acc) (l ++ rest) = k ← lex Between rest; Some (TNumber (acc ++ l) :: k).
Proof.
  revert s acc. induction l as [|c l IH]; intros s acc Hl Hd; cbn [number_from] in Hl.
  - rewrite app_nil_r. destruct rest as [|c rest]; [cbn; by rewrite Hl|].
    assert (num_step s c = None) as Hn by (destruct Hd as [->|[->| ->]]; by destruct s).
    cbn [app lex lex_step]. rewrite Hn, Hl. destruct (lex_begin c) as [[ts st]|]; [|done].
    cbn. by destruct (lex st rest).
  - destruct (num_step s c) as [s'|] eqn:Hc; [|done]. cbn [app lex lex_step]. rewrite Hc.
    cbn [mbind option_bind]. rewrite IH by done. rewrite <-(assoc_L (++)). by destruct (lex Between rest).
Qed.

Lemma num_begin_lex c s : num_begin c = Some s → lex_begin c = Some ([], InNumber s [c]).
Proof.
  destruct c as [[] [] [] [] [] [] [] []]; vm_compute; by intros [= <-].
Qed.

Lemma lex_is_number l rest :
  is_number l = true → delimited rest →
  lex Between (l ++ rest) = k ← lex Between rest; Some (TNumber l :: k).
Proof.
  destruct l as [|c l]; [done|]. cbn [is_number]. destruct (num_begin c) as [s|] eqn:Hc; [|done].
  intros Hl Hd. cbn [app lex lex_step]. rewrite (num_begin_lex _ _ Hc). cbn [mbind option_bind].
  rewrite lex_number by done. by destruct (lex Between rest).
Qed.

(** The text of a literal, up to the quote that ends it. *)
Fixpoint scan_literal (esc : bool) (l : list ascii) : option bool :=
  match l with
  | [] => Some esc
  | c :: l =>
      if esc then scan_literal false l
      else if bool_decide (c = quote) || (byte_val c <? 0x20) then None
      else scan_literal (bool_decide (c = "\"%char)) l
  end.

Lemma scan_literal_app e l k :
  scan_literal e (l ++ k) = e' ← scan_literal e l; scan_literal e' k.
Proof. revert e. induction l as [|c l IH]; intros e; [done|]. cbn. destruct e; [apply IH|]. by case_match. Qed.

Lemma scan_high l : Forall (λ x, RuneSelf ≤ byte_val x) l → scan_literal false l = Some false.
Proof.
  induction 1 as [|x l Hx _ IH]; [done|]. cbn.
  rewrite !bool_decide_eq_false_2 by (intros ->; by vm_compute in Hx). unfold RuneSelf in Hx.
  by rewrite (proj2 (Z.ltb_ge _ _)) by lia.
Qed.

Lemma scan_escape_ascii c : byte_val c < RuneSelf → scan_literal false (escape_ascii c) = Some false.
Proof.
  intros Hc. destruct c as [b0 b1 b2 b3 b4 b5 b6 b7].
  destruct b7; [by destruct b0, b1, b2, b3, b4, b5, b6; vm_compute in Hc|]. clear Hc.
  by destruct b0, b1, b2, b3, b4, b5, b6.
Qed.

Lemma scan_escape l : scan_literal false (escape l) = Some false.
Proof.
  unfold escape. pose proof (decode_segs l) as Hs.
  induction Hs as [|[r b] segs Hrb _ IH]; [done|]. cbn [fmap list_fmap mjoin list_join].
  rewrite scan_literal_app.
  assert (scan_literal false (escape_seg (r, b)) = Some false) as ->; [|done]. clear IH.
  unfold escape_seg. destruct (r <? RuneSelf) eqn:Hr.
  - destruct Hrb as [[Hv ->]|[-> _]]; [|done].
    assert (encode_valid r = [byte_of r]) as -> by (unfold encode_valid, RuneSelf in *; by rewrite Hr).
    cbn [fmap list_fmap mjoin list_join]. rewrite app_nil_r. apply scan_escape_ascii.
    unfold RuneSelf in *. destruct Hv; rewrite byte_val_of; lia.
  - destruct ((r =? RuneError) && _) eqn:He; [done|]. destruct (_ || _) eqn:H28.
    + by assert (r = 0x2028 ∨ r = 0x2029) as [->| ->] by lia.
    + destruct Hrb as [[Hv ->]|[-> (x & -> & _)]]; [|done].
      apply scan_high, encode_valid_high; [done|lia].
Qed.

Lemma lex_literal e acc l rest :
  scan_literal e l = Some false →
  lex (InString acc e) (l ++ quote :: rest) =
    t ← string_token (acc ++ l); k ← lex Between rest; Some (t :: k).
Proof.
  revert e acc. induction l as [|c l IH]; intros e acc Hl; cbn [scan_literal] in Hl.
  - injection Hl as ->. rewrite app_nil_r. cbn. by destruct (string_token acc).
  - cbn [app lex lex_step]. destruct e; cbn [mbind option_bind].
    + rewrite IH by done. rewrite <-(assoc_L (++)). cbn [app].
      destruct (string_token _); [|done]. cbn. by destruct (lex Between rest).
    + destruct (bool_decide (c = quote)); [done|]. destruct (byte_val c <? 0x20); [done|].
      cbn [orb mbind option_bind] in Hl |- *. rewrite IH by done. rewrite <-(assoc_L (++)). cbn [app].
      destruct (string_token _); [|done]. cbn. by destruct (lex Between rest).
Qed.

Lemma lex_MarshalString s rest :
  lex Between (MarshalString s ++ rest) = k ← lex Between rest; Some (TString (escape s) :: k).
Proof.
  unfold MarshalString. cbn [app lex lex_step]. change (lex_begin quote) with (Some ([] : list token, InString [] false)).
  cbn [mbind option_bind]. rewrite <-(assoc_L (++)). cbn [app].
  rewrite lex_literal by apply scan_escape. cbn [app]. unfold string_token. rewrite unescape_escape.
  cbn [mbind option_bind]. by destruct (lex Between rest).
Qed.

(** *** Decimal numbers *)
Lemma number_digits s l :
  s = Num1 ∨ s = NumFrac ∨ s = NumDot ∧ l ≠ [] → Forall (λ c, isDigit c = true) l → number_from s l = true.
Proof.
  intros Hs Hl. revert s Hs. induction Hl as [|c l Hc _ IH]; intros s Hs; cbn [number_from].
  - by destruct Hs as [->|[->|[-> ?]]].
  - destruct Hs as [->|[->|[-> _]]]; cbn [num_step]; rewrite Hc; apply IH; auto.
Qed.

Lemma pretty_N_go_head x s :
  (0 < x)%N → ∃ c l, pretty_N_go x s = of_chars (c :: l) ∧ isDigit c = true ∧ c ≠ "0"%char.
Proof.
  revert s. induction (N.lt_wf_0 x) as [x _ IH]; intros s Hx. rewrite pretty_N_go_step by lia.
  destruct (decide (x < 10)%N) as [Hs|Hs].
  - rewrite N.div_small, pretty_N_go_0 by lia. exists (pretty_N_char (x `mod` 10)), (chars s).
    rewrite N.mod_small by lia. cbn. rewrite of_chars_chars. split; [done|].
    assert (x = 1 ∨ x = 2 ∨ x = 3 ∨ x = 4 ∨ x = 5 ∨ x = 6 ∨ x = 7 ∨ x = 8 ∨ x = 9)%N as H by lia.
    by destruct_or! H; subst.
  - apply IH; [apply N.div_lt; lia|]. apply N.div_str_pos. lia.
Qed.

(** The integer part of a decimal, and what a fraction may follow. *)
Lemma pretty_number (n : N) l :
  l = [] ∨ (∃ f, l = "."%char :: f ∧ f ≠ [] ∧ Forall (λ c, isDigit c = true) f) →
  is_number (chars (pretty n) ++ l) = true.
Proof.
  intros Hl.
  assert (∀ s, s = Num0 ∨ s = Num1 → number_from s l = true) as Hend.
  { intros s Hs. destruct Hl as [->|(f & -> & Hf & Hd)]; [by destruct Hs as [->| ->]|].
    destruct Hs as [->| ->]; cbn; by apply number_digits; auto. }
  assert (∀ ds, Forall (λ c, isDigit c = true) ds → number_from Num1 (ds ++ l) = true) as Hds.
  { induction 1 as [|d ds Hd _ IH]; [by apply Hend; right|]. cbn. by rewrite Hd. }
  pose proof (pretty_N_digits n) as Hd. unfold pretty, pretty_N in *. case_decide as Hn; [by apply Hend; left|].
  destruct (pretty_N_go_head n "" ltac:(lia)) as (c & k & Heq & Hc & Hc0). rewrite Heq, chars_of_chars in *.
  cbn [app is_number]. apply Forall_cons in Hd as [_ Hd].
  assert (num_begin c = Some Num1) as ->.
  { unfold num_begin. rewrite bool_decide_eq_false_2, bool_decide_eq_false_2, Hc; [done|done|]. by intros ->. }
  apply Hds. eapply Forall_impl; [done|]. intros x. apply is_digit_spec.
Qed.

Lemma pretty_Z_number (z : Z) : is_number (chars (pretty z)) = true.
Proof.
  assert (∀ n : N, is_number (chars (pretty n)) = true) as H.
  { intros n. rewrite <-(app_nil_r (chars _)). apply pretty_number. by left. }
  destruct z as [|p|p]; [done|apply (H (Npos p))|]. specialize (H (Npos p)).
  change (is_number ("-"%char :: chars (pretty (Npos p))) = true). cbn [is_number num_begin].
  change (num_begin "-") with (Some NumNeg). cbn iota. pose proof (pretty_N_digits (Npos p)) as Hd.
  destruct (chars (pretty (Npos p))) as [|c l]; [done|]. apply Forall_cons in Hd as [Hd _].
  cbn [is_number number_from num_step] in *. unfold num_begin in H.
  rewrite (bool_decide_eq_false_2 (c = "-"%char)) in H; [exact H|]. intros ->. by destruct Hd.
Qed.

(** *** Values *)
#[local] Arguments MarshalString : simpl never.
Lemma lex_open c t l :
  lex_begin c = Some ([t], Between) → lex Between (c :: l) = k ← lex Between l; Some (t :: k).
Proof. intros Hc. cbn [lex lex_step]. by rewrite Hc. Qed.

Definition lexes (l : list ascii) (ts : list token) : Prop :=
  ∀ rest, delimited rest → lex Between (l ++ rest) = k ← lex Between rest; Some (ts ++ k).

Lemma lexes_member k l ts : lexes l ts →
  lexes (MarshalString k ++ ":"%char :: l) (TString (escape k) :: TColon :: ts).
Proof.
  intros Hl rest Hd. rewrite <-(assoc_L (++)), lex_MarshalString. cbn [app].
  rewrite (lex_open ":" TColon) by done. rewrite Hl by done. by destruct (lex Between rest).
Qed.

Lemma lexes_intersperse {A} (f : A → list ascii) (g : A → list token) (xs : list A) :
  Forall (λ x, lexes (f x) (g x)) xs → lexes (intersperse (map f xs)) (commas (map g xs)).
Proof.
  induction 1 as [|x xs Hx Hxs IH]; intros rest Hd; cbn [map intersperse commas].
  - cbn [app]. by destruct (lex Between rest).
  - destruct xs as [|y ys]; [by apply Hx|]. cbn [map] in *. rewrite <-!(assoc_L (++)).
    rewrite Hx by (cbn; auto). cbn [comma app]. rewrite (lex_open "," TComma) by done.
    rewrite IH by done. destruct (lex Between rest); [|done]. cbn. f_equal. by rewrite <-(assoc_L (++)).
Qed.

Lemma lexes_bracket o c to tc l ts :
  lex_begin o = Some ([to], Between) → lex_begin c = Some ([tc], Between) →
  c = "]"%char ∨ c = "}"%char →
  lexes l ts → lexes (o :: l ++ [c]) (to :: ts ++ [tc]).
Proof.
  intros Ho Hc Hcs Hl rest Hd. cbn [app]. rewrite (lex_open o to), <-(assoc_L (++)) by done.
  rewrite Hl by (cbn; tauto). cbn [app]. rewrite (lex_open c tc) by done.
  destruct (lex Between rest); [|done]. cbn. by rewrite <-(assoc_L (++)).
Qed.

Lemma forallb_Forall {A} (f : A → bool) xs : forallb f xs = true ↔ Forall (λ x, f x = true) xs.
Proof. induction xs as [|x xs IH]; cbn; [done|]. by rewrite andb_true_iff, IH, Forall_cons. Qed.

Lemma lex_Marshal v d : json_ok d v = true → lexes (Marshal v) (tokens_of v).
Proof.
  revert d. induction v as [t|s|z|vs IH|fs IH] using json_nested_ind; intros d Hok; cbn [json_ok] in Hok.
  - intros rest Hd. by apply lex_is_number.
  - intros rest Hd. apply lex_MarshalString.
  - intros rest Hd. by apply lex_is_number; [apply pretty_Z_number|].
  - apply andb_true_iff in Hok as [_ Hok%forallb_Forall]. apply lexes_bracket; [done..|by left|].
    apply lexes_intersperse. rewrite Forall_forall in *. intros v Hv. eapply IH; [done|].
    by apply Hok.
  - apply andb_true_iff in Hok as [_ Hok%forallb_Forall]. apply lexes_bracket; [done..|by right|].
    apply lexes_intersperse. rewrite Forall_forall in *. intros [k v] Hv. apply lexes_member.
    eapply (IH (k, v)); [done|]. by apply (Hok (k, v)).
Qed.

(** *** The tree *)
Lemma tokens_of_head v : ∃ t ts, tokens_of v = t :: ts ∧ t ≠ TCloseBracket.
Proof. destruct v; (eexists _, _; split; [reflexivity|done]). Qed.

Definition builds (d : nat) (ts : list token) (v : tree) : Prop :=
  ∀ stk k, length stk = d → parse_tokens (PValue stk) (ts ++ k) = parse_tokens (complete v stk) k.

Lemma builds_elements d vs stk done' k :
  Forall (λ v, builds (S d) (tokens_of v) (tree_of v)) vs → length stk = d → vs ≠ [] →
  parse_tokens (PValue (FArray done' :: stk)) (commas (map tokens_of vs) ++ TCloseBracket :: k) =
    parse_tokens (complete (VArray (done' ++ map tree_of vs)) stk) k.
Proof.
  intros H Hs. revert done'. induction H as [|v vs Hv _ IH]; intros done' Hne; [done|].
  destruct vs as [|w vs]; cbn [map commas].
  - rewrite Hv by (cbn; lia). reflexivity.
  - rewrite <-(assoc_L (++)), Hv by (cbn; lia). cbn [complete app parse_tokens parse_step mbind option_bind].
    cbn [map commas] in IH. rewrite IH by done. by rewrite <-(assoc_L (++)).
Qed.

Lemma parse_key stk done' k : parse_step (PKey stk done') (TString k) = Some (PColon stk done' k).
Proof. by destruct done'. Qed.

Lemma builds_members d (fs : list (string * json)) stk done' k :
  Forall (λ f, builds (S d) (tokens_of f.2) (tree_of f.2)) fs → length stk = d → fs ≠ [] →
  parse_tokens (PKey stk done')
    (commas (map (λ '(k, v), TString (escape (chars k)) :: TColon :: tokens_of v) fs) ++ TCloseBrace :: k) =
    parse_tokens (complete (VObject (done' ++ map (λ '(k, v), (escape (chars k), tree_of v)) fs)) stk) k.
Proof.
  intros H Hs. revert done'. induction H as [|[n v] fs Hv _ IH]; intros done' Hne; [done|]. cbn [snd] in Hv.
  destruct fs as [|[n' w] fs]; cbn [map commas].
  - cbn [app parse_tokens]. rewrite parse_key. cbn [parse_tokens parse_step mbind option_bind].
    rewrite Hv by (cbn; lia). reflexivity.
  - rewrite <-(assoc_L (++)). cbn [app parse_tokens]. rewrite parse_key.
    cbn [app parse_tokens parse_step mbind option_bind]. rewrite Hv by (cbn; lia). cbn [complete app parse_tokens parse_step mbind option_bind].
    cbn [map commas] in IH. rewrite IH by done. by rewrite <-(assoc_L (++)).
Qed.

Lemma builds_tree d v : json_ok d v = true → builds d (tokens_of v) (tree_of v).
Proof.
  revert d. induction v as [t|s|z|vs IH|fs IH] using json_nested_ind; intros d Hok stk k Hs; cbn [json_ok] in Hok;
    [done..| |];
    apply andb_true_iff in Hok as [Hd Hok%forallb_Forall];
    cbn [tokens_of tree_of app parse_tokens parse_step begin_value]; unfold may_nest; rewrite Hs, Hd;
    cbn [mbind option_bind]; rewrite <-(assoc_L (++)); cbn [app].
  - destruct vs as [|v vs]; [done|].
    assert (Forall (λ v, builds (S d) (tokens_of v) (tree_of v)) (v :: vs)) as Hall.
    { rewrite Forall_forall in *. intros w Hw. apply IH; [done|]. by apply Hok. }
    etransitivity; [|exact (builds_elements d (v :: vs) stk [] k Hall Hs ltac:(done))].
    destruct (tokens_of_head v) as (t & ts & Ht & Hne).
    destruct vs as [|w vs]; cbn [map commas]; rewrite Ht; cbn [app parse_tokens]; by destruct t.
  - destruct fs as [|[n v] fs]; [done|]. apply (builds_members d ((n, v) :: fs) stk [] k); [|done..].
    rewrite Forall_forall in *. intros f Hf. apply IH; [done|].
    specialize (Hok f Hf). by destruct f.
Qed.

(** What [Marshal] writes parses to the tree of the value. *)
Lemma parse_Marshal v : json_ok 0 v = true → parse (Marshal v) = Some (tree_of v).
Proof.
  intros Hok. unfold parse. pose proof (lex_Marshal v 0 Hok [] I) as Hl. rewrite app_nil_r in Hl. rewrite Hl.
  cbn [lex lex_end mbind option_bind]. rewrite (builds_tree 0 v Hok [] [] eq_refl). reflexivity.
Qed.

Lemma Unmarshal_Marshal {A} (dec : decoder A) zero v :
  json_ok 0 v = true → Unmarshal dec zero (Marshal v) = dec (tree_of v) zero.
Proof. intros Hok. unfold Unmarshal. rewrite parse_Marshal by done. reflexivity. Qed.

Lemma sanitize_utf8 l : valid_utf8 (sanitize l).
Proof.
  exists (decode l).*1. split.
  - pose proof (decode_segs l) as Hs. apply Forall_fmap. eapply Forall_impl; [exact Hs|].
    intros [r b] [[Hr _]|[-> _]]; [done|]. cbn. unfold valid_rune, RuneError. lia.
  - unfold sanitize. f_equal. rewrite <-list_fmap_compose. apply list_fmap_ext. by intros _ [r b] _.
Qed.

Lemma text_escape l : text (escape l) = Some (sanitize l).
Proof. unfold text. rewrite unescape_escape. cbn. f_equal. apply sanitize_valid, sanitize_utf8. Qed.

(** *** Fields *)
Definition unescaped (c : ascii) : Prop := byte_val c < RuneSelf ∧ needs_escape (byte_val c) = false.

#[local] Arguments escape_seg : simpl never.
#[local] Arguments escape_ascii : simpl never.
Lemma escape_id l : Forall unescaped l → escape l = l.
Proof.
  intros H. unfold escape. rewrite decode_ascii by (eapply Forall_impl; [done|]; by intros c []).
  induction H as [|c l [Hc He] _ IH]; [done|]. csimpl. rewrite IH. unfold escape_seg.
  rewrite (proj2 (Z.ltb_lt _ _)) by done. csimpl. unfold escape_ascii. by rewrite He.
Qed.

Lemma digit_unescaped c : isDigit c = true → unescaped c.
Proof. unfold isDigit, unescaped, needs_escape, RuneSelf. lia. Qed.

Lemma format_rfc3339_unescaped t : rfc3339_range t → Forall unescaped (format_rfc3339 t).
Proof.
  unfold rfc3339_range, format_rfc3339, format_day.
  destruct (civil _) as [[y m] d] eqn:Hc. intros Hy. apply civil_spec in Hc as (Hm & Hd & _).
  assert (∀ x w, 0 ≤ x → Forall unescaped (appendInt x w)) as Hn.
  { intros x w Hx. eapply Forall_impl; [by apply appendInt_digits|apply digit_unescaped]. }
  assert (Forall unescaped [dash; colon; "T"; "Z"; "."]%char) as Hp by (by repeat constructor).
  rewrite !Forall_cons in Hp. destruct Hp as (Hdash & Hcolon & HT & HZ & Hdot & _).
  set (ns := t mod (86400 * second)). assert (0 ≤ ns < 86400 * second) by (by apply Z.mod_pos_bound).
  assert (0 ≤ ns / second) by (apply Z.div_pos; [lia|done]). assert (0 ≤ ns mod second) by (by apply Z.mod_pos_bound).
  rewrite chars_of_chars. repeat rewrite ?Forall_app, ?Forall_cons.
  split_and!; try done; try (apply Hn; first [lia | zdiv]).
  pose proof (Hn (ns mod second) 9%nat ltac:(done)) as Hf.
  assert (Forall unescaped (trim_zeros (appendInt (ns mod second) 9))) as Ht.
  { unfold trim_zeros, drop_while_end. by apply Forall_reverse, drop_while_Forall, Forall_reverse. }
  destruct (trim_zeros _) as [|c l]; [by repeat constructor|]. constructor; [done|].
  apply Forall_app. split; [done|]. by repeat constructor.
Qed.

Lemma decode_string_escape s old : valid_utf8 (chars s) → decode_string (VString (escape (chars s))) old = Some s.
Proof. intros Hs. cbn. rewrite text_escape, sanitize_valid by done. cbn. by rewrite of_chars_chars. Qed.

Lemma decode_time_marshal t old :
  rfc3339_range t →
  decode_time (tree_of (marshal_time t)) old = Some (if t =? zero_instant then None else Some t).
Proof.
  intros Ht. cbn [tree_of marshal_time decode_time]. rewrite escape_id by (by apply format_rfc3339_unescaped).
  by rewrite parse_format_rfc3339.
Qed.

Lemma decode_uint64_marshal n old : 0 ≤ n < 2^64 → decode_uint64 (tree_of (JInt n)) old = Some n.
Proof.
  intros Hn. cbn [tree_of decode_uint64]. assert (chars (pretty n) = chars (pretty (Z.to_N n))) as -> by (destruct n; [reflexivity..|lia]).
  rewrite parse_pretty. cbn [mbind option_bind]. rewrite Z2N.id by lia. by rewrite (proj2 (Z.ltb_lt _ _)) by lia.
Qed.

(** A member whose key is the field's own name. *)
Lemma decode_members_cons {A} (fs : list (field A)) name raw v kvs s dec :
  text raw = Some (chars name) → find_field fs name = Some dec →
  decode_members fs ((raw, v) :: kvs) s = s ← dec v s; decode_members fs kvs s.
Proof. intros Hk Hf. cbn [decode_members]. rewrite Hk. cbn [mbind option_bind]. by rewrite of_chars_chars, Hf. Qed.

(** *** Truncated text *)
Fixpoint lex_run (st : lex_state) (l : list ascii) : option (list token * lex_state) :=
  match l with
  | [] => Some ([], st)
  | c :: l => '(ts, st) ← lex_step st c; '(k, st) ← lex_run st l; Some (ts ++ k, st)
  end.

Lemma lex_app st p l : lex st (p ++ l) = '(ts, st') ← lex_run st p; k ← lex st' l; Some (ts ++ k).
Proof.
  revert st. induction p as [|c p IH]; intros st; cbn [app lex lex_run mbind option_bind]; [by destruct (lex st l)|].
  destruct (lex_step st c) as [[ts st1]|]; [|done]. cbn [mbind option_bind]. rewrite IH.
  destruct (lex_run st1 p) as [[k st2]|]; [|done]. cbn [mbind option_bind].
  destruct (lex st2 l); [|done]. cbn. by rewrite <-(assoc_L (++)).
Qed.

(** A literal holds no brace, so a text that ends in one ends in its token. *)
Definition literal_ok (st : lex_state) : Prop :=
  match st with InLiteral rest _ => "}"%char ∉ rest | _ => True end.

Lemma lex_begin_ok c ts st : lex_begin c = Some (ts, st) → literal_ok st.
Proof.
  unfold lex_begin. intros H.
  repeat (case_match; [injection H as <- <-; try done; cbn; set_solver|]).
  destruct (num_begin c); [|done]. by injection H as <- <-.
Qed.

Lemma lex_step_ok st c ts st' : literal_ok st → lex_step st c = Some (ts, st') → literal_ok st'.
Proof.
  destruct st as [|raw [|]|s lit|[|x rest] tok]; cbn [lex_step]; intros Hok H; [|by simplify_eq| | |done|].
  - by eapply lex_begin_ok.
  - case_match; [destruct (string_token raw); by simplify_eq/=|]. case_match; by simplify_eq.
  - destruct (num_step s c); [by simplify_eq|]. destruct (num_end s); [|done].
    destruct (lex_begin c) as [[k st1]|] eqn:Hb; [|done]. simplify_eq/=. by eapply lex_begin_ok.
  - case_bool_decide; [|done]. cbn in Hok. destruct rest; simplify_eq; [done|]. cbn. set_solver.
Qed.

Lemma lex_run_ok st l ts st' : literal_ok st → lex_run st l = Some (ts, st') → literal_ok st'.
Proof.
  revert st ts. induction l as [|c l IH]; intros st ts Hok H; cbn [lex_run] in H; [by simplify_eq|].
  destruct (lex_step st c) as [[k st1]|] eqn:Hs; [|done]. cbn [mbind option_bind] in H.
  destruct (lex_run st1 l) as [[k' st2]|] eqn:Hr; [|done]. simplify_eq/=.
  eapply IH; [|done]. by eapply lex_step_ok.
Qed.

Lemma lex_last_brace st l ts :
  literal_ok st → lex st (l ++ ["}"%char]) = Some ts → ∃ k, ts = k ++ [TCloseBrace].
Proof.
  intros Hok. rewrite lex_app. destruct (lex_run st l) as [[k st']|] eqn:Hr; [|done].
  apply lex_run_ok in Hr; [|done]. cbn [mbind option_bind].
  destruct (lex st' ["}"%char]) as [e|] eqn:He; [|done]. intros [= <-].
  enough (∃ e', e = e' ++ [TCloseBrace]) as [e' ->] by (exists (k ++ e'); by rewrite (assoc_L (++))).
  destruct st' as [|raw [|]|s lit|rest tok]; [injection He as <-; by exists []|done..| |].
  - assert (num_step s "}"%char = None) as Hn by (by destruct s).
    cbn [lex lex_step] in He. rewrite Hn in He. destruct (num_end s); [|done].
    injection He as <-. by exists [TNumber lit].
  - destruct rest as [|x rest]; [done|]. cbn [lex lex_step] in He. case_bool_decide; [|done]. subst x.
    cbn in Hr. set_solver.
Qed.

Lemma lex_number_head s lit l ts : lex (InNumber s lit) l = Some ts → ∃ lit' k, ts = TNumber lit' :: k.
Proof.
  revert s lit ts. induction l as [|c l IH]; intros s lit ts; cbn [lex lex_end lex_step].
  - destruct (num_end s); [|done]. intros [= <-]. eauto.
  - destruct (num_step s c) as [s'|]; cbn [mbind option_bind].
    + destruct (lex _ l) as [k|] eqn:Hk; [|done]. intros [= <-]. by eapply IH.
    + destruct (num_end s); [|done]. destruct (lex_begin c) as [[e st]|]; [|done]. cbn.
      destruct (lex st l); [|done]. intros [= <-]. eauto.
Qed.

(** Only an opening state is left by one token for a finished value, or else
    the token closes a bracket. *)
Definition opening (st : parse_state) : bool := match st with PValue [] => true | _ => false end.

Lemma parse_done_number st lit v : parse_step st (TNumber lit) = Some (PDone v) → opening st = true.
Proof. destruct st as [[|[] ?]|?|? []|?? ?|? []|?]; by try (cbn; intros; discriminate). Qed.

Lemma begin_value_opening stk t st : begin_value stk t = Some st → opening st = false.
Proof.
  assert (∀ v, opening (complete v stk) = false) as Hc by (by destruct stk as [|[] ?]).
  destruct t; cbn [begin_value]; try destruct (may_nest stk); intros [= <-]; by rewrite ?Hc.
Qed.

Lemma parse_step_opening st t st' : parse_step st t = Some st' → opening st' = false.
Proof.
  assert (∀ v stk, opening (complete v stk) = false) as Hc by (by destruct stk as [|[] ?]).
  destruct st as [stk|stk|stk [|]|stk ? ?|stk []|?], t; intros H;
    try discriminate H; try exact (begin_value_opening _ _ _ H); by injection H as <-.
Qed.

Lemma parse_tokens_app st l k : parse_tokens st (l ++ k) = st' ← parse_tokens st l; parse_tokens st' k.
Proof. revert st. induction l as [|t l IH]; intros st; cbn; [done|]. by destruct (parse_step st t); cbn. Qed.

Lemma parse_tokens_opening st l st' : parse_tokens st l = Some st' → opening st' = true → l = [].
Proof.
  destruct l as [|t l] using rev_ind; [done|]. rewrite parse_tokens_app.
  destruct (parse_tokens st l) as [st1|]; [|done]. cbn.
  destruct (parse_step st1 t) as [st2|] eqn:Ht; [|done]. intros [= <-] Ho.
  apply parse_step_opening in Ht. congruence.
Qed.

Lemma parse_done t k v : parse_tokens (PDone v) (t :: k) = None.
Proof. done. Qed.

(** No proper beginning of a text that ends in a brace is JSON when the text
    itself is. *)
Lemma parse_truncated p l v : parse (p ++ l ++ ["}"%char]) = Some v → parse p = None.
Proof.
  unfold parse. rewrite lex_app. rewrite <-(app_nil_r p) at 2. rewrite lex_app.
  destruct (lex_run Between p) as [[ts st]|] eqn:Hr; [|done]. cbn [mbind option_bind].
  apply lex_run_ok in Hr; [|done].
  destruct (lex st (l ++ ["}"%char])) as [e|] eqn:He; [|done]. cbn [mbind option_bind].
  pose proof (lex_last_brace _ _ _ Hr He) as [k ->]. rewrite parse_tokens_app.
  destruct (parse_tokens (PValue []) ts) as [st1|] eqn:Hts; [|done]. cbn [mbind option_bind].
  intros H. destruct st as [|?|s lit|? ?]; try done; cbn [lex lex_end] in *.
  - cbn [mbind option_bind]. rewrite app_nil_r, Hts. cbn [mbind option_bind].
    destruct st1 as [| | | | |v']; try done. by destruct k.
  - destruct (num_end s); [|done]. cbn [mbind option_bind]. rewrite parse_tokens_app, Hts.
    cbn [mbind option_bind parse_tokens]. destruct (parse_step st1 (TNumber lit)) as [st2|] eqn:Hs; [|done].
    cbn [mbind option_bind]. destruct st2 as [| | | | |v']; try done. apply parse_done_number in Hs.
    apply (parse_tokens_opening _ _ _ Hts) in Hs as Hnil. subst ts. injection Hts as <-.
    apply lex_number_head in He as (lit' & k' & He). destruct k as [|t k]; [done|].
    injection He as -> <-. by destruct k.
Qed.

(** *** Decoding a marshalled struct, field by field *)
Definition members (fs : list (string * json)) : list (list ascii * tree) :=
  map (λ '(k, v), (escape (chars k), tree_of v)) fs.

Lemma members_app fs gs : members (fs ++ gs) = members fs ++ members gs.
Proof. apply map_app. Qed.

Section Members.
Context {T A : Type} (fs : list (field T)) (name : string) (get : T → A) (set : A → T → T) (dec : decoder A).
Context (Hname : text (escape (chars name)) = Some (chars name)).
Context (Hfield : find_field fs name = Some (set_field name get set dec).2).

Lemma decode_member v x s rest :
  dec (tree_of v) (get s) = Some x →
  decode_members fs (members [(name, v)] ++ rest) s = decode_members fs rest (set x s).
Proof.
  intros Hx. cbn [members map app]. erewrite decode_members_cons by done. cbn. by rewrite Hx.
Qed.

Lemma decode_omitempty (b : bool) v x s rest :
  (b = true → set x s = s) → (b = false → dec (tree_of v) (get s) = Some x) →
  decode_members fs (members (omitempty name b v) ++ rest) s = decode_members fs rest (set x s).
Proof.
  intros Ht Hf. destruct b; cbn [omitempty].
  - by rewrite Ht.
  - by apply decode_member, Hf.
Qed.
End Members.

(** A list decoded into an empty slice. *)
Lemma decode_elements_fresh {B C} (dec : decoder B) zero (f : C → tree) (g : C → B) (xs : list C) :
  Forall (λ x, dec (f x) zero = Some (g x)) xs →
  decode_elements dec zero (map f xs) [] = Some (map g xs).
Proof. induction 1 as [|x xs Hx _ IH]; cbn; [done|]. rewrite Hx. cbn. by rewrite IH. Qed.

Lemma decode_slice_fresh {B C} (dec : decoder B) zero (f : C → tree) (g : C → B) (xs : list C) :
  Forall (λ x, dec (f x) zero = Some (g x)) xs →
  elements <$> decode_slice dec zero (VArray (map f xs)) nil_slice = Some (map g xs).
Proof.
  intros Hx. apply decode_elements_fresh in Hx. destruct xs as [|x xs]; [done|].
  cbn [map decode_slice] in *. change (backing nil_slice) with (@nil B). rewrite Hx. cbn [mbind option_bind].
  cbn. f_equal. unfold elements. cbn. f_equal. by rewrite length_map, <-(length_map g), firstn_all.
Qed.

(** One member of a struct whose fields are [fs]: [tac] decodes its value. *)
Ltac json_omitempty fs name tac :=
  erewrite (decode_omitempty fs name _ _ _ eq_refl eq_refl);
    [| |intros _; tac];
    [|let H := fresh in intros H; (apply bool_decide_eq_true in H || apply Z.eqb_eq in H); subst; reflexivity].
Ltac json_member fs name tac := erewrite (decode_member fs name _ _ _ eq_refl eq_refl); [|tac].

(** What a string becomes by being marshalled and decoded. *)
Definition clean (s : string) : string := of_chars (sanitize (chars s)).

Lemma clean_utf8 s : valid_utf8 (chars s) → clean s = s.
Proof. intros Hs. unfold clean. by rewrite sanitize_valid, of_chars_chars. Qed.

Lemma decode_string_clean s old : decode_string (VString (escape (chars s))) old = Some (clean s).
Proof. cbn. by rewrite text_escape. Qed.

Lemma decode_bytes_sanitize l old : decode_bytes (VString (escape l)) old = Some (sanitize l).
Proof. apply text_escape. Qed.

(** A member the struct has no field for is skipped. *)
Lemma decode_skip {T} (fs : list (field T)) name (b : bool) v s rest :
  text (escape (chars name)) = Some (chars name) → find_field fs name = None →
  decode_members fs (members (omitempty name b v) ++ rest) s = decode_members fs rest s.
Proof.
  intros Hn Hf. destruct b; [done|]. cbn [omitempty members map app decode_members]. rewrite Hn.
  cbn [mbind option_bind]. by rewrite of_chars_chars, Hf.
Qed.
Ltac json_skip fs name := rewrite (decode_skip fs name _ _ _ _ eq_refl eq_refl).

(** *** What [Marshal] writes is UTF-8 *)
Lemma valid_utf8_app l k : valid_utf8 l → valid_utf8 k → valid_utf8 (l ++ k).
Proof.
  intros (rs & Hrs & ->) (ss & Hss & ->). exists (rs ++ ss).
  split; [by apply Forall_app|]. by rewrite fmap_app, join_app.
Qed.

Lemma escape_utf8 l : valid_utf8 (escape l).
Proof.
  unfold escape. pose proof (decode_segs l) as Hs.
  induction Hs as [|[r b] segs Hrb _ IH]; [by exists []|]. csimpl. apply valid_utf8_app; [|done]. clear IH.
  unfold escape_seg. destruct (r <? RuneSelf) eqn:Hr.
  - destruct Hrb as [[Hv ->]|[-> _]]; [|done].
    assert (encode_valid r = [byte_of r]) as -> by (unfold encode_valid, RuneSelf in *; by rewrite Hr).
    csimpl. rewrite app_nil_r. apply ascii_utf8.
    assert (byte_val (byte_of r) < RuneSelf) as Hc by (unfold RuneSelf in *; destruct Hv; rewrite byte_val_of; lia).
    clear -Hc. revert Hc. generalize (byte_of r). intros c Hc. destruct c as [b0 b1 b2 b3 b4 b5 b6 b7].
    destruct b7; [by destruct b0, b1, b2, b3, b4, b5, b6; vm_compute in Hc|].
    by destruct b0, b1, b2, b3, b4, b5, b6.
  - destruct ((r =? RuneError) && _) eqn:He; [by apply ascii_utf8|]. destruct (_ || _) eqn:H28.
    + assert (r = 0x2028 ∨ r = 0x2029) as [->| ->] by lia; by apply ascii_utf8.
    + destruct Hrb as [[Hv ->]|[-> (x & -> & _)]]; [|done]. exists [r].
      split; [by constructor|]. by csimpl; rewrite app_nil_r.
Qed.

Lemma num_step_ascii s c s' : num_step s c = Some s' → byte_val c < RuneSelf.
Proof.
  unfold num_step, is_exp, isDigit, RuneSelf. destruct s; repeat case_bool_decide; subst; try done;
    cbn [orb]; repeat (case_match; try lia; try discriminate).
Qed.

Lemma is_number_ascii l : is_number l = true → valid_utf8 l.
Proof.
  intros Hl. apply ascii_utf8.
  assert (∀ l s, number_from s l = true → forallb (λ c, byte_val c <? RuneSelf) l = true) as Hn.
  { clear. induction l as [|c l IH]; intros s; cbn [number_from forallb]; [done|].
    destruct (num_step s c) as [s'|] eqn:Hc; [|done]. intros Hl. apply num_step_ascii in Hc.
    by rewrite (proj2 (Z.ltb_lt _ _) Hc), (IH s'). }
  destruct l as [|c l]; [done|]. cbn [is_number] in Hl. destruct (num_begin c) as [s|] eqn:Hc; [|done].
  cbn [forallb]. rewrite (Hn _ _ Hl), andb_true_r. apply Z.ltb_lt. revert Hc.
  unfold num_begin, isDigit, RuneSelf. repeat case_bool_decide; subst; try done. case_match; [lia|done].
Qed.

Lemma intersperse_utf8 ps : Forall valid_utf8 ps → valid_utf8 (intersperse ps).
Proof.
  induction 1 as [|p ps Hp Hps IH]; [by exists []|]. destruct ps as [|q ps]; [done|].
  cbn [intersperse]. apply valid_utf8_app; [done|]. apply valid_utf8_app; [by apply ascii_utf8|done].
Qed.

Lemma Marshal_utf8 v d : json_ok d v = true → valid_utf8 (Marshal v).
Proof.
  assert (∀ c l, byte_val c < RuneSelf → valid_utf8 l → valid_utf8 (c :: l)) as Hcons.
  { intros c l Hc Hl. apply (valid_utf8_app [c]); [|done]. apply ascii_utf8. cbn.
    by rewrite (proj2 (Z.ltb_lt _ _) Hc). }
  assert (∀ s, valid_utf8 (MarshalString s)) as Hstr.
  { intros s. apply Hcons; [done|]. apply valid_utf8_app; [apply escape_utf8|by apply ascii_utf8]. }
  revert d. induction v as [t|s|z|vs IH|fs IH] using json_nested_ind; intros d Hok; cbn [json_ok] in Hok.
  - by apply is_number_ascii.
  - apply Hstr.
  - apply is_number_ascii, pretty_Z_number.
  - apply andb_true_iff in Hok as [_ Hok%forallb_Forall]. apply Hcons; [done|].
    apply valid_utf8_app; [|by apply ascii_utf8]. apply intersperse_utf8, Forall_map.
    rewrite Forall_forall in *. intros v Hv. eapply IH; [done|]. by apply Hok.
  - apply andb_true_iff in Hok as [_ Hok%forallb_Forall]. apply Hcons; [done|].
    apply valid_utf8_app; [|by apply ascii_utf8]. apply intersperse_utf8, Forall_map.
    rewrite Forall_forall in *. intros [k v] Hv. apply valid_utf8_app; [apply Hstr|]. apply Hcons; [done|].
    eapply (IH (k, v)); [done|]. by apply (Hok (k, v)).
Qed.
