(* ===== verification/HtmlEscape.v ===== *)
(** * html/template: contexts and escapers

    The part of [html/template] that decides how a value is written into a
    page.  The library follows the text of a template with a tokenizer and
    escapes each value for the place it lands in: text, an attribute, a URL, a
    JavaScript string.  [tstep] is that tokenizer for documents in the style of
    the portal's (double-quoted attributes, scripts with single-quoted
    strings); a construct outside that style leads to [Bad], which the
    templates are proved never to reach.  The same function reads a finished
    page as a browser's tokenizer does, and that is how the theorems state what
    a value can do to a page. *)

From Stdlib Require Import ZArith Lia Ascii.
From stdpp Require Import prelude strings list.
From S2P Require Import Prelude GoStrings Json.

Local Open Scope Z_scope.

(** ** Escapers *)
Definition squote : ascii := Ascii.ascii_of_nat 39.

(** [htmlReplacer] with [htmlReplacementTable]: every key is an ASCII rune, so
    it works byte by byte. *)
Definition html_replacement (c : ascii) : list ascii :=
  match byte_val c with
  | 0 => encode_rune RuneError
  | 34 => chars "&#34;"
  | 38 => chars "&amp;"
  | 39 => chars "&#39;"
  | 43 => chars "&#43;"
  | 60 => chars "&lt;"
  | 62 => chars "&gt;"
  | _ => [c]
  end.
Definition htmlReplacer (l : list ascii) : list ascii := mjoin (html_replacement <$> l).

(** [jsStrEscaper]: [lowUnicodeReplacementTable], [jsStrReplacementTable] and
    the two line separators. *)
Definition js_unicode (z : Z) : list ascii := chars "\u00" ++ [hex_digit (z / 16); hex_digit (z mod 16)].
Definition js_replacement (c : ascii) : list ascii :=
  match byte_val c with
  | 9 => chars "\t" | 10 => chars "\n" | 12 => chars "\f" | 13 => chars "\r"
  | 47 => chars "\/" | 92 => chars "\\"
  | 34 | 38 | 39 | 43 | 60 | 62 | 96 => js_unicode (byte_val c)
  | z => if z <? 32 then js_unicode z else [c]
  end.
Definition js_seg (p : Z * list ascii) : list ascii :=
  match p with
  | (r, b) =>
      if r <? RuneSelf then mjoin (js_replacement <$> b)
      else if r =? 0x2028 then chars "\u2028"
      else if r =? 0x2029 then chars "\u2029"
      else b
  end.
Definition jsStrEscaper (l : list ascii) : list ascii := mjoin (js_seg <$> decode l).

(** [processURLOnto] *)
Definition is_alnum (c : ascii) : bool :=
  let z := byte_val c in
  ((97 <=? z) && (z <=? 122)) || ((65 <=? z) && (z <=? 90)) || ((48 <=? z) && (z <=? 57)).
Definition url_reserved (c : ascii) : bool := bool_decide (c ∈ chars "!#$&*+,/:;=?@[]").
Definition url_mark (c : ascii) : bool := bool_decide (c ∈ chars "-._~").
Definition is_hex (c : ascii) : bool := bool_decide (is_Some (hex_value c)).
Definition percent (c : ascii) : list ascii :=
  "%"%char :: [hex_digit (byte_val c / 16); hex_digit (byte_val c mod 16)].

Fixpoint processURL (norm : bool) (l : list ascii) : list ascii :=
  match l with
  | [] => []
  | c :: l' =>
      let escaped :=
        match l' with a :: b :: _ => is_hex a && is_hex b | _ => false end in
      (if is_alnum c || url_mark c || (norm && url_reserved c) ||
          (norm && bool_decide (c = "%"%char) && escaped)
       then [c] else percent c) ++ processURL norm l'
  end.

(** [urlFilter]: a scheme other than http, https and mailto is refused. *)
Definition isSafeURL (l : list ascii) : bool :=
  match index_of ":" l with
  | Some i =>
      let protocol := of_chars (take i l) in
      contains_byte protocol "/" || EqualFold_lower protocol "http" ||
      EqualFold_lower protocol "https" || EqualFold_lower protocol "mailto"
  | None => true
  end.
Definition urlFilter (l : list ascii) : list ascii := if isSafeURL l then l else chars "#ZgotmplZ".

Inductive escaper := HtmlEscaper | AttrEscaper | UrlFilter | UrlNormalizer | UrlEscaper | JsStrEscaper.
#[export] Instance escaper_eq_dec : EqDecision escaper.
Proof. solve_decision. Defined.
Definition run_escaper (e : escaper) : list ascii → list ascii :=
  match e with
  | HtmlEscaper | AttrEscaper => htmlReplacer
  | UrlFilter => urlFilter
  | UrlNormalizer => processURL true
  | UrlEscaper => processURL false
  | JsStrEscaper => jsStrEscaper
  end.
Definition run_escapers (es : list escaper) (l : list ascii) : list ascii :=
  foldl (λ l e, run_escaper e l) l es.

(** ** The tokenizer *)
Inductive element := Normal | Title | Style | Script.
#[export] Instance element_eq_dec : EqDecision element.
Proof. solve_decision. Defined.

Inductive tstate :=
  | Txt                                        (* element content *)
  | TagOpen | EndOpen | Decl                   (* after "<", "</", "<!" *)
  | TagName (close : bool) (name : list ascii)
  | InTag (el : element) | AttrName (el : element) (name : list ascii)
  | BeforeValue (el : element) (url : bool) | Value (el : element) (url : bool) | AfterValue (el : element)
  | Raw (el : element)                         (* content of title, style, script *)
  | RawLt (el : element) | RawEnd (el : element) (rest : list ascii)
  | JsSq | JsSqEsc                             (* in a single-quoted string of a script *)
  | Bad.
#[export] Instance tstate_eq_dec : EqDecision tstate.
Proof. solve_decision. Defined.

Definition is_letter (c : ascii) : bool := is_alnum c && (64 <? byte_val c).
Definition lower (c : ascii) : ascii :=
  if (65 <=? byte_val c) && (byte_val c <=? 90) then byte_of (byte_val c + 32) else c.
Definition is_white (c : ascii) : bool := bool_decide (byte_val c ∈ [9; 10; 12; 13; 32]).

Definition raw_name (el : element) : list ascii :=
  chars match el with Normal => "" | Title => "title" | Style => "style" | Script => "script" end.
Definition element_of (name : list ascii) : element :=
  if bool_decide (name = raw_name Title) then Title
  else if bool_decide (name = raw_name Style) then Style
  else if bool_decide (name = raw_name Script) then Script else Normal.
Definition content (el : element) : tstate := match el with Normal => Txt | _ => Raw el end.

(** [attrType]: [Some true] for a URL, [Some false] for plain text. *)
Definition attr_type (name : list ascii) : option bool :=
  if bool_decide (of_chars name ∈ ["href"; "src"]) then Some true
  else if bool_decide (of_chars name ∈ ["class"; "id"; "lang"; "charset"; "rel"]) then Some false
  else None.

Definition tstep (s : tstate) (c : ascii) : tstate :=
  match s with
  | Txt => if bool_decide (c = "<"%char) then TagOpen else Txt
  | TagOpen =>
      if is_letter c then TagName false [lower c]
      else if bool_decide (c = "/"%char) then EndOpen
      else if bool_decide (c = "!"%char) then Decl else Bad
  | EndOpen => if is_letter c then TagName true [lower c] else Bad
  | Decl =>
      if bool_decide (c = ">"%char) then Txt else if bool_decide (c = "-"%char) then Bad else Decl
  | TagName close name =>
      let el := if close then Normal else element_of name in
      if is_alnum c then TagName close (name ++ [lower c])
      else if bool_decide (c = ">"%char) then content el
      else if is_white c then InTag el else Bad
  | InTag el =>
      if is_white c then InTag el
      else if bool_decide (c = ">"%char) then content el
      else if is_letter c then AttrName el [lower c] else Bad
  | AttrName el name =>
      if is_letter c then AttrName el (name ++ [lower c])
      else if bool_decide (c = "="%char)
      then match attr_type name with Some url => BeforeValue el url | None => Bad end
      else Bad
  | BeforeValue el url => if bool_decide (c = quote) then Value el url else Bad
  | Value el url => if bool_decide (c = quote) then AfterValue el else Value el url
  | AfterValue el =>
      if is_white c then InTag el
      else if bool_decide (c = ">"%char) then content el else Bad
  | Raw el =>
      if bool_decide (c = "<"%char) then RawLt el
      else match el with
      | Title => Raw Title
      | Style => if bool_decide (c ∈ quote :: squote :: chars "/\") then Bad else Raw Style
      | Script =>
          if bool_decide (c = squote) then JsSq
          else if bool_decide (c ∈ quote :: chars "/`") then Bad else Raw Script
      | Normal => Bad
      end
  | RawLt el => if bool_decide (c = "/"%char) then RawEnd el (raw_name el) else Bad
  | RawEnd el [] => if bool_decide (c = ">"%char) then Txt else Bad
  | RawEnd el (x :: rest) => if bool_decide (lower c = x) then RawEnd el rest else Bad
  | JsSq =>
      if bool_decide (c = squote) then Raw Script
      else if bool_decide (c = "\"%char) then JsSqEsc
      else if bool_decide (c = "<"%char) || is_white c && negb (bool_decide (c = " "%char)) then Bad
      else JsSq
  | JsSqEsc => if bool_decide (c = "<"%char) || is_white c then Bad else JsSq
  | Bad => Bad
  end.
Definition trun (s : tstate) (l : list ascii) : tstate := foldl tstep s l.

(** The places where data stands, [None] inside markup. *)
Definition region (s : tstate) : option tstate :=
  match s with
  | Txt | Raw Title | Value _ _ | JsSq => Some s
  | JsSqEsc => Some JsSq
  | _ => None
  end.
Definition is_data (s s' : tstate) : bool :=
  bool_decide (region s = region s') && bool_decide (is_Some (region s)).

(** What is left of a page when the data is dropped: its tags with their
    attribute names and quotes, and its scripts outside of strings. *)
Fixpoint markup (s : tstate) (l : list ascii) : list ascii :=
  match l with
  | [] => []
  | c :: l' =>
      let s' := tstep s c in
      (if is_data s s' then [] else [c]) ++ markup s' l'
  end.

(** ** Contexts *)
Inductive urlPart := UrlPartNone | UrlPartPreQuery | UrlPartQueryOrFrag.
#[export] Instance urlPart_eq_dec : EqDecision urlPart.
Proof. solve_decision. Defined.

Definition url_next (u : urlPart) (c : ascii) : urlPart :=
  if bool_decide (c ∈ chars "#?") then UrlPartQueryOrFrag
  else match u with
  | UrlPartNone => if is_white c then UrlPartNone else UrlPartPreQuery
  | _ => u
  end.
Definition ctx : Type := tstate * urlPart.
Definition cstep (x : ctx) (c : ascii) : ctx :=
  let s' := tstep x.1 c in
  (s', match x.1, s' with Value _ true, Value _ true => url_next x.2 c | _, _ => UrlPartNone end).
Definition crun (x : ctx) (l : list ascii) : ctx := foldl cstep x l.

(** [escapeAction]: the escapers of a value by its context; [None] where the
    model follows no value. *)
Definition hole_escapers (x : ctx) : option (list escaper) :=
  match x.1 with
  | Txt | Raw Title => Some [HtmlEscaper]
  | Value _ false => Some [AttrEscaper]
  | Value _ true =>
      Some match x.2 with
           | UrlPartNone => [UrlFilter; UrlNormalizer; AttrEscaper]
           | UrlPartPreQuery => [UrlNormalizer; AttrEscaper]
           | UrlPartQueryOrFrag => [UrlEscaper; AttrEscaper]
           end
  | JsSq => Some [JsStrEscaper]
  | _ => None
  end.

(** ** Facts *)
Lemma trun_app s a b : trun s (a ++ b) = trun (trun s a) b.
Proof. apply foldl_app. Qed.

Lemma crun_tok x l : (crun x l).1 = trun x.1 l.
Proof. revert x. induction l as [|c l IH]; intros x; [done|]. cbn. rewrite IH. done. Qed.

Lemma markup_app s a b : markup s (a ++ b) = markup s a ++ markup (trun s a) b.
Proof.
  revert s. induction a as [|c a IH]; intros s; [done|]. cbn [app markup trun foldl].
  rewrite IH. by rewrite (assoc_L (++)).
Qed.

Lemma trun_Bad l : trun Bad l = Bad.
Proof. by induction l. Qed.

(** Text that stays where it is and adds no markup. *)
Definition confined (s : tstate) (l : list ascii) : Prop := trun s l = s ∧ markup s l = [].

Lemma confined_nil s : confined s [].
Proof. done. Qed.

Lemma confined_app s a b : confined s a → confined s b → confined s (a ++ b).
Proof.
  intros [Ha Ma] [Hb Mb]. unfold confined. by rewrite trun_app, markup_app, Ha, Ma, Hb, Mb.
Qed.

Lemma confined_mjoin {A} s (f : A → list ascii) l :
  Forall (λ x, confined s (f x)) l → confined s (mjoin (f <$> l)).
Proof.
  induction 1 as [|x l Hx _ IH]; [apply confined_nil|]. rewrite mjoin_fmap_cons. by apply confined_app.
Qed.

Definition confinedb (s : tstate) (l : list ascii) : bool :=
  bool_decide (trun s l = s) && bool_decide (markup s l = []).
Lemma confinedb_spec s l : confinedb s l = true → confined s l.
Proof. unfold confinedb. rewrite andb_true_iff, !bool_decide_eq_true. done. Qed.

(** A fact about every byte, by computation. *)
Lemma all_bytes (p : ascii → bool) :
  forallb (λ n, p (byte_of (Z.of_nat n))) (seq 0 256) = true → ∀ c, p c = true.
Proof.
  intros H c. rewrite forallb_forall in H. rewrite <-(byte_of_val c).
  pose proof (byte_val_range c). rewrite <-(Z2Nat.id (byte_val c)) by lia.
  apply H. apply in_seq. lia.
Qed.

(** A value of an attribute depends on the element only by name. *)
Lemma Value_confined el url l : confined (Value Normal false) l → confined (Value el url) l.
Proof.
  unfold confined. intros [Ht Hm]. revert Ht Hm. induction l as [|c l IH]; [done|].
  cbn [trun foldl markup tstep].
  destruct (decide (c = quote)) as [->|Hc].
  - rewrite !bool_decide_eq_true_2 by done. cbn. done.
  - rewrite !bool_decide_eq_false_2 by done. intros Ht Hm.
    assert (∀ el url, is_data (Value el url) (Value el url) = true) as Hd.
    { intros. unfold is_data. by rewrite !bool_decide_eq_true_2. }
    rewrite !Hd in *. cbn [app] in *. by apply IH.
Qed.

Lemma htmlReplacer_confined s l : s = Txt ∨ s = Raw Title ∨ (∃ el url, s = Value el url) → confined s (htmlReplacer l).
Proof.
  assert (∀ s', s' ∈ [Txt; Raw Title; Value Normal false] → confined s' (htmlReplacer l)) as H.
  { intros s' Hs. apply confined_mjoin, Forall_forall. intros c _. apply confinedb_spec. revert c.
    rewrite !elem_of_cons in Hs. destruct Hs as [->|[->|[->|[]%not_elem_of_nil]]]; apply all_bytes; vm_compute; reflexivity. }
  intros [->|[->|(el & url & ->)]]; [apply H; set_solver..|]. apply Value_confined, H. set_solver.
Qed.

(** A byte outside ASCII is data in a string. *)
Lemma js_high_confined l : Forall (λ c, RuneSelf ≤ byte_val c) l → confined JsSq l.
Proof.
  induction 1 as [|c l Hc _ IH]; [apply confined_nil|]. apply (confined_app _ [c]); [|done].
  apply confinedb_spec. assert (negb (RuneSelf <=? byte_val c) || confinedb JsSq [c] = true) as Hb
    by (revert c Hc; intros c _; revert c; apply all_bytes; vm_compute; reflexivity).
  apply orb_true_iff in Hb as [Hb|Hb]; [unfold RuneSelf in *; lia|done].
Qed.

Lemma jsStrEscaper_confined l : confined JsSq (jsStrEscaper l).
Proof.
  apply confined_mjoin. eapply Forall_impl; [apply decode_segs|]. intros [r b] Hseg. cbn [js_seg].
  destruct (Z.ltb_spec r RuneSelf) as [Hr|Hr].
  - apply confined_mjoin, Forall_forall. intros c _. apply confinedb_spec. revert c. apply all_bytes.
    vm_compute. reflexivity.
  - case_match; [apply confinedb_spec; reflexivity|]. case_match; [apply confinedb_spec; reflexivity|].
    apply js_high_confined. destruct Hseg as [[Hv ->]|(_ & x & -> & Hx)]; [by apply encode_valid_high|].
    by repeat constructor.
Qed.

(** A value written with the escapers of its context is data: it leaves the
    tokenizer where it was, and no part of it is markup. *)
Lemma hole_confined x es l : hole_escapers x = Some es → confined x.1 (run_escapers es l).
Proof.
  destruct x as [s u]. unfold hole_escapers, run_escapers. cbn [fst snd]. intros H.
  destruct s as [| | | | | | | |el [] | |[]| | | | |]; simplify_eq H; intros <-;
    try destruct u; cbn [foldl run_escaper];
    first [apply jsStrEscaper_confined | apply htmlReplacer_confined; eauto].
Qed.

(** Letters, digits and the unreserved marks are written as they are, in every
    context. *)
Definition url_safe (l : list ascii) : Prop := Forall (λ c, is_alnum c || url_mark c = true) l.

Lemma singletons {A} (l : list A) : mjoin ((λ c, [c]) <$> l) = l.
Proof. induction l as [|c l IH]; [done|]. rewrite mjoin_fmap_cons. cbn. by rewrite IH. Qed.

(** A byte-wise escaper that keeps safe bytes keeps safe text. *)
Lemma replacement_safe (f : ascii → list ascii) l :
  (let keeps c := negb (is_alnum c || url_mark c) || bool_decide (f c = [c]) in
   forallb (λ n, keeps (byte_of (Z.of_nat n))) (seq 0 256) = true) →
  url_safe l → mjoin (f <$> l) = l.
Proof.
  intros Hall Hl. pose proof (all_bytes _ Hall) as H. rewrite <-(singletons l) at 2. f_equal. apply list_fmap_ext. intros i c Hi.
  apply (Forall_lookup_1 _ _ _ _ Hl) in Hi. specialize (H c). cbv beta zeta in H. rewrite Hi in H. by apply bool_decide_eq_true in H.
Qed.

Lemma htmlReplacer_safe l : url_safe l → htmlReplacer l = l.
Proof. apply replacement_safe. vm_compute. reflexivity. Qed.

Lemma url_safe_ascii l : url_safe l → Forall (λ c, byte_val c < RuneSelf) l.
Proof.
  intros Hl. eapply Forall_impl; [exact Hl|]. cbn. intros c Hc.
  assert (negb (is_alnum c || url_mark c) || (byte_val c <? RuneSelf) = true) as H
    by (revert c Hc; intros c _; revert c; apply all_bytes; vm_compute; reflexivity).
  rewrite Hc in H. cbn in H. lia.
Qed.

Lemma jsStrEscaper_safe l : url_safe l → jsStrEscaper l = l.
Proof.
  intros Hl. unfold jsStrEscaper. rewrite decode_ascii by by apply url_safe_ascii.
  rewrite <-list_fmap_compose.
  rewrite <-(replacement_safe js_replacement l) at 2; [|vm_compute; reflexivity|done].
  f_equal. apply list_fmap_ext. intros i c Hi. cbn.
  rewrite (proj2 (Z.ltb_lt _ _)) by exact (Forall_lookup_1 _ _ _ _ (url_safe_ascii l Hl) Hi).
  cbn. by rewrite app_nil_r.
Qed.

Lemma processURL_safe norm l : url_safe l → processURL norm l = l.
Proof. induction 1 as [|c l Hc _ IH]; [done|]. cbn [processURL]. by rewrite Hc, IH. Qed.
