(* ===== verification/GoTemplate.v ===== *)
(** * text/template and html/template: templates

    The template language as far as the portal uses it: the parser of
    [{{...}}] actions, the inlining of [template] calls, the contextual
    escaping pass of [html/template] over the parsed tree, and execution
    against a value.  A construct the portal's templates do not use is a parse
    failure.  The theorems are about any template: one that is well typed for
    a value executes without error ([exec_total]), and one that the escaping
    pass accepts puts values where they can only be data ([exec_confined]). *)

From Stdlib Require Import ZArith Lia Ascii.
From stdpp Require Import prelude strings list.
From S2P Require Import Prelude GoStrings Json HtmlEscape.

Local Open Scope Z_scope.

(** ** Data *)

(** The values a template is executed on. *)
Inductive value :=
  | VStr (s : list ascii)
  | VBool (b : bool)
  | VTime (t : option Z)
  | VDur (d : Z)
  | VList (l : list value)
  | VStruct (fields : list (string * value)).

(** An operand of a command; [.] is the field with the empty path. *)
Inductive word := WField (path : list string) | WIdent (f : string) | WStr (s : list ascii).
#[export] Instance word_eq_dec : EqDecision word.
Proof. solve_decision. Defined.
Definition command : Type := list word.

(** A list of nodes; the last argument is the rest of the list.  An action
    has the escapers the escaping pass appended to its pipeline. *)
Inductive nodes :=
  | NNil
  | NText (t : list ascii) (k : nodes)
  | NAct (es : list escaper) (p : command) (k : nodes)
  | NIf (p : command) (a b k : nodes)
  | NRange (p : command) (a k : nodes)
  | NCall (name : string) (k : nodes).

Fixpoint assoc {A} (name : string) (l : list (string * A)) : option A :=
  match l with
  | [] => None
  | (n, x) :: l' => if bool_decide (n = name) then Some x else assoc name l'
  end.

(** ** Parsing *)
Inductive token := TText (t : list ascii) | TAction (ws : command).

Definition parse_word (l : list ascii) : word :=
  match l with
  | c :: l' =>
      if bool_decide (c = quote) then WStr (take (length l' - 1) l')
      else if bool_decide (c = "."%char)
      then WField (match l' with [] => [] | _ => of_chars <$> split_chars "." l' end)
      else WIdent (of_chars l)
  | [] => WIdent ""
  end.
Definition parse_action (l : list ascii) : command := parse_word <$> split_chars " " l.

Definition text_token (acc : list ascii) : list token := if bool_decide (acc = []) then [] else [TText (reverse acc)].

(** The lexer: [act] inside an action, [acc] what was read of it. *)
Fixpoint lex (act : bool) (acc : list ascii) (l : list ascii) : option (list token) :=
  match l with
  | [] => if act then None else Some (text_token acc)
  | c :: l' =>
      match l' with
      | d :: l'' =>
          if negb act && bool_decide (c = "{"%char) && bool_decide (d = "{"%char)
          then ts ← lex true [] l''; Some (text_token acc ++ ts)
          else if act && bool_decide (c = "}"%char) && bool_decide (d = "}"%char)
          then ts ← lex false [] l''; Some (TAction (parse_action (reverse acc)) :: ts)
          else lex act (c :: acc) l'
      | [] => lex act (c :: acc) l'
      end
  end.

Inductive terminator := AtEnd | AtElse (p : command) | AtEOF.

(** A list of nodes up to [end], [else] or the end of the input; [fuel] is
    more than the number of tokens. *)
Fixpoint parse_list (fuel : nat) (ts : list token) : option (nodes * terminator * list token) :=
  match fuel with
  | O => None
  | S fuel =>
      match ts with
      | [] => Some (NNil, AtEOF, [])
      | TText t :: ts => '(k, e, ts) ← parse_list fuel ts; Some (NText t k, e, ts)
      | TAction [WIdent "end"] :: ts => Some (NNil, AtEnd, ts)
      | TAction (WIdent "else" :: p) :: ts => Some (NNil, AtElse p, ts)
      | TAction (WIdent "if" :: p) :: ts =>
          '(n, ts) ← parse_if fuel p ts;
          '(k, e, ts) ← parse_list fuel ts; Some (n k, e, ts)
      | TAction (WIdent "range" :: p) :: ts =>
          '(a, ea, ts) ← parse_list fuel ts;
          match ea with
          | AtEnd => '(k, e, ts) ← parse_list fuel ts; Some (NRange p a k, e, ts)
          | _ => None
          end
      | TAction [WIdent "template"; WStr name; WField []] :: ts =>
          '(k, e, ts) ← parse_list fuel ts; Some (NCall (of_chars name) k, e, ts)
      | TAction (WIdent ("template" | "define" | "block" | "with" | "break" | "continue") :: _) :: _ => None
      | TAction p :: ts => '(k, e, ts) ← parse_list fuel ts; Some (NAct [] p k, e, ts)
      end
  end
(** The arms of an [if]; an [else if] is an [if] that shares its [end]. *)
with parse_if (fuel : nat) (p : command) (ts : list token) : option ((nodes → nodes) * list token) :=
  match fuel with
  | O => None
  | S fuel =>
      '(a, ea, ts) ← parse_list fuel ts;
      match ea with
      | AtEnd => Some (NIf p a NNil, ts)
      | AtElse [] =>
          '(b, eb, ts) ← parse_list fuel ts;
          match eb with AtEnd => Some (NIf p a b, ts) | _ => None end
      | AtElse (WIdent "if" :: q) => '(b, ts) ← parse_if fuel q ts; Some (NIf p a (b NNil), ts)
      | _ => None
      end
  end.

Definition templates : Type := list (string * nodes).

(** The definitions of a text; what stands between them is the text's own
    template, which is not called. *)
Fixpoint parse_defines (fuel : nat) (ts : list token) : option templates :=
  match fuel with
  | O => None
  | S fuel =>
      match ts with
      | [] => Some []
      | TText _ :: ts => parse_defines fuel ts
      | TAction [WIdent "define"; WStr name] :: ts =>
          '(body, e, ts) ← parse_list fuel ts;
          match e with
          | AtEnd => defs ← parse_defines fuel ts; Some ((of_chars name, body) :: defs)
          | _ => None
          end
      | _ => None
      end
  end.

(** A function has to be known when a template is parsed. *)
Definition known_command (known : list string) (p : command) : bool :=
  match p with WIdent f :: _ => bool_decide (f ∈ known) | _ => true end.
Fixpoint known_funcs (known : list string) (n : nodes) : bool :=
  match n with
  | NNil => true
  | NText _ k | NCall _ k => known_funcs known k
  | NAct _ p k => known_command known p && known_funcs known k
  | NIf p a b k => known_command known p && known_funcs known a && known_funcs known b && known_funcs known k
  | NRange p a k => known_command known p && known_funcs known a && known_funcs known k
  end.

(** [Template.Parse]: the definitions are added to the set. *)
Definition Parse (known : list string) (set : templates) (text : list ascii) : option templates :=
  ts ← lex false [] text;
  defs ← parse_defines (S (length ts)) ts;
  if forallb (λ d, known_funcs known d.2) defs then Some (defs ++ set) else None.

(** *** Calls inlined *)
Fixpoint napp (n k : nodes) : nodes :=
  match n with
  | NNil => k
  | NText t n => NText t (napp n k)
  | NAct es p n => NAct es p (napp n k)
  | NIf p a b n => NIf p a b (napp n k)
  | NRange p a n => NRange p a (napp n k)
  | NCall name n => NCall name (napp n k)
  end.

(** [fuel] bounds the depth of calls; a call of an undefined template fails. *)
Fixpoint inline (fuel : nat) (set : templates) : nodes → option nodes :=
  fix go n :=
    match n with
    | NNil => Some NNil
    | NText t k => k ← go k; Some (NText t k)
    | NAct es p k => k ← go k; Some (NAct es p k)
    | NIf p a b k => a ← go a; b ← go b; k ← go k; Some (NIf p a b k)
    | NRange p a k => a ← go a; k ← go k; Some (NRange p a k)
    | NCall name k =>
        match fuel with
        | O => None
        | S fuel => body ← assoc name set; body ← inline fuel set body; k ← go k; Some (napp body k)
        end
    end.

(** ** The escaping pass

    Every arm of an [if] has to end in the same context, and the body of a
    [range] in the one it starts in. *)
Fixpoint escape (n : nodes) (x : ctx) : option (nodes * ctx) :=
  match n with
  | NNil => Some (NNil, x)
  | NText t k => '(k, y) ← escape k (crun x t); Some (NText t k, y)
  | NAct es p k => hs ← hole_escapers x; '(k, y) ← escape k x; Some (NAct (es ++ hs) p k, y)
  | NIf p a b k =>
      '(a, xa) ← escape a x; '(b, xb) ← escape b x;
      if bool_decide (xa = xb) then '(k, y) ← escape k xa; Some (NIf p a b k, y) else None
  | NRange p a k =>
      '(a, xa) ← escape a x;
      if bool_decide (xa = x) then '(k, y) ← escape k x; Some (NRange p a k, y) else None
  | NCall _ _ => None
  end.

(** A template executed by name: calls inlined, escaped as the content of a
    document, which has to end outside of any tag. *)
Definition compile (set : templates) (name : string) : option nodes :=
  body ← assoc name set;
  n ← inline (length set) set body;
  '(n, y) ← escape n (Txt, UrlPartNone);
  if bool_decide (y = (Txt, UrlPartNone)) then Some n else None.

(** ** Execution *)

(** [IsTrue] *)
Definition truth (v : value) : option bool :=
  match v with
  | VStr s => Some (negb (bool_decide (s = [])))
  | VBool b => Some b
  | VDur d => Some (negb (d =? 0))
  | VTime _ | VStruct _ => Some true
  | VList l => Some (negb (match l with [] => true | _ => false end))
  end.

Definition funcs : Type := list (string * (list value → option value)).
Definition builtins : funcs :=
  [("not", λ vs, match vs with [v] => VBool ∘ negb <$> truth v | _ => None end);
   ("eq", λ vs, match vs with
                | [VStr a; VStr b] => Some (VBool (bool_decide (a = b)))
                | [VBool a; VBool b] => Some (VBool (bool_decide (a = b)))
                | _ => None
                end)].

Definition field (v : value) (name : string) : option value :=
  match v with VStruct fs => assoc name fs | _ => None end.
Definition fields (v : value) (path : list string) : option value :=
  foldl (λ (o : option value) name, o ≫= λ v, field v name) (Some v) path.

(** What is printed for a value; the templates print strings only. *)
Definition print (v : value) : option (list ascii) :=
  match v with VStr s => Some s | _ => None end.

Section Exec.
Context (fm : funcs).

Definition eval_word (v : value) (w : word) : option value :=
  match w with
  | WField path => fields v path
  | WStr s => Some (VStr s)
  | WIdent _ => None
  end.
Definition eval (v : value) (p : command) : option value :=
  match p with
  | WIdent f :: args => g ← assoc f (fm ++ builtins); vs ← mapM (eval_word v) args; g vs
  | [w] => eval_word v w
  | _ => None
  end.

(** What was written, and whether execution went to the end. *)
Definition result : Type := list ascii * bool.
Definition andthen (r r' : result) : result := if r.2 then (r.1 ++ r'.1, r'.2) else r.
Definition failed : result := ([], false).
Definition written (l : list ascii) : result := (l, true).

(** [w] writes a value through the escapers of its action. *)
Fixpoint exec (w : list escaper → list ascii → list ascii) (n : nodes) (v : value) : result :=
  match n with
  | NNil => written []
  | NText t k => andthen (written t) (exec w k v)
  | NAct es p k =>
      match (eval v p ≫= print) : option (list ascii) with
      | Some s => andthen (written (w es s)) (exec w k v)
      | None => failed
      end
  | NIf p a b k =>
      match (eval v p ≫= truth) : option bool with
      | Some c => andthen (if c then exec w a v else exec w b v) (exec w k v)
      | None => failed
      end
  | NRange p a k =>
      match eval v p with
      | Some (VList l) => andthen (foldr (λ x r, andthen (exec w a x) r) (written []) l) (exec w k v)
      | _ => failed
      end
  | NCall _ _ => failed
  end.

Definition execute : nodes → value → result := exec run_escapers.

(** The page with every value left out. *)
Definition execute_blank : nodes → value → result := exec (λ _ _, []).
End Exec.

(** ** Types

    The type of the value a template is executed on; a template that is well
    typed for it never fails. *)
Inductive ty := TyStr | TyBool | TyTime | TyDur | TyList (t : ty) | TyStruct (fields : list (string * ty)).

Fixpoint has_type (t : ty) (v : value) : Prop :=
  match t, v with
  | TyStr, VStr _ | TyBool, VBool _ | TyTime, VTime _ | TyDur, VDur _ => True
  | TyList t, VList l => Forall (has_type t) l
  | TyStruct ts, VStruct vs =>
      (fix go (ts : list (string * ty)) (vs : list (string * value)) : Prop :=
        match ts, vs with
        | [], [] => True
        | (n, t) :: ts, (m, v) :: vs => n = m ∧ has_type t v ∧ go ts vs
        | _, _ => False
        end) ts vs
  | _, _ => False
  end.

(** The type of a function, by the types of its arguments. *)
Definition func_ty : Type := list ty → option ty.
Definition builtin_types : list (string * func_ty) :=
  [("not", λ ts, match ts with [_] => Some TyBool | _ => None end);
   ("eq", λ ts, match ts with [TyStr; TyStr] | [TyBool; TyBool] => Some TyBool | _ => None end)].

Definition field_ty (t : ty) (name : string) : option ty :=
  match t with TyStruct ts => assoc name ts | _ => None end.
Definition fields_ty (t : ty) (path : list string) : option ty :=
  foldl (λ (o : option ty) name, o ≫= λ t, field_ty t name) (Some t) path.

Section Types.
Context (fm : funcs) (ft : list (string * func_ty)).

Definition word_ty (t : ty) (w : word) : option ty :=
  match w with
  | WField path => fields_ty t path
  | WStr _ => Some TyStr
  | WIdent _ => None
  end.
Definition command_ty (t : ty) (p : command) : option ty :=
  match p with
  | WIdent f :: args => g ← assoc f (ft ++ builtin_types); ts ← mapM (word_ty t) args; g ts
  | [w] => word_ty t w
  | _ => None
  end.

Fixpoint well_typed (t : ty) (n : nodes) : bool :=
  match n with
  | NNil => true
  | NText _ k => well_typed t k
  | NAct _ p k => match command_ty t p with Some TyStr => well_typed t k | _ => false end
  | NIf p a b k =>
      match command_ty t p with Some _ => well_typed t a && well_typed t b && well_typed t k | None => false end
  | NRange p a k =>
      match command_ty t p with Some (TyList t') => well_typed t' a && well_typed t k | _ => false end
  | NCall _ _ => false
  end.

(** The functions have the types declared for them. *)
Definition sound (ft : list (string * func_ty)) (fm : funcs) : Prop :=
  Forall2 (λ '(n, g) '(m, h), n = m ∧ ∀ ts t vs, g ts = Some t → Forall2 has_type ts vs →
    ∃ v, h vs = Some v ∧ has_type t v) ft fm.

Lemma truth_total v : is_Some (truth v).
Proof. by destruct v; eexists. Qed.

Lemma builtins_sound : sound builtin_types builtins.
Proof.
  repeat constructor.
  - intros [|t [|]] ? vs [= <-] (v & vs' & Hv & Hvs & ->)%Forall2_cons_inv_l.
    apply Forall2_nil_inv_l in Hvs as ->. destruct (truth_total v) as [b ->]. by exists (VBool (negb b)).
  - intros ts t vs Hg Hts.
    destruct ts as [|[] [|[] [|]]]; try done; injection Hg as <-;
      apply Forall2_cons_inv_l in Hts as (v & vs' & Hv & Hts & ->);
      apply Forall2_cons_inv_l in Hts as (v' & vs'' & Hv' & ->%Forall2_nil_inv_l & ->);
      destruct v, v'; try done; by eexists.
Qed.

Context (Hsound : sound ft fm).

Lemma assoc_sound f g : assoc f (ft ++ builtin_types) = Some g →
  ∃ h, assoc f (fm ++ builtins) = Some h ∧
    ∀ ts t vs, g ts = Some t → Forall2 has_type ts vs → ∃ v, h vs = Some v ∧ has_type t v.
Proof.
  assert (sound (ft ++ builtin_types) (fm ++ builtins)) as H by (apply Forall2_app; [done|apply builtins_sound]).
  revert H. generalize (ft ++ builtin_types), (fm ++ builtins). intros l l'.
  induction 1 as [|[n g'] [m h] l l' [<- Hh] _ IH]; [done|]. cbn. case_bool_decide; [|done].
  intros [= <-]. eauto.
Qed.

Lemma field_typed t t' v name : has_type t v → field_ty t name = Some t' → ∃ v', field v name = Some v' ∧ has_type t' v'.
Proof.
  destruct t as [| | | | |ts]; try done. destruct v as [| | | | |vs]; try done. cbn.
  revert vs. induction ts as [|[n t] ts IH]; intros [|[m v] vs]; try done. intros (<- & Hv & Hvs). cbn.
  case_bool_decide; [intros [= <-]; eauto|]. by apply IH.
Qed.

Lemma fields_typed t t' v path : has_type t v → fields_ty t path = Some t' → ∃ v', fields v path = Some v' ∧ has_type t' v'.
Proof.
  unfold fields, fields_ty. revert t v. induction path as [|name path IH]; intros t v Hv Hp.
  - injection Hp as <-. eauto.
  - cbn in Hp |- *. destruct (field_ty t name) as [t1|] eqn:Ht.
    + destruct (field_typed t t1 v name Hv Ht) as (v1 & -> & Hv1). eauto.
    + exfalso. clear IH. induction path; [done|]. auto.
Qed.

Lemma word_typed t t' v w : has_type t v → word_ty t w = Some t' → ∃ v', eval_word v w = Some v' ∧ has_type t' v'.
Proof. destruct w; cbn; [apply fields_typed|done|]. intros _ [= <-]. by eexists. Qed.

Lemma command_typed t t' v p : has_type t v → command_ty t p = Some t' → ∃ v', eval fm v p = Some v' ∧ has_type t' v'.
Proof.
  intros Hv Hp. destruct p as [|[path|f|s] args]; [done| | |].
  - destruct args; [|done]. by apply (word_typed t _ v (WField path)).
  - cbn in Hp |- *. destruct (assoc f (ft ++ builtin_types)) as [g|] eqn:Hg; [|done].
    destruct (assoc_sound f g Hg) as (h & -> & Hh). cbn in *.
    destruct (mapM (word_ty t) args) as [ts|] eqn:Hts; [|done]. cbn in Hp.
    assert (∃ vs, mapM (eval_word v) args = Some vs ∧ Forall2 has_type ts vs) as (vs & -> & Hvs).
    { clear Hp. apply mapM_Some in Hts. induction Hts as [|w t1 args ts Hw _ (vs & Hvs & IH)]; [by eexists|].
      destruct (word_typed t t1 v w Hv Hw) as (v1 & E1 & Hv1). exists (v1 :: vs). cbn. rewrite E1. cbn.
      rewrite Hvs. cbn. by split; [|constructor]. }
    cbn. eauto.
  - destruct args; [|done]. by apply (word_typed t _ v (WStr s)).
Qed.

(** A well-typed template executes to its end. *)
Lemma exec_total w n t v : well_typed t n = true → has_type t v → ∃ out, exec fm w n v = (out, true).
Proof.
  revert t v. induction n as [|s k IH|es p k IH|p a IHa b IHb k IH|p a IHa k IH|]; intros t v Ht Hv; cbn in Ht |- *.
  - by eexists.
  - destruct (IH t v Ht Hv) as [out ->]. by eexists.
  - destruct (command_ty t p) as [[]|] eqn:Hp; try done.
    destruct (command_typed _ _ v _ Hv Hp) as (v1 & -> & Hv1). destruct v1; try done. cbn.
    destruct (IH t v Ht Hv) as [out ->]. by eexists.
  - destruct (command_ty t p) as [t1|] eqn:Hp; [|done]. rewrite !andb_true_iff in Ht. destruct Ht as [[Ha Hb] Hk].
    destruct (command_typed _ _ v _ Hv Hp) as (v1 & -> & Hv1). cbn. destruct (truth_total v1) as [c ->].
    destruct (IHa t v Ha Hv) as [outa ->], (IHb t v Hb Hv) as [outb ->], (IH t v Hk Hv) as [out ->].
    destruct c; by eexists.
  - destruct (command_ty t p) as [[| | | |t1|]|] eqn:Hp; try done. rewrite andb_true_iff in Ht. destruct Ht as [Ha Hk].
    destruct (command_typed _ _ v _ Hv Hp) as (v1 & -> & Hv1). destruct v1 as [| | | |l|]; try done.
    destruct (IH t v Hk Hv) as [out ->].
    assert (∃ outl, foldr (λ x r, andthen (exec fm w a x) r) (written []) l = (outl, true)) as [outl ->]; [|by eexists].
    cbn in Hv1. induction Hv1 as [|x l Hx _ [outl Hl]]; [by eexists|]. cbn. rewrite Hl.
    destruct (IHa t1 x Ha Hx) as [outx ->]. by eexists.
  - done.
Qed.
End Types.

(** ** Confinement *)

(** Two runs of the tokenizer over texts with the same markup. *)
Definition alike (s s' : tstate) (a b : list ascii) : Prop :=
  trun s a = s' ∧ trun s b = s' ∧ markup s a = markup s b.

Lemma alike_app s s1 s2 a b a' b' : alike s s1 a b → alike s1 s2 a' b' → alike s s2 (a ++ a') (b ++ b').
Proof.
  intros (Ha & Hb & Hm) (Ha' & Hb' & Hm'). unfold alike. rewrite !trun_app, !markup_app. by rewrite Ha, Hb, Hm, Hm'.
Qed.

(** Executions that go to the end together. *)
Definition results_alike (s s' : tstate) (r r' : result) : Prop := r.2 = r'.2 ∧ (r.2 = true → alike s s' r.1 r'.1).

Lemma results_alike_andthen s s1 s2 r r' k k' :
  results_alike s s1 r r' → results_alike s1 s2 k k' → results_alike s s2 (andthen r k) (andthen r' k').
Proof.
  destruct r as [a []], r' as [b []]; intros [E Ha] [E' Hk]; cbn in *; try done.
  split; [done|]. cbn. intros Hk'. eapply alike_app; eauto.
Qed.

Lemma results_alike_failed s s' : results_alike s s' failed failed.
Proof. done. Qed.

(** An escaped template writes the markup of the template and nothing else,
    whatever the values. *)
Lemma exec_confined fm n x n' y v :
  escape n x = Some (n', y) → results_alike x.1 y.1 (execute fm n' v) (execute_blank fm n' v).
Proof.
  unfold execute, execute_blank.
  revert x n' y v. induction n as [|s k IH|es p k IH|p a IHa b IHb k IH|p a IHa k IH|]; intros x n' y v He; cbn in He.
  - injection He as <- <-. done.
  - destruct (escape k (crun x s)) as [[k' y']|] eqn:Hk; [|done]. injection He as <- <-. cbn [exec].
    eapply results_alike_andthen; [|by apply IH]. rewrite crun_tok. by split.
  - destruct (hole_escapers x) as [hs|] eqn:Hh; [|done]. cbn in He.
    destruct (escape k x) as [[k' y']|] eqn:Hk; [|done]. injection He as <- <-. cbn [exec].
    destruct (eval fm v p ≫= print) as [l|]; [|apply results_alike_failed].
    eapply results_alike_andthen; [|by apply IH]. split; [done|]. intros _. cbn [written fst].
    unfold run_escapers. rewrite foldl_app.
    destruct (hole_confined x hs (run_escapers es l) Hh) as [Ht Hm]. by split.
  - destruct (escape a x) as [[a' xa]|] eqn:Ha; [|done]. cbn in He.
    destruct (escape b x) as [[b' xb]|] eqn:Hb; [|done]. cbn in He. case_bool_decide; [subst xb|done].
    destruct (escape k xa) as [[k' y']|] eqn:Hk; [|done]. injection He as <- <-. cbn [exec].
    destruct (eval fm v p ≫= truth) as [c|]; [|apply results_alike_failed].
    eapply results_alike_andthen; [destruct c; [by apply IHa|by apply IHb]|by apply IH].
  - destruct (escape a x) as [[a' xa]|] eqn:Ha; [|done]. cbn in He. case_bool_decide; [subst xa|done].
    destruct (escape k x) as [[k' y']|] eqn:Hk; [|done]. injection He as <- <-. cbn [exec].
    destruct (eval fm v p) as [[| | | |l|]|]; try apply results_alike_failed.
    eapply results_alike_andthen; [|by apply IH]. clear IH Hk.
    induction l as [|z l IHl]; [done|]. cbn [foldr]. eapply results_alike_andthen; [by apply IHa|done].
  - done.
Qed.

Lemma compile_confined fm set name n v :
  compile set name = Some n → results_alike Txt Txt (execute fm n v) (execute_blank fm n v).
Proof.
  unfold compile. destruct (assoc name set) as [body|]; [|done]. cbn.
  destruct (inline (length set) set body) as [n0|]; [|done]. cbn.
  destruct (escape n0 (Txt, UrlPartNone)) as [[n' y]|] eqn:He; [|done]. cbn. case_bool_decide; [subst y|done].
  intros [= <-]. exact (exec_confined fm _ _ _ _ v He).
Qed.

(** ** Finding a place in a page

    [locate] follows directions through a template and notes what has to hold
    of the value for execution to come by. *)
Inductive dir := Past | Then | Else | Body.
Inductive step := Holds (p : command) (b : bool) | Item (p : command).
#[export] Instance step_eq_dec : EqDecision step.
Proof. solve_decision. Defined.

Fixpoint locate (ds : list dir) (n : nodes) : option (list step * nodes) :=
  match ds with
  | [] => Some ([], n)
  | d :: ds =>
      match d, n with
      | Past, (NText _ k | NAct _ _ k | NIf _ _ _ k | NRange _ _ k) => locate ds k
      | Then, NIf p a _ _ => '(st, n) ← locate ds a; Some (Holds p true :: st, n)
      | Else, NIf p _ b _ => '(st, n) ← locate ds b; Some (Holds p false :: st, n)
      | Body, NRange p a _ => '(st, n) ← locate ds a; Some (Item p :: st, n)
      | _, _ => None
      end
  end.

Section Locate.
Context (fm : funcs).

Fixpoint follow (st : list step) (v v' : value) : Prop :=
  match st with
  | [] => v' = v
  | Holds p b :: st => eval fm v p ≫= truth = Some b ∧ follow st v v'
  | Item p :: st => ∃ l x, eval fm v p = Some (VList l) ∧ x ∈ l ∧ follow st x v'
  end.

Definition contains (sub l : list ascii) : Prop := ∃ pre post, l = pre ++ sub ++ post.

Lemma contains_refl l : contains l l.
Proof. exists [], []. by rewrite app_nil_r. Qed.

Lemma contains_trans a b c : contains a b → contains b c → contains a c.
Proof.
  intros (p & q & ->) (p' & q' & ->). exists (p' ++ p), (q ++ q'). by rewrite <-!(assoc_L (++)).
Qed.

Lemma contains_app_l a b c : contains a b → contains a (b ++ c).
Proof. intros (p & q & ->). exists p, (q ++ c). by rewrite <-!(assoc_L (++)). Qed.

Lemma contains_app_r a b c : contains a c → contains a (b ++ c).
Proof. intros (p & q & ->). exists (b ++ p), q. by rewrite <-!(assoc_L (++)). Qed.

Lemma andthen_true (r r' : result) out :
  andthen r r' = (out, true) → ∃ a b, r = (a, true) ∧ r' = (b, true) ∧ out = a ++ b.
Proof. destruct r as [a []], r' as [b b2]; intros [= <-]; subst; eauto. Qed.

Lemma range_contains w a l x out :
  foldr (λ x r, andthen (exec fm w a x) r) (written []) l = (out, true) → x ∈ l →
  ∃ out', exec fm w a x = (out', true) ∧ contains out' out.
Proof.
  revert out. induction l as [|y l IH]; intros out Ho Hx; [by apply not_elem_of_nil in Hx|].
  apply andthen_true in Ho as (oy & ol & Hy & Hl & ->). apply elem_of_cons in Hx as [->|Hx].
  - exists oy. split; [done|]. apply contains_app_l, contains_refl.
  - destruct (IH ol Hl Hx) as (o & ? & ?). exists o. split; [done|]. by apply contains_app_r.
Qed.

Lemma locate_contains w ds n st n' v v' out :
  locate ds n = Some (st, n') → follow st v v' → exec fm w n v = (out, true) →
  ∃ out', exec fm w n' v' = (out', true) ∧ contains out' out.
Proof.
  revert n st v out. induction ds as [|d ds IH]; intros n st v out Hl Hf He.
  - injection Hl as <- <-. cbn in Hf. subst. exists out. split; [done|]. apply contains_refl.
  - destruct d, n as [|t k|es p k|p a b k|p a k|]; try done; cbn [locate exec] in Hl, He.
    + apply andthen_true in He as (o1 & o2 & _ & He & ->).
      destruct (IH _ _ _ _ Hl Hf He) as (o & ? & ?). exists o. split; [done|]. by apply contains_app_r.
    + destruct (eval fm v p ≫= print); [|done]. apply andthen_true in He as (o1 & o2 & _ & He & ->).
      destruct (IH _ _ _ _ Hl Hf He) as (o & ? & ?). exists o. split; [done|]. by apply contains_app_r.
    + destruct (eval fm v p ≫= truth); [|done]. apply andthen_true in He as (o1 & o2 & _ & He & ->).
      destruct (IH _ _ _ _ Hl Hf He) as (o & ? & ?). exists o. split; [done|]. by apply contains_app_r.
    + destruct (eval fm v p) as [[| | | |l|]|]; try done. apply andthen_true in He as (o1 & o2 & _ & He & ->).
      destruct (IH _ _ _ _ Hl Hf He) as (o & ? & ?). exists o. split; [done|]. by apply contains_app_r.
    + destruct (locate ds a) as [[st' m]|] eqn:Ha; [|done]. injection Hl as <- <-. destruct Hf as [Hp Hf].
      rewrite Hp in He. apply andthen_true in He as (o1 & o2 & He & _ & ->).
      destruct (IH _ _ _ _ Ha Hf He) as (o & ? & ?). exists o. split; [done|]. by apply contains_app_l.
    + destruct (locate ds b) as [[st' m]|] eqn:Hb; [|done]. injection Hl as <- <-. destruct Hf as [Hp Hf].
      rewrite Hp in He. apply andthen_true in He as (o1 & o2 & He & _ & ->).
      destruct (IH _ _ _ _ Hb Hf He) as (o & ? & ?). exists o. split; [done|]. by apply contains_app_l.
    + destruct (locate ds a) as [[st' m]|] eqn:Ha; [|done]. injection Hl as <- <-. destruct Hf as (l & x & Hp & Hx & Hf).
      rewrite Hp in He. apply andthen_true in He as (o1 & o2 & He & _ & ->).
      destruct (range_contains _ _ _ _ _ He Hx) as (o' & He' & Hc).
      destruct (IH _ _ _ _ Ha Hf He') as (o & ? & ?). exists o. split; [done|].
      eapply contains_trans; [done|]. by apply contains_app_l.
Qed.

(** The action [locate] leads to, when the text before it ends in [before] and
    the text after it starts with [after]. *)
Definition hole_at (ds : list dir) (n : nodes) (before after : list ascii)
    : option (list step * list escaper * command) :=
  '(st, n) ← locate ds n;
  match n with
  | NText a (NAct es p (NText b _)) =>
      if bool_decide (drop (length a - length before) a = before) &&
         bool_decide (take (length after) b = after)
      then Some (st, es, p) else None
  | _ => None
  end.

Lemma hole_at_contains w ds n before after st es p v v' s out :
  hole_at ds n before after = Some (st, es, p) → follow st v v' → eval fm v' p = Some (VStr s) →
  exec fm w n v = (out, true) → contains (before ++ w es s ++ after) out.
Proof.
  unfold hole_at. destruct (locate ds n) as [[st' n']|] eqn:Hl; [|done]. cbn.
  destruct n' as [|a [| |es' p' [|b k| | | |]| | |]| | | |]; try done.
  case_match eqn:Hc; [|done]. intros [= -> -> ->] Hf Hp He.
  apply andb_true_iff in Hc as [Ha%bool_decide_eq_true Hb%bool_decide_eq_true].
  destruct (locate_contains _ _ _ _ _ _ _ _ Hl Hf He) as (out' & He' & Hc).
  eapply contains_trans; [|exact Hc]. cbn [exec] in He'. rewrite Hp in He'. cbn [print mbind option_bind] in He'.
  apply andthen_true in He' as (? & o & [= <-] & He' & ->).
  apply andthen_true in He' as (? & o' & [= <-] & He' & ->).
  apply andthen_true in He' as (? & o'' & [= <-] & _ & ->).
  exists (take (length a - length before) a), (drop (length after) b ++ o'').
  rewrite <-(take_drop (length a - length before) a) at 1. rewrite Ha.
  rewrite <-(take_drop (length after) b) at 1. rewrite Hb. by rewrite !(assoc_L (++)).
Qed.
End Locate.
