(* ===== verification/Revcheck.v ===== *)
(** * Package [revcheck]: the revocation poller

    [internal/proxyd/revcheck/revcheck.go].  The HTTP client and the clock are
    the data of a poll; the decoding of a reply, the state of a
    [PollingChecker], its refresh and its lookups are the code's. *)

From Stdlib Require Import ZArith Lia Ascii.
From stdpp Require Import prelude strings pretty gmap list.
From S2P Require Import Prelude GoStrings GoTime Json GoCalendar JsonDecode JsonRound Rbac GoSsh.

Local Open Scope Z_scope.
Local Open Scope go_scope.

(** A time is [None] when it is zero. *)
Record Revocation := {
  RevSerial : Z; RevKeyID : string; Reason : string; Revoker : string; Revoked : option Z
}.
Record Snapshot := { CapturedAt : option Z; Entries : list Revocation }.

(** ** The wire shape: the struct tags *)
Definition zero_revocation : Revocation :=
  {| RevSerial := 0; RevKeyID := ""; Reason := ""; Revoker := ""; Revoked := None |}.

Definition revocation_fields : list (field Revocation) :=
  [set_field "serial" RevSerial
     (λ x r, {| RevSerial := x; RevKeyID := RevKeyID r; Reason := Reason r; Revoker := Revoker r;
                Revoked := Revoked r |}) decode_uint64;
   set_field "key_id" RevKeyID
     (λ x r, {| RevSerial := RevSerial r; RevKeyID := x; Reason := Reason r; Revoker := Revoker r;
                Revoked := Revoked r |}) decode_string;
   set_field "reason" Reason
     (λ x r, {| RevSerial := RevSerial r; RevKeyID := RevKeyID r; Reason := x; Revoker := Revoker r;
                Revoked := Revoked r |}) decode_string;
   set_field "revoker" Revoker
     (λ x r, {| RevSerial := RevSerial r; RevKeyID := RevKeyID r; Reason := Reason r; Revoker := x;
                Revoked := Revoked r |}) decode_string;
   set_field "revoked_at" Revoked
     (λ x r, {| RevSerial := RevSerial r; RevKeyID := RevKeyID r; Reason := Reason r; Revoker := Revoker r;
                Revoked := x |}) decode_time].

(** The variable [snap] while it is decoded into. *)
Record snapshot_var := { var_captured : option Z; var_entries : slice Revocation }.
Definition snapshot_fields : list (field snapshot_var) :=
  [set_field "captured_at" var_captured
     (λ x v, {| var_captured := x; var_entries := var_entries v |}) decode_time;
   set_field "entries" var_entries
     (λ x v, {| var_captured := var_captured v; var_entries := x |})
     (decode_slice (decode_struct revocation_fields) zero_revocation)].

Definition decode_snapshot (body : list ascii) : option Snapshot :=
  v ← Unmarshal (decode_struct snapshot_fields) {| var_captured := None; var_entries := nil_slice |} body;
  Some {| CapturedAt := var_captured v; Entries := elements (var_entries v) |}.

(** [json.Marshal] of the same structs, as the server that keeps this shape
    sends them. *)
Definition marshal_zero_time (t : option Z) : json := marshal_time (default zero_instant t).
Definition revocation_json (r : Revocation) : json :=
  JObject (omitempty "serial" (RevSerial r =? 0) (JInt (RevSerial r)) ++
    omitempty_string "key_id" (RevKeyID r) ++
    omitempty_string "reason" (Reason r) ++
    omitempty_string "revoker" (Revoker r) ++
    [("revoked_at", marshal_zero_time (Revoked r))]).
Definition snapshot_json (s : Snapshot) : json :=
  JObject [("captured_at", marshal_zero_time (CapturedAt s));
           ("entries", JArray (map revocation_json (Entries s)))].

(** ** State *)

(** [lastFetchTime] is [None] for the zero time. *)
Record PollingChecker := {
  url : string;
  period : Z;
  timeout : Z;
  bySerial : gmap Z Revocation;
  byKeyID : gmap string Revocation;
  lastFetchTime : option Z;
  lastFetchErr : option string
}.

Record Config := { CfgURL : string; PollInterval : Z; HTTPTimeout : Z }.

Definition DefaultPollInterval : Z := 30 * second.
Definition DefaultHTTPTimeout : Z := 5 * second.

Inductive ConfigError := URLRequired.

Definition NewPollingChecker (cfg : Config) : outcome ConfigError PollingChecker :=
  require negb (bool_decide (CfgURL cfg = "")) else URLRequired;;
  Ret {| url := CfgURL cfg;
         period := if PollInterval cfg =? 0 then DefaultPollInterval else PollInterval cfg;
         timeout := if HTTPTimeout cfg =? 0 then DefaultHTTPTimeout else HTTPTimeout cfg;
         bySerial := ∅; byKeyID := ∅; lastFetchTime := None; lastFetchErr := None |}.

(** ** One fetch *)

(** What the round trip yields: the request cannot be built or sent, or a
    response with its status and body; reading the body may fail. *)
Inductive http_reply :=
  | RequestError (e : string)
  | TransportError (e : string)
  | Response (status : Z) (body : list ascii) (read_err : option string).

#[export] Instance http_reply_eq_dec : EqDecision http_reply.
Proof. solve_decision. Defined.

(** [io.LimitReader(r, n)] read to its end. *)
Fixpoint LimitReader (n : Z) (l : list ascii) : list ascii :=
  match l with
  | [] => []
  | c :: l' => if n <=? 0 then [] else c :: LimitReader (n - 1) l'
  end.

Definition body_limit : Z := Z.shiftl 16 20.

Inductive fetch_error :=
  | FetchBuild (e : string) | FetchDo (e : string) | FetchBody (e : string)
  | FetchStatus (status : Z) (text : string) | FetchDecode.

Definition fetch (r : http_reply) : outcome fetch_error Snapshot :=
  match r with
  | RequestError e => Err (FetchBuild e)
  | TransportError e => Err (FetchDo e)
  | Response status raw read_err =>
      let body := LimitReader body_limit raw in
      match read_err with
      | Some e => Err (FetchBody e)
      | None =>
          require Z.quot status 100 =? 2
            else FetchStatus status (TrimSpace (of_chars body));;
          match decode_snapshot body with
          | None => Err FetchDecode
          | Some snap => Ret snap
          end
      end
  end.

Definition error_text (e : fetch_error) : string :=
  match e with
  | FetchBuild e | FetchDo e => e
  | FetchBody e => "read body: " +:+ e
  | FetchStatus n t => "certd revocations returned " +:+ pretty n +:+ ": " +:+ t
  | FetchDecode => "decode snapshot"
  end.

(** The loop that builds the two maps. *)
Fixpoint index_entries (es : list Revocation) (s : gmap Z Revocation) (k : gmap string Revocation)
    : gmap Z Revocation * gmap string Revocation :=
  match es with
  | [] => (s, k)
  | e :: rest =>
      let s := if negb (RevSerial e =? 0) then <[RevSerial e := e]> s else s in
      let k := if negb (bool_decide (RevKeyID e = "")) then <[RevKeyID e := e]> k else k in
      index_entries rest s k
  end.

(** [refresh] at time [now] on the reply [r]. *)
Definition refresh (now : Z) (r : http_reply) (p : PollingChecker) : PollingChecker :=
  match fetch r with
  | Ret snap =>
      let '(s, k) := index_entries (Entries snap) ∅ ∅ in
      {| url := url p; period := period p; timeout := timeout p; bySerial := s; byKeyID := k;
         lastFetchTime := Some now; lastFetchErr := None |}
  | Err e =>
      {| url := url p; period := period p; timeout := timeout p;
         bySerial := bySerial p; byKeyID := byKeyID p;
         lastFetchTime := lastFetchTime p; lastFetchErr := Some (error_text e) |}
  | Panic => p
  end.

(** ** Lookups *)

(** [cert] is a pointer; [None] is nil. *)
Definition IsRevoked (p : PollingChecker) (cert : option Certificate) : bool :=
  match cert with
  | None => false
  | Some cert =>
      if negb (Serial cert =? 0) && bool_decide (is_Some (bySerial p !! Serial cert)) then true
      else negb (bool_decide (KeyId cert = "")) && bool_decide (is_Some (byKeyID p !! KeyId cert))
  end.

Definition Healthy (p : PollingChecker) : option Z * option string * bool :=
  (lastFetchTime p, lastFetchErr p,
   bool_decide (lastFetchErr p = None) && bool_decide (is_Some (lastFetchTime p))).

(** ** The polling loop

    What [select] picks next: a tick (with the reply of that poll) or the
    cancelled context.  [time.NewTicker] panics on a period that is not
    positive. *)
Inductive poll_event := Tick (now : Z) (r : http_reply) | CtxDone.
#[export] Instance poll_event_eq_dec : EqDecision poll_event.
Proof. solve_decision. Defined.
Inductive run_end := RunCtxErr | RunPanic | RunBlocked.

Fixpoint run_loop (p : PollingChecker) (evs : list poll_event) : PollingChecker * run_end :=
  match evs with
  | [] => (p, RunBlocked)
  | CtxDone :: _ => (p, RunCtxErr)
  | Tick now r :: rest => run_loop (refresh now r p) rest
  end.

Definition Run (p : PollingChecker) (now : Z) (r : http_reply) (evs : list poll_event)
    : PollingChecker * run_end :=
  let p := refresh now r p in
  if period p <=? 0 then (p, RunPanic) else run_loop p evs.

(** ** The [Checker] interface

    An interface value holds a concrete type, so one that holds a nil
    [*PollingChecker] is not the nil interface; a method call through it
    dereferences the pointer. *)
Inductive Checker :=
  | CheckerNil
  | PermissiveChecker
  | Polling (p : option PollingChecker).

Definition checker_IsRevoked (c : Checker) (cert : option Certificate) : outcome Empty_set bool :=
  match c with
  | CheckerNil => Panic
  | PermissiveChecker => Ret false
  | Polling p =>
      match cert, p with
      | None, _ => Ret false
      | Some _, None => Panic
      | Some _, Some p => Ret (IsRevoked p cert)
      end
  end.

(** ** Specification *)

(** A snapshot names a certificate by its serial or by its key id, when that
    is not the zero value. *)
Definition names (c : Certificate) (e : Revocation) : Prop :=
  (RevSerial e ≠ 0 ∧ RevSerial e = Serial c) ∨ (RevKeyID e ≠ "" ∧ RevKeyID e = KeyId c).
Definition revokes (s : Snapshot) (c : Certificate) : Prop := ∃ e, e ∈ Entries s ∧ names c e.

(** The polls so far, latest first, reduced to their snapshots. *)
Fixpoint last_good (rs : list (Z * http_reply)) : option Snapshot :=
  match rs with
  | [] => None
  | (_, r) :: older =>
      match fetch r with Ret s => Some s | _ => last_good older end
  end.

Fixpoint polled (p : PollingChecker) (rs : list (Z * http_reply)) : PollingChecker :=
  match rs with
  | [] => p
  | (now, r) :: older => refresh now r (polled p older)
  end.

Lemma index_entries_spec es s k :
  (∀ n, is_Some ((index_entries es s k).1 !! n) ↔
    is_Some (s !! n) ∨ ∃ e, e ∈ es ∧ RevSerial e ≠ 0 ∧ RevSerial e = n) ∧
  (∀ i, is_Some ((index_entries es s k).2 !! i) ↔
    is_Some (k !! i) ∨ ∃ e, e ∈ es ∧ RevKeyID e ≠ "" ∧ RevKeyID e = i).
Proof.
  revert s k. induction es as [|e es IH]; intros s k; cbn [index_entries].
  - split; intros; set_solver.
  - destruct (IH (if negb (RevSerial e =? 0) then <[RevSerial e := e]> s else s)
      (if negb (bool_decide (RevKeyID e = "")) then <[RevKeyID e := e]> k else k)) as [Hs Hk].
    split; [intros n; etransitivity; [apply Hs|]|intros i; etransitivity; [apply Hk|]]; clear Hs Hk.
    + rewrite (exists_cons (λ x, RevSerial x ≠ 0 ∧ RevSerial x = n)).
      destruct (Z.eqb_spec (RevSerial e) 0); cbn [negb]; [tauto|].
      rewrite lookup_insert_is_Some'. tauto.
    + rewrite (exists_cons (λ x, RevKeyID x ≠ "" ∧ RevKeyID x = i)).
      case_bool_decide; cbn [negb]; [tauto|].
      rewrite lookup_insert_is_Some'. tauto.
Qed.

Lemma index_entries_nil es :
  (∀ n, is_Some ((index_entries es ∅ ∅).1 !! n) ↔ ∃ e, e ∈ es ∧ RevSerial e ≠ 0 ∧ RevSerial e = n) ∧
  (∀ i, is_Some ((index_entries es ∅ ∅).2 !! i) ↔ ∃ e, e ∈ es ∧ RevKeyID e ≠ "" ∧ RevKeyID e = i).
Proof.
  destruct (index_entries_spec es ∅ ∅) as [Hs Hk].
  split; intros x; (etransitivity; [apply Hs || apply Hk|]); rewrite lookup_empty, is_Some_alt; naive_solver.
Qed.

(** The maps hold exactly what a snapshot names. *)
Definition holds (p : PollingChecker) (s : option Snapshot) : Prop :=
  (∀ n, is_Some (bySerial p !! n) ↔
    ∃ e, e ∈ default [] (Entries <$> s) ∧ RevSerial e ≠ 0 ∧ RevSerial e = n) ∧
  (∀ i, is_Some (byKeyID p !! i) ↔
    ∃ e, e ∈ default [] (Entries <$> s) ∧ RevKeyID e ≠ "" ∧ RevKeyID e = i).

Lemma holds_revoked p s c : holds p s → IsRevoked p (Some c) = true ↔ ∃ s', s = Some s' ∧ revokes s' c.
Proof.
  intros [Hs Hk]. unfold IsRevoked, revokes, names.
  specialize (Hs (Serial c)). specialize (Hk (KeyId c)).
  assert ((negb (Serial c =? 0) && bool_decide (is_Some (bySerial p !! Serial c))) = true ↔
    Serial c ≠ 0 ∧ ∃ e, e ∈ default [] (Entries <$> s) ∧ RevSerial e ≠ 0 ∧ RevSerial e = Serial c) as H1.
  { rewrite andb_true_iff, negb_true_iff, Z.eqb_neq, bool_decide_eq_true. tauto. }
  assert ((negb (bool_decide (KeyId c = "")) && bool_decide (is_Some (byKeyID p !! KeyId c))) = true ↔
    KeyId c ≠ "" ∧ ∃ e, e ∈ default [] (Entries <$> s) ∧ RevKeyID e ≠ "" ∧ RevKeyID e = KeyId c) as H2.
  { rewrite andb_true_iff, negb_true_iff, bool_decide_eq_false, bool_decide_eq_true. tauto. }
  clear Hs Hk.
  destruct s as [s|]; cbn in H1, H2.
  - case_match eqn:He.
    + split; [|done]. intros _. exists s. split; [done|].
      destruct (proj1 H1 eq_refl) as (_ & e & ? & ? & ?). exists e. tauto.
    + rewrite H2. split.
      * intros (? & e & ? & ? & ?). exists s. split; [done|]. exists e. tauto.
      * intros (s' & [= <-] & e & Hin & [[Hz Heq]|[Hz Heq]]).
        -- discriminate (proj2 H1). split; [congruence|by exists e].
        -- split; [congruence|by exists e].
  - case_match eqn:He.
    + destruct (proj1 H1 eq_refl) as (_ & e & Hin & _). set_solver.
    + rewrite H2. split; [intros (_ & e & Hin & _); set_solver|by intros (? & ? & _)].
Qed.

Lemma refresh_holds now r p s :
  holds p s →
  holds (refresh now r p)
    (match fetch r with Ret s' => Some s' | _ => s end).
Proof.
  intros H. unfold refresh. destruct (fetch r) as [snap|e|]; [|done..].
  pose proof (index_entries_nil (Entries snap)) as Hi.
  destruct (index_entries (Entries snap) ∅ ∅) as [s' k']. exact Hi.
Qed.

Lemma polled_holds p rs : holds p None → holds (polled p rs) (last_good rs).
Proof.
  intros Hp. induction rs as [|[now r] rs IH]; [done|]. cbn [polled last_good].
  apply (refresh_holds now r) in IH. by destruct (fetch r).
Qed.

Lemma NewPollingChecker_holds cfg p : NewPollingChecker cfg = Ret p → holds p None.
Proof.
  unfold NewPollingChecker. intros H. inv_outcome. cbn.
  split; intros x; cbn; rewrite lookup_empty, is_Some_alt; set_solver.
Qed.

Lemma fetch_not_panic r : fetch r ≠ Panic.
Proof.
  destruct r as [| |st b [|]]; try done. cbn [fetch].
  destruct (_ =? 2); [|done]. cbn. by destruct (decode_snapshot _).
Qed.

Lemma refresh_period now r p : period (refresh now r p) = period p.
Proof. unfold refresh. destruct (fetch r); [|done..]. by destruct (index_entries _ _ _). Qed.

(** [Run] is the sequence of its polls. *)
Fixpoint ticks (evs : list poll_event) : list (Z * http_reply) :=
  match evs with
  | Tick now r :: rest => (now, r) :: ticks rest
  | _ => []
  end.

Lemma polled_app p l1 l2 : polled p (l1 ++ l2) = polled (polled p l2) l1.
Proof. induction l1 as [|[now r] l1 IH]; [done|]. cbn. by rewrite IH. Qed.

Lemma run_loop_polled p evs :
  run_loop p evs =
    (polled p (reverse (ticks evs)), if bool_decide (CtxDone ∈ evs) then RunCtxErr else RunBlocked).
Proof.
  revert p. induction evs as [|[now r|] evs IH]; intros p; cbn [run_loop ticks]; [done| |].
  - rewrite IH, reverse_cons, polled_app. cbn [polled]. f_equal.
    repeat case_bool_decide; set_solver.
  - rewrite bool_decide_eq_true_2 by set_solver. done.
Qed.

(** *** The wire shape is read as it is written *)
Definition time_ok (t : option Z) : Prop :=
  match t with Some t => rfc3339_range t ∧ t ≠ zero_instant | None => True end.
Definition revocation_ok (r : Revocation) : Prop :=
  0 ≤ RevSerial r < 2^64 ∧ valid_utf8 (chars (RevKeyID r)) ∧ valid_utf8 (chars (Reason r)) ∧
  valid_utf8 (chars (Revoker r)) ∧ time_ok (Revoked r).
Definition snapshot_ok (s : Snapshot) : Prop := time_ok (CapturedAt s) ∧ Forall revocation_ok (Entries s).

Lemma decode_zero_time t old : time_ok t → decode_time (tree_of (marshal_zero_time t)) old = Some t.
Proof.
  unfold marshal_zero_time. destruct t as [t|]; cbn [time_ok default]; [|reflexivity].
  intros [Ht Hne]. rewrite decode_time_marshal by done. by rewrite (proj2 (Z.eqb_neq _ _)).
Qed.

Lemma decode_revocation r :
  revocation_ok r →
  decode_struct revocation_fields (tree_of (revocation_json r)) zero_revocation = Some r.
Proof.
  destruct r as [sr k re rk rv]. intros (Hs & Hk & Hre & Hrk & Ht). unfold revocation_json. cbn [Revoked RevSerial RevKeyID Reason Revoker] in *.
  change (tree_of (JObject ?fs)) with (VObject (members fs)). cbn [decode_struct].
  rewrite !members_app. unfold omitempty_string.
  json_omitempty revocation_fields "serial" ltac:(by apply decode_uint64_marshal).
  json_omitempty revocation_fields "key_id" ltac:(by apply decode_string_escape).
  json_omitempty revocation_fields "reason" ltac:(by apply decode_string_escape).
  json_omitempty revocation_fields "revoker" ltac:(by apply decode_string_escape).
  rewrite <-(app_nil_r (members [_])).
  json_member revocation_fields "revoked_at" ltac:(by apply decode_zero_time).
  reflexivity.
Qed.

Lemma snapshot_json_ok s : json_ok 0 (snapshot_json s) = true.
Proof.
  cbn. rewrite andb_true_r. apply forallb_Forall, Forall_map, Forall_true. intros r. cbn.
  apply forallb_Forall. unfold omitempty_string, omitempty. repeat apply Forall_app_2;
    repeat match goal with |- context [if ?b then [] else _] => destruct b end; by repeat constructor.
Qed.

Lemma decode_snapshot_json s : snapshot_ok s → decode_snapshot (Marshal (snapshot_json s)) = Some s.
Proof.
  destruct s as [c es]. intros [Hc Hes]. unfold decode_snapshot. cbn [CapturedAt Entries] in *.
  rewrite Unmarshal_Marshal by (apply snapshot_json_ok).
  unfold snapshot_json. cbn [CapturedAt Entries]. change (tree_of (JObject ?fs)) with (VObject (members fs)).
  assert (Forall (λ r, decode_struct revocation_fields (tree_of (revocation_json r)) zero_revocation = Some (id r)) es)
    as Hall by (eapply Forall_impl; [done|]; intros r; apply decode_revocation).
  apply (decode_slice_fresh _ _ (λ r, tree_of (revocation_json r))) in Hall. rewrite map_id in Hall.
  destruct (decode_slice _ _ _ _) as [sl|] eqn:Hsl; [|done]. injection Hall as Hsl'.
  cbn [decode_struct]. change [?a; ?b] with ([a] ++ [b]) at 1. rewrite members_app.
  json_member snapshot_fields "captured_at" ltac:(by apply decode_zero_time).
  rewrite <-(app_nil_r (members [_])).
  json_member snapshot_fields "entries" ltac:(cbn [tree_of]; rewrite map_map; exact Hsl).
  cbn. by rewrite Hsl'.
Qed.

Lemma LimitReader_take n l : LimitReader n l = take (Z.to_nat n) l.
Proof.
  revert n. induction l as [|c l IH]; intros n; cbn; [by rewrite take_nil|].
  destruct (Z.leb_spec n 0); [by replace (Z.to_nat n) with 0%nat by lia|].
  replace (Z.to_nat n) with (S (Z.to_nat (n - 1))) by lia. cbn. by rewrite IH.
Qed.

(** ** Properties *)

(** C27: revocation follows the last snapshot that was fetched.  However the
    polls of [Run] went, with failures (transport, body, status, decoding) at
    any of them, [IsRevoked] refuses a certificate exactly when the latest
    successful reply has an entry with its non-zero serial or its non-empty
    key id: a failed poll never re-admits a revoked certificate, and before the
    first success nothing is refused. *)
Theorem revoked_iff_last_snapshot (cfg : Config) (p : PollingChecker)
    (now : Z) (r : http_reply) (evs : list poll_event) (c : Certificate) :
  NewPollingChecker cfg = Ret p →
  0 < period p →
  IsRevoked (Run p now r evs).1 (Some c) = true ↔
    ∃ s, last_good (reverse (ticks evs) ++ [(now, r)]) = Some s ∧ revokes s c.
Proof.
  intros Hp Hpos. apply holds_revoked. unfold Run.
  rewrite refresh_period. assert ((period p <=? 0) = false) as -> by lia.
  rewrite run_loop_polled. cbn [fst].
  change (refresh now r p) with (polled p [(now, r)]).
  rewrite <-polled_app. by eapply polled_holds, NewPollingChecker_holds.
Qed.

(** C28: a snapshot is read whole or not at all.  Any snapshot of the wire shape
    (serials of 64 bits, text in UTF-8, times of the years 0 to 9999) that
    comes in a successful reply is decoded to itself, entry for entry, when its
    JSON fits in the 16 MiB that are read; a longer one is cut off and is then
    a decode error, so the poll fails rather than taking in a part of the
    revocations. *)
Theorem snapshot_read_whole (s : Snapshot) (status : Z) :
  snapshot_ok s → Z.quot status 100 = 2 →
  fetch (Response status (Marshal (snapshot_json s)) None) =
    if Z.of_nat (length (Marshal (snapshot_json s))) <=? body_limit then Ret s else Err FetchDecode.
Proof.
  intros Hs Hst. cbn [fetch]. rewrite Hst. cbn [guard_else obind]. rewrite LimitReader_take.
  destruct (Z.leb_spec (Z.of_nat (length (Marshal (snapshot_json s)))) body_limit) as [Hle|Hgt].
  - rewrite take_ge by lia. by rewrite decode_snapshot_json.
  - assert (decode_snapshot (take (Z.to_nat body_limit) (Marshal (snapshot_json s))) = None) as ->; [|done].
    unfold decode_snapshot, Unmarshal. set (n := Z.to_nat body_limit) in *.
    assert (∃ l, Marshal (snapshot_json s) = take n (Marshal (snapshot_json s)) ++ l ++ ["}"%char]) as [l Hl].
    { eapply (take_but_last n _ ("{"%char :: _)); [reflexivity|].
      assert (0 ≤ body_limit) by (by vm_compute). subst n. apply Nat2Z.inj_lt. rewrite Z2Nat.id by done. exact Hgt. }
    pose proof (parse_Marshal _ (snapshot_json_ok s)) as Hp. rewrite Hl in Hp.
    by rewrite (parse_truncated _ _ _ Hp).
Qed.

(** Health and freshness.  [Healthy] answers true exactly when the most
    recent poll succeeded, and then its time is that poll's; a failed poll is
    reported with its error while the time stays that of the last success. *)
Theorem healthy_iff_last_poll (p : PollingChecker) (now : Z) (r : http_reply) :
  Healthy (refresh now r p) =
    match fetch r with
    | Ret _ => (Some now, None, true)
    | Err e => (lastFetchTime p, Some (error_text e), false)
    | Panic => Healthy p
    end.
Proof.
  unfold Healthy, refresh. destruct (fetch r); [|done..].
  by destruct (index_entries _ _ _).
Qed.

(** The poller only panics on a negative interval: with a zero interval
    defaulted, [Run] reaches its ticker with a positive period for every
    configuration whose interval is not negative. *)
Theorem run_period_positive (cfg : Config) (p : PollingChecker) (now : Z) (r : http_reply)
    (evs : list poll_event) :
  NewPollingChecker cfg = Ret p →
  (Run p now r evs).2 = RunPanic ↔ PollInterval cfg < 0.
Proof.
  intros Hp. unfold NewPollingChecker in Hp. inv_outcome. unfold Run. rewrite refresh_period. cbn [period].
  destruct (Z.eqb_spec (PollInterval cfg) 0) as [Hz|Hz].
  - rewrite Hz. replace (DefaultPollInterval <=? 0) with false by done.
    rewrite run_loop_polled. cbn [snd]. destruct (bool_decide (CtxDone ∈ evs)); (split; [done|lia]).
  - destruct (PollInterval cfg <=? 0) eqn:Hle; cbn [snd]; [split; [lia|done]|].
    rewrite run_loop_polled. cbn [snd]. destruct (bool_decide (CtxDone ∈ evs)); (split; [done|lia]).
Qed.

(** ** Witnesses *)
Definition example_rev : Revocation :=
  {| RevSerial := 42; RevKeyID := ""; Reason := "lost"; Revoker := "ops"; Revoked := Some 0 |}.
Definition example_snapshot : Snapshot := {| CapturedAt := Some second; Entries := [example_rev] |}.
Definition example_body : list ascii := Marshal (snapshot_json example_snapshot).
Definition example_cert : Certificate :=
  {| Serial := 42; CertType := UserCert; KeyId := "user:alice"; ValidPrincipals := ["alice"];
     CertPermissions := {| CriticalOptions := None; Extensions := None |}; SignatureKey := "ca" |}.
Definition example_cfg : Config := {| CfgURL := "https://certd"; PollInterval := 0; HTTPTimeout := 0 |}.
Definition example_checker : PollingChecker :=
  {| url := "https://certd"; period := 30000000000; timeout := 5000000000;
     bySerial := ∅; byKeyID := ∅; lastFetchTime := None; lastFetchErr := None |}.

(** A good poll followed by an outage: still refused. *)
Lemma revoked_iff_last_snapshot_witness :
  IsRevoked (Run example_checker 10 (Response 200 example_body None)
    [Tick 40 (TransportError "refused"); Tick 70 (Response 503 [] None)]).1 (Some example_cert) = true.
Proof.
  apply (revoked_iff_last_snapshot example_cfg example_checker).
  - vm_compute. reflexivity.
  - vm_compute. reflexivity.
  - eexists. split; [vm_compute; reflexivity|].
    exists example_rev. split; [left|]. left. split; [discriminate|reflexivity].
Defined.

Lemma snapshot_read_whole_witness : fetch (Response 204 example_body None) = Ret example_snapshot.
Proof.
  unfold example_body. rewrite (snapshot_read_whole example_snapshot 204); [vm_compute; reflexivity| |reflexivity].
  assert (∀ t, bool_decide (rfc3339_range t) && negb (t =? zero_instant) = true → time_ok (Some t)) as Ht.
  { intros t [Hr%bool_decide_eq_true Hz%negb_true_iff%Z.eqb_neq]%andb_true_iff. by split. }
  split; [apply Ht; vm_compute; reflexivity|]. apply Forall_singleton. split; [split; [discriminate|reflexivity]|].
  do 3 (split; [apply ascii_utf8; reflexivity|]). apply Ht. vm_compute. reflexivity.
Defined.

Lemma run_period_positive_witness :
  (Run example_checker 10 (TransportError "refused") []).2 ≠ RunPanic.
Proof.
  intros H. apply (run_period_positive example_cfg example_checker 10
    (TransportError "refused") [] ltac:(vm_compute; reflexivity)) in H.
  vm_compute in H. discriminate.
Defined.
