(* ===== verification/GoOs.v ===== *)
(** * path/filepath and the file system

    The parts of [path/filepath] and [os] the program uses, on Unix.  A path is
    a string; a file system maps lists of components to nodes, with symbolic
    links resolved component by component as [filepath.EvalSymlinks] and the
    kernel do. *)

From Stdlib Require Import ZArith Lia Ascii.
From stdpp Require Import prelude strings gmap list.
From S2P Require Import Prelude GoStrings.

Local Open Scope go_scope.

(** ** Lexical paths *)
Definition IsAbs (p : string) : bool := HasPrefix p "/".

(** [".."] after [".."] only arises on a relative path. *)
Fixpoint clean_parts (rooted : bool) (acc : list string) (parts : list string) : list string :=
  match parts with
  | [] => reverse acc
  | c :: rest =>
      if bool_decide (c = "") || bool_decide (c = ".") then clean_parts rooted acc rest
      else if bool_decide (c = "..") then
        match acc with
        | [] => if rooted then clean_parts rooted [] rest else clean_parts rooted [".."] rest
        | d :: acc' =>
            if bool_decide (d = "..") then clean_parts rooted (".." :: acc) rest
            else clean_parts rooted acc' rest
        end
      else clean_parts rooted (c :: acc) rest
  end.

Fixpoint join_slash (cs : list string) : string :=
  match cs with
  | [] => ""
  | [c] => c
  | c :: cs => c +:+ "/" +:+ join_slash cs
  end.

(** An absolute path with components [cs]. *)
Definition path_string (cs : list string) : string := "/" +:+ join_slash cs.

Definition Clean (p : string) : string :=
  let cs := clean_parts (IsAbs p) [] (Split p "/") in
  if IsAbs p then path_string cs
  else if bool_decide (cs = []) then "." else join_slash cs.

Definition PathJoin (elems : list string) : string :=
  match filter (.≠ "") elems with
  | [] => ""
  | es => Clean (join_slash es)
  end.

Definition Abs (cwd p : string) : string :=
  if IsAbs p then Clean p else PathJoin [cwd; p].

(** ** File systems *)
Inductive node := Dir | File (content : list ascii) | Symlink (target : string).
#[export] Instance node_eq_dec : EqDecision node.
Proof. solve_decision. Defined.

Abbreviation fs := (gmap (list string) node).
Definition node_at (t : fs) (p : list string) : option node :=
  match p with [] => Some Dir | _ => t !! p end.

Inductive os_error := ErrNotExist | ErrNotDir | ErrExist | ErrLoop | ErrIO.
#[export] Instance os_error_eq_dec : EqDecision os_error.
Proof. solve_decision. Defined.
Definition IsNotExist (e : os_error) : bool := bool_decide (e = ErrNotExist).

(** Resolution of the components [todo] below the resolved directory [dn]
    (kept reversed), following at most [links] symbolic links. *)
Fixpoint walk (t : fs) (links : nat) : list string → list string → outcome os_error (list string) :=
  fix go (dn : list string) (todo : list string) : outcome os_error (list string) :=
  match todo with
  | [] => Ret (reverse dn)
  | c :: rest =>
      if bool_decide (c = "") || bool_decide (c = ".") then go dn rest
      else if bool_decide (c = "..") then go (tail dn) rest
      else match node_at t (reverse (c :: dn)) with
      | None => Err ErrNotExist
      | Some Dir => go (c :: dn) rest
      | Some (File _) => if bool_decide (rest = []) then Ret (reverse (c :: dn)) else Err ErrNotDir
      | Some (Symlink target) =>
          match links with
          | O => Err ErrLoop
          | S links => walk t links (if IsAbs target then [] else dn) (Split target "/" ++ rest)
          end
      end
  end.

(** [filepath.EvalSymlinks] of an absolute path. *)
Definition max_links : nat := 255.
Definition eval_parts (t : fs) (p : string) : outcome os_error (list string) :=
  walk t max_links [] (Split p "/").
Definition EvalSymlinks (t : fs) (p : string) : outcome os_error string :=
  let! cs := eval_parts t p in Ret (path_string cs).

(** The kernel's resolution of an absolute path, final link included. *)
Definition kernel_links : nat := 40.
Definition Stat (t : fs) (p : string) : outcome os_error node :=
  let! cs := walk t kernel_links [] (Split p "/") in
  match node_at t cs with Some n => Ret n | None => Err ErrNotExist end.

(** A path the kernel creates an entry at: its parent resolved, then a name
    that must not exist. *)
Definition create_at (t : fs) (cs : list string) (n : node) : fs * outcome os_error (list string) :=
  match reverse cs with
  | [] => (t, Err ErrExist)
  | name :: rparent =>
      match walk t kernel_links [] (reverse rparent) with
      | Ret d =>
          match node_at t d with
          | Some Dir =>
              match t !! (d ++ [name]) with
              | Some _ => (t, Err ErrExist)
              | None => (<[d ++ [name] := n]> t, Ret (d ++ [name]))
              end
          | _ => (t, Err ErrNotDir)
          end
      | Err e => (t, Err e)
      | Panic => (t, Panic)
      end
  end.

(** [os.MkdirAll] of the components [rcs] (reversed): the path when it is a
    directory, otherwise its parent first and then the path. *)
Definition stat_dir (t : fs) (cs : list string) : outcome os_error bool :=
  let! cs' := walk t kernel_links [] cs in
  match node_at t cs' with
  | Some Dir => Ret true | Some _ => Ret false | None => Err ErrNotExist
  end.

Fixpoint mkdir_all (t : fs) (rcs : list string) : fs * option os_error :=
  match stat_dir t (reverse rcs) with
  | Ret true => (t, None)
  | Ret false => (t, Some ErrNotDir)
  | _ =>
      match rcs with
      | [] => (t, Some ErrIO)
      | _ :: rparent =>
          match mkdir_all t rparent with
          | (t, Some e) => (t, Some e)
          | (t, None) =>
              match create_at t (reverse rcs) Dir with
              | (t, Ret _) => (t, None)
              | (t, Err e) =>
                  match stat_dir t (reverse rcs) with Ret true => (t, None) | _ => (t, Some e) end
              | (t, Panic) => (t, Some ErrIO)
              end
          end
      end
  end.

(** ** Plain components *)
Definition plain (c : string) : Prop :=
  c ≠ "" ∧ c ≠ "." ∧ c ≠ ".." ∧ contains_byte c "/" = false.
#[export] Instance plain_dec c : Decision (plain c).
Proof. unfold plain. apply _. Defined.

Section Paths.
Implicit Types (cs : list string) (c : string).

Lemma join_slash_cons c d cs : join_slash (c :: d :: cs) = c +:+ "/" +:+ join_slash (d :: cs).
Proof. done. Qed.

Lemma chars_join_slash cs : chars (join_slash cs) = join_chars "/" (chars <$> cs).
Proof.
  induction cs as [|c [|d cs] IH]; [done|done|].
  rewrite join_slash_cons, !chars_app, IH. done.
Qed.

Lemma of_chars_fmap cs : of_chars <$> (chars <$> cs) = cs.
Proof.
  rewrite <-list_fmap_compose. etransitivity; [|apply list_fmap_id].
  apply list_fmap_ext. intros i l _. unfold compose. apply of_chars_chars.
Qed.

Lemma Split_join_slash cs :
  cs ≠ [] → Forall (λ c, contains_byte c "/" = false) cs → Split (join_slash cs) "/" = cs.
Proof.
  intros Hne Hall. unfold Split. rewrite chars_join_slash, split_join; [apply of_chars_fmap| |].
  - by destruct cs.
  - apply Forall_fmap. eapply Forall_impl; [done|]. intros c. by rewrite contains_byte_false.
Qed.

Lemma Split_path_string cs :
  Forall plain cs → Split (path_string cs) "/" = "" :: (if bool_decide (cs = []) then [""] else cs).
Proof.
  intros Hall. unfold path_string.
  assert (Split ("/" +:+ join_slash cs) "/" = "" :: Split (join_slash cs) "/") as ->.
  { unfold Split. rewrite chars_app. done. }
  case_bool_decide as Hcs; [by subst|]. rewrite Split_join_slash; [done|done|].
  eapply Forall_impl; [done|]. by intros c (_&_&_&?).
Qed.

Lemma clean_parts_empty rooted acc cs : clean_parts rooted acc ("" :: cs) = clean_parts rooted acc cs.
Proof. reflexivity. Qed.

Lemma clean_parts_plain rooted acc cs :
  Forall plain cs → clean_parts rooted acc cs = reverse acc ++ cs.
Proof.
  intros Hall. revert acc. induction Hall as [|c cs (H1 & H2 & H3 & _) _ IH]; intros acc; cbn [clean_parts].
  - by rewrite app_nil_r.
  - rewrite !bool_decide_eq_false_2 by done. cbn [orb]. rewrite IH, reverse_cons.
    by rewrite <-(assoc_L (++)).
Qed.

Lemma IsAbs_path_string cs : IsAbs (path_string cs) = true.
Proof. unfold IsAbs, HasPrefix. apply bool_decide_eq_true_2. unfold path_string. rewrite chars_app. by eexists. Qed.

Lemma Clean_path_string cs : Forall plain cs → Clean (path_string cs) = path_string cs.
Proof.
  intros Hall. unfold Clean. rewrite IsAbs_path_string, Split_path_string by done.
  rewrite clean_parts_empty. case_bool_decide; [by subst|]. by rewrite clean_parts_plain.
Qed.

Lemma Abs_path_string cwd cs : Forall plain cs → Abs cwd (path_string cs) = path_string cs.
Proof. intros. unfold Abs. by rewrite IsAbs_path_string, Clean_path_string. Qed.

Lemma path_string_nonempty cs : path_string cs ≠ "".
Proof. done. Qed.

(** Joining a plain name below a clean absolute directory. *)
Lemma PathJoin_path_string cs c :
  Forall plain cs → plain c → PathJoin [path_string cs; c] = path_string (cs ++ [c]).
Proof.
  intros Hall Hc. assert (c ≠ "") by (by destruct Hc). unfold PathJoin.
  rewrite filter_cons, decide_True by done. rewrite filter_cons, decide_True by done.
  rewrite filter_nil. cbn [join_slash]. unfold Clean.
  assert (IsAbs (path_string cs +:+ "/" +:+ c) = true) as ->.
  { unfold IsAbs, HasPrefix. apply bool_decide_eq_true_2. unfold path_string.
    rewrite !chars_app. by eexists. }
  assert (Split (path_string cs +:+ "/" +:+ c) "/" = Split (path_string cs) "/" ++ [c]) as ->.
  { unfold Split. rewrite chars_app. change ((of_chars <$> split_chars "/" (chars (path_string cs))) ++ [c])
      with (Split (path_string cs) "/" ++ [c]).
    pose proof (join_split "/" (chars (path_string cs))) as Hj.
    pose proof (split_chars_nosep "/" (chars (path_string cs))) as Hn.
    set (ps := split_chars "/" (chars (path_string cs))) in *.
    assert (split_chars "/" (join_chars "/" ps ++ chars ("/" +:+ c)) = ps ++ [chars c]) as Hs.
    { assert ("/"%char ∉ chars c) as Hcn by (apply contains_byte_false; by destruct Hc as (_&_&_&?)).
      rewrite chars_app. change (chars "/") with ["/"%char]. cbn [app].
      assert (ps ≠ []) as Hps by apply split_chars_not_nil. clear Hj. clearbody ps.
      induction Hn as [|p [|q ps] Hp Hn IH]; [done| |].
      - cbn [join_chars]. rewrite split_chars_app, split_chars_single; done.
      - change (join_chars "/" (p :: q :: ps)) with (p ++ "/"%char :: join_chars "/" (q :: ps)).
        rewrite <-(assoc_L (++)). cbn [app]. rewrite split_chars_app, IH; done. }
    rewrite Hj in Hs. rewrite Hs, fmap_app. unfold Split. fold ps. cbn. by rewrite of_chars_chars. }
  rewrite Split_path_string by done. f_equal. cbn [app]. rewrite clean_parts_empty.
  case_bool_decide as Hcs.
  - subst. cbn [app]. rewrite clean_parts_empty. by rewrite clean_parts_plain by (repeat constructor; done || apply Hc).
  - rewrite clean_parts_plain; [done|]. apply Forall_app. repeat constructor; try done; apply Hc.
Qed.

(** [root + "/"] as a byte prefix is prefixing by components. *)
Lemma chars_path_string cs :
  cs ≠ [] → chars (path_string cs) = mjoin ((λ c, "/"%char :: chars c) <$> cs).
Proof.
  intros Hne. unfold path_string. rewrite chars_app, chars_join_slash. cbn [app].
  induction cs as [|c [|d cs] IH]; [done|cbn; by rewrite app_nil_r|].
  specialize (IH ltac:(done)). csimpl in *. rewrite <-IH. done.
Qed.

Definition render (cs : list string) : list ascii := mjoin ((λ c, "/"%char :: chars c) <$> cs).

Lemma render_cons c cs : render (c :: cs) = "/"%char :: chars c ++ render cs.
Proof. done. Qed.
Lemma render_app cs ds : render (cs ++ ds) = render cs ++ render ds.
Proof. unfold render. by rewrite fmap_app, join_app. Qed.

Lemma slash_split (a b k l : list ascii) :
  "/"%char ∉ a → "/"%char ∉ b → (l = [] ∨ ∃ l', l = "/"%char :: l') →
  a ++ "/"%char :: k = b ++ l → a = b ∧ l = "/"%char :: k.
Proof.
  intros Ha Hb Hl Heq. destruct Hl as [->|[l' ->]].
  - rewrite app_nil_r in Heq. subst b. set_solver.
  - revert b Hb Heq. induction a as [|x a IH]; intros [|y b] Hb Heq; cbn in Heq.
    + by injection Heq as ->.
    + injection Heq as <- _. set_solver.
    + injection Heq as -> _. set_solver.
    + injection Heq as <- Heq. destruct (IH ltac:(set_solver) b ltac:(set_solver) Heq) as [-> ?]. done.
Qed.

Lemma render_prefix root cs k :
  Forall plain root → Forall plain cs →
  render root ++ "/"%char :: k = render cs → root `prefix_of` cs ∧ root ≠ cs.
Proof.
  intros Hr. revert cs. induction Hr as [|r root (_&_&_&Hrs) _ IH]; intros cs Hc Heq.
  - split; [apply prefix_nil|]. intros <-. done.
  - destruct Hc as [|c cs (_&_&_&Hcs) Hc]; [done|]. rewrite !render_cons in Heq. cbn in Heq.
    injection Heq as Heq. rewrite <-(assoc_L (++)) in Heq.
    assert (∃ k', render root ++ "/"%char :: k = "/"%char :: k') as [k' Hk'].
    { destruct root; [by eexists|]. rewrite render_cons. by eexists. }
    rewrite Hk' in Heq. destruct (slash_split (chars r) (chars c) k' (render cs)) as [Hrc Hk].
    + by apply contains_byte_false.
    + by apply contains_byte_false.
    + destruct cs; [by left|right]. rewrite render_cons. by eexists.
    + done.
    + apply chars_inj in Hrc as ->. rewrite Hk, <-Hk' in *. 
      destruct (IH cs Hc) as [Hp Hne]; [done|]. split; [by apply prefix_cons|congruence].
Qed.

Lemma path_string_render cs : cs ≠ [] → chars (path_string cs) = render cs.
Proof. apply chars_path_string. Qed.

Lemma HasPrefix_path root cs :
  root ≠ [] → Forall plain root → Forall plain cs →
  HasPrefix (path_string cs) (path_string root +:+ "/") = true ↔ root `prefix_of` cs ∧ root ≠ cs.
Proof.
  intros Hne Hr Hc. unfold HasPrefix. rewrite bool_decide_eq_true, chars_app, path_string_render by done.
  split.
  - intros [k Hk]. rewrite <-(assoc_L (++)) in Hk. cbn in Hk. destruct (decide (cs = [])) as [->|].
    + destruct root as [|r root]; [done|]. rewrite render_cons in Hk. cbn in Hk.
      injection Hk as Hk. by destruct (chars r), (render root).
    + rewrite path_string_render in Hk by done. by eapply render_prefix.
  - intros [[ds ->] Hneq]. rewrite path_string_render by (by destruct root). rewrite render_app.
    destruct ds as [|d ds]; [by rewrite app_nil_r in Hneq|].
    rewrite render_cons. exists (chars d ++ render ds). by rewrite <-(assoc_L (++)).
Qed.

Lemma path_string_inj cs ds : Forall plain cs → Forall plain ds → path_string cs = path_string ds → cs = ds.
Proof.
  intros Hc Hd Heq. pose proof (Split_path_string cs Hc) as H1. rewrite Heq, Split_path_string in H1 by done.
  injection H1 as H1. destruct (decide (cs = [])) as [->|]; destruct (decide (ds = [])) as [->|];
    rewrite ?bool_decide_eq_true_2, ?bool_decide_eq_false_2 in H1 by done; try done; subst.
  - inversion Hd as [|? ? (?&_)]; done.
  - inversion Hc as [|? ? (?&_)]; done.
Qed.
End Paths.

(** ** Resolved paths *)
Section Resolution.
Implicit Types (t : fs) (cs ds : list string).

(** Every prefix is a directory, not a link to one. *)
Definition alldir t ds : Prop :=
  Forall plain ds ∧ ∀ ps, ps `prefix_of` ds → node_at t ps = Some Dir.

(** A path that reaches a file or directory through directories only. *)
Definition real t cs : Prop :=
  Forall plain cs ∧ (∀ ps, ps `prefix_of` cs → ps ≠ cs → node_at t ps = Some Dir) ∧
  ∃ n, node_at t cs = Some n ∧ ∀ s, n ≠ Symlink s.

Definition noslash cs : Prop := Forall (λ c, contains_byte c "/" = false) cs.

Lemma alldir_real t ds : alldir t ds → real t ds.
Proof. intros [Hp Hd]. split; [done|]. split; [auto|]. exists Dir. split; [by apply Hd|done]. Qed.

Lemma alldir_nil t : alldir t [].
Proof. split; [constructor|]. by intros ps ->%prefix_nil_inv. Qed.

Lemma alldir_app_l t ds es : alldir t (ds ++ es) → alldir t ds.
Proof.
  intros [Hp Hd]. split; [by apply Forall_app in Hp as [? _]|].
  intros ps Hps. apply Hd. by apply prefix_app_r.
Qed.

Lemma prefix_snoc {A} (ps ds : list A) c : ps `prefix_of` ds ++ [c] → ps `prefix_of` ds ∨ ps = ds ++ [c].
Proof.
  intros [k Hk]. destruct k as [|x k _] using rev_ind.
  - right. by rewrite app_nil_r in Hk.
  - left. rewrite (assoc_L (++)) in Hk. apply app_inj_tail in Hk as [-> _]. by eexists.
Qed.

Lemma alldir_snoc t ds c :
  alldir t ds → plain c → node_at t (ds ++ [c]) = Some Dir → alldir t (ds ++ [c]).
Proof.
  intros [Hp Hd] Hc Hn. split; [apply Forall_app; auto|].
  intros ps [?| ->]%prefix_snoc; auto.
Qed.

Lemma real_snoc t ds c n :
  alldir t ds → plain c → node_at t (ds ++ [c]) = Some n → (∀ s, n ≠ Symlink s) → real t (ds ++ [c]).
Proof.
  intros [Hp Hd] Hc Hn Hs. split; [apply Forall_app; auto|]. split; [|eauto].
  intros ps [?| ->]%prefix_snoc ?; [auto|done].
Qed.

Lemma real_snoc_inv t ds c : real t (ds ++ [c]) → alldir t ds ∧ plain c.
Proof.
  intros (Hp & Hd & _). apply Forall_app in Hp as [Hp Hc]. split; [|by inversion Hc].
  split; [done|]. intros ps Hps. apply Hd; [by apply prefix_app_r|]. intros ->.
  destruct Hps as [k Hk]. apply (f_equal length) in Hk. rewrite !length_app in Hk. simpl in Hk. lia.
Qed.

Lemma alldir_tail t dn : alldir t (reverse dn) → alldir t (reverse (tail dn)).
Proof.
  destruct dn as [|c dn]; [done|]. cbn [tail]. rewrite reverse_cons. apply alldir_app_l.
Qed.

Lemma Split_noslash s : noslash (Split s "/").
Proof.
  unfold noslash, Split. apply Forall_fmap. eapply Forall_impl; [apply (split_chars_nosep "/")|].
  intros l Hl. cbn. apply contains_byte_false. by rewrite chars_of_chars.
Qed.

(** Whatever links the walk followed, it ends on a real path. *)
Lemma walk_real t links dn todo p :
  alldir t (reverse dn) → noslash todo → walk t links dn todo = Ret p → real t p.
Proof.
  revert dn todo. induction links as [links IHl] using lt_wf_ind. intros dn todo.
  revert dn. induction todo as [|c rest IH]; intros dn Hd Hn.
  { destruct links; cbn; intros [= <-]; by apply alldir_real. }
  apply Forall_cons in Hn as [Hc Hn].
  assert (∀ r, (if bool_decide (c = "") || bool_decide (c = ".") then walk t links dn rest
    else if bool_decide (c = "..") then walk t links (tail dn) rest
    else match node_at t (reverse (c :: dn)) with
      | None => Err ErrNotExist
      | Some Dir => walk t links (c :: dn) rest
      | Some (File _) => if bool_decide (rest = []) then Ret (reverse (c :: dn)) else Err ErrNotDir
      | Some (Symlink target) => match links with
          | O => Err ErrLoop
          | S links => walk t links (if IsAbs target then [] else dn) (Split target "/" ++ rest) end
      end) = r → r = Ret p → real t p) as H.
  { intros r <-. destruct (bool_decide (c = "") || bool_decide (c = ".")) eqn:H1; [by apply IH|].
    apply orb_false_iff in H1 as [H1 H1']. apply bool_decide_eq_false in H1, H1'.
    case_bool_decide as H2; [apply IH; [by apply alldir_tail|done]|].
    assert (plain c) as Hpc by done.
    destruct (node_at t (reverse (c :: dn))) as [[|x|target]|] eqn:Hnode; [| | |done].
    - apply IH; [|done]. rewrite reverse_cons in *. by apply alldir_snoc.
    - case_bool_decide; [|done]. intros [= <-]. rewrite reverse_cons in *. by eapply real_snoc.
    - destruct links as [|links]; [done|]. apply IHl; [lia| |].
      + destruct (IsAbs target); [apply alldir_nil|done].
      + apply Forall_app. split; [apply Split_noslash|done]. }
  destruct links; intros Hw; by eapply H.
Qed.

(** A path of directories resolves to itself, and so does a real path. *)
Lemma walk_cons_dir t links dn c rest :
  plain c → node_at t (reverse dn ++ [c]) = Some Dir →
  walk t links dn (c :: rest) = walk t links (c :: dn) rest.
Proof.
  intros (H1 & H2 & H3 & _) Hn. rewrite <-reverse_cons in Hn.
  destruct links; cbn [walk]; rewrite !bool_decide_eq_false_2 by done; cbn [orb]; by rewrite Hn.
Qed.

Lemma walk_nil t links dn : walk t links dn [] = Ret (reverse dn).
Proof. by destruct links. Qed.

Lemma walk_empty t links dn rest : walk t links dn ("" :: rest) = walk t links dn rest.
Proof. by destruct links. Qed.

Lemma walk_alldir t links dn cs rest :
  alldir t (reverse dn ++ cs) →
  walk t links dn (cs ++ rest) = walk t links (reverse cs ++ dn) rest.
Proof.
  revert dn. induction cs as [|c cs IH]; intros dn Hd; [done|].
  pose proof Hd as [Hp Hall]. apply Forall_app in Hp as [_ Hp]. inversion Hp; subst.
  cbn [app]. rewrite walk_cons_dir; [|done|].
  - rewrite IH.
    + rewrite reverse_cons, <-(assoc_L (++)). done.
    + rewrite reverse_cons, <-(assoc_L (++)). done.
  - apply Hall. exists cs. by rewrite <-(assoc_L (++)).
Qed.

Lemma walk_real_id t links cs : real t cs → walk t links [] cs = Ret cs.
Proof.
  intros Hr. destruct cs as [|c cs _] using rev_ind; [by rewrite walk_nil|].
  pose proof (real_snoc_inv _ _ _ Hr) as [Hd Hc].
  rewrite walk_alldir by done. rewrite app_nil_r. destruct Hr as (_ & _ & n & Hn & Hs).
  destruct Hc as (H1 & H2 & H3 & _).
  destruct links; cbn [walk]; rewrite !bool_decide_eq_false_2 by done; cbn [orb];
    rewrite reverse_cons, reverse_involutive, Hn; destruct n as [|x|s]; try done;
    try (by destruct (Hs s)); by rewrite reverse_cons, reverse_involutive.
Qed.

Lemma real_nil t : real t [].
Proof. apply alldir_real, alldir_nil. Qed.

Lemma real_plain t cs : real t cs → Forall plain cs.
Proof. by intros [? _]. Qed.

Lemma walk_path_string t links cs :
  real t cs → walk t links [] (Split (path_string cs) "/") = Ret cs.
Proof.
  intros Hr. rewrite Split_path_string by (by eapply real_plain). rewrite walk_empty.
  case_bool_decide as Hcs; [subst; rewrite walk_empty; apply walk_nil|by apply walk_real_id].
Qed.

Lemma EvalSymlinks_real t p cs :
  eval_parts t p = Ret cs → real t cs.
Proof. apply (walk_real t max_links []); [apply alldir_nil|apply Split_noslash]. Qed.

Lemma Stat_real t cs n :
  real t cs → node_at t cs = Some n → Stat t (path_string cs) = Ret n.
Proof.
  intros Hr Hn. unfold Stat. rewrite walk_path_string by done. cbn [obind]. by rewrite Hn.
Qed.

(** Creating an entry leaves every other path as it was. *)
Lemma node_at_sub t t' cs n : t ⊆ t' → node_at t cs = Some n → node_at t' cs = Some n.
Proof. intros Hs. destruct cs; [done|]. cbn. intros. by eapply lookup_weaken. Qed.

Lemma alldir_sub t t' ds : t ⊆ t' → alldir t ds → alldir t' ds.
Proof. intros Hs [? Hd]. split; [done|]. intros ps Hps. eapply node_at_sub; eauto. Qed.

Lemma real_sub t t' cs : t ⊆ t' → real t cs → real t' cs.
Proof.
  intros Hs (? & Hd & n & Hn & Hns). split; [done|]. split.
  - intros ps Hps Hne. eapply node_at_sub; eauto.
  - exists n. split; [by eapply node_at_sub|done].
Qed.

Lemma create_at_sub t cs n : t ⊆ (create_at t cs n).1.
Proof.
  unfold create_at. destruct (reverse cs); [done|]. destruct (walk _ _ _ _); [|done..].
  destruct (node_at _ _) as [[| |]|]; try done.
  destruct (t !! _) eqn:Hx; [done|]. by apply insert_subseteq.
Qed.

Lemma mkdir_all_sub t rcs : t ⊆ (mkdir_all t rcs).1.
Proof.
  revert t. induction rcs as [|c rcs IH]; intros t; cbn [mkdir_all].
  - by destruct (stat_dir t _) as [[]| |].
  - destruct (stat_dir t _) as [[]| |]; try done;
      (destruct (mkdir_all t rcs) as [t1 [ex|]] eqn:Hm; [by specialize (IH t); rewrite Hm in IH|]);
      specialize (IH t); rewrite Hm in IH; cbn [fst] in IH;
      pose proof (create_at_sub t1 (reverse (c :: rcs)) Dir) as Hc;
      destruct (create_at t1 _ Dir) as [t2 [?| |]]; cbn [fst] in *; try case_match;
      try case_match; cbn [fst]; by etrans.
Qed.

Lemma create_at_alldir t ds c n :
  alldir t ds → create_at t (ds ++ [c]) n =
    match t !! (ds ++ [c]) with
    | Some _ => (t, Err ErrExist)
    | None => (<[ds ++ [c] := n]> t, Ret (ds ++ [c]))
    end.
Proof.
  intros Hd. unfold create_at. rewrite reverse_snoc, reverse_involutive.
  rewrite (walk_real_id t kernel_links ds) by (by apply alldir_real).
  destruct Hd as [_ Hd]. by rewrite (Hd ds).
Qed.

Lemma stat_dir_real t cs n :
  real t cs → node_at t cs = Some n → stat_dir t cs = Ret (bool_decide (n = Dir)).
Proof.
  intros Hr Hn. unfold stat_dir. rewrite walk_real_id by done. cbn [obind]. rewrite Hn.
  by destruct n.
Qed.

(** [MkdirAll] of a new name under a real directory. *)
Lemma mkdir_all_snoc t ds c :
  alldir t ds → plain c →
  mkdir_all t (reverse (ds ++ [c])) =
    match t !! (ds ++ [c]) with
    | None => (<[ds ++ [c] := Dir]> t, None)
    | Some Dir => (t, None)
    | Some (File _) => (t, Some ErrNotDir)
    | Some (Symlink _) => mkdir_all t (reverse (ds ++ [c]))
    end.
Proof.
  intros Hd Hc. destruct (t !! (ds ++ [c])) as [[|x|s]|] eqn:Hx; [| |done|].
  - assert (node_at t (ds ++ [c]) = Some Dir) as Hn by (unfold node_at; by destruct ds).
    assert (stat_dir t (ds ++ [c]) = Ret true) as Hs.
    { rewrite (stat_dir_real _ _ Dir); [done| |done]. by apply alldir_real, alldir_snoc. }
    rewrite reverse_snoc.
    cbn [mkdir_all]. rewrite reverse_cons, reverse_involutive, Hs. done.
  - assert (node_at t (ds ++ [c]) = Some (File x)) as Hn by (unfold node_at; by destruct ds).
    assert (stat_dir t (ds ++ [c]) = Ret false) as Hs.
    { rewrite (stat_dir_real _ _ (File x)); [done| |done]. by eapply real_snoc. }
    rewrite reverse_snoc.
    cbn [mkdir_all]. rewrite reverse_cons, reverse_involutive, Hs. done.
  - assert (node_at t (ds ++ [c]) = None) as Hn by (unfold node_at; by destruct ds).
    assert (stat_dir t (ds ++ [c]) = Err ErrNotExist) as Hs.
    { unfold stat_dir. rewrite walk_alldir by done. rewrite app_nil_r.
      destruct Hc as (H1 & H2 & H3 & _).
      unfold kernel_links; cbn [walk]; rewrite !bool_decide_eq_false_2 by done; cbn [orb].
      by rewrite reverse_cons, reverse_involutive, Hn. }
    assert (mkdir_all t (reverse ds) = (t, None)) as Hm.
    { assert (stat_dir t ds = Ret true) as Hsd.
      { rewrite (stat_dir_real _ _ Dir); [done|by apply alldir_real|]. destruct Hd as [_ Hd]. by apply Hd. }
      destruct (reverse ds) as [|d rds] eqn:Hds; cbn [mkdir_all]; rewrite <-Hds, reverse_involutive, Hsd; done. }
    rewrite reverse_snoc.
    cbn [mkdir_all]. rewrite reverse_cons, reverse_involutive, Hs, Hm, create_at_alldir by done.
    by rewrite Hx.
Qed.
End Resolution.
