(* ===== verification/Recording.v ===== *)
(** * Package [recording]: asciinema casts and the local sink

    [internal/proxyd/recording/recording.go] and [sink.go].  A recorder writes
    a header line and one line per event to a writer; [LocalDirSink] creates
    the file it writes to, under <root>/<date>/.  Time is an integer of
    nanoseconds since the epoch; [None] is the zero [time.Time]. *)

From Stdlib Require Import ZArith Lia Ascii.
From Stdlib Require Import Floats.SpecFloat.
From stdpp Require Import prelude strings pretty gmap list.
From S2P Require Import Prelude GoStrings GoTime Json GoCalendar GoOs.

Local Open Scope Z_scope.
Local Open Scope go_scope.

(** ** Binary64 arithmetic of [round6] *)

(** [int64(v*1e6 + 0.5)]: [round6] is this integer over 1e6. *)
Definition round6_micros (v : spec_float) : Z :=
  int_of_f64 (f64_add (f64_mul v (f64_of_Z 1000000)) (f64_div (f64_of_Z 1) (f64_of_Z 2))).

(** The shortest decimal of the binary64 number k/10^6, for 0 <= k < 2^53: the
    digits of k with the point six from the right, trailing zeros dropped. *)
Definition format_micros (k : Z) : list ascii :=
  let int := chars (pretty (Z.to_N (k / 1000000))) in
  let frac := trim_zeros (appendInt (k mod 1000000) 6) in
  match frac with [] => int | _ => int ++ "."%char :: frac end.

Definition round6 (v : spec_float) : json := JRaw (format_micros (round6_micros v)).

(** ** Recorder *)

(** A destination with room for a number of bytes; [None] is no limit. *)
Record Writer := { w_bytes : list ascii; w_room : option nat }.
Definition Write (w : Writer) (b : list ascii) : Writer * bool :=
  match w_room w with
  | None => ({| w_bytes := w_bytes w ++ b; w_room := None |}, true)
  | Some n =>
      ({| w_bytes := w_bytes w ++ take n b; w_room := Some (n - length b)%nat |},
       bool_decide (length b ≤ n)%nat)
  end.

Inductive EventType := EventOutput | EventResize.
Definition event_code (k : EventType) : list ascii :=
  match k with EventOutput => ["o"%char] | EventResize => ["r"%char] end.

Record Header := { Version : Z; Width : Z; Height : Z; Timestamp : Z; Title : string }.

(** [omitempty] on the timestamp and the title. *)
Definition header_json (h : Header) : json :=
  JObject (("version", JInt (Version h)) :: ("width", JInt (Width h)) ::
           ("height", JInt (Height h)) ::
           (if Timestamp h =? 0 then [] else [("timestamp", JInt (Timestamp h))]) ++
           (if bool_decide (Title h = "") then [] else [("title", JString (chars (Title h)))])).

Record Recorder := { header : Header; started : Z; encoded : Writer; closed : bool }.

Inductive RecError := DestRequired | InvalidDimensions (w h : Z) | WriteHeader.

Definition newline : list ascii := [byte_of 10].

Definition writeHeader (h : Header) (w : Writer) : Writer * bool :=
  let '(w, ok) := Write w (Marshal (header_json h)) in
  if ok then Write w newline else (w, false).

(** [New]; [dest] is [None] for a nil writer. *)
Definition New (dest : option Writer) (width height : Z) (title : string) (start : Z)
    : outcome RecError Recorder :=
  match dest with
  | None => Err DestRequired
  | Some w =>
      require negb ((width <=? 0) || (height <=? 0)) else InvalidDimensions width height;;
      let h := {| Version := 2; Width := width; Height := height;
                  Timestamp := start / second; Title := title |} in
      let '(w, ok) := writeHeader h w in
      require ok else WriteHeader;;
      Ret {| header := h; started := start; encoded := w; closed := false |}
  end.

(** What the writer holds once [New] returned, with the header or without. *)
Definition New_written (w : Writer) (width height : Z) (title : string) (start : Z) : Writer :=
  if (width <=? 0) || (height <=? 0) then w
  else (writeHeader {| Version := 2; Width := width; Height := height; Timestamp := start / second;
                       Title := title |} w).1.

Lemma New_Ret_written w width height title start r :
  New (Some w) width height title start = Ret r → encoded r = New_written w width height title start.
Proof.
  unfold New, New_written. destruct (_ || _); [done|]. cbn [negb guard_else obind].
  destruct (writeHeader _ w) as [w' [|]]; [|done]. by intros [= <-].
Qed.

Definition event_line (start now : Z) (kind : EventType) (payload : list ascii) : list ascii :=
  let elapsed := Z.max 0 (now - start) in
  Marshal (JArray [round6 (Seconds elapsed); JString (event_code kind); JString payload]).

Definition writeEvent (now : Z) (kind : EventType) (payload : list ascii) (r : Recorder) : Recorder :=
  if closed r then r
  else
    let '(w, ok) := Write (encoded r) (event_line (started r) now kind payload) in
    let '(w, _) := if ok then Write w newline else (w, false) in
    {| header := header r; started := started r; encoded := w; closed := false |}.

Definition Output (now : Z) (p : list ascii) (r : Recorder) : Recorder :=
  if bool_decide (length p = 0%nat) then r else writeEvent now EventOutput p r.

Definition resize_payload (width height : Z) : list ascii :=
  chars (pretty width) ++ "x"%char :: chars (pretty height).
Definition Resize (now width height : Z) (r : Recorder) : Recorder :=
  if (width <=? 0) || (height <=? 0) then r
  else writeEvent now EventResize (resize_payload width height) r.

Definition Close (r : Recorder) : Recorder :=
  {| header := header r; started := started r; encoded := encoded r; closed := true |}.

(** ** The local sink *)
Record CastMeta := { SessionID : string; User : string; Target : string; Started : option Z }.

Inductive SinkError :=
  | RootRequired | SessionIDRequired | MkdirFailed (dir : string) (e : os_error)
  | CreateFailed (path : string) (e : os_error).

Definition path_parts (p : string) : list string := filter (.≠ "") (Split p "/").

Definition NewLocalDirSink (cwd : string) (t : fs) (root : string)
    : fs * outcome SinkError string :=
  if bool_decide (root = "") then (t, Err RootRequired)
  else let abs := Abs cwd root in
       match mkdir_all t (reverse (path_parts abs)) with
       | (t, Some e) => (t, Err (MkdirFailed abs e))
       | (t, None) => (t, Ret abs)
       end.

Definition keep_rune (r : Z) : bool :=
  ((97 <=? r) && (r <=? 122)) || ((65 <=? r) && (r <=? 90)) || ((48 <=? r) && (r <=? 57))
  || (r =? 45) || (r =? 95).

Definition sanitizeFilename (id : string) : string :=
  let out := (λ '(r, _), byte_of (if keep_rune r then r else 95)) <$> decode (chars id) in
  if bool_decide (out = []) then "unnamed" else of_chars out.

(** [root] is the sink's field, [now] the clock.  The call returns a writer and
    a location; the writer stands for the file it was opened on. *)
Definition OpenCast (root : string) (now : Z) (t : fs) (meta : CastMeta)
    : fs * outcome SinkError (list string * string) :=
  if bool_decide (SessionID meta = "") then (t, Err SessionIDRequired)
  else
    let start := default now (Started meta) in
    let day := format_day start in
    let dir := PathJoin [root; day] in
    match mkdir_all t (reverse (path_parts dir)) with
    | (t, Some e) => (t, Err (MkdirFailed dir e))
    | (t, None) =>
        let path := PathJoin [dir; sanitizeFilename (SessionID meta) +:+ ".cast"] in
        match create_at t (path_parts path) (File []) with
        | (t, Ret file) => (t, Ret (file, path))
        | (t, Err e) => (t, Err (CreateFailed path e))
        | (t, Panic) => (t, Panic)
        end
    end.

(** ** Names and dates *)
Section Names.
Definition name_byte (c : ascii) : Prop := keep_rune (byte_val c) = true.

Lemma sanitizeFilename_bytes id : Forall name_byte (chars (sanitizeFilename id)) ∧ sanitizeFilename id ≠ "".
Proof.
  unfold sanitizeFilename. case_bool_decide as He; [split; [by repeat constructor|done]|].
  split; [|intros Hn; apply chars_nil in Hn; by rewrite chars_of_chars in Hn].
  rewrite chars_of_chars. apply Forall_fmap, Forall_forall. intros [r b] _. unfold compose, name_byte.
  destruct (keep_rune r) eqn:Hr; [|by vm_compute]. rewrite byte_val_of; [done|].
  unfold keep_rune in Hr. lia.
Qed.

(** Ids made of the kept characters are file names already. *)
Lemma sanitizeFilename_id id : id ≠ "" → Forall name_byte (chars id) → sanitizeFilename id = id.
Proof.
  intros Hne Hall. unfold sanitizeFilename. rewrite decode_ascii.
  2: { eapply Forall_impl; [done|]. intros c Hc. unfold name_byte, keep_rune, RuneSelf in *. lia. }
  rewrite <-list_fmap_compose.
  assert (((λ '(r, _), byte_of (if keep_rune r then r else 95)) ∘ (λ x, (byte_val x, [x]))) <$> chars id
    = chars id) as ->.
  { clear Hne. induction Hall as [|c l Hc _ IH]; [done|]. cbn in *.
    unfold name_byte in Hc. rewrite Hc, byte_of_val. by f_equal. }
  rewrite bool_decide_eq_false_2; [apply of_chars_chars|]. by rewrite chars_nil.
Qed.

Lemma plain_intro (l : list ascii) :
  Forall (λ c, byte_val c ≠ 47) l → (∃ c, c ∈ l ∧ byte_val c ≠ 46) → plain (of_chars l).
Proof.
  intros Hall (c & Hc & Hd). assert (∀ s, of_chars l = s → c ∈ chars s) as H.
  { intros s <-. by rewrite chars_of_chars. }
  split; [intros He; specialize (H _ He); set_solver|].
  split; [intros He; specialize (H _ He); apply list_elem_of_singleton in H as ->; by vm_compute in Hd|].
  split.
  - intros He; specialize (H _ He). cbn in H.
    apply elem_of_cons in H as [->|H]; [by vm_compute in Hd|].
    apply list_elem_of_singleton in H as ->. by vm_compute in Hd.
  - apply contains_byte_false. rewrite chars_of_chars. intros Hin.
    rewrite Forall_forall in Hall. specialize (Hall _ Hin). by vm_compute in Hall.
Qed.

Lemma cast_name_plain id : plain (sanitizeFilename id +:+ ".cast").
Proof.
  rewrite <-(of_chars_chars (_ +:+ _)). apply plain_intro; rewrite chars_app.
  - apply Forall_app. split; [|by repeat constructor].
    destruct (sanitizeFilename_bytes id) as [H _]. eapply Forall_impl; [done|].
    intros c Hc. unfold name_byte, keep_rune in Hc. lia.
  - exists "c"%char. split; [|by vm_compute]. set_solver.
Qed.

Lemma appendInt_bytes x w : Forall (λ c, is_digit c ∨ c = "-"%char) (appendInt x w).
Proof.
  unfold appendInt. apply Forall_app; split; [|apply Forall_app; split].
  - case_match; [apply Forall_singleton; by right|constructor].
  - apply Forall_replicate. left. by vm_compute.
  - eapply Forall_impl; [apply pretty_N_digits|by left].
Qed.

Lemma format_day_plain t : plain (format_day t).
Proof.
  unfold format_day. destruct (civil _) as [[y m] d]. apply plain_intro.
  - assert (∀ x w, Forall (λ c, byte_val c ≠ 47) (appendInt x w)) as H.
    { intros x w. eapply Forall_impl; [apply appendInt_bytes|].
      intros c [Hc| ->]; [unfold is_digit in Hc; lia|by vm_compute]. }
    apply Forall_app; split; [apply H|]. constructor; [by vm_compute|].
    apply Forall_app; split; [apply H|]. constructor; [by vm_compute|]. apply H.
  - exists "-"%char. split; [set_solver|by vm_compute].
Qed.
End Names.
#[export] Hint Resolve cast_name_plain format_day_plain : proxy.

(** ** What [OpenCast] does to the file system *)
Section SinkFacts.
Implicit Types (t : fs) (root : list string).

Lemma path_parts_string cs : Forall plain cs → path_parts (path_string cs) = cs.
Proof.
  intros Hall. unfold path_parts. rewrite Split_path_string by done.
  rewrite filter_cons, decide_False by (intros H; by apply H).
  case_bool_decide as Hcs; [by subst|]. clear Hcs.
  induction Hall as [|c cs (Hc & _) _ IH]; [done|]. by rewrite filter_cons, decide_True, IH.
Qed.

(** The file a recording goes to. *)
Definition cast_path root (now : Z) (meta : CastMeta) : list string :=
  root ++ [format_day (default now (Started meta)); sanitizeFilename (SessionID meta) +:+ ".cast"].

Lemma cast_path_plain root now meta : Forall plain root → Forall plain (cast_path root now meta).
Proof.
  intros. apply Forall_app. split; [done|]. constructor; [apply format_day_plain|].
  constructor; [apply cast_name_plain|constructor].
Qed.

(** [OpenCast] unfolded for a root that is a real directory and a day entry
    that is not a link. *)
Lemma OpenCast_eq t root now meta :
  let day := root ++ [format_day (default now (Started meta))] in
  let p := cast_path root now meta in
  alldir t root → SessionID meta ≠ "" → (∀ s, t !! day ≠ Some (Symlink s)) →
  OpenCast (path_string root) now t meta =
    match t !! day with
    | Some (File _) => (t, Err (MkdirFailed (path_string day) ErrNotDir))
    | Some _ =>
        match t !! p with
        | Some _ => (t, Err (CreateFailed (path_string p) ErrExist))
        | None => (<[p := File []]> t, Ret (p, path_string p))
        end
    | None =>
        match <[day := Dir]> t !! p with
        | Some _ => (<[day := Dir]> t, Err (CreateFailed (path_string p) ErrExist))
        | None => (<[p := File []]> (<[day := Dir]> t), Ret (p, path_string p))
        end
    end.
Proof.
  intros day p Hd Hid Hns. pose proof Hd as [Hpl _]. unfold OpenCast.
  rewrite bool_decide_eq_false_2 by done.
  set (d := format_day (default now (Started meta))) in *.
  set (n := sanitizeFilename (SessionID meta) +:+ ".cast").
  assert (plain d) as Hpd by apply format_day_plain.
  assert (plain n) as Hpn by apply cast_name_plain.
  assert (Forall plain day) as Hday by (apply Forall_app; auto).
  assert (p = day ++ [n]) as Hp by (unfold p, cast_path, day; by rewrite <-(assoc_L (++))).
  rewrite (PathJoin_path_string root d) by done. fold day.
  rewrite (PathJoin_path_string day n) by done. rewrite <-Hp.
  rewrite !path_parts_string by (done || by apply cast_path_plain).
  unfold day at 1. rewrite mkdir_all_snoc by done. fold day.
  destruct (t !! day) as [[|x|s]|] eqn:Hx; [| done |by destruct (Hns s)|].
  - assert (alldir t day) as Hdd.
    { apply alldir_snoc; [done..|]. unfold node_at. by destruct root. }
    rewrite Hp, create_at_alldir by done. by destruct (t !! (day ++ [n])).
  - assert (alldir (<[day:=Dir]> t) day) as Hdd.
    { apply alldir_snoc; [|done|].
      - eapply alldir_sub; [|done]. by apply insert_subseteq.
      - unfold node_at, day. destruct root; cbn [app]; by rewrite lookup_insert_eq. }
    rewrite Hp, create_at_alldir by done. by destruct (<[day:=Dir]> t !! (day ++ [n])).
Qed.

Lemma OpenCast_sub (dir : string) now t meta : t ⊆ (OpenCast dir now t meta).1.
Proof.
  unfold OpenCast. case_bool_decide; [done|].
  pose proof (mkdir_all_sub t (reverse (path_parts
    (PathJoin [dir; format_day (default now (Started meta))])))) as H1.
  destruct (mkdir_all t _) as [t1 [e|]]; cbn [fst] in *; [done|].
  pose proof (create_at_sub t1 (path_parts (PathJoin [PathJoin [dir; format_day (default now (Started meta))];
    sanitizeFilename (SessionID meta) +:+ ".cast"])) (File [])) as H2.
  destruct (create_at t1 _ _) as [t2 [| |]]; cbn [fst] in *; by etrans.
Qed.
End SinkFacts.

(** ** A recorder's life *)
Inductive rec_op :=
  | OpOutput (now : Z) (p : list ascii)
  | OpResize (now w h : Z)
  | OpClose.

Definition rec_step (r : Recorder) (o : rec_op) : Recorder :=
  match o with
  | OpOutput now p => Output now p r
  | OpResize now w h => Resize now w h r
  | OpClose => Close r
  end.
Definition rec_run (r : Recorder) (ops : list rec_op) : Recorder := fold_left rec_step ops r.

(** The events a sequence of calls records: what precedes the first [Close],
    without empty outputs and degenerate sizes. *)
Fixpoint recorded (ops : list rec_op) : list (Z * EventType * list ascii) :=
  match ops with
  | [] => []
  | OpOutput now p :: rest =>
      (if bool_decide (p = []) then [] else [(now, EventOutput, p)]) ++ recorded rest
  | OpResize now w h :: rest =>
      (if (w <=? 0) || (h <=? 0) then [] else [(now, EventResize, resize_payload w h)]) ++ recorded rest
  | OpClose :: _ => []
  end.

(** A reader of event lines, as a player has one: the event code and the
    decoded payload. *)
Definition read_event (l : list ascii) : option (list ascii * list ascii) :=
  i ← index_of "," l;
  match drop (S i) l with
  | q1 :: k :: q2 :: c :: q3 :: rest =>
      if bool_decide (q1 = quote ∧ q2 = quote ∧ c = ","%char ∧ q3 = quote)
      then p ← unescape (take (length rest - 2) rest); Some ([k], p) else None
  | _ => None
  end.

(** The lines of a file whose last line is terminated. *)
Definition file_lines (l : list ascii) : list (list ascii) := split_chars (byte_of 10) l.

Section CastFacts.
Lemma newline_not_plain : ¬ plain_byte (byte_of 10).
Proof. by vm_compute. Qed.

Lemma plain_no_newline l : Forall plain_byte l → byte_of 10 ∉ l.
Proof. intros H Hin. rewrite Forall_forall in H. by apply newline_not_plain, H. Qed.

Lemma digit_or_dash_plain l : Forall (λ c, is_digit c ∨ c = "-"%char) l → Forall plain_byte l.
Proof.
  intros H. eapply Forall_impl; [done|]. intros c [Hc| ->]; [|by vm_compute].
  unfold is_digit, plain_byte in *. lia.
Qed.

(** The text of a time: digits and a point. *)
Definition time_byte (c : ascii) : Prop := is_digit c ∨ c = "-"%char ∨ c = "."%char.

Lemma format_micros_bytes k : Forall time_byte (format_micros k).
Proof.
  assert (Forall time_byte (chars (pretty (Z.to_N (k / 1000000))))) as Hint.
  { eapply Forall_impl; [apply pretty_N_digits|by left]. }
  unfold format_micros.
  assert (Forall time_byte (trim_zeros (appendInt (k mod 1000000) 6))) as Hf.
  { unfold trim_zeros, drop_while_end. apply Forall_reverse, drop_while_Forall, Forall_reverse.
    eapply Forall_impl; [apply appendInt_bytes|]. unfold time_byte. tauto. }
  destruct (trim_zeros _); [done|]. apply Forall_app. split; [done|].
  constructor; [by right; right|done].
Qed.

Lemma time_byte_plain l : Forall time_byte l → Forall plain_byte l ∧ ","%char ∉ l.
Proof.
  intros H. split.
  - eapply Forall_impl; [done|]. intros c [Hc|[->| ->]]; [|by vm_compute..].
    unfold is_digit, plain_byte in *. lia.
  - intros Hin. rewrite Forall_forall in H. destruct (H _ Hin) as [Hc|[|]]; [|done..].
    destruct Hc as [Hc _]. by vm_compute in Hc.
Qed.

(** The shape of an event line. *)
Lemma event_line_eq start now k p :
  ∃ t, Forall time_byte t ∧
    event_line start now k p =
      "["%char :: t ++ ","%char :: quote :: event_code k ++ quote :: ","%char ::
      quote :: escape p ++ [quote; "]"%char].
Proof.
  unfold event_line, round6. eexists. split; [apply format_micros_bytes|].
  cbn [Marshal map intersperse]. unfold comma, MarshalString. cbn [app]. f_equal.
  rewrite <-!(assoc_L (++)). f_equal. cbn [app]. do 2 f_equal.
  assert (escape (event_code k) = event_code k) as -> by (by destruct k).
  rewrite <-(assoc_L (++)). f_equal. cbn [app]. do 3 f_equal. by rewrite <-(assoc_L (++)).
Qed.

Lemma event_code_plain k : Forall plain_byte (event_code k).
Proof. destruct k; by repeat constructor. Qed.

Lemma event_line_plain start now k p : Forall plain_byte (event_line start now k p).
Proof.
  destruct (event_line_eq start now k p) as (t & Ht%time_byte_plain & ->). destruct Ht as [Ht _].
  pose proof (event_code_plain k). pose proof (escape_plain p).
  repeat first [apply Forall_app; split | apply Forall_cons; split | apply Forall_nil; exact I];
    try done; by vm_compute.
Qed.

Lemma read_event_line start now k p :
  read_event (event_line start now k p) = Some (event_code k, sanitize p).
Proof.
  destruct (event_line_eq start now k p) as (t & Ht%time_byte_plain & ->). destruct Ht as [_ Ht].
  unfold read_event.
  change ("["%char :: t ++ ?x) with (("["%char :: t) ++ x).
  rewrite index_of_app by set_solver. cbn [mbind option_bind]. rewrite drop_S_app.
  assert (∃ c, event_code k = [c]) as [c ->] by (destruct k; eauto). cbn [app].
  rewrite bool_decide_eq_true_2 by done. rewrite length_app. cbn [length].
  replace (length (escape p) + 2 - 2)%nat with (length (escape p)) by lia.
  by rewrite take_app_length, unescape_escape.
Qed.

Lemma Marshal_int_plain z : Forall plain_byte (Marshal (JInt z)).
Proof. apply digit_or_dash_plain, pretty_Z_bytes. Qed.

Lemma intersperse_plain ls : Forall (Forall plain_byte) ls → Forall plain_byte (intersperse ls).
Proof.
  induction 1 as [|l [|k ls] Hl Hls IH]; [constructor|done|].
  change (intersperse (l :: k :: ls)) with (l ++ comma ++ intersperse (k :: ls)).
  apply Forall_app; split; [done|]. apply Forall_app; split; [by repeat constructor|done].
Qed.

Lemma header_plain h : Forall plain_byte (Marshal (header_json h)).
Proof.
  assert (∀ k v, Forall plain_byte (Marshal v) →
    Forall plain_byte (MarshalString (chars k) ++ ":"%char :: Marshal v)) as Hf.
  { intros k v Hv. apply Forall_app; split; [apply MarshalString_plain|].
    constructor; [by vm_compute|done]. }
  unfold header_json. cbn [Marshal]. constructor; [by vm_compute|].
  apply Forall_app; split; [|by repeat constructor]. apply intersperse_plain.
  rewrite !map_cons, map_app. do 3 (constructor; [apply Hf, Marshal_int_plain|]).
  apply Forall_app; split; case_match; try apply Forall_nil_2; apply Forall_singleton, Hf;
    [apply Marshal_int_plain|apply MarshalString_plain].
Qed.

Definition unlimited (r : Recorder) : Prop := w_room (encoded r) = None.

Lemma writeEvent_bytes r now k p :
  unlimited r → closed r = false →
  w_bytes (encoded (writeEvent now k p r)) =
    w_bytes (encoded r) ++ event_line (started r) now k p ++ newline ∧
  unlimited (writeEvent now k p r) ∧ closed (writeEvent now k p r) = false ∧
  started (writeEvent now k p r) = started r.
Proof.
  unfold unlimited. intros Hu Hc. unfold writeEvent, Write. rewrite Hc, Hu. cbn.
  by rewrite <-(assoc_L (++)).
Qed.

Lemma writeEvent_closed r now k p : closed r = true → writeEvent now k p r = r.
Proof. intros Hc. unfold writeEvent. by rewrite Hc. Qed.

Lemma rec_run_closed ops r : closed r = true → w_bytes (encoded (rec_run r ops)) = w_bytes (encoded r).
Proof.
  revert r. induction ops as [|o ops IH]; intros r Hc; [done|]. unfold rec_run in *. cbn [fold_left].
  rewrite IH.
  - destruct o as [now p|now w h|]; cbn [rec_step]; [unfold Output|unfold Resize|done];
      case_match; try done; by rewrite writeEvent_closed.
  - destruct o as [now p|now w h|]; cbn [rec_step]; [unfold Output|unfold Resize|done];
      case_match; try done; by rewrite writeEvent_closed.
Qed.

#[local] Arguments event_line : simpl never.

Lemma rec_run_bytes ops r :
  unlimited r → closed r = false →
  w_bytes (encoded (rec_run r ops)) =
    w_bytes (encoded r) ++
    mjoin ((λ '(now, k, p), event_line (started r) now k p ++ newline) <$> recorded ops).
Proof.
  revert r. induction ops as [|o ops IH]; intros r Hu Hc; [by rewrite app_nil_r|].
  change (rec_run r (o :: ops)) with (rec_run (rec_step r o) ops).
  destruct o as [now p|now w h|]; cbn [rec_step recorded].
  - unfold Output. destruct p as [|c p]; [by apply IH|].
    rewrite !bool_decide_eq_false_2 by done.
    destruct (writeEvent_bytes r now EventOutput (c :: p) Hu Hc) as (Hb & Hu' & Hc' & Hs).
    rewrite IH, Hb, Hs by done. cbn [app]. rewrite mjoin_fmap_cons. by rewrite <-!(assoc_L (++)).
  - unfold Resize. destruct (_ || _); [by apply IH|].
    destruct (writeEvent_bytes r now EventResize (resize_payload w h) Hu Hc) as (Hb & Hu' & Hc' & Hs).
    rewrite IH, Hb, Hs by done. cbn [app]. rewrite mjoin_fmap_cons. by rewrite <-!(assoc_L (++)).
  - rewrite rec_run_closed by done. cbn. by rewrite app_nil_r.
Qed.

Lemma file_lines_cons l rest :
  Forall plain_byte l → file_lines (l ++ newline ++ rest) = l :: file_lines rest.
Proof. intros Hl. apply split_chars_app. by apply plain_no_newline. Qed.

Lemma New_unlimited w h title start r :
  New (Some {| w_bytes := []; w_room := None |}) w h title start = Ret r →
  unlimited r ∧ closed r = false ∧ started r = start ∧
  w_bytes (encoded r) = Marshal (header_json (header r)) ++ newline ∧
  header r = {| Version := 2; Width := w; Height := h; Timestamp := start / second; Title := title |}.
Proof.
  unfold New. intros H. inv_outcome. cbv zeta in H. unfold writeHeader, Write in H. cbn [w_room w_bytes] in H.
  inv_outcome. done.
Qed.
End CastFacts.

Lemma OpenCast_spec (t t' : fs) (root : list string) (now : Z) (meta : CastMeta)
    (file : list string) (loc : string) :
  alldir t root →
  (∀ s, t !! (root ++ [format_day (default now (Started meta))]) ≠ Some (Symlink s)) →
  OpenCast (path_string root) now t meta = (t', Ret (file, loc)) →
  let day := root ++ [format_day (default now (Started meta))] in
  let p := cast_path root now meta in
  file = p ∧ loc = path_string p ∧ Forall plain p ∧ t !! p = None ∧ t' !! p = Some (File []) ∧ alldir t' day ∧
  t ⊆ t' ∧ ∀ q, q ≠ p → q ≠ day → t' !! q = t !! q.
Proof.
  intros Hd Hns HO day p. pose proof (OpenCast_sub (path_string root) now t meta) as Hsub.
  rewrite HO in Hsub. cbn in Hsub. destruct (decide (SessionID meta = "")) as [Hid|Hid].
  { unfold OpenCast in HO. by rewrite bool_decide_eq_true_2 in HO. }
  rewrite OpenCast_eq in HO by done. fold day p in HO.
  assert (p ≠ day) as Hne.
  { unfold p, day, cast_path. intros Heq. apply app_inv_head in Heq. done. }
  assert (Forall plain p) as Hp by (apply cast_path_plain; by destruct Hd).
  destruct (t !! day) as [n|] eqn:Hx.
  - assert (n = Dir) as -> by (destruct n; [done|done|by destruct (Hns target)]).
    destruct (t !! p) eqn:Hy; [done|]. injection HO as <- <- <-.
    split; [done|]. split; [done|]. split; [done|]. split; [done|]. split; [by rewrite lookup_insert_eq|]. split.
    + eapply alldir_sub; [done|]. apply alldir_snoc; [done|apply format_day_plain|].
      unfold node_at. by destruct root.
    + split; [done|]. intros q ? _. by rewrite lookup_insert_ne.
  - rewrite (lookup_insert_ne t day p) in HO by done.
    destruct (t !! p) eqn:Hy; [done|]. injection HO as <- <- <-.
    split; [done|]. split; [done|]. split; [done|]. split; [done|]. split; [by rewrite lookup_insert_eq|]. split.
    + apply alldir_snoc; [by eapply alldir_sub|apply format_day_plain|].
      unfold node_at. change (root ++ [format_day (default now (Started meta))]) with day.
      destruct day eqn:Hday; [by destruct root|]. rewrite <-Hday in *.
      rewrite lookup_insert_ne by congruence. apply lookup_insert_eq.
    + split; [done|]. intros q ??. by rewrite !lookup_insert_ne by congruence.
Qed.

(** ** Properties *)

(** C17: a cast can be read back.  For every sequence of outputs, resizes and
    closes on a recorder whose writes succeed, the file is the header line
    followed by exactly one line per event recorded before the first close, in
    order, every line is terminated, and decoding a line gives the event code
    and the payload with invalid UTF-8 replaced byte by byte, hence the very
    bytes of the terminal when the chunk is valid UTF-8. *)
Theorem cast_roundtrip (w h : Z) (title : string) (start : Z) (r : Recorder) (ops : list rec_op) :
  New (Some {| w_bytes := []; w_room := None |}) w h title start = Ret r →
  ∃ lines,
    file_lines (w_bytes (encoded (rec_run r ops))) = Marshal (header_json (header r)) :: lines ++ [[]] ∧
    Forall2 (λ l '(_, k, p), read_event l = Some (event_code k, sanitize p) ∧
                             (valid_utf8 p → sanitize p = p)) lines (recorded ops).
Proof.
  intros HN. destruct (New_unlimited _ _ _ _ _ HN) as (Hu & Hc & _ & Hb & _).
  exists ((λ '(now, k, p), event_line (started r) now k p) <$> recorded ops). split.
  - rewrite rec_run_bytes, Hb, <-(assoc_L (++)) by done.
    rewrite file_lines_cons by apply header_plain. f_equal.
    induction (recorded ops) as [|[[now k] p] es IH]; [done|]. rewrite mjoin_fmap_cons, <-!(assoc_L (++)).
    rewrite file_lines_cons by apply event_line_plain. rewrite fmap_cons. cbn [app]. by f_equal.
  - induction (recorded ops) as [|[[now k] p] es IH]; constructor; [|done].
    split; [apply read_event_line|apply sanitize_valid].
Qed.

(** C16: recordings stay inside the root and never overwrite.  For every
    session id, however hostile, a successful [OpenCast] under a real root
    whose day entry is no link creates one new empty file named
    <root>/<day>/<sanitised id>.cast and at most the day directory; the
    returned location names it, and every entry that existed is unchanged. *)
Theorem opencast_contained (t t' : fs) (root : list string) (now : Z) (meta : CastMeta)
    (file : list string) (loc : string) :
  alldir t root →
  (∀ s, t !! (root ++ [format_day (default now (Started meta))]) ≠ Some (Symlink s)) →
  OpenCast (path_string root) now t meta = (t', Ret (file, loc)) →
  let day := root ++ [format_day (default now (Started meta))] in
  let p := cast_path root now meta in
  file = p ∧ loc = path_string p ∧ Forall plain p ∧ t !! p = None ∧ t' !! p = Some (File []) ∧ alldir t' day ∧
  t ⊆ t' ∧ ∀ q, q ≠ p → q ≠ day → t' !! q = t !! q.
Proof. apply OpenCast_spec. Qed.

(** ** Witnesses *)
Definition root1 : list string := ["var"; "casts"].
Definition fs1 : fs := {[ ["var"] := Dir; root1 := Dir ]}.
Definition meta1 : CastMeta :=
  {| SessionID := "../../etc/x"; User := "user:alice"; Target := "db-1:22"; Started := Some 1751328000000000000 |}.

Lemma root1_alldir : alldir fs1 root1.
Proof.
  split; [apply (bool_decide_unpack _); vm_compute; exact I|].
  intros ps Hps. destruct ps as [|a [|b [|c ps]]]; [done| | |].
  - destruct Hps as [k Hk]. injection Hk as <- _. vm_compute. reflexivity.
  - destruct Hps as [k Hk]. injection Hk as <- <- _. vm_compute. reflexivity.
  - destruct Hps as [k Hk]. by injection Hk.
Qed.

Definition loc1 : string := "/var/casts/2025-07-01/______etc_x.cast".
Lemma opencast_loc1 : (OpenCast (path_string root1) 0 fs1 meta1).2 = Ret (cast_path root1 0 meta1, loc1).
Proof. vm_compute. reflexivity. Qed.

Lemma opencast_contained_witness :
  loc1 = path_string (cast_path root1 0 meta1) ∧ Forall plain (cast_path root1 0 meta1).
Proof.
  destruct (opencast_contained fs1 (OpenCast (path_string root1) 0 fs1 meta1).1 root1 0 meta1
    (cast_path root1 0 meta1) loc1 root1_alldir) as (_ & Hl & Hp & _).
  - intros s. vm_compute. discriminate.
  - apply pair_snd, opencast_loc1.
  - split; [exact Hl|exact Hp].
Defined.

Definition rec1 : Recorder :=
  {| header := {| Version := 2; Width := 80; Height := 24; Timestamp := 7; Title := "a" |};
     started := 7000000000;
     encoded := {| w_bytes := Marshal (header_json {| Version := 2; Width := 80; Height := 24;
                     Timestamp := 7; Title := "a" |}) ++ newline; w_room := None |};
     closed := false |}.

Lemma cast_roundtrip_witness :
  ∃ l1 l2,
    file_lines (w_bytes (encoded (rec_run rec1
      [OpOutput 8000000000 (chars "ls"); OpResize 9000000000 120 40; OpClose; OpOutput 0 (chars "x")])))
      = Marshal (header_json (header rec1)) :: [l1; l2] ++ [[]] ∧
    read_event l1 = Some (chars "o", chars "ls").
Proof.
  destruct (cast_roundtrip 80 24 "a" 7000000000 rec1
    [OpOutput 8000000000 (chars "ls"); OpResize 9000000000 120 40; OpClose; OpOutput 0 (chars "x")]
    ltac:(vm_compute; reflexivity)) as (lines & Hl & Hf).
  inversion Hf as [|l1 e1 ls1 es1 H1 Hf1]; subst. inversion Hf1 as [|l2 e2 ls2 es2 H2 Hf2]; subst.
  inversion Hf2; subst. exists l1, l2. split; [exact Hl|]. exact (proj1 H1).
Defined.
