(* ===== verification/Target.v ===== *)
(** * Package [session]: the target of a session

    [internal/proxyd/session/route.go] and [dial.go]: the username convention
    "<remote-user>@<target-host>" and the dial of the target's sshd.  The
    direct dialer and the SSH client handshake are library calls; what they
    return is a parameter of the call. *)

From Stdlib Require Import ZArith Lia Ascii.
From stdpp Require Import prelude strings gmap list.
From S2P Require Import Prelude GoStrings NetAddr.

Local Open Scope go_scope.

Inductive TargetError := NoAt | EmptyUser | EmptyHost.

Definition ParseTarget (sshUser : string) : outcome TargetError (string * string) :=
  match LastIndexByte sshUser "@" with
  | None => Err NoAt
  | Some i =>
      let user := str_take i sshUser in
      let host := str_drop (S i) sshUser in
      require negb (bool_decide (user = "")) else EmptyUser;;
      require negb (bool_decide (host = "")) else EmptyHost;;
      Ret (user, host)
  end.

(** ** Dialling *)
Definition DefaultTargetPort : string := "22".
Definition DefaultDialTimeout : Z := 15 * 10^9.

Inductive DialError :=
  | AddressRequired | UserRequired | SignerRequired | HostKeyCallbackRequired
  | DialFailed (addr : string) (cause : string)
  | HandshakeFailed (addr : string) (cause : string).

Section Dial.
Context {conn client signer hostkey : Type}.

(** [Signer], [HostKeyCallback] and [Transport] may be nil.  A transport is
    given the address and the timeout of its context. *)
Record DialConfig := {
  Address : string;
  User : string;
  Signer : option signer;
  HostKeyCallback : option hostkey;
  Timeout : Z;
  Transport : option (string → outcome string conn)
}.

(** What the call did to the network. *)
Inductive dial_event :=
  | Dialed (addr : string)
  | ClosedConn (c : conn).

(** [net.Dialer.DialContext] and [gossh.NewClientConn]. *)
Context (tcp_dial : Z → string → outcome string conn).
Context (NewClientConn : conn → string → string → signer → hostkey → Z → outcome string client).

Definition dial_addr (addr : string) : string :=
  match SplitHostPort addr with
  | Ret _ => addr
  | _ => JoinHostPort addr DefaultTargetPort
  end.

Definition DialTarget (cfg : DialConfig) : outcome DialError client * list dial_event :=
  if bool_decide (Address cfg = "") then (Err AddressRequired, [])
  else if bool_decide (User cfg = "") then (Err UserRequired, [])
  else match Signer cfg, HostKeyCallback cfg with
  | None, _ => (Err SignerRequired, [])
  | _, None => (Err HostKeyCallbackRequired, [])
  | Some sig, Some hk =>
      let timeout := if (Timeout cfg =? 0)%Z then DefaultDialTimeout else Timeout cfg in
      let addr := dial_addr (Address cfg) in
      let transport := default (tcp_dial timeout) (Transport cfg) in
      match transport addr with
      | Err e => (Err (DialFailed addr e), [Dialed addr])
      | Panic => (Panic, [Dialed addr])
      | Ret c =>
          match NewClientConn c addr (User cfg) sig hk timeout with
          | Ret cl => (Ret cl, [Dialed addr])
          | Err e => (Err (HandshakeFailed addr e), [Dialed addr; ClosedConn c])
          | Panic => (Panic, [Dialed addr])
          end
      end
  end.
End Dial.
Arguments DialConfig : clear implicits.
Arguments dial_event : clear implicits.

(** ** Facts *)
Section Facts.
Lemma chars_take_drop i s :
  chars (str_take i s) = take i (chars s) ∧ chars (str_drop i s) = drop i (chars s).
Proof. unfold str_take, str_drop. by rewrite !chars_of_chars. Qed.

Lemma LastIndexByte_app (u h : string) :
  contains_byte h "@" = false → LastIndexByte (u +:+ "@" +:+ h) "@" = Some (str_len u).
Proof.
  intros Hh. unfold LastIndexByte. rewrite !chars_app.
  apply last_index_of_app. by apply contains_byte_false.
Qed.

Lemma split_at_app (u h : string) :
  str_take (str_len u) (u +:+ "@" +:+ h) = u ∧ str_drop (S (str_len u)) (u +:+ "@" +:+ h) = h.
Proof.
  unfold str_take, str_drop, str_len. rewrite !chars_app.
  change (chars "@" ++ chars h) with ("@"%char :: chars h).
  by rewrite take_app_length, drop_S_app, !of_chars_chars.
Qed.

Lemma ParseTarget_inv s u h :
  ParseTarget s = Ret (u, h) →
  s = u +:+ "@" +:+ h ∧ u ≠ "" ∧ h ≠ "" ∧ contains_byte h "@" = false.
Proof.
  unfold ParseTarget. destruct (LastIndexByte s "@") as [i|] eqn:Hi; [|done].
  intros H. cbv zeta in H. inv_outcome.
  unfold LastIndexByte in Hi. apply last_index_of_Some in Hi as [Heq Hnot].
  destruct (chars_take_drop i s) as [Ht _]. destruct (chars_take_drop (S i) s) as [_ Hd].
  apply negb_true_iff, bool_decide_eq_false in H_m, H_m0.
  split; [|split; [done|split; [done|]]].
  - apply chars_inj. rewrite !chars_app, Ht, Hd. exact Heq.
  - apply contains_byte_false. by rewrite Hd.
Qed.
End Facts.

(** ** Properties *)

(** The username convention is a bijection.  [ParseTarget] returns (u, h)
    exactly on the username u@h with both parts non-empty and no "@" in the
    host: the last "@" separates, so a user part may itself contain "@", and
    every other username is refused. *)
Theorem parse_target_iff (s u h : string) :
  ParseTarget s = Ret (u, h) ↔
  s = u +:+ "@" +:+ h ∧ u ≠ "" ∧ h ≠ "" ∧ contains_byte h "@" = false.
Proof.
  split; [apply ParseTarget_inv|].
  intros (-> & Hu & Hh & Hc). unfold ParseTarget. rewrite LastIndexByte_app by done.
  destruct (split_at_app u h) as [-> ->]. rewrite !bool_decide_eq_false_2 by done. done.
Qed.

(** The address that is dialled.  A target that already splits as
    host:port is dialled as written; any other target without brackets, IPv6
    literals included, is dialled so that it splits back into that very host
    and the default port 22. *)
Theorem dial_addr_spec (a : string) :
  match SplitHostPort a with
  | Ret _ => dial_addr a = a
  | _ => contains_byte a "[" = false → contains_byte a "]" = false →
         SplitHostPort (dial_addr a) = Ret (a, DefaultTargetPort)
  end.
Proof.
  unfold dial_addr. destruct (SplitHostPort a); [done|..];
    intros H1%contains_byte_false H2%contains_byte_false;
    apply SplitHostPort_JoinHostPort; try done; by apply contains_byte_false.
Qed.

(** No connection leaks from a dial.  [DialTarget] refuses incomplete
    configurations before touching the network; otherwise it dials exactly
    once, through the transport when there is one, and the connection is
    closed if and only if the SSH handshake on it fails. *)
Theorem dial_target_conns {conn client signer hostkey : Type}
    (tcp_dial : Z → string → outcome string conn)
    (NewClientConn : conn → string → string → signer → hostkey → Z → outcome string client)
    (cfg : DialConfig conn signer hostkey) :
  match DialTarget tcp_dial NewClientConn cfg with
  | (Ret cl, evs) =>
      Address cfg ≠ "" ∧ User cfg ≠ "" ∧ evs = [Dialed (dial_addr (Address cfg))] ∧
      ∃ c sig hk timeout, Signer cfg = Some sig ∧ HostKeyCallback cfg = Some hk ∧
        default (tcp_dial timeout) (Transport cfg) (dial_addr (Address cfg)) = Ret c ∧
        NewClientConn c (dial_addr (Address cfg)) (User cfg) sig hk timeout = Ret cl
  | (Err (HandshakeFailed addr _), evs) => ∃ c timeout, evs = [Dialed addr; ClosedConn c] ∧
      default (tcp_dial timeout) (Transport cfg) addr = Ret c
  | (Err (DialFailed addr _), evs) => evs = [Dialed addr]
  | (Err _, evs) => evs = []
  | (Panic, _) => True
  end.
Proof.
  unfold DialTarget. case_bool_decide; [done|]. case_bool_decide; [done|].
  destruct (Signer cfg) as [sig|] eqn:Hsig; [|done].
  destruct (HostKeyCallback cfg) as [hk|] eqn:Hhk; [|done]. cbv zeta.
  set (timeout := if (Timeout cfg =? 0)%Z then _ else _).
  destruct (default (tcp_dial timeout) (Transport cfg) (dial_addr (Address cfg))) as [c|e|] eqn:Ht; [|done..].
  destruct (NewClientConn c _ _ sig hk timeout) as [cl|e|] eqn:Hn; [|by eauto|done].
  split; [done|]. split; [done|]. split; [done|]. by exists c, sig, hk, timeout.
Qed.
