(* ===== verification/AuditLog.v ===== *)
(** * Package [audit]: the audit entry

    [internal/audit/audit.go], and the sink as its users see it: appending is
    observational (a failed append is logged and ignored), so what a component
    publishes is the list of entries it appends. *)

From Stdlib Require Import ZArith Lia Ascii.
From stdpp Require Import prelude strings pretty gmap list.
From S2P Require Import Prelude GoStrings GoTime Json GoCalendar JsonDecode JsonRound.

Definition Subject : string := "ssh.audit.events".
Definition StreamName : string := "ssh_audit".
Definition StreamMaxAge : Z := (400 * 24 * 3600 * 10^9)%Z.

Definition ActionSessionOpened : string := "ssh.session.opened".
Definition ActionSessionClosed : string := "ssh.session.closed".
Definition ActionChannelRejected : string := "ssh.channel.rejected".
Definition ActionRecordingComplete : string := "ssh.recording.completed".
Definition ActionPortForwardOpened : string := "ssh.port_forward.opened".
Definition ActionPortForwardClosed : string := "ssh.port_forward.closed".
Definition ActionSubsystemOpened : string := "ssh.subsystem.opened".

(** [Metadata] is JSON text. *)
Record Entry := {
  ID : string;
  Action : string;
  EntrySessionID : string;
  EntryUser : string;
  EntryPrincipals : string;
  EntryTarget : string;
  EntryRemoteUser : string;
  EntryClientIP : string;
  RecordingPath : string;
  EntryReason : string;
  Metadata : list ascii;
  OccurredAt : Z
}.
#[export] Instance Entry_eq_dec : EqDecision Entry.
Proof. solve_decision. Defined.

(** The identifiers and instants a step draws from the outside:
    [uuid.NewString()] and [time.Now()]. *)
Record draw := { uuid : string; now : Z }.

(** ** The message *)

(** The entry by its struct tags. *)
Definition entry_json (e : Entry) : json :=
  JObject ([("id", JString (chars (ID e))); ("action", JString (chars (Action e)))] ++
    omitempty_string "session_id" (EntrySessionID e) ++
    omitempty_string "user" (EntryUser e) ++
    omitempty_string "principals" (EntryPrincipals e) ++
    omitempty_string "target" (EntryTarget e) ++
    omitempty_string "remote_user" (EntryRemoteUser e) ++
    omitempty_string "client_ip" (EntryClientIP e) ++
    omitempty_string "recording_path" (RecordingPath e) ++
    omitempty_string "reason" (EntryReason e) ++
    omitempty_string "metadata" (of_chars (Metadata e)) ++
    [("occurred_at", marshal_time (OccurredAt e))]).

(** The bytes the JSON sink publishes; a time outside the years 0 to 9999 does
    not marshal. *)
Definition message (e : Entry) : option (list ascii) :=
  if bool_decide (rfc3339_range (OccurredAt e)) then Some (Marshal (entry_json e)) else None.

Lemma entry_json_ok e : json_ok 0 (entry_json e) = true.
Proof.
  cbn. apply forallb_Forall. unfold omitempty_string, omitempty.
  repeat (apply Forall_cons_2; [done|]). repeat apply Forall_app_2;
    repeat match goal with |- context [if ?b then [] else _] => destruct b end; by repeat constructor.
Qed.

Lemma message_inv e data : message e = Some data → rfc3339_range (OccurredAt e) ∧ data = Marshal (entry_json e).
Proof. unfold message. case_bool_decide; [|done]. by intros [= <-]. Qed.
