(* ===== verification/Channel.v ===== *)
(** * Package [session]: channel recording, port forwarding, subsystems

    [internal/proxyd/session/recorder.go], [portforward.go], [subsystem.go] and
    the request and channel handlers of [proxy.go].  The recording sink is
    used through the interface [CastSink] below; [LocalDirSink] and [NopSink]
    of [Recording] are its instances. *)

From Stdlib Require Import ZArith Lia Ascii.
From stdpp Require Import prelude strings pretty gmap list.
From S2P Require Import Prelude GoStrings GoTime Json GoCalendar GoOs Recording Rbac GoSsh AuditLog.

Local Open Scope Z_scope.
Local Open Scope go_scope.

(** ** The sink interface

    A writer returned by a sink stands for a file of the store, or for nothing
    ([NopSink] discards). *)
Class CastSink (S : Type) := {
  sink_open : S → Z → fs → CastMeta → fs * outcome SinkError (option (list string) * string)
}.

(** What the proxy relies on: opening destroys nothing, and the file of the
    writer is a new, empty one. *)
Class CastSinkLaws (S : Type) `{CastSink S} : Prop := {
  sink_open_sub s now t meta : t ⊆ (sink_open s now t meta).1;
  sink_open_new s now t meta t' f loc :
    sink_open s now t meta = (t', Ret (Some f, loc)) →
    f ≠ [] ∧ t !! f = None ∧ t' !! f = Some (File [])
}.

Inductive LocalDirSink := LocalDir (root : string).
#[export] Instance LocalDirSink_sink : CastSink LocalDirSink := {|
  sink_open s now t meta :=
    let '(t', r) := match s with LocalDir root => OpenCast root now t meta end in
    (t', let! p := r in Ret (Some p.1, p.2))
|}.

Inductive NopSink := Nop.
#[export] Instance NopSink_sink : CastSink NopSink := {|
  sink_open _ _ t _ := (t, Ret (None, ""))
|}.

(** ** The recorder of one channel *)
Record recordingAuditAttr := {
  Principals : string; AttrTarget : string; RemoteUser : string; ClientIP : string
}.

Record channelRecorder (S : Type) := {
  sink : S;
  user : string;
  host : string;
  sessionAttr : recordingAuditAttr;
  rec : option Recorder;
  cast : option (option (list string));
  location : string;
  sessionID : string;
  startedAt : Z;
  rclosed : bool
}.
Arguments sink {S}. Arguments user {S}. Arguments host {S}. Arguments sessionAttr {S}.
Arguments rec {S}. Arguments cast {S}. Arguments location {S}. Arguments sessionID {S}.
Arguments startedAt {S}. Arguments rclosed {S}.

Definition newChannelRecorder {S} (s : S) (sid usr hst : string) (attr : recordingAuditAttr)
    : channelRecorder S :=
  {| sink := s; user := usr; host := hst; sessionAttr := attr; rec := None; cast := None;
     location := ""; sessionID := sid; startedAt := 0; rclosed := false |}.

Section ChannelRecorder.
Context {S : Type} `{CastSink S}.
Implicit Types (r : channelRecorder S) (t : fs).

(** The store after the recorder's writer wrote: an open file holds what was
    written to it. *)
Definition sync t (f : option (list string)) (w : Writer) : fs :=
  match f with
  | Some p => <[p := File (w_bytes w)]> t
  | None => t
  end.

Inductive start_error := StartSink (e : SinkError) | StartRecorder (e : RecError).

(** [d] is the fallback session id and the start time, [room] how many bytes
    the disk takes before it is full. *)
Definition StartIfNeeded (d : draw) (room : option nat) (width height : Z) (t : fs) r
    : fs * channelRecorder S * outcome start_error unit :=
  if bool_decide (is_Some (rec r)) || rclosed r then (t, r, Ret tt)
  else
    let sid := if bool_decide (sessionID r = "") then uuid d else sessionID r in
    let start := now d in
    let r1 := {| sink := sink r; user := user r; host := host r; sessionAttr := sessionAttr r;
                 rec := rec r; cast := cast r; location := location r; sessionID := sid;
                 startedAt := start; rclosed := rclosed r |} in
    match sink_open (sink r) start t
            {| SessionID := sid; User := user r; Target := host r; Started := Some start |} with
    | (t, Err e) => (t, r1, Err (StartSink e))
    | (t, Panic) => (t, r1, Panic)
    | (t, Ret (f, loc)) =>
        let dest := {| w_bytes := []; w_room := room |} in
        let title := user r +:+ "@" +:+ host r in
        let t := sync t f (New_written dest width height title start) in
        match Recording.New (Some dest) width height title start with
        | Ret rc =>
            (t,
             {| sink := sink r; user := user r; host := host r; sessionAttr := sessionAttr r;
                rec := Some rc; cast := Some f; location := loc; sessionID := sid;
                startedAt := start; rclosed := rclosed r |}, Ret tt)
        | Err e => (t, r1, Err (StartRecorder e))
        | Panic => (t, r1, Panic)
        end
    end.

(** [Output] and [Resize] on the recorder, when recording has started. *)
Definition with_rec t r (f : Recorder → Recorder) : fs * channelRecorder S :=
  match rec r with
  | None => (t, r)
  | Some rc =>
      let rc := f rc in
      (match cast r with Some c => sync t c (encoded rc) | None => t end,
       {| sink := sink r; user := user r; host := host r; sessionAttr := sessionAttr r;
          rec := Some rc; cast := cast r; location := location r; sessionID := sessionID r;
          startedAt := startedAt r; rclosed := rclosed r |})
  end.

Definition writeOutput (tnow : Z) (p : list ascii) t r := with_rec t r (Output tnow p).
Definition ResizeRec (tnow w h : Z) t r := with_rec t r (Resize tnow w h).

Definition emitCompleted (d : draw) r : Entry :=
  let elapsed := Z.max 0 (now d - startedAt r) in
  {| ID := uuid d; Action := ActionRecordingComplete; EntrySessionID := sessionID r;
     EntryUser := user r; EntryPrincipals := Principals (sessionAttr r);
     EntryTarget := AttrTarget (sessionAttr r); EntryRemoteUser := RemoteUser (sessionAttr r);
     EntryClientIP := ClientIP (sessionAttr r); RecordingPath := location r; EntryReason := "";
     Metadata := Marshal (JMap [("duration_seconds", round6 (Seconds elapsed));
                                ("started_at", marshal_time (startedAt r))]);
     OccurredAt := now d |}.

(** [close_err] is the error of closing the cast file. *)
Definition CloseRec (d : draw) (close_err : option string) r
    : channelRecorder S * list Entry * option string :=
  if rclosed r then (r, [], None)
  else
    ({| sink := sink r; user := user r; host := host r; sessionAttr := sessionAttr r;
        rec := None; cast := None; location := location r; sessionID := sessionID r;
        startedAt := startedAt r; rclosed := true |},
     if bool_decide (is_Some (rec r)) then [emitCompleted d r] else [],
     match cast r with Some _ => close_err | None => None end).
End ChannelRecorder.

(** ** Port-forward auditing *)

(** [auditSink] stands for a non-nil audit sink. *)
Record portForwardAuditor := {
  pfSink : bool;
  pfSessionID : string;
  pfAttr : recordingAuditAttr;
  pfReq : directTCPIPRequest;
  openedAt : Z;
  emitOpened : bool
}.

Definition pf_fields (r : directTCPIPRequest) : list (string * json) :=
  [("src_host", JString (chars (OriginHost r))); ("src_port", JInt (OriginPort r));
   ("dst_host", JString (chars (DestHost r))); ("dst_port", JInt (DestPort r))].

Definition pf_entry (action : string) (a : portForwardAuditor) (d : draw) (md : json) : Entry :=
  {| ID := uuid d; Action := action; EntrySessionID := pfSessionID a;
     EntryUser := RemoteUser (pfAttr a); EntryPrincipals := Principals (pfAttr a);
     EntryTarget := DestHost (pfReq a) +:+ ":" +:+ pretty (DestPort (pfReq a));
     EntryRemoteUser := RemoteUser (pfAttr a); EntryClientIP := ClientIP (pfAttr a);
     RecordingPath := ""; EntryReason := ""; Metadata := Marshal md; OccurredAt := now d |}.

Definition pf_open (d : draw) (a : option portForwardAuditor)
    : option portForwardAuditor * list Entry :=
  match a with
  | None => (None, [])
  | Some a =>
      if negb (pfSink a) then (Some a, [])
      else (Some {| pfSink := pfSink a; pfSessionID := pfSessionID a; pfAttr := pfAttr a;
                    pfReq := pfReq a; openedAt := now d; emitOpened := true |},
            [pf_entry ActionPortForwardOpened a d (JMap (pf_fields (pfReq a)))])
  end.

Definition pf_close (d : draw) (bytesIn bytesOut : Z) (a : option portForwardAuditor) : list Entry :=
  match a with
  | None => []
  | Some a =>
      if negb (pfSink a) || negb (emitOpened a) then []
      else [pf_entry ActionPortForwardClosed a d
              (JMap (pf_fields (pfReq a) ++
                [("bytes_in", JInt bytesIn); ("bytes_out", JInt bytesOut);
                 ("duration_seconds", round6 (Seconds (now d - openedAt a)))]))]
  end.

(** ** Requests *)
Section Requests.
Context {W : SshWire}.

Definition parseDirectTCPIPRequest (extra : list ascii) : option directTCPIPRequest :=
  Unmarshal_tcpip extra.

Inductive subsystemKind := SCP | SFTP.
Definition kind_name (k : subsystemKind) : string := match k with SCP => "scp" | SFTP => "sftp" end.
Definition tab : string := of_chars [byte_of 9].

Definition detectSubsystem (r : Request) : option (subsystemKind * string) :=
  if bool_decide (Type_ r = "exec") then
    match Unmarshal_string (Payload r) with
    | None => None
    | Some command =>
        let cmd := TrimSpace command in
        if HasPrefix cmd "scp " || bool_decide (cmd = "scp") || HasPrefix cmd ("scp" +:+ tab)
        then Some (SCP, cmd) else None
    end
  else if bool_decide (Type_ r = "subsystem") then
    match Unmarshal_string (Payload r) with
    | None => None
    | Some name => if bool_decide (name = "sftp") then Some (SFTP, "") else None
    end
  else None.

Definition emitSubsystemOpened (auditSink : bool) (sid : string) (attr : recordingAuditAttr)
    (k : subsystemKind) (command : string) (d : draw) : list Entry :=
  if negb auditSink then []
  else [{| ID := uuid d; Action := ActionSubsystemOpened; EntrySessionID := sid;
           EntryUser := RemoteUser attr; EntryPrincipals := Principals attr;
           EntryTarget := AttrTarget attr; EntryRemoteUser := RemoteUser attr;
           EntryClientIP := ClientIP attr; RecordingPath := ""; EntryReason := "";
           Metadata := Marshal (JMap (("kind", JString (chars (kind_name k))) ::
             if bool_decide (command = "") then [] else [("command", JString (chars command))]));
           OccurredAt := now d |}].

Inductive ParseError := PtyUnmarshal | WindowShort (n : Z) | WindowZero (cols rows : Z).

Definition parsePTYReq (payload : list ascii) : outcome ParseError (Z * Z) :=
  match Unmarshal_pty payload with
  | None => Err PtyUnmarshal
  | Some p => Ret (if Cols p <=? 0 then 80 else Cols p, if Rows p <=? 0 then 24 else Rows p)
  end.

Definition parseWindowChange (payload : list ascii) : outcome ParseError (Z * Z) :=
  match Uint32 payload with
  | Some (cols, rest) =>
      match Uint32 rest with
      | Some (rows, _) =>
          if (cols =? 0) || (rows =? 0) then Err (WindowZero cols rows) else Ret (cols, rows)
      | None => Err (WindowShort (Z.of_nat (length payload)))
      end
  | None => Err (WindowShort (Z.of_nat (length payload)))
  end.

(** ** The proxier *)
Record Proxier (S : Type) := {
  p_rbac : option CertEnforcer;
  p_sink : option S;
  p_user : string;
  p_host : string;
  p_auditSink : bool;
  p_sessionID : string;
  p_attr : recordingAuditAttr
}.
Arguments p_rbac {S}. Arguments p_sink {S}. Arguments p_user {S}. Arguments p_host {S}.
Arguments p_auditSink {S}. Arguments p_sessionID {S}. Arguments p_attr {S}.

Definition permissivePerms : Permissions :=
  {| CriticalOptions := None;
     Extensions := Some {[ "permit-pty" := ""; "permit-port-forwarding" := "";
       "permit-agent-forwarding" := ""; "permit-X11-forwarding" := ""; "permit-user-rc" := "" ]} |}.

(** [NewProxier] on the fields of its [Config]. *)
Definition NewProxier {S} (enforcer : option CertEnforcer) (s : option S) (usr hst : string)
    (auditSink : bool) (sid : string) (attr : recordingAuditAttr) : Proxier S :=
  {| p_rbac := match enforcer with None => Rbac.New (Some permissivePerms) | e => e end;
     p_sink := s; p_user := usr; p_host := hst; p_auditSink := auditSink;
     p_sessionID := sid; p_attr := attr |}.

Definition permitsRequest {S} (p : Proxier S) (reqType : string) : bool :=
  if bool_decide (reqType = "pty-req") then PermitsPTY (p_rbac p)
  else if bool_decide (reqType = "x11-req") then PermitsX11Forwarding (p_rbac p)
  else if bool_decide (reqType = "auth-agent-req@openssh.com") then PermitsAgentForwarding (p_rbac p)
  else true.

(** What the session does towards its peers and the audit stream. *)
Inductive action :=
  | Reject (reason : Z) (msg : string)
  | OpenTarget (ctype : string) (extra : list ascii)
  | AcceptUser
  | CloseTarget
  | Forward (r : Request)
  | Reply (ok : bool)
  | Append (e : Entry).

Section Proxy.
Context {S : Type} `{CastSink S}.
Implicit Types (t : fs).

(** Per request: the target's answer to [SendRequest], the draws, and the room
    left for a cast that is started. *)
Record req_env := {
  send : outcome string bool; start_draw : draw; cast_room : option nat; subsystem_draw : draw
}.

Definition request_ok (e : req_env) : bool :=
  match send e with Ret ok => ok | _ => false end.

(** The recording peek of [pipeUserRequests]; [rc] is nil on channels that
    are not recorded. *)
Definition peek_recording (r : Request) (e : req_env) (t : fs) (rc : option (channelRecorder S))
    : fs * option (channelRecorder S) :=
  match rc with
  | None => (t, None)
  | Some c =>
      if bool_decide (Type_ r = "pty-req") then
        match parsePTYReq (Payload r) with
        | Ret (w, h) => let '(t, c, _) := StartIfNeeded (start_draw e) (cast_room e) w h t c in (t, Some c)
        | _ => (t, rc)
        end
      else if bool_decide (Type_ r = "window-change") then
        match parseWindowChange (Payload r) with
        | Ret (w, h) => let '(t, c) := ResizeRec (now (start_draw e)) w h t c in (t, Some c)
        | _ => (t, rc)
        end
      else (t, rc)
  end.

(** One iteration of the loop of [pipeUserRequests]. *)
Definition handle_request (p : Proxier S) (r : Request) (e : req_env)
    (t : fs) (rc : option (channelRecorder S)) : fs * option (channelRecorder S) * list action :=
  if negb (permitsRequest p (Type_ r)) then
    (t, rc, if WantReply r then [Reply false] else [])
  else
    let '(t, rc) := peek_recording r e t rc in
    let audit := match detectSubsystem r with
      | Some (k, cmd) =>
          Append <$> emitSubsystemOpened (p_auditSink p) (p_sessionID p) (p_attr p) k cmd (subsystem_draw e)
      | None => []
      end in
    (t, rc, audit ++ [Forward r] ++ if WantReply r then [Reply (request_ok e)] else []).

Fixpoint pipeUserRequests (p : Proxier S) (src : list (Request * req_env))
    (t : fs) (rc : option (channelRecorder S)) : fs * option (channelRecorder S) * list action :=
  match src with
  | [] => (t, rc, [])
  | (r, e) :: rest =>
      let '(t, rc, a) := handle_request p r e t rc in
      let '(t, rc, a') := pipeUserRequests p rest t rc in
      (t, rc, a ++ a')
  end.

(** [pipeRequestsVerbatim] on the target's requests. *)
Fixpoint pipeRequestsVerbatim (src : list (Request * outcome string bool)) : list action :=
  match src with
  | [] => []
  | (r, s) :: rest =>
      let ok := match s with Ret ok => ok | _ => false end in
      Forward r :: (if WantReply r then [Reply ok] else []) ++ pipeRequestsVerbatim rest
  end.

Definition openChannelRejection (e : open_error) : Z * string :=
  match e with
  | OpenChannelError reason msg => (reason, msg)
  | OtherOpenError text => (ConnectionFailed, text)
  end.

(** ** One channel

    The effects of the goroutines of [pipeChannel] on the state they share, in
    the order they happen: a user request, a chunk read from the target and
    written to the user (with the count the write reports), a chunk read from
    the user. *)
Inductive pipe_event :=
  | UserRequest (r : Request) (e : req_env)
  | TargetChunk (tnow : Z) (p : list ascii) (n : nat)
  | UserChunk (p : list ascii).

Record pipe_state := {
  ps_fs : fs;
  ps_rec : option (channelRecorder S);
  bytesRead : Z;
  bytesWritten : Z;
  ps_trace : list action
}.

(** [recordingTee.Write]: what the channel took of the chunk is recorded; [n]
    is the count its write returned. *)
Definition recordingTee_Write (tnow : Z) (b : list ascii) (n : nat) (t : fs) (r : option (channelRecorder S))
    : fs * option (channelRecorder S) :=
  match r with
  | Some c =>
      if bool_decide (0 < n)%nat
      then let '(t, c) := writeOutput tnow (take n b) t c in (t, Some c)
      else (t, Some c)
  | None => (t, None)
  end.

(** The counting channel of a port forward adds up what is read and written;
    its other methods are the channel's. *)
Definition pipe_step (p : Proxier S) (st : pipe_state) (ev : pipe_event) : pipe_state :=
  match ev with
  | UserRequest r e =>
      let '(t, rc, a) := handle_request p r e (ps_fs st) (ps_rec st) in
      {| ps_fs := t; ps_rec := rc; bytesRead := bytesRead st; bytesWritten := bytesWritten st;
         ps_trace := ps_trace st ++ a |}
  | TargetChunk tnow b n =>
      let '(t, rc) := recordingTee_Write tnow b n (ps_fs st) (ps_rec st) in
      {| ps_fs := t; ps_rec := rc; bytesRead := bytesRead st;
         bytesWritten := bytesWritten st + Z.of_nat n; ps_trace := ps_trace st |}
  | UserChunk b =>
      {| ps_fs := ps_fs st; ps_rec := ps_rec st; bytesRead := bytesRead st + Z.of_nat (length b);
         bytesWritten := bytesWritten st; ps_trace := ps_trace st |}
  end.

Record NewChannel := { ChannelType : string; ExtraData : list ascii }.

(** The peers' answers and the draws of one channel. *)
Record chan_env := {
  open_target : outcome open_error unit;
  accept_ok : bool;
  pf_open_draw : draw;
  pf_close_draw : draw;
  rec_close_draw : draw;
  cast_close_err : option string;
  pipe : list pipe_event
}.

(** The auditor of a direct-tcpip channel whose extra data decodes. *)
Definition pf_auditor (p : Proxier S) (nc : NewChannel) : option portForwardAuditor :=
  if bool_decide (ChannelType nc = "direct-tcpip") then
    match parseDirectTCPIPRequest (ExtraData nc) with
    | Some req => Some {| pfSink := p_auditSink p; pfSessionID := p_sessionID p;
        pfAttr := p_attr p; pfReq := req; openedAt := 0; emitOpened := false |}
    | None => None
    end
  else None.

Definition handleChannel (p : Proxier S) (nc : NewChannel) (env : chan_env) (t : fs)
    : fs * list action :=
  if bool_decide (ChannelType nc = "direct-tcpip") && negb (PermitsPortForwarding (p_rbac p))
  then (t, [Reject Prohibited "port forwarding not permitted by cert"])
  else
    let opened := OpenTarget (ChannelType nc) (ExtraData nc) in
    match open_target env with
    | Err e => let '(reason, msg) := openChannelRejection e in (t, [opened; Reject reason msg])
    | Panic => (t, [opened])
    | Ret _ =>
        if negb (accept_ok env) then (t, [opened; CloseTarget])
        else
          let rc := match p_sink p with
            | Some s => if bool_decide (ChannelType nc = "session")
                        then Some (newChannelRecorder s (p_sessionID p) (p_user p) (p_host p) (p_attr p))
                        else None
            | None => None
            end in
          let '(pf, a1) := pf_open (pf_open_draw env) (pf_auditor p nc) in
          let st := fold_left (pipe_step p) (pipe env)
            {| ps_fs := t; ps_rec := rc; bytesRead := 0; bytesWritten := 0; ps_trace := [] |} in
          let a2 := pf_close (pf_close_draw env) (bytesRead st) (bytesWritten st) pf in
          let a3 := match ps_rec st with
            | Some c => (CloseRec (rec_close_draw env) (cast_close_err env) c).1.2
            | None => []
            end in
          (ps_fs st, [opened; AcceptUser] ++ (Append <$> a1) ++ ps_trace st ++ (Append <$> a2) ++ (Append <$> a3))
    end.
End Proxy.
End Requests.
Arguments NewProxier {S}.
Arguments Proxier : clear implicits.
Arguments p_rbac {S}. Arguments p_sink {S}. Arguments p_user {S}. Arguments p_host {S}.
Arguments p_auditSink {S}. Arguments p_sessionID {S}. Arguments p_attr {S}.

(** ** Instances of the sink interface *)
Lemma create_at_fresh t cs n t' f :
  create_at t cs n = (t', Ret f) → f ≠ [] ∧ t !! f = None ∧ t' !! f = Some n.
Proof.
  unfold create_at. destruct (reverse cs) as [|c rp]; [done|].
  destruct (walk _ _ _ _) as [d| |]; [|done..]. destruct (node_at t d) as [[| |]|]; try done.
  destruct (t !! (d ++ [c])) eqn:Hx; [done|]. intros [= <- <-].
  split; [by destruct d|]. split; [done|]. by rewrite lookup_insert_eq.
Qed.

#[export] Instance LocalDirSink_laws : CastSinkLaws LocalDirSink.
Proof.
  split.
  - intros [root] now t meta. cbn. pose proof (OpenCast_sub root now t meta).
    by destruct (OpenCast root now t meta).
  - intros [root] now t meta t' f loc. cbn. unfold OpenCast. case_bool_decide; [done|].
    pose proof (mkdir_all_sub t (reverse (path_parts
      (PathJoin [root; format_day (default now (Started meta))])))) as Hsub.
    destruct (mkdir_all t _) as [t1 [e|]]; cbn [fst] in Hsub; [done|].
    destruct (create_at t1 _ _) as [t2 [f'|e|]] eqn:Hc; cbn; intros; simplify_eq.
    apply create_at_fresh in Hc as (? & Hn & ?). split; [done|]. split; [|done].
    by eapply lookup_weaken_None.
Qed.

#[export] Instance NopSink_laws : CastSinkLaws NopSink.
Proof. split; cbn; [done|]. by intros s now t meta t' f loc ?. Qed.

(** ** Facts about the request loop *)
Definition forwarded (a : action) : option Request := match a with Forward r => Some r | _ => None end.
Definition replied (a : action) : option bool := match a with Reply b => Some b | _ => None end.

Lemma omap_append {A} (f : action → option A) (es : list Entry) :
  (∀ e, f (Append e) = None) → omap f (Append <$> es) = [].
Proof. intros Hf. induction es as [|e es IH]; [done|]. csimpl. by rewrite Hf. Qed.

(** The three gated requests. *)
Lemma permitsRequest_gates {S} (p : Proxier S) :
  permitsRequest p "pty-req" = PermitsPTY (p_rbac p) ∧
  permitsRequest p "x11-req" = PermitsX11Forwarding (p_rbac p) ∧
  permitsRequest p "auth-agent-req@openssh.com" = PermitsAgentForwarding (p_rbac p).
Proof. done. Qed.

Section RequestFacts.
Context {W : SshWire} {S : Type} `{CastSink S}.
Implicit Types (p : Proxier S) (t : fs).

Lemma handle_request_trace p r e t rc :
  let tr := (handle_request p r e t rc).2 in
  omap forwarded tr = (if permitsRequest p (Type_ r) then [r] else []) ∧
  omap replied tr = (if WantReply r then [permitsRequest p (Type_ r) && request_ok e] else []).
Proof.
  cbv zeta. unfold handle_request. destruct (permitsRequest p (Type_ r)); cbn [negb].
  - destruct (peek_recording r e t rc) as [t' rc']. cbn [snd].
    rewrite !omap_app. destruct (detectSubsystem r) as [[k cmd]|];
      rewrite ?omap_append by done; destruct (WantReply r); done.
  - by destruct (WantReply r).
Qed.

Lemma pipeUserRequests_trace p src t rc :
  let tr := (pipeUserRequests p src t rc).2 in
  omap forwarded tr = filter (λ r, permitsRequest p (Type_ r) = true) src.*1 ∧
  omap replied tr =
    (λ '(r, e), permitsRequest p (Type_ r) && request_ok e) <$> filter (λ q, WantReply q.1 = true) src.
Proof.
  revert t rc. induction src as [|[r e] src IH]; intros t rc; [done|]. cbn [pipeUserRequests].
  destruct (handle_request_trace p r e t rc) as [Hf Hr].
  destruct (handle_request p r e t rc) as [[t1 rc1] a]. cbn [snd] in Hf, Hr.
  destruct (IH t1 rc1) as [Hf' Hr']. destruct (pipeUserRequests p src t1 rc1) as [[t2 rc2] a'].
  cbn [snd] in *. rewrite !omap_app, Hf, Hr, Hf', Hr'. split.
  - csimpl. rewrite filter_cons. by destruct (permitsRequest p (Type_ r)).
  - rewrite filter_cons. cbn [fst]. by destruct (WantReply r).
Qed.
End RequestFacts.

(** ** Facts about one channel *)
Section ChannelFacts.
Context {W : SshWire} {S : Type} `{CastSink S}.
Implicit Types (p : Proxier S) (t : fs) (c : channelRecorder S).

Lemma pipe_step_forwarded p ev st :
  Forall (λ r, permitsRequest p (Type_ r) = true) (omap forwarded (ps_trace st)) →
  Forall (λ r, permitsRequest p (Type_ r) = true) (omap forwarded (ps_trace (pipe_step p st ev))).
Proof.
  intros Hst. unfold pipe_step, recordingTee_Write; destruct ev as [r e|tnow b n|b]; cbn [pipe_step]; [| |done].
  - destruct (handle_request_trace p r e (ps_fs st) (ps_rec st)) as [Hf _].
    destruct (handle_request p r e _ _) as [[t rc] a]. cbn [snd ps_trace] in *.
    rewrite omap_app, Hf. apply Forall_app. split; [done|].
    destruct (permitsRequest p (Type_ r)) eqn:Hp; by repeat constructor.
  - destruct (ps_rec st) as [c|]; [|done]. case_bool_decide; [|done].
    by destruct (writeOutput tnow (take n b) (ps_fs st) c).
Qed.

Lemma pipe_run_forwarded p evs st :
  Forall (λ r, permitsRequest p (Type_ r) = true) (omap forwarded (ps_trace st)) →
  Forall (λ r, permitsRequest p (Type_ r) = true)
    (omap forwarded (ps_trace (fold_left (pipe_step p) evs st))).
Proof.
  revert st. induction evs as [|ev evs IH]; intros st Hst; [done|]. cbn [fold_left].
  by apply IH, pipe_step_forwarded.
Qed.

Lemma handleChannel_forwarded p nc env t :
  Forall (λ r, permitsRequest p (Type_ r) = true) (omap forwarded (handleChannel p nc env t).2).
Proof.
  unfold handleChannel. destruct (_ && _); [constructor|].
  destruct (open_target env) as [u|e|]; [|destruct (openChannelRejection e); constructor|constructor].
  destruct (accept_ok env); cbn [negb]; [|constructor]. destruct (pf_open _ _) as [pf a1]. cbn [snd].
  rewrite !omap_app, !omap_append by done. cbn [app omap list_omap forwarded]. rewrite app_nil_r.
  apply pipe_run_forwarded. constructor.
Qed.

(** Byte counts of the events. *)
Definition user_bytes (evs : list pipe_event) : Z :=
  foldr (λ ev n, match ev with UserChunk b => Z.of_nat (length b) + n | _ => n end) 0 evs.
Definition target_bytes (evs : list pipe_event) : Z :=
  foldr (λ ev n, match ev with TargetChunk _ _ k => Z.of_nat k + n | _ => n end) 0 evs.

Lemma pipe_run_counts p evs st :
  bytesRead (fold_left (pipe_step p) evs st) = bytesRead st + user_bytes evs ∧
  bytesWritten (fold_left (pipe_step p) evs st) = bytesWritten st + target_bytes evs.
Proof.
  revert st. induction evs as [|ev evs IH]; intros st; cbn [fold_left]; [cbn; lia|].
  destruct (IH (pipe_step p st ev)) as [-> ->].
  unfold pipe_step, recordingTee_Write; destruct ev as [r e|tnow b n|b]; cbn [pipe_step user_bytes target_bytes foldr].
  - destruct (handle_request p r e _ _) as [[t rc] a]. cbn. fold user_bytes target_bytes. done.
  - destruct (match ps_rec st with Some _ => _ | None => _ end) as [t rc]. cbn [bytesRead bytesWritten].
    fold (user_bytes evs) (target_bytes evs). lia.
  - cbn [bytesRead bytesWritten]. fold (user_bytes evs) (target_bytes evs). lia.
Qed.

Lemma pipe_run_no_rec p evs st :
  ps_rec st = None →
  ps_rec (fold_left (pipe_step p) evs st) = None ∧ ps_fs (fold_left (pipe_step p) evs st) = ps_fs st.
Proof.
  revert st. induction evs as [|ev evs IH]; intros st Hst; cbn [fold_left]; [done|].
  destruct (IH (pipe_step p st ev)) as [Hr Hf].
  - unfold pipe_step, recordingTee_Write; destruct ev as [r e|tnow b n|b]; cbn [pipe_step]; [|by rewrite Hst|done].
    unfold handle_request. rewrite Hst. by destruct (permitsRequest p (Type_ r)).
  - split; [done|]. rewrite Hf. unfold pipe_step, recordingTee_Write; destruct ev as [r e|tnow b n|b]; cbn [pipe_step]; [|by rewrite Hst|done].
    unfold handle_request. rewrite Hst. by destruct (permitsRequest p (Type_ r)).
Qed.

(** What an event adds to a started recording. *)
Definition rec_ops_of p (ev : pipe_event) : list rec_op :=
  match ev with
  | TargetChunk tnow b n => if bool_decide (0 < n)%nat then [OpOutput tnow (take n b)] else []
  | UserRequest r e =>
      if permitsRequest p (Type_ r) && bool_decide (Type_ r = "window-change") then
        match parseWindowChange (Payload r) with
        | Ret (w, h) => [OpResize (now (start_draw e)) w h]
        | _ => []
        end
      else []
  | UserChunk _ => []
  end.

(** An event that makes [StartIfNeeded] run. *)
Definition starts p (ev : pipe_event) : bool :=
  match ev with
  | UserRequest r _ =>
      permitsRequest p (Type_ r) && bool_decide (Type_ r = "pty-req") && is_ret (parsePTYReq (Payload r))
  | _ => false
  end.

Definition set_rec c (rc : Recorder) : channelRecorder S :=
  {| sink := sink c; user := user c; host := host c; sessionAttr := sessionAttr c;
     rec := Some rc; cast := cast c; location := location c; sessionID := sessionID c;
     startedAt := startedAt c; rclosed := rclosed c |}.

Lemma idle_step p ev st c :
  ps_rec st = Some c → rec c = None → starts p ev = false →
  ps_rec (pipe_step p st ev) = Some c ∧ ps_fs (pipe_step p st ev) = ps_fs st.
Proof.
  intros Hc Hr Hev. unfold pipe_step, recordingTee_Write; destruct ev as [r e|tnow b n|b]; cbn [pipe_step starts] in *; [| |done].
  - unfold handle_request, peek_recording. rewrite Hc.
    destruct (permitsRequest p (Type_ r)); [|done]. cbn [negb andb] in *.
    destruct (bool_decide (Type_ r = "pty-req")); cbn [andb] in Hev.
    + by destruct (parsePTYReq (Payload r)).
    + destruct (bool_decide (Type_ r = "window-change")); [|done].
      destruct (parseWindowChange (Payload r)) as [[w h]| |]; [|done..].
      unfold ResizeRec, with_rec. by rewrite Hr.
  - rewrite Hc. case_bool_decide; [|done]. unfold writeOutput, with_rec. by rewrite Hr.
Qed.

Lemma idle_run p evs st c :
  ps_rec st = Some c → rec c = None → Forall (λ ev, starts p ev = false) evs →
  ps_rec (fold_left (pipe_step p) evs st) = Some c ∧ ps_fs (fold_left (pipe_step p) evs st) = ps_fs st.
Proof.
  intros Hc Hr Hall. revert st Hc. induction Hall as [|ev evs Hev _ IH]; intros st Hc; [done|].
  cbn [fold_left]. destruct (idle_step p ev st c Hc Hr Hev) as [H1 H2].
  destruct (IH _ H1) as [H3 H4]. split; [done|congruence].
Qed.

Lemma live_step p ev st c rc f :
  ps_rec st = Some (set_rec c rc) → cast c = Some (Some f) → rclosed c = false →
  ps_fs st !! f = Some (File (w_bytes (encoded rc))) →
  let rc' := fold_left rec_step (rec_ops_of p ev) rc in
  ps_rec (pipe_step p st ev) = Some (set_rec c rc') ∧
  ps_fs (pipe_step p st ev) !! f = Some (File (w_bytes (encoded rc'))).
Proof.
  intros Hst Hcast Hcl Hf. unfold pipe_step, recordingTee_Write; destruct ev as [r e|tnow b n|b]; cbn [pipe_step rec_ops_of]; [| |done].
  - unfold handle_request, peek_recording. rewrite Hst.
    destruct (permitsRequest p (Type_ r)); [|done]. cbn [negb andb]. case_bool_decide as Hpty.
    + rewrite bool_decide_eq_false_2 by (by rewrite Hpty).
      by destruct (parsePTYReq (Payload r)) as [[w h]| |].
    + case_bool_decide; [|done]. destruct (parseWindowChange (Payload r)) as [[w h]| |]; [|done..].
      unfold ResizeRec, with_rec, set_rec. cbn [rec cast ps_fs ps_rec]. rewrite Hcast.
      split; [done|]. cbn [sync]. by rewrite lookup_insert_eq.
  - rewrite Hst. case_bool_decide; [|done].
    unfold writeOutput, with_rec, set_rec. cbn [rec cast ps_fs ps_rec]. rewrite Hcast.
    split; [done|]. cbn [sync]. by rewrite lookup_insert_eq.
Qed.

Lemma live_run p evs st c rc f :
  ps_rec st = Some (set_rec c rc) → cast c = Some (Some f) → rclosed c = false →
  ps_fs st !! f = Some (File (w_bytes (encoded rc))) →
  let rc' := rec_run rc (evs ≫= rec_ops_of p) in
  ps_rec (fold_left (pipe_step p) evs st) = Some (set_rec c rc') ∧
  ps_fs (fold_left (pipe_step p) evs st) !! f = Some (File (w_bytes (encoded rc'))).
Proof.
  intros Hst Hcast Hcl. revert st rc Hst. induction evs as [|ev evs IH]; intros st rc Hst Hf; [done|].
  cbn [fold_left]. rewrite bind_cons. cbv zeta in *. unfold rec_run. rewrite fold_left_app.
  destruct (live_step p ev st c rc f Hst Hcast Hcl Hf) as [H1 H2].
  exact (IH (pipe_step p st ev) (fold_left rec_step (rec_ops_of p ev) rc) H1 H2).
Qed.

(** The recorder once a terminal request has started it. *)
Definition started_rec c (d : draw) (f : list string) (loc : string) (rc : Recorder) : channelRecorder S :=
  {| sink := sink c; user := user c; host := host c; sessionAttr := sessionAttr c;
     rec := Some rc; cast := Some (Some f); location := loc; sessionID := sessionID c;
     startedAt := now d; rclosed := rclosed c |}.

Lemma start_step p st c r e w h t1 f loc rc0 :
  ps_rec st = Some c → rec c = None → rclosed c = false → sessionID c ≠ "" →
  permitsRequest p (Type_ r) = true → Type_ r = "pty-req" → parsePTYReq (Payload r) = Ret (w, h) →
  sink_open (sink c) (now (start_draw e)) (ps_fs st)
    {| SessionID := sessionID c; User := user c; Target := host c; Started := Some (now (start_draw e)) |}
    = (t1, Ret (Some f, loc)) →
  Recording.New (Some {| w_bytes := []; w_room := cast_room e |}) w h
    (user c +:+ "@" +:+ host c) (now (start_draw e)) = Ret rc0 →
  ps_rec (pipe_step p st (UserRequest r e)) = Some (started_rec c (start_draw e) f loc rc0) ∧
  ps_fs (pipe_step p st (UserRequest r e)) = <[f := File (w_bytes (encoded rc0))]> t1.
Proof.
  intros Hc Hr Hcl Hsid Hperm Hty Hparse Hopen Hnew. cbn [pipe_step].
  unfold handle_request, peek_recording. rewrite Hperm, Hc, Hty. cbn [negb].
  rewrite bool_decide_eq_true_2, Hparse by done. unfold StartIfNeeded. rewrite Hr, Hcl.
  rewrite bool_decide_eq_false_2 by (by intros [? ?]). cbn [orb].
  rewrite (bool_decide_eq_false_2 (sessionID c = "")) by done. rewrite Hopen. cbv zeta. rewrite Hnew.
  apply New_Ret_written in Hnew as ->. cbn [ps_rec ps_fs sync]. unfold started_rec. by rewrite Hcl.
Qed.
End ChannelFacts.

(** ** Properties *)
Section Properties.
Context {W : SshWire} {S : Type} `{CastSink S}.

(** The requests of a session.  Whatever the user's client sends, the
    requests that reach the target are exactly those the certificate permits,
    in order; every request that wants a reply gets exactly one, in order, and
    it is false when the request was denied or could not be sent. *)
Theorem user_requests_gated (p : Proxier S) (src : list (Request * req_env)) (t : fs)
    (rc : option (channelRecorder S)) :
  let tr := (pipeUserRequests p src t rc).2 in
  omap forwarded tr = filter (λ r, permitsRequest p (Type_ r) = true) src.*1 ∧
  omap replied tr =
    (λ '(r, e), permitsRequest p (Type_ r) && request_ok e) <$> filter (λ q, WantReply q.1 = true) src.
Proof. apply pipeUserRequests_trace. Qed.

(** The channel gate.  A port-forwarding channel without the certificate's
    permission is refused as prohibited before the target hears of it, and in
    any channel no request the certificate withholds (terminal, X11, agent) is
    ever forwarded. *)
Theorem channel_gate (p : Proxier S) (nc : NewChannel) (env : chan_env) (t : fs) :
  let '(t', tr) := handleChannel p nc env t in
  (ChannelType nc = "direct-tcpip" → PermitsPortForwarding (p_rbac p) = false →
     t' = t ∧ tr = [Reject Prohibited "port forwarding not permitted by cert"]) ∧
  Forall (λ r, permitsRequest p (Type_ r) = true) (omap forwarded tr).
Proof.
  pose proof (handleChannel_forwarded p nc env t) as Hf.
  destruct (handleChannel p nc env t) as [t' tr] eqn:Hh. split; [|done].
  intros Ht Hp. unfold handleChannel in Hh. rewrite Ht, Hp, bool_decide_eq_true_2 in Hh by done.
  by injection Hh as <- <-.
Qed.

(** Port forwards are accounted for.  A permitted direct-tcpip channel that
    opens, whose extra data decodes, with an audit sink, publishes exactly one
    opened and then one closed entry of its own around whatever is piped; the
    closed entry carries the number of bytes read from and written to the
    user, and nothing is recorded. *)
Theorem port_forward_accounting (p : Proxier S) (nc : NewChannel) (env : chan_env) (t : fs)
    (req : directTCPIPRequest) :
  ChannelType nc = "direct-tcpip" → PermitsPortForwarding (p_rbac p) = true →
  parseDirectTCPIPRequest (ExtraData nc) = Some req →
  open_target env = Ret () → accept_ok env = true → p_auditSink p = true →
  ∃ a opened piped,
    (opened = pf_entry ActionPortForwardOpened a (pf_open_draw env) (JMap (pf_fields req))) ∧
    openedAt a = now (pf_open_draw env) ∧ pfReq a = req ∧ pfSessionID a = p_sessionID p ∧
    handleChannel p nc env t =
      (t, [OpenTarget "direct-tcpip" (ExtraData nc); AcceptUser; Append opened] ++ piped ++
          [Append (pf_entry ActionPortForwardClosed a (pf_close_draw env)
            (JMap (pf_fields req ++
              [("bytes_in", JInt (user_bytes (pipe env))); ("bytes_out", JInt (target_bytes (pipe env)));
               ("duration_seconds", round6 (Seconds (now (pf_close_draw env) - now (pf_open_draw env))))])))]).
Proof.
  intros Ht Hp Hreq Ho Ha Hs. unfold handleChannel. rewrite Ht, Hp, Ho, Ha. cbn [negb andb].
  rewrite bool_decide_eq_true_2 by done. cbn [negb andb]. unfold pf_auditor. rewrite Ht.
  rewrite bool_decide_eq_true_2, Hreq, Hs by done.
  unfold pf_open. cbn [pfSink negb pfSessionID pfAttr pfReq].
  assert (match p_sink p with
    | Some s => if bool_decide ("direct-tcpip" = "session")
        then Some (newChannelRecorder s (p_sessionID p) (p_user p) (p_host p) (p_attr p)) else None
    | None => None end = (None : option (channelRecorder S))) as -> by (by destruct (p_sink p)).
  set (st0 := {| ps_fs := t; ps_rec := None; bytesRead := 0; bytesWritten := 0; ps_trace := [] |}).
  destruct (pipe_run_no_rec p (pipe env) st0 eq_refl) as [Hr Hf].
  destruct (pipe_run_counts p (pipe env) st0) as [Hin Hout].
  rewrite Hr, Hf, Hin, Hout. unfold st0 at 1 2 3. cbn [ps_fs bytesRead bytesWritten].
  rewrite !Z.add_0_l. unfold pf_close. cbn [pfSink emitOpened negb orb openedAt pfReq].
  set (a := {| pfSink := true; pfSessionID := p_sessionID p; pfAttr := p_attr p; pfReq := req;
    openedAt := now (pf_open_draw env); emitOpened := true |}).
  exists a. eexists. exists (ps_trace (fold_left (pipe_step p) (pipe env) st0)).
  split; [reflexivity|]. do 3 (split; [done|]). cbn [fmap list_fmap]. rewrite app_nil_r. reflexivity.
Qed.

(** A session is recorded from its terminal request to its end.  On a
    session channel with a recording sink, let [r] be the first permitted
    [pty-req] that parses, and let the sink open file [f] for it.  Then when
    the channel ends, [f] holds the header and exactly the events of what
    followed: every chunk written to the user, every valid window change, none
    lost or reordered; and the audit stream gets one recording.completed entry,
    with the location and the session id, after everything else. *)
Theorem session_recorded (p : Proxier S) (nc : NewChannel) (env : chan_env) (t t1 : fs)
    (s : S) (pre post : list pipe_event) (r : Request) (e : req_env) (w h : Z)
    (f : list string) (loc : string) (rc0 : Recorder) :
  ChannelType nc = "session" → p_sink p = Some s → p_sessionID p ≠ "" →
  open_target env = Ret () → accept_ok env = true →
  pipe env = pre ++ UserRequest r e :: post →
  Forall (λ ev, starts p ev = false) pre →
  permitsRequest p (Type_ r) = true → Type_ r = "pty-req" → parsePTYReq (Payload r) = Ret (w, h) →
  sink_open s (now (start_draw e)) t
    {| SessionID := p_sessionID p; User := p_user p; Target := p_host p;
       Started := Some (now (start_draw e)) |} = (t1, Ret (Some f, loc)) →
  Recording.New (Some {| w_bytes := []; w_room := cast_room e |}) w h
    (p_user p +:+ "@" +:+ p_host p) (now (start_draw e)) = Ret rc0 →
  ∃ tr done_entry,
    handleChannel p nc env t = ((handleChannel p nc env t).1, tr ++ [Append done_entry]) ∧
    (handleChannel p nc env t).1 !! f =
      Some (File (w_bytes (encoded (rec_run rc0 (post ≫= rec_ops_of p))))) ∧
    Action done_entry = ActionRecordingComplete ∧ RecordingPath done_entry = loc ∧
    EntrySessionID done_entry = p_sessionID p ∧ EntryUser done_entry = p_user p.
Proof.
  intros Ht Hs Hsid Ho Ha Hpipe Hpre Hperm Hty Hparse Hopen Hnew.
  unfold handleChannel. rewrite Ht, Ho, Ha, Hs. cbn [negb andb].
  rewrite (bool_decide_eq_false_2 ("session" = "direct-tcpip")) by done. cbn [andb].
  rewrite (bool_decide_eq_true_2 ("session" = "session")) by done.
  unfold pf_auditor. rewrite Ht, bool_decide_eq_false_2 by done. cbn [pf_open].
  set (c0 := newChannelRecorder s (p_sessionID p) (p_user p) (p_host p) (p_attr p)).
  set (st0 := {| ps_fs := t; ps_rec := Some c0; bytesRead := 0; bytesWritten := 0; ps_trace := [] |}).
  rewrite Hpipe, fold_left_app. cbn [fold_left].
  destruct (idle_run p pre st0 c0 eq_refl eq_refl Hpre) as [Hrec Hfs].
  set (st1 := fold_left (pipe_step p) pre st0) in *. change (ps_fs st0) with t in Hfs.
  destruct (start_step p st1 c0 r e w h t1 f loc rc0) as [Hr2 Hf2]; [done..|by rewrite Hfs|done|].
  set (c1 := started_rec c0 (start_draw e) f loc rc0) in *.
  assert (ps_fs (pipe_step p st1 (UserRequest r e)) !! f = Some (File (w_bytes (encoded rc0)))) as Hf2'
    by (by rewrite Hf2, lookup_insert_eq).
  destruct (live_run p post _ c1 rc0 f Hr2 eq_refl eq_refl Hf2') as [Hr3 Hf3].
  rewrite Hr3. unfold CloseRec. cbn [set_rec rclosed c1 started_rec c0 newChannelRecorder rec].
  rewrite bool_decide_eq_true_2 by (by eexists). cbn [fst snd fmap list_fmap].
  do 2 eexists. split.
  - f_equal. rewrite !(assoc_L (++)). reflexivity.
  - split; [exact Hf3|]. done.
Qed.
End Properties.

(** C26: one recording per session id and day.  A second recorder of the same
    connection (another terminal channel: same session id) started on the same
    day, while the first cast exists in the local sink, always fails to open
    its file, and whatever the user is then shown on that channel changes no
    file: the channel is proxied unrecorded. *)
Theorem second_channel_unrecorded (t : fs) (root : list string)
    (c : channelRecorder LocalDirSink) (d : draw) (room : option nat) (w h : Z) (outs : list (Z * list ascii)) :
  alldir t root → sink c = LocalDir (path_string root) →
  rec c = None → rclosed c = false → sessionID c ≠ "" →
  let meta := {| SessionID := sessionID c; User := user c; Target := host c; Started := Some (now d) |} in
  alldir t (root ++ [format_day (now d)]) →
  is_Some (t !! cast_path root (now d) meta) →
  let '(t1, c1, res) := StartIfNeeded d room w h t c in
  t1 = t ∧
  res = Err (StartSink (CreateFailed (path_string (cast_path root (now d) meta)) ErrExist)) ∧
  fold_left (λ tc o, writeOutput o.1 o.2 tc.1 tc.2) outs (t1, c1) = (t, c1).
Proof.
  intros Hd Hs Hr Hcl Hid meta Hday [n Hn]. unfold StartIfNeeded. rewrite Hr, Hcl.
  rewrite bool_decide_eq_false_2 by (by intros [? ?]). cbn [orb].
  rewrite (bool_decide_eq_false_2 (sessionID c = "")) by done. rewrite Hs. cbn [sink_open LocalDirSink_sink].
  assert (t !! (root ++ [format_day (now d)]) = Some Dir) as Hdir.
  { destruct Hday as [_ Hday]. specialize (Hday _ (reflexivity _)). unfold node_at in Hday.
    by destruct root. }
  assert (OpenCast (path_string root) (now d) t meta =
    (t, Err (CreateFailed (path_string (cast_path root (now d) meta)) ErrExist))) as HO.
  { rewrite OpenCast_eq; [|done|done|].
    - change (format_day (default (now d) (Started meta))) with (format_day (now d)).
      by rewrite Hdir, Hn.
    - change (format_day (default (now d) (Started meta))) with (format_day (now d)).
      by rewrite Hdir. }
  fold meta. rewrite HO. cbn [obind]. split; [done|]. split; [done|].
  set (c1 := {| sink := _ |}). assert (rec c1 = None) as Hr1 by done. clearbody c1.
  induction outs as [|o outs IH]; [done|]. cbn [fold_left]. unfold writeOutput at 2, with_rec.
  cbn [fst snd]. rewrite Hr1. exact IH.
Qed.

(** ** Witnesses *)
Section Witnesses.
#[local] Existing Instance rfc_wire.

Definition attr1 : recordingAuditAttr :=
  {| Principals := "alice"; AttrTarget := "db-1:22"; RemoteUser := "alice"; ClientIP := "10.0.0.9" |}.
Definition proxier1 : Proxier LocalDirSink :=
  NewProxier None (Some (LocalDir (path_string root1))) "user:alice" "db-1:22" true "sess-1" attr1.

Definition tcpip1 : directTCPIPRequest :=
  {| DestHost := "db"; DestPort := 5432; OriginHost := "127.0.0.1"; OriginPort := 50000 |}.
Definition forward1 : NewChannel :=
  {| ChannelType := "direct-tcpip"; ExtraData := marshal_tcpip tcpip1 |}.
Definition draw1 : draw := {| uuid := "u1"; now := 1751328000000000000 |}.
Definition env1 (evs : list pipe_event) : chan_env :=
  {| open_target := Ret (); accept_ok := true; pf_open_draw := draw1; pf_close_draw := draw1;
     rec_close_draw := draw1; cast_close_err := None; pipe := evs |}.

Lemma port_forward_accounting_witness :
  ∃ a opened piped, openedAt a = now draw1 ∧ pfReq a = tcpip1 ∧
    (handleChannel proxier1 forward1 (env1 [UserChunk (chars "abc"); TargetChunk 0 (chars "de") 2]) ∅).2 =
      [OpenTarget "direct-tcpip" (marshal_tcpip tcpip1); AcceptUser; Append opened] ++ piped ++
      [Append (pf_entry ActionPortForwardClosed a draw1
        (JMap (pf_fields tcpip1 ++ [("bytes_in", JInt 3); ("bytes_out", JInt 2);
          ("duration_seconds", round6 (Seconds (now draw1 - now draw1)))])))].
Proof.
  destruct (port_forward_accounting proxier1 forward1
    (env1 [UserChunk (chars "abc"); TargetChunk 0 (chars "de") 2]) ∅ tcpip1
    ltac:(reflexivity) ltac:(vm_compute; reflexivity) ltac:(vm_compute; reflexivity)
    ltac:(reflexivity) ltac:(reflexivity) ltac:(reflexivity))
    as (a & o & piped & _ & Ha & Hr & _ & Hh).
  exists a, o, piped. split; [exact Ha|]. split; [exact Hr|]. rewrite Hh. reflexivity.
Defined.

Definition pty1 : ptyRequestMsg :=
  {| Term := "xterm"; Cols := 80; Rows := 24; WidthPixels := 0; HeightPixels := 0; Modes := "" |}.
Definition ptyreq1 : Request := {| Type_ := "pty-req"; WantReply := true; Payload := marshal_pty pty1 |}.
Definition reqenv1 : req_env := {| send := Ret true; start_draw := draw1; cast_room := None; subsystem_draw := draw1 |}.
Definition meta2 : CastMeta :=
  {| SessionID := "sess-1"; User := "user:alice"; Target := "db-1:22"; Started := Some (now draw1) |}.
Definition rec2 : Recorder :=
  {| header := {| Version := 2; Width := 80; Height := 24; Timestamp := 1751328000;
                  Title := "user:alice@db-1:22" |};
     started := now draw1;
     encoded := {| w_bytes := Marshal (header_json {| Version := 2; Width := 80; Height := 24;
                     Timestamp := 1751328000; Title := "user:alice@db-1:22" |}) ++ newline;
                   w_room := None |};
     closed := false |}.
Definition session1 : NewChannel := {| ChannelType := "session"; ExtraData := [] |}.

Lemma sink_open1 :
  (sink_open (LocalDir (path_string root1)) (now draw1) fs1 meta2).2 =
  Ret (Some (cast_path root1 0 meta2), path_string (cast_path root1 0 meta2)).
Proof. vm_compute. reflexivity. Qed.

Lemma session_recorded_witness :
  ∃ tr d, (handleChannel proxier1 session1
    (env1 [UserRequest ptyreq1 reqenv1; TargetChunk 9 (chars "hi") 2]) fs1).2 = tr ++ [Append d] ∧
    RecordingPath d = path_string (cast_path root1 0 meta2).
Proof.
  destruct (session_recorded proxier1 session1
    (env1 [UserRequest ptyreq1 reqenv1; TargetChunk 9 (chars "hi") 2]) fs1
    (sink_open (LocalDir (path_string root1)) (now draw1) fs1 meta2).1
    (LocalDir (path_string root1)) [] [TargetChunk 9 (chars "hi") 2] ptyreq1 reqenv1 80 24
    (cast_path root1 0 meta2) (path_string (cast_path root1 0 meta2)) rec2)
    as (tr & d & Hh & _ & _ & Hl & _).
  - reflexivity.
  - reflexivity.
  - discriminate.
  - reflexivity.
  - reflexivity.
  - reflexivity.
  - constructor.
  - vm_compute. reflexivity.
  - reflexivity.
  - vm_compute. reflexivity.
  - apply pair_snd, sink_open1.
  - vm_compute. reflexivity.
  - exists tr, d. rewrite Hh. split; [reflexivity|exact Hl].
Defined.

(** The store once the first channel of the session records. *)
Definition day1 : list string := root1 ++ ["2025-07-01"].
Definition fs2 : fs := <[cast_path root1 0 meta2 := File []]> (<[day1 := Dir]> fs1).
Definition recorder2 : channelRecorder LocalDirSink :=
  newChannelRecorder (LocalDir (path_string root1)) "sess-1" "user:alice" "db-1:22" attr1.

Lemma fs2_day1 : alldir fs2 day1.
Proof.
  apply (alldir_snoc fs2 root1 "2025-07-01").
  - eapply alldir_sub; [|exact root1_alldir]. unfold fs2. etrans.
    + apply (insert_subseteq fs1 day1 Dir). vm_compute. reflexivity.
    + apply insert_subseteq. vm_compute. reflexivity.
  - apply (bool_decide_unpack _). vm_compute. exact I.
  - vm_compute. reflexivity.
Qed.

Lemma second_channel_unrecorded_witness :
  (StartIfNeeded draw1 None 80 24 fs2 recorder2).2 =
  Err (StartSink (CreateFailed (path_string (cast_path root1 (now draw1) meta2)) ErrExist)).
Proof.
  pose proof (second_channel_unrecorded fs2 root1 recorder2 draw1 None 80 24 []) as H.
  cbv zeta in H.
  assert (alldir fs2 root1) as H1 by (exact (alldir_app_l fs2 root1 ["2025-07-01"] fs2_day1)).
  assert (format_day (now draw1) = "2025-07-01") as Hd by (vm_compute; reflexivity).
  rewrite Hd in H.
  specialize (H H1 eq_refl eq_refl eq_refl ltac:(discriminate) fs2_day1).
  destruct (StartIfNeeded draw1 None 80 24 fs2 recorder2) as [[t1 c1] res].
  apply H. eexists. vm_compute. reflexivity.
Defined.
End Witnesses.
