(* ===== verification/Channels.v ===== *)
(** * Package [session]: channels served at the same time

    [HandleNewChannels] of [internal/proxyd/session/proxy.go]: every channel a
    client opens is proxied on a goroutine of its own, and the channels of all
    the connections the server is serving share the recording store.  A
    goroutine is the code of [handleChannel] cut where it waits for a peer; a
    schedule is any sequence of receipts of new channels and of steps of
    goroutines.  [Channel] says what one [handleChannel] does alone; here is
    what survives the others. *)

From Stdlib Require Import ZArith Lia Ascii.
From stdpp Require Import prelude strings gmap list.
From S2P Require Import Prelude GoStrings GoTime Json GoCalendar GoOs Recording Rbac GoSsh AuditLog Channel.

Local Open Scope Z_scope.

(** A channel a client opens, with the proxier of its connection and what its
    peers answer. *)
Definition channel (S : Type) : Type := Proxier S * NewChannel * chan_env.

(** What the goroutine of a channel has left to do. *)
Inductive goroutine (S : Type) :=
  | Begin
  | Accepting
  | Accepted
  | Piping (pf : option portForwardAuditor) (rc : option (channelRecorder S)) (bytesIn bytesOut : Z)
      (todo : list pipe_event)
  | Closing (rc : option (channelRecorder S))
  | Done.
Definition proxier_of {S} (c : channel S) : Proxier S := c.1.1.
Arguments Begin {S}. Arguments Accepting {S}. Arguments Accepted {S}.
Arguments Piping {S}. Arguments Closing {S}. Arguments Done {S}.

Definition is_done {S} (g : goroutine S) : bool := match g with Done => true | _ => false end.

(** The recorder of a goroutine, and the file of the store it writes to. *)
Definition recorder_of {S} (g : goroutine S) : option (channelRecorder S) :=
  match g with Piping _ rc _ _ _ | Closing rc => rc | _ => None end.
Definition rec_file {S} (rc : option (channelRecorder S)) : option (list string) :=
  match rc with Some c => default None (cast c) | None => None end.
Definition cast_file {S} (g : goroutine S) : option (list string) := rec_file (recorder_of g).

Definition steps_left {S} (c : channel S) (g : goroutine S) : nat :=
  let n := length (pipe c.2) in
  match g with
  | Begin => 5 + n | Accepting => 4 + n | Accepted => 3 + n
  | Piping _ _ _ _ todo => 2 + length todo
  | Closing _ => 1 | Done => 0
  end.

Record conn_state (S : Type) := {
  cs_fs : fs;
  cs_inbox : list (channel S);
  cs_running : list (channel S * goroutine S);
  cs_trace : list (nat * action)
}.
Arguments cs_fs {S}. Arguments cs_inbox {S}. Arguments cs_running {S}. Arguments cs_trace {S}.

(** [range chans] receives a channel and starts its goroutine, or the goroutine
    of the [i]-th channel steps. *)
Inductive move := Receive | Run (i : nat).

Section Goroutines.
Context {W : SshWire} {S : Type} `{CastSink S}.
Implicit Types (p : Proxier S) (t : fs) (g : goroutine S) (st : conn_state S).

Definition channel_recorder p (nc : NewChannel) : option (channelRecorder S) :=
  match p_sink p with
  | Some s => if bool_decide (ChannelType nc = "session")
              then Some (newChannelRecorder s (p_sessionID p) (p_user p) (p_host p) (p_attr p)) else None
  | None => None
  end.

(** [handleChannel] between two points where it waits for a peer. *)
Definition goroutine_step (c : channel S) g t : option (goroutine S * fs * list action) :=
  let '(p, nc, env) := c in
  match g with
  | Begin =>
      if bool_decide (ChannelType nc = "direct-tcpip") && negb (PermitsPortForwarding (p_rbac p))
      then Some (Done, t, [Reject Prohibited "port forwarding not permitted by cert"])
      else
        let opened := OpenTarget (ChannelType nc) (ExtraData nc) in
        match open_target env with
        | Err e => let '(reason, msg) := openChannelRejection e in Some (Done, t, [opened; Reject reason msg])
        | Panic => Some (Done, t, [opened])
        | Ret _ => Some (Accepting, t, [opened])
        end
  | Accepting => if accept_ok env then Some (Accepted, t, [AcceptUser]) else Some (Done, t, [CloseTarget])
  | Accepted =>
      let '(pf, a) := pf_open (pf_open_draw env) (pf_auditor p nc) in
      Some (Piping pf (channel_recorder p nc) 0 0 (pipe env), t, Append <$> a)
  | Piping pf rc bi bo (ev :: todo) =>
      let st := pipe_step p {| ps_fs := t; ps_rec := rc; bytesRead := bi; bytesWritten := bo; ps_trace := [] |} ev in
      Some (Piping pf (ps_rec st) (bytesRead st) (bytesWritten st) todo, ps_fs st, ps_trace st)
  | Piping pf rc bi bo [] =>
      (* the deferred calls run last in, first out *)
      Some (Closing rc, t, Append <$> pf_close (pf_close_draw env) bi bo pf)
  | Closing rc =>
      Some (Done, t, match rc with
        | Some r => Append <$> (CloseRec (rec_close_draw env) (cast_close_err env) r).1.2
        | None => []
        end)
  | Done => None
  end.

Definition conn_step st (m : move) : conn_state S :=
  match m with
  | Receive =>
      match cs_inbox st with
      | [] => st
      | c :: rest => {| cs_fs := cs_fs st; cs_inbox := rest;
                        cs_running := cs_running st ++ [(c, Begin)]; cs_trace := cs_trace st |}
      end
  | Run i =>
      match cs_running st !! i with
      | None => st
      | Some (c, g) =>
          match goroutine_step c g (cs_fs st) with
          | None => st
          | Some (g', t, a) =>
              {| cs_fs := t; cs_inbox := cs_inbox st; cs_running := <[i := (c, g')]> (cs_running st);
                 cs_trace := cs_trace st ++ ((λ x, (i, x)) <$> a) |}
          end
      end
  end.

Definition conn_run (ms : list move) st : conn_state S := fold_left conn_step ms st.
Definition conn_start (chans : list (channel S)) t : conn_state S :=
  {| cs_fs := t; cs_inbox := chans; cs_running := []; cs_trace := [] |}.

(** [wg.Wait] returns: every channel was received and its goroutine is done. *)
Definition returned st : Prop := cs_inbox st = [] ∧ Forall (λ cg, cg.2 = Done) (cs_running st).

(** A move that is enabled as long as [wg.Wait] blocks. *)
Definition next_move st : option move :=
  match cs_inbox st with
  | _ :: _ => Some Receive
  | [] => Run ∘ fst <$> list_find (λ cg, is_done cg.2 = false) (cs_running st)
  end.
Fixpoint conn_drain (n : nat) st : conn_state S :=
  match n with
  | O => st
  | Datatypes.S n => match next_move st with Some m => conn_drain n (conn_step st m) | None => st end
  end.

(** How many moves are left, whatever the schedule. *)
Definition conn_work st : nat :=
  sum_list_with (λ c, Datatypes.S (steps_left c (Begin : goroutine S))) (cs_inbox st) +
  sum_list_with (λ cg, steps_left cg.1 cg.2) (cs_running st).

(** [HandleNewChannels] under the schedule [ms]; what the schedule leaves
    undone is done at the end, since the call waits for it. *)
Definition of_conn p (chans : list (NewChannel * chan_env)) : list (channel S) :=
  (λ c, (p, c.1, c.2)) <$> chans.
Definition HandleNewChannels p (chans : list (NewChannel * chan_env)) (ms : list move) t
    : fs * list (nat * action) :=
  let st := conn_run ms (conn_start (of_conn p chans) t) in
  let st := conn_drain (conn_work st) st in
  (cs_fs st, cs_trace st).

(** What channel [i] did. *)
Definition of_chan (i : nat) (tr : list (nat * action)) : list action :=
  omap (λ x, if bool_decide (x.1 = i) then Some x.2 else None) tr.
End Goroutines.

(** ** Termination *)
Lemma sum_list_with_insert {A} (f : A → nat) (l : list A) i x y :
  l !! i = Some x → (sum_list_with f (<[i := y]> l) + f x = sum_list_with f l + f y)%nat.
Proof.
  revert i. induction l as [|z l IH]; intros [|i] Hi; simplify_eq/=; [lia|].
  specialize (IH i Hi). lia.
Qed.

Section Termination.
Context {W : SshWire} {S : Type} `{CastSink S}.
Implicit Types (p : Proxier S) (t : fs) (g : goroutine S) (st : conn_state S) (c : channel S).

Lemma goroutine_step_left c g t g' t' a :
  goroutine_step c g t = Some (g', t', a) → (steps_left c g' < steps_left c g)%nat.
Proof.
  destruct c as [[p nc] env]. destruct g as [| | |pf rc bi bo [|ev todo]|rc|]; cbn -[pipe_step pf_open].
  - destruct (_ && _); [intros; simplify_eq/=; lia|].
    destruct (open_target env) as [|e|]; [|destruct (openChannelRejection e)|];
      intros; simplify_eq/=; lia.
  - destruct (accept_ok env); intros; simplify_eq/=; lia.
  - destruct (pf_open _ _). intros; simplify_eq/=; lia.
  - intros; simplify_eq/=; lia.
  - intros; simplify_eq/=; lia.
  - intros; simplify_eq/=; lia.
  - done.
Qed.

Lemma goroutine_step_stuck c g t : goroutine_step c g t = None ↔ g = Done.
Proof.
  destruct c as [[p nc] env]. split; [|by intros ->].
  destruct g as [| | |pf rc bi bo [|ev todo]|rc|]; cbn -[pipe_step pf_open]; try done.
  - destruct (_ && _); [done|].
    destruct (open_target env) as [|e|]; [done|by destruct (openChannelRejection e)|done].
  - by destruct (accept_ok env).
  - by destruct (pf_open _ _).
Qed.

(** A move does nothing, or takes one of finitely many steps. *)
Lemma conn_step_work st m : conn_step st m = st ∨ (conn_work (conn_step st m) < conn_work st)%nat.
Proof.
  unfold conn_work. destruct m as [|i]; cbn [conn_step].
  - destruct (cs_inbox st) as [|c rest]; [by left|right]. cbn [cs_inbox cs_running].
    rewrite sum_list_with_app. cbn. lia.
  - destruct (cs_running st !! i) as [[c g]|] eqn:Hi; [|by left].
    destruct (goroutine_step c g (cs_fs st)) as [[[g' t'] a]|] eqn:Hs; [right|by left].
    apply goroutine_step_left in Hs. cbn [cs_inbox cs_running].
    pose proof (sum_list_with_insert (λ cg, steps_left cg.1 cg.2) _ i _ (c, g') Hi) as Hsum.
    cbn in *. lia.
Qed.

Lemma next_move_None st : next_move st = None → returned st.
Proof.
  unfold next_move, returned. destruct (cs_inbox st); [|done]. intros Hn. split; [done|].
  apply fmap_None, list_find_None in Hn. eapply Forall_impl; [exact Hn|].
  intros [c g]. by destruct g.
Qed.

Lemma next_move_work st m : next_move st = Some m → (conn_work (conn_step st m) < conn_work st)%nat.
Proof.
  unfold next_move. intros Hm. destruct (conn_step_work st m) as [Hid|]; [exfalso|done].
  destruct (cs_inbox st) as [|c rest] eqn:Hin.
  - apply fmap_Some in Hm as ([i [c g]] & Hf & ->). apply list_find_Some in Hf as (Hi & Hd & _).
    cbn in Hid. rewrite Hi in Hid.
    destruct (goroutine_step c g (cs_fs st)) as [[[g' t'] a]|] eqn:Hs.
    + apply goroutine_step_left in Hs. apply (f_equal cs_running) in Hid. cbn in Hid.
      assert (<[i := (c, g')]> (cs_running st) !! i = Some (c, g')) as Hg.
      { apply list_lookup_insert_eq. by eapply lookup_lt_Some. }
      rewrite Hid, Hi in Hg. simplify_eq. lia.
    + apply goroutine_step_stuck in Hs as ->. done.
  - simplify_eq. cbn in Hid. rewrite Hin in Hid. apply (f_equal cs_inbox) in Hid. cbn in Hid.
    rewrite Hin in Hid. by apply (f_equal length) in Hid; cbn in Hid; lia.
Qed.

Lemma conn_drain_returned n st : (conn_work st ≤ n)%nat → returned (conn_drain n st).
Proof.
  revert st. induction n as [|n IH]; intros st Hn; cbn [conn_drain].
  - destruct (next_move st) as [m|] eqn:Hm; [|by apply next_move_None].
    pose proof (next_move_work st m Hm). lia.
  - destruct (next_move st) as [m|] eqn:Hm; [|by apply next_move_None].
    apply IH. pose proof (next_move_work st m Hm). lia.
Qed.

(** Draining is a schedule, so what holds under every schedule holds at the end. *)
Lemma conn_drain_run n st : ∃ ms, conn_drain n st = conn_run ms st.
Proof.
  revert st. induction n as [|n IH]; intros st; cbn [conn_drain]; [by exists []|].
  destruct (next_move st) as [m|]; [|by exists []].
  destruct (IH (conn_step st m)) as [ms ->]. by exists (m :: ms).
Qed.

Lemma HandleNewChannels_run p chans ms t :
  ∃ ms', let st := conn_run (ms ++ ms') (conn_start (of_conn p chans) t) in
    HandleNewChannels p chans ms t = (cs_fs st, cs_trace st) ∧ returned st.
Proof.
  set (st := conn_run ms (conn_start (of_conn p chans) t)).
  destruct (conn_drain_run (conn_work st) st) as [ms' Hd]. exists ms'.
  unfold conn_run. rewrite fold_left_app. fold (conn_run ms (conn_start (of_conn p chans) t)). fold st.
  unfold HandleNewChannels. fold st. rewrite Hd. split; [done|].
  change (returned (conn_run ms' st)). rewrite <- Hd. by apply conn_drain_returned.
Qed.
End Termination.

(** ** From one goroutine to the connection *)
Arguments of_chan : simpl never.
Arguments HandleNewChannels : simpl never.

Lemma of_chan_app i tr tr' : of_chan i (tr ++ tr') = of_chan i tr ++ of_chan i tr'.
Proof. apply omap_app. Qed.

Lemma of_chan_own i (a : list action) : of_chan i ((λ x, (i, x)) <$> a) = a.
Proof.
  induction a as [|x a IH]; [done|]. unfold of_chan in *. csimpl.
  rewrite bool_decide_eq_true_2 by done. by f_equal.
Qed.

Lemma of_chan_other i j (a : list action) : i ≠ j → of_chan i ((λ x, (j, x)) <$> a) = [].
Proof.
  intros Hij. induction a as [|x a IH]; [done|]. unfold of_chan in *. csimpl.
  by rewrite bool_decide_eq_false_2.
Qed.

Section Lifting.
Context {W : SshWire} {S : Type} `{CastSink S}.
Implicit Types (p : Proxier S) (t : fs) (g : goroutine S) (st : conn_state S) (c : channel S).

Lemma conn_run_snoc ms m st : conn_run (ms ++ [m]) st = conn_step (conn_run ms st) m.
Proof. unfold conn_run. by rewrite fold_left_app. Qed.

Lemma conn_run_app ms ms' st : conn_run (ms ++ ms') st = conn_run ms' (conn_run ms st).
Proof. unfold conn_run. by rewrite fold_left_app. Qed.

(** An effective step of goroutine [i]. *)
Lemma conn_step_Run st i c g g' t' a :
  cs_running st !! i = Some (c, g) → goroutine_step c g (cs_fs st) = Some (g', t', a) →
  conn_step st (Run i) =
    {| cs_fs := t'; cs_inbox := cs_inbox st; cs_running := <[i := (c, g')]> (cs_running st);
       cs_trace := cs_trace st ++ ((λ x, (i, x)) <$> a) |}.
Proof. intros Hi Hs. cbn. by rewrite Hi, Hs. Qed.

(** Every channel is received once, in order. *)
Lemma conn_run_channels ms chans t :
  let st := conn_run ms (conn_start chans t) in (cs_running st).*1 ++ cs_inbox st = chans.
Proof.
  cbv zeta. induction ms as [|m ms IH] using rev_ind; [done|]. rewrite conn_run_snoc.
  set (st := conn_run ms _) in *. destruct m as [|i]; cbn [conn_step].
  - destruct (cs_inbox st) as [|c rest] eqn:Hin; [by rewrite Hin|]. cbn. rewrite fmap_app. cbn.
    by rewrite <- (assoc_L (++)).
  - destruct (cs_running st !! i) as [[c g]|] eqn:Hi; [|done].
    destruct (goroutine_step c g (cs_fs st)) as [[[g' t'] a]|]; [|done]. cbn.
    rewrite list_fmap_insert. cbn. rewrite list_insert_id; [done|].
    by rewrite list_lookup_fmap, Hi.
Qed.

Lemma trace_of_running ms chans t x :
  let st := conn_run ms (conn_start chans t) in
  x ∈ cs_trace st → (x.1 < length (cs_running st))%nat.
Proof.
  cbv zeta. induction ms as [|m ms IH] using rev_ind; [set_solver|]. rewrite conn_run_snoc.
  set (st := conn_run ms _) in *. destruct m as [|i]; cbn [conn_step].
  - destruct (cs_inbox st); [done|]. cbn. intros Hx. rewrite length_app. specialize (IH Hx). lia.
  - destruct (cs_running st !! i) as [[c g]|] eqn:Hi; [|done].
    destruct (goroutine_step c g (cs_fs st)) as [[[g' t'] a]|]; [|done]. cbn.
    intros [Hx|Hx]%elem_of_app; rewrite length_insert; [by apply IH|].
    apply list_elem_of_fmap in Hx as (y & -> & _). cbn. by eapply lookup_lt_Some.
Qed.

Lemma of_chan_fresh i tr : (∀ x, x ∈ tr → (x.1 < i)%nat) → of_chan i tr = [].
Proof.
  unfold of_chan. intros Hlt. induction tr as [|x tr IHt]; [done|]. csimpl.
  rewrite bool_decide_eq_false_2 by (specialize (Hlt x ltac:(by left)); lia).
  apply IHt. intros y Hy. apply Hlt. by right.
Qed.

(** When the call returns, every channel was served to its end. *)
Lemma returned_channel ms chans t i c :
  let st := conn_run ms (conn_start chans t) in
  returned st → chans !! i = Some c → cs_running st !! i = Some (c, Done).
Proof.
  cbv zeta. intros [Hin Hdone] Hi. pose proof (conn_run_channels ms chans t) as Hc. cbv zeta in Hc.
  rewrite Hin, app_nil_r in Hc. rewrite <- Hc, list_lookup_fmap in Hi.
  apply fmap_Some in Hi as ([c' g] & Hi & ->). rewrite Forall_lookup in Hdone.
  pose proof (Hdone _ _ Hi) as Hg. cbn in Hg. by subst g.
Qed.

(** What a goroutine knows of itself and of its own past holds in every
    connection, when its own steps preserve it. *)
Lemma local_invariant (I : channel S → goroutine S → list action → Prop) :
  (∀ c, I c Begin []) →
  (∀ c g tr t g' t' a, I c g tr → goroutine_step c g t = Some (g', t', a) → I c g' (tr ++ a)) →
  ∀ ms chans t i c g, let st := conn_run ms (conn_start chans t) in
    cs_running st !! i = Some (c, g) → I c g (of_chan i (cs_trace st)).
Proof.
  intros H0 Hstep ms chans t. cbv zeta. induction ms as [|m ms IH] using rev_ind; [done|].
  pose proof (trace_of_running ms chans t) as Hlt. rewrite conn_run_snoc.
  set (st := conn_run ms _) in *. cbv zeta in Hlt.
  intros i c g. destruct m as [|j]; cbn [conn_step].
  - destruct (cs_inbox st) as [|c' rest]; [apply IH|]. cbn. rewrite lookup_app_Some.
    intros [Hi|[Hge Hi]]; [by apply IH|]. apply list_lookup_singleton_Some in Hi as [Hi [= <- <-]].
    rewrite of_chan_fresh; [apply H0|]. intros x Hx%Hlt. lia.
  - destruct (cs_running st !! j) as [[c' g']|] eqn:Hj; [|apply IH].
    destruct (goroutine_step c' g' (cs_fs st)) as [[[g2 t2] a]|] eqn:Hs; [|apply IH].
    cbn. rewrite of_chan_app. destruct (decide (i = j)) as [->|Hne].
    + rewrite list_lookup_insert_eq by (by eapply lookup_lt_Some). intros [= <- <-].
      rewrite of_chan_own. eapply Hstep; [|exact Hs]. by apply IH.
    + rewrite list_lookup_insert_ne by done. rewrite of_chan_other, app_nil_r by done. apply IH.
Qed.
End Lifting.

(** ** What a channel writes to the store *)
Section Store.
Context {W : SshWire} {S : Type} `{CastSinkLaws S}.
Implicit Types (p : Proxier S) (t : fs) (g : goroutine S) (c : channelRecorder S).

(** A step of the owner of file [o], owner of [o'] afterwards: it only changes
    its own file, removes none, and a file it comes to own is new. *)
Definition is_file t (f : list string) : Prop := ∃ b, t !! f = Some (File b).
Record store_step (o o' : option (list string)) (t t' : fs) : Prop := {
  ss_frame f x : o ≠ Some f → t !! f = Some x → t' !! f = Some x;
  ss_file f : is_file t f → is_file t' f;
  ss_owner f : o' = Some f → o = Some f ∨ t !! f = None ∧ is_file t' f
}.

Lemma is_file_sync t (k : option (list string)) w f : is_file t f → is_file (sync t k w) f.
Proof.
  destruct k as [f'|]; [|done]. intros [y Hy]. cbn [sync]. destruct (decide (f' = f)) as [->|Hne].
  - eexists. by apply lookup_insert_eq.
  - exists y. by rewrite lookup_insert_ne.
Qed.

Lemma store_step_idle o o' t : (∀ f, o' = Some f → o = Some f) → store_step o o' t t.
Proof. intros Ho. split; [done|done|]. intros f Hf. left. by apply Ho. Qed.

Lemma store_step_grow o t t' : t ⊆ t' → store_step o o t t'.
Proof.
  intros Hsub. split; [intros f x _ Hf; by eapply lookup_weaken| |by left].
  intros f [b Hb]. exists b. by eapply lookup_weaken.
Qed.

(** A new file [k] (or none) is created and written, and owned or given up. *)
Lemma store_step_created o o' t t' (k : option (list string)) w :
  t ⊆ t' → (∀ f, k = Some f → t !! f = None) → o' = o ∨ o' = k →
  store_step o o' t (sync t' k w).
Proof.
  intros Hsub Hn Ho. split.
  - intros f y _ Hf. destruct k as [f'|]; cbn [sync]; [|by eapply lookup_weaken].
    rewrite lookup_insert_ne; [by eapply lookup_weaken|]. specialize (Hn f' eq_refl). congruence.
  - intros f [y Hy]. apply is_file_sync. exists y. by eapply lookup_weaken.
  - intros f ->. destruct Ho as [<-|<-]; [by left|]. right. split; [by apply Hn|].
    eexists. by apply lookup_insert_eq.
Qed.

Lemma store_step_sync o t (k : option (list string)) rc :
  k = o → store_step o o t (sync t k rc).
Proof.
  intros ->. destruct o as [f'|]; [|by apply store_step_idle]. cbn [sync]. split.
  - intros f x Hne Hf. by rewrite lookup_insert_ne by congruence.
  - intros f Hf. by apply (is_file_sync _ (Some f')).
  - by left.
Qed.

Lemma with_rec_store t c h :
  store_step (rec_file (Some c)) (rec_file (Some (with_rec t c h).2)) t (with_rec t c h).1.
Proof.
  unfold with_rec. destruct (rec c) as [rc|]; [|by apply store_step_idle]. cbn [fst snd rec_file cast].
  destruct (cast c) as [k|]; cbn; [by apply store_step_sync|by apply store_step_idle].
Qed.

Lemma StartIfNeeded_store d room w h t c :
  let '(t', c', _) := StartIfNeeded d room w h t c in store_step (rec_file (Some c)) (rec_file (Some c')) t t'.
Proof.
  unfold StartIfNeeded. destruct (_ || _); [by apply store_step_idle|].
  set (meta := {| SessionID := _ |}).
  pose proof (sink_open_sub (sink c) (now d) t meta) as Hsub.
  pose proof (sink_open_new (sink c) (now d) t meta) as Hnew.
  destruct (sink_open (sink c) (now d) t meta) as [t1 [[k loc]|e|]]; cbn [fst] in Hsub;
    [|by apply store_step_grow..].
  assert (∀ f, k = Some f → t !! f = None) as Hk.
  { intros f ->. by destruct (Hnew t1 f loc eq_refl) as (_ & ? & _). }
  cbv zeta. destruct (Recording.New _ w h _ (now d)) as [rc|e|]; apply store_step_created; auto.
Qed.

Lemma handle_request_store p r e t rc :
  let '(t', rc', _) := handle_request p r e t rc in store_step (rec_file rc) (rec_file rc') t t'.
Proof.
  unfold handle_request. destruct (permitsRequest p (Type_ r)); cbn [negb]; [|by apply store_step_idle].
  assert (store_step (rec_file rc) (rec_file (peek_recording r e t rc).2) t (peek_recording r e t rc).1) as Hk.
  { unfold peek_recording. destruct rc as [c|]; [|by apply store_step_idle]. case_bool_decide.
    - destruct (parsePTYReq (Payload r)) as [[w h]| |]; [|by apply store_step_idle..].
      pose proof (StartIfNeeded_store (start_draw e) (cast_room e) w h t c) as Hs.
      by destruct (StartIfNeeded _ _ _ _ _ _) as [[t' c'] res].
    - case_bool_decide; [|by apply store_step_idle].
      destruct (parseWindowChange (Payload r)) as [[w h]| |]; [|by apply store_step_idle..].
      pose proof (with_rec_store t c (Resize (now (start_draw e)) w h)) as Hs. unfold ResizeRec.
      by destruct (with_rec t c _). }
  by destruct (peek_recording r e t rc).
Qed.

Lemma pipe_step_store p st ev :
  store_step (rec_file (ps_rec st)) (rec_file (ps_rec (pipe_step p st ev))) (ps_fs st) (ps_fs (pipe_step p st ev)).
Proof.
  unfold pipe_step, recordingTee_Write; destruct ev as [r e|tnow b n|b]; cbn [pipe_step].
  - pose proof (handle_request_store p r e (ps_fs st) (ps_rec st)) as Hs.
    by destruct (handle_request p r e _ _) as [[t rc] a].
  - destruct (ps_rec st) as [c|]; [|by apply store_step_idle].
    case_bool_decide; [|by apply store_step_idle].
    pose proof (with_rec_store (ps_fs st) c (Output tnow (take n b))) as Hs. unfold writeOutput.
    by destruct (with_rec (ps_fs st) c _).
  - by apply store_step_idle.
Qed.

Lemma goroutine_step_store (c : channel S) g t g' t' a :
  goroutine_step c g t = Some (g', t', a) → store_step (cast_file g) (cast_file g') t t'.
Proof.
  destruct c as [[p nc] env]. destruct g as [| | |pf rc bi bo [|ev todo]|rc|]; cbn -[pipe_step pf_open CloseRec].
  - destruct (_ && _); [intros; simplify_eq; by apply store_step_idle|].
    destruct (open_target env) as [|e|]; [|destruct (openChannelRejection e)|];
      intros; simplify_eq; by apply store_step_idle.
  - destruct (accept_ok env); intros; simplify_eq; by apply store_step_idle.
  - destruct (pf_open _ _). intros; simplify_eq. apply store_step_idle.
    unfold cast_file, channel_recorder. cbn. destruct (p_sink p); [|done]. by case_bool_decide.
  - intros; simplify_eq. by apply store_step_idle.
  - intros; simplify_eq. apply (pipe_step_store p {| ps_rec := rc |}).
  - intros; simplify_eq. by apply store_step_idle.
  - done.
Qed.
End Store.

(** ** Whose recorder, and whose session *)
Definition action_entry (a : action) : option Entry := match a with Append x => Some x | _ => None end.
Definition of_session (sid : string) (es : list Entry) : Prop := Forall (λ e, EntrySessionID e = sid) es.

Lemma omap_action_entry (es : list Entry) : omap action_entry (Append <$> es) = es.
Proof. induction es as [|e es IH]; [done|]. csimpl. by rewrite IH. Qed.

Section Ownership.
Context {W : SshWire} {S : Type} `{CastSink S}.
Implicit Types (p : Proxier S) (c : channelRecorder S) (t : fs).

(** A recorder keeps the identity the proxier gave it, and is open. *)
Definition own_rec p (rc : option (channelRecorder S)) : Prop :=
  match rc with
  | Some c => p_sink p = Some (sink c) ∧ sessionID c = p_sessionID p ∧ user c = p_user p ∧
              host c = p_host p ∧ sessionAttr c = p_attr p ∧ rclosed c = false
  | None => True
  end.

Lemma channel_recorder_own p nc : own_rec p (channel_recorder p nc).
Proof. unfold channel_recorder. destruct (p_sink p) eqn:Hs; [|done]. by case_bool_decide. Qed.

Lemma with_rec_own p t c h : own_rec p (Some c) → own_rec p (Some (with_rec t c h).2).
Proof. unfold with_rec. by destruct (rec c). Qed.

Lemma StartIfNeeded_own p d room w h t c :
  p_sessionID p ≠ "" → own_rec p (Some c) → own_rec p (Some (StartIfNeeded d room w h t c).1.2).
Proof.
  intros Hne Hc. unfold StartIfNeeded. destruct (_ || _); [done|].
  destruct Hc as (Hs & Hid & Hu & Hh & Ha & Hcl). rewrite bool_decide_eq_false_2 by congruence.
  destruct (sink_open _ _ _ _) as [t' [[f loc]|e|]]; [|done..].
  by match goal with |- context [match ?x with Ret _ => _ | Err _ => _ | Panic => _ end] => destruct x end.
Qed.

(** The entries a request causes: of the session, and never the end of a
    recording. *)
Definition request_entries p (a : list action) : Prop :=
  Forall (λ e, EntrySessionID e = p_sessionID p ∧ Action e ≠ ActionRecordingComplete) (omap action_entry a).

Lemma handle_request_own p r e t rc :
  p_sessionID p ≠ "" → own_rec p rc →
  own_rec p (handle_request p r e t rc).1.2 ∧ request_entries p (handle_request p r e t rc).2.
Proof.
  intros Hne Hrc. unfold handle_request, request_entries.
  destruct (permitsRequest p (Type_ r)); cbn [negb]; [|by destruct (WantReply r)].
  assert (own_rec p (peek_recording r e t rc).2) as Hk.
  { unfold peek_recording. destruct rc as [c|]; [|done]. case_bool_decide.
    - destruct (parsePTYReq (Payload r)) as [[w h]| |]; [|done..].
      pose proof (StartIfNeeded_own p (start_draw e) (cast_room e) w h t c Hne Hrc).
      by destruct (StartIfNeeded _ _ _ _ _ _) as [[t' c'] res].
    - case_bool_decide; [|done]. destruct (parseWindowChange (Payload r)) as [[w h]| |]; [|done..].
      pose proof (with_rec_own p t c (Resize (now (start_draw e)) w h) Hrc) as Hs.
      unfold ResizeRec. by destruct (with_rec t c _). }
  destruct (peek_recording r e t rc) as [t' rc']. split; [done|]. cbn [snd].
  rewrite omap_app. apply Forall_app. split; [|by destruct (WantReply r); constructor].
  destruct (detectSubsystem r) as [[k cmd]|]; [|constructor]. unfold emitSubsystemOpened.
  destruct (p_auditSink p); cbn; [|constructor]. by repeat constructor.
Qed.

Lemma pipe_step_own p st ev :
  p_sessionID p ≠ "" → own_rec p (ps_rec st) → ps_trace st = [] →
  own_rec p (ps_rec (pipe_step p st ev)) ∧ request_entries p (ps_trace (pipe_step p st ev)).
Proof.
  intros Hne Hrc Htr. unfold pipe_step, recordingTee_Write; destruct ev as [r e|tnow b n|b]; cbn [pipe_step].
  - destruct (handle_request_own p r e (ps_fs st) (ps_rec st) Hne Hrc) as [H1 H2].
    destruct (handle_request p r e _ _) as [[t rc] a]. cbn [ps_trace ps_rec]. by rewrite Htr.
  - destruct (ps_rec st) as [c|]; cbn [ps_trace ps_rec]; [|rewrite Htr; by split; [|constructor]].
    case_bool_decide; [|cbn; rewrite Htr; by split; [|constructor]].
    pose proof (with_rec_own p (ps_fs st) c (Output tnow (take n b)) Hrc) as Hs. unfold writeOutput.
    destruct (with_rec _ c _) as [t' c']. cbn. rewrite Htr. by split; [|constructor].
  - cbn. rewrite Htr. by split; [|constructor].
Qed.

(** The auditor of a forward keeps the session id too. *)
Definition own_pf p (pf : option portForwardAuditor) : Prop :=
  match pf with Some a => pfSessionID a = p_sessionID p | None => True end.

Lemma pf_open_own p nc d :
  own_pf p (pf_open d (pf_auditor p nc)).1 ∧
  request_entries p (Append <$> (pf_open d (pf_auditor p nc)).2).
Proof.
  unfold request_entries. rewrite omap_action_entry. unfold pf_auditor.
  case_bool_decide; [|by split; [|constructor]].
  destruct (parseDirectTCPIPRequest _); [|by split; [|constructor]].
  unfold pf_open. cbn [pfSink]. destruct (p_auditSink p); cbn; by repeat constructor.
Qed.

Lemma pf_close_own p d x y pf : own_pf p pf → request_entries p (Append <$> pf_close d x y pf).
Proof.
  unfold request_entries. rewrite omap_action_entry. destruct pf as [a|]; [|constructor].
  cbn. intros <-. destruct (_ || _); repeat constructor. done.
Qed.

(** Ownership of a goroutine. *)
Definition own_goroutine p (g : goroutine S) : Prop :=
  own_rec p (recorder_of g) ∧ match g with Piping pf _ _ _ _ => own_pf p pf | _ => True end.

Lemma goroutine_step_own (c : channel S) g t g' t' a :
  let p := proxier_of c in
  p_sessionID p ≠ "" → own_goroutine p g → goroutine_step c g t = Some (g', t', a) →
  own_goroutine p g' ∧
  of_session (p_sessionID p) (omap action_entry a) ∧
  (is_done g' = false → request_entries p a).
Proof.
  destruct c as [[p nc] env]. cbv zeta. change (proxier_of (p, nc, env)) with p. intros Hne [Hrc Hpf] Hs.
  assert (∀ x, request_entries p x → of_session (p_sessionID p) (omap action_entry x)) as Hweak.
  { intros x Hx. eapply Forall_impl; [exact Hx|]. by intros e []. }
  revert Hs.
  destruct g as [| | |pf rc bi bo [|ev todo]|rc|]; cbn -[pipe_step pf_open pf_close CloseRec].
  - destruct (_ && _); [intros; simplify_eq; by repeat constructor|].
    destruct (open_target env) as [|e|]; [|destruct (openChannelRejection e)|];
      intros; simplify_eq; by repeat constructor.
  - destruct (accept_ok env); intros; simplify_eq; by repeat constructor.
  - destruct (pf_open_own p nc (pf_open_draw env)) as [H1 H2].
    destruct (pf_open _ _) as [pf a1]. intros; simplify_eq. split; [|by auto].
    split; [apply channel_recorder_own|done].
  - intros; simplify_eq. pose proof (pf_close_own p (pf_close_draw env) bi bo pf Hpf).
    split; [done|by auto].
  - intros [= <- <- <-].
    destruct (pipe_step_own p {| ps_fs := t; ps_rec := rc; bytesRead := bi; bytesWritten := bo; ps_trace := [] |}
      ev Hne Hrc eq_refl) as [H1 H2]. split; [by split|by auto].
  - intros [= <- <- <-]. split; [done|]. split; [|done]. destruct rc as [r|]; [|constructor].
    destruct Hrc as (_ & Hid & _). rewrite omap_action_entry. unfold CloseRec.
    destruct (rclosed r); [constructor|]. cbn. case_bool_decide; repeat constructor. done.
  - done.
Qed.
End Ownership.

(** ** One goroutine alone *)
Section Alone.
Context {W : SshWire} {S : Type} `{CastSink S}.
Implicit Types (p : Proxier S) (c : channel S) (t : fs) (g : goroutine S).

(** [n] steps of one goroutine that nothing interrupts. *)
Fixpoint alone (n : nat) c (x : goroutine S * fs * list action) : goroutine S * fs * list action :=
  match n with
  | O => x
  | Datatypes.S n =>
      let '(g, t, tr) := x in
      match goroutine_step c g t with
      | Some (g', t', a) => alone n c (g', t', tr ++ a)
      | None => x
      end
  end.

Lemma alone_Done n c t tr : alone n c (Done, t, tr) = (Done, t, tr).
Proof. destruct n; [done|]. by destruct c as [[? ?] ?]. Qed.

Lemma alone_snoc n c x :
  alone (Datatypes.S n) c x =
    let '(g, t, tr) := alone n c x in
    match goroutine_step c g t with Some (g', t', a) => (g', t', tr ++ a) | None => (g, t, tr) end.
Proof.
  revert x. induction n as [|n IH]; intros [[g t] tr].
  - cbn. by destruct (goroutine_step c g t) as [[[g' t'] a]|].
  - cbn [alone]. destruct (goroutine_step c g t) as [[[g' t'] a]|] eqn:Hs.
    + rewrite <- IH. done.
    + by rewrite Hs.
Qed.

(** The pipe steps of the goroutine are those of [handleChannel]. *)
Lemma pipe_step_trace p st ev tr :
  pipe_step p {| ps_fs := ps_fs st; ps_rec := ps_rec st; bytesRead := bytesRead st;
                 bytesWritten := bytesWritten st; ps_trace := tr ++ ps_trace st |} ev =
  let st' := pipe_step p st ev in
  {| ps_fs := ps_fs st'; ps_rec := ps_rec st'; bytesRead := bytesRead st';
     bytesWritten := bytesWritten st'; ps_trace := tr ++ ps_trace st' |}.
Proof.
  unfold pipe_step, recordingTee_Write; destruct ev as [r e|tnow b n|b]; cbn [pipe_step ps_fs ps_rec bytesRead bytesWritten ps_trace].
  - destruct (handle_request p r e _ _) as [[t rc] a]. cbn. by rewrite (assoc_L (++)).
  - by destruct (match ps_rec st with Some _ => _ | None => _ end).
  - done.
Qed.

Lemma pipe_run_trace p st evs tr :
  fold_left (pipe_step p) evs {| ps_fs := ps_fs st; ps_rec := ps_rec st; bytesRead := bytesRead st;
    bytesWritten := bytesWritten st; ps_trace := tr ++ ps_trace st |} =
  let st' := fold_left (pipe_step p) evs st in
  {| ps_fs := ps_fs st'; ps_rec := ps_rec st'; bytesRead := bytesRead st';
     bytesWritten := bytesWritten st'; ps_trace := tr ++ ps_trace st' |}.
Proof.
  cbv zeta. revert st. induction evs as [|ev evs IH]; intros st; [done|].
  cbn [fold_left]. rewrite pipe_step_trace. apply IH.
Qed.

Lemma alone_pipe p nc env pf rc t bi bo tr evs n :
  let st := fold_left (pipe_step p) evs
    {| ps_fs := t; ps_rec := rc; bytesRead := bi; bytesWritten := bo; ps_trace := tr |} in
  alone (length evs + n) (p, nc, env) (Piping pf rc bi bo evs, t, tr) =
  alone n (p, nc, env) (Piping pf (ps_rec st) (bytesRead st) (bytesWritten st) [], ps_fs st, ps_trace st).
Proof.
  cbv zeta. revert rc t bi bo tr.
  induction evs as [|ev evs IH]; intros rc t bi bo tr; [done|].
  cbn [length Nat.add alone goroutine_step fold_left].
  pose proof (pipe_step_trace p
    {| ps_fs := t; ps_rec := rc; bytesRead := bi; bytesWritten := bo; ps_trace := [] |} ev tr) as Ht.
  cbn [ps_fs ps_rec bytesRead bytesWritten ps_trace] in Ht. rewrite app_nil_r in Ht. rewrite Ht. apply IH.
Qed.

(** Uninterrupted, the goroutine is [handleChannel]. *)
Lemma alone_handleChannel p nc env t n :
  (steps_left (p, nc, env) Begin ≤ n)%nat →
  alone n (p, nc, env) (Begin, t, []) =
    (Done, (handleChannel p nc env t).1, (handleChannel p nc env t).2).
Proof.
  cbn [steps_left fst snd]. intros Hn.
  replace n with (3 + (length (pipe env) + (2 + (n - 5 - length (pipe env)))))%nat by lia.
  set (k := (n - 5 - length (pipe env))%nat). clearbody k. clear Hn n.
  unfold handleChannel. cbn [Nat.add alone goroutine_step].
  destruct (_ && _); [done|].
  destruct (open_target env) as [u|e|]; [|destruct (openChannelRejection e); done|done].
  cbn [alone goroutine_step]. destruct (accept_ok env); cbn [negb]; [|done].
  cbn [alone goroutine_step]. destruct (pf_open _ _) as [pf a1]. fold (channel_recorder p nc).
  rewrite (alone_pipe p nc env pf (channel_recorder p nc) t 0 0). cbv zeta.
  set (st0 := {| ps_fs := t; ps_rec := channel_recorder p nc; bytesRead := 0; bytesWritten := 0;
    ps_trace := [] |}).
  set (tr := ([] ++ [OpenTarget (ChannelType nc) (ExtraData nc)]) ++ [AcceptUser]).
  pose proof (pipe_run_trace p st0 (pipe env) (tr ++ (Append <$> a1))) as Ht.
  cbn [st0 ps_fs ps_rec bytesRead bytesWritten ps_trace] in Ht. rewrite app_nil_r in Ht. cbv zeta in Ht.
  rewrite Ht. fold st0. set (st1 := fold_left _ _ st0).
  cbn [alone goroutine_step fst snd ps_fs ps_rec bytesRead bytesWritten ps_trace]. rewrite alone_Done.
  subst tr. rewrite <- !(assoc_L (++)). cbn [app]. by destruct (ps_rec st1).
Qed.
End Alone.

(** ** Facts about a connection *)
Section ConnFacts.
Context {W : SshWire} {S : Type} `{CastSink S}.
Implicit Types (p : Proxier S) (c : channel S) (t : fs) (g : goroutine S) (st : conn_state S).

Lemma elem_of_of_chan i a tr : a ∈ of_chan i tr ↔ (i, a) ∈ tr.
Proof.
  unfold of_chan. rewrite list_elem_of_omap. split.
  - intros ([j x] & Hin & Hx). cbn in Hx. case_bool_decide; simplify_eq/=. done.
  - intros Hin. exists (i, a). split; [done|]. cbn. by rewrite bool_decide_eq_true_2.
Qed.

(** What every channel's own past satisfies, the whole trace does. *)
Lemma trace_Forall ms chans t (P : action → Prop) :
  let st := conn_run ms (conn_start chans t) in
  (∀ i c g, cs_running st !! i = Some (c, g) → Forall P (of_chan i (cs_trace st))) →
  Forall P (cs_trace st).*2.
Proof.
  intros st Hall. rewrite Forall_fmap, Forall_forall. intros [i a] Hin. cbn.
  pose proof (trace_of_running ms chans t (i, a) Hin) as Hlt. cbn in Hlt. fold st in Hlt.
  apply lookup_lt_is_Some in Hlt as [[c g] Hi]. specialize (Hall i c g Hi). rewrite Forall_forall in Hall.
  by apply Hall, elem_of_of_chan.
Qed.

Definition permitted p (a : action) : Prop :=
  match a with Forward r => permitsRequest p (Type_ r) = true | _ => True end.

Lemma permitted_forwarded p tr :
  Forall (permitted p) tr ↔ Forall (λ r, permitsRequest p (Type_ r) = true) (omap forwarded tr).
Proof.
  induction tr as [|a tr IH]; [done|]. rewrite Forall_cons, IH. destruct a; csimpl; try tauto.
  by rewrite Forall_cons.
Qed.

Lemma permitted_entries p (es : list Entry) : Forall (permitted p) (Append <$> es).
Proof. rewrite Forall_fmap. by apply Forall_true. Qed.

Definition refused (c : channel S) : bool :=
  bool_decide (ChannelType c.1.2 = "direct-tcpip") && negb (PermitsPortForwarding (p_rbac (proxier_of c))).

Lemma goroutine_step_permitted c g t g' t' a :
  goroutine_step c g t = Some (g', t', a) →
  Forall (permitted (proxier_of c)) a ∧
  (g = Begin → refused c = true →
    g' = Done ∧ a = [Reject Prohibited "port forwarding not permitted by cert"]).
Proof.
  destruct c as [[p nc] env]. unfold refused.
  destruct g as [| | |pf rc bi bo [|ev todo]|rc|]; cbn -[pipe_step pf_open pf_close CloseRec].
  - destruct (_ && _); [intros; simplify_eq; split; [by repeat constructor|done]|].
    destruct (open_target env) as [|e|]; [|destruct (openChannelRejection e)|];
      intros; simplify_eq; split; try done; by repeat constructor.
  - destruct (accept_ok env); intros; simplify_eq; split; try done; by repeat constructor.
  - destruct (pf_open _ _). intros; simplify_eq. split; [apply permitted_entries|done].
  - intros; simplify_eq. split; [apply permitted_entries|done].
  - intros [= <- <- <-]. split; [|done]. apply permitted_forwarded, pipe_step_forwarded. constructor.
  - intros [= <- <- <-]. split; [|done]. destruct rc; [apply permitted_entries|constructor].
  - done.
Qed.

(** The gate of each channel, whatever the others do. *)
Lemma channel_permitted ms chans t i c g :
  let st := conn_run ms (conn_start chans t) in
  cs_running st !! i = Some (c, g) →
  Forall (permitted (proxier_of c)) (of_chan i (cs_trace st)) ∧
  (refused c = true → g = Begin ∧ of_chan i (cs_trace st) = [] ∨
     g = Done ∧ of_chan i (cs_trace st) = [Reject Prohibited "port forwarding not permitted by cert"]).
Proof.
  apply (local_invariant (λ c g tr, Forall (permitted (proxier_of c)) tr ∧ (refused c = true →
    g = Begin ∧ tr = [] ∨ g = Done ∧ tr = [Reject Prohibited "port forwarding not permitted by cert"]))).
  - intros c'. split; [constructor|]. by left.
  - intros c' g0 tr t0 g' t' a [H1 H2] Hs. destruct (goroutine_step_permitted _ _ _ _ _ _ Hs) as [H3 H4].
    split; [by apply Forall_app|]. intros Hr. right.
    destruct (H2 Hr) as [[-> ->]|[-> ->]]; [by apply H4|by destruct c' as [[??]?]].
Qed.

(** Ownership and session ids, and no recording ends before its channel does. *)
Lemma channel_owned ms chans t i c g :
  let st := conn_run ms (conn_start chans t) in
  cs_running st !! i = Some (c, g) → p_sessionID (proxier_of c) ≠ "" →
  own_goroutine (proxier_of c) g ∧
  of_session (p_sessionID (proxier_of c)) (omap action_entry (of_chan i (cs_trace st))) ∧
  (is_done g = false → request_entries (proxier_of c) (of_chan i (cs_trace st))).
Proof.
  apply (local_invariant (λ c g tr, p_sessionID (proxier_of c) ≠ "" → own_goroutine (proxier_of c) g ∧
    of_session (p_sessionID (proxier_of c)) (omap action_entry tr) ∧
    (is_done g = false → request_entries (proxier_of c) tr))).
  - intros c'. by repeat constructor.
  - intros c' g0 tr t0 g' t' a HI Hs Hne. destruct (HI Hne) as (H1 & H2 & H3).
    destruct (goroutine_step_own c' g0 t0 g' t' a Hne H1 Hs) as (H4 & H5 & H6).
    split; [done|]. unfold of_session, request_entries in *. rewrite omap_app, !Forall_app.
    split; [done|]. intros Hd. split; [|by apply H6]. apply H3.
    destruct g0; try done. by destruct c' as [[??]?].
Qed.

(** The channels of one connection have its proxier. *)
Lemma of_conn_lookup p chans i nc env :
  chans !! i = Some (nc, env) → of_conn p chans !! i = Some (p, nc, env).
Proof. intros Hi. unfold of_conn. by rewrite list_lookup_fmap, Hi. Qed.

Lemma of_conn_proxier p ms chans t i c g :
  cs_running (conn_run ms (conn_start (of_conn p chans) t)) !! i = Some (c, g) → proxier_of c = p.
Proof.
  intros Hi. pose proof (conn_run_channels ms (of_conn p chans) t) as Hc. cbv zeta in Hc.
  assert (c ∈ of_conn p chans) as Hin.
  { rewrite <- Hc. apply elem_of_app. left. apply list_elem_of_fmap. exists (c, g). split; [done|].
    by eapply list_elem_of_lookup_2. }
  by apply list_elem_of_fmap in Hin as (x & -> & _).
Qed.

Lemma HandleNewChannels_forwarded p chans ms t :
  Forall (λ r, permitsRequest p (Type_ r) = true) (omap forwarded (HandleNewChannels p chans ms t).2.*2).
Proof.
  destruct (HandleNewChannels_run p chans ms t) as (ms' & Hrun & _). cbv zeta in Hrun. rewrite Hrun.
  apply permitted_forwarded, trace_Forall. intros i c g Hi.
  destruct (channel_permitted _ _ _ _ _ _ Hi) as [Hok _]. by rewrite (of_conn_proxier _ _ _ _ _ _ _ Hi) in Hok.
Qed.

(** Every entry a channel causes carries the session id. *)
Lemma HandleNewChannels_sid p chans ms t :
  p_sessionID p ≠ "" →
  of_session (p_sessionID p) (omap action_entry (HandleNewChannels p chans ms t).2.*2).
Proof.
  intros Hne. destruct (HandleNewChannels_run p chans ms t) as (ms' & Hrun & _). cbv zeta in Hrun.
  rewrite Hrun. cbn [snd].
  assert (∀ tr : list action, of_session (p_sessionID p) (omap action_entry tr) ↔
    Forall (λ a, ∀ e, action_entry a = Some e → EntrySessionID e = p_sessionID p) tr) as Hiff.
  { unfold of_session. intros tr. rewrite !Forall_forall. setoid_rewrite list_elem_of_omap. naive_solver. }
  apply Hiff, trace_Forall. intros i c g Hi. apply Hiff.
  pose proof (channel_owned _ _ t i c g Hi) as Ho. rewrite (of_conn_proxier _ _ _ _ _ _ _ Hi) in Ho.
  by destruct (Ho Hne) as (_ & ? & _).
Qed.
End ConnFacts.

(** ** The recording of one channel among others *)
Section Isolation.
Context {W : SshWire} {S : Type} `{CastSinkLaws S}.
Implicit Types (p : Proxier S) (c : channel S) (t : fs) (g : goroutine S) (st : conn_state S).

(** Every cast file that is being written is a regular file. *)
Lemma cast_files_exist ms chans t i c g f :
  let st := conn_run ms (conn_start chans t) in
  cs_running st !! i = Some (c, g) → cast_file g = Some f → is_file (cs_fs st) f.
Proof.
  cbv zeta. revert i c g. induction ms as [|m ms IH] using rev_ind; [done|]. rewrite conn_run_snoc.
  set (st := conn_run ms _) in *. intros i c g. destruct m as [|j]; cbn [conn_step].
  - destruct (cs_inbox st) as [|c' rest]; [apply IH|]. cbn. rewrite lookup_app_Some.
    intros [Hi|[_ Hi]]; [by eapply IH|].
    by apply list_lookup_singleton_Some in Hi as [_ [= <- <-]].
  - destruct (cs_running st !! j) as [[c' g']|] eqn:Hj; [|apply IH].
    destruct (goroutine_step c' g' (cs_fs st)) as [[[g2 t2] a]|] eqn:Hs; [|apply IH]. cbn.
    pose proof (goroutine_step_store _ _ _ _ _ _ Hs) as Hss. destruct (decide (i = j)) as [->|Hne].
    + rewrite list_lookup_insert_eq by (by eapply lookup_lt_Some). intros [= <- <-] Hf.
      destruct (ss_owner _ _ _ _ Hss f Hf) as [Ho|[_ ?]]; [|done].
      eapply ss_file; [exact Hss|]. by eapply IH.
    + rewrite list_lookup_insert_ne by done. intros Hi Hf. eapply ss_file; [exact Hss|]. by eapply IH.
Qed.

(** Directories stay where they are. *)
Lemma conn_run_dir ms ms' chans t q :
  let st := conn_run ms (conn_start chans t) in
  cs_fs st !! q = Some Dir → cs_fs (conn_run ms' st) !! q = Some Dir.
Proof.
  cbv zeta. intros Hq. induction ms' as [|m ms' IH] using rev_ind; [done|].
  rewrite conn_run_snoc. rewrite <-conn_run_app in IH |- *. set (st := conn_run (ms ++ ms') _) in *.
  destruct m as [|j]; cbn [conn_step]; [by destruct (cs_inbox st)|].
  destruct (cs_running st !! j) as [[c' g']|] eqn:Hj; [|done].
  destruct (goroutine_step c' g' (cs_fs st)) as [[[g2 t2] a]|] eqn:Hs; [|done]. cbn.
  eapply ss_frame; [by eapply goroutine_step_store| |done]. intros Hf.
  destruct (cast_files_exist _ _ _ _ _ _ _ Hj Hf) as [b Hb]. fold st in Hb. congruence.
Qed.

(** Where a recorded channel stands before its first terminal request. *)
Lemma channel_progress ms chans t i p nc env pf rc bi bo todo :
  ChannelType nc = "session" →
  let st := conn_run ms (conn_start chans t) in
  cs_running st !! i = Some ((p, nc, env) : channel S, Piping pf rc bi bo todo) →
  pf = None ∧ ∃ seen, pipe env = seen ++ todo ∧
    (Forall (λ ev, starts p ev = false) seen → rc = channel_recorder p nc).
Proof.
  intros Ht st Hi.
  refine (local_invariant (λ c g tr, ChannelType c.1.2 = "session" → match g with
    | Piping pf rc _ _ todo => pf = None ∧ ∃ seen, pipe c.2 = seen ++ todo ∧
        (Forall (λ ev, starts (proxier_of c) ev = false) seen → rc = channel_recorder (proxier_of c) c.1.2)
    | _ => True end) _ _ ms chans t i _ _ Hi Ht); [done|].
  clear. intros [[p nc] env] g tr t g' t' a HI Hs Ht. specialize (HI Ht).
  cbn [fst snd] in *. change (proxier_of (p, nc, env)) with p in *.
  destruct g as [| | |pf rc bi bo [|ev todo]|rc|]; cbn -[pipe_step pf_open] in Hs.
  - destruct (_ && _); [by simplify_eq|].
    destruct (open_target env) as [|e|]; [|destruct (openChannelRejection e)|]; by simplify_eq.
  - destruct (accept_ok env); by simplify_eq.
  - unfold pf_auditor in Hs. rewrite Ht in Hs. simplify_eq/=. split; [done|]. by exists [].
  - by simplify_eq.
  - injection Hs as <- <- <-. destruct HI as (-> & seen & Hp & Hrc). split; [done|].
    exists (seen ++ [ev]). rewrite <- (assoc_L (++)). split; [done|].
    rewrite Forall_app, Forall_singleton. intros [Hseen Hev]. specialize (Hrc Hseen).
    set (st := {| ps_fs := t |}). unfold channel_recorder in *.
    destruct (p_sink p) as [s|]; [|by apply (pipe_run_no_rec p [ev] st)].
    case_bool_decide; [|by apply (pipe_run_no_rec p [ev] st)].
    by apply (idle_step p ev st (newChannelRecorder s (p_sessionID p) (p_user p) (p_host p) (p_attr p))).
  - by simplify_eq.
  - by destruct g'.
Qed.

(** A recording that runs: channel [i] records to [f] what its own pipe
    carries after the terminal request, with recorder [c1]. *)
Section Running.
Context (p : Proxier S) (i : nat) (nc : NewChannel) (env : chan_env) (f : list string) (post : list pipe_event)
  (c1 : channelRecorder S) (rc0 : Recorder).
Context (Hcast : cast c1 = Some (Some f)) (Hopen : rclosed c1 = false).

Definition recorded (evs : list pipe_event) : Recorder := rec_run rc0 (evs ≫= rec_ops_of p).
Definition holds (t : fs) (rc : Recorder) : Prop := t !! f = Some (File (w_bytes (encoded rc))).

Definition recording st : Prop :=
  (∀ j cj gj, j ≠ i → cs_running st !! j = Some (cj, gj) → cast_file gj ≠ Some f) ∧
  ∃ g, cs_running st !! i = Some ((p, nc, env) : channel S, g) ∧
  match g with
  | Piping pf rc _ _ todo => pf = None ∧ ∃ seen, post = seen ++ todo ∧
      rc = Some (set_rec c1 (recorded seen)) ∧ holds (cs_fs st) (recorded seen)
  | Closing rc => rc = Some (set_rec c1 (recorded post)) ∧ holds (cs_fs st) (recorded post)
  | Done => holds (cs_fs st) (recorded post) ∧ ∃ tr, of_chan i (cs_trace st) =
      tr ++ [Append (emitCompleted (rec_close_draw env) (set_rec c1 (recorded post)))]
  | _ => False
  end.

Lemma recorded_snoc seen ev :
  recorded (seen ++ [ev]) = fold_left rec_step (rec_ops_of p ev) (recorded seen).
Proof. unfold recorded, rec_run. by rewrite bind_app, bind_singleton, fold_left_app. Qed.

Lemma recording_own st : recording st → recording (conn_step st (Run i)).
Proof.
  intros [Hoth (g & Hi & Hg)].
  destruct g as [| | |pf rc bi bo [|ev todo]|rc|]; try done; cbn [conn_step]; rewrite Hi.
  - destruct Hg as (-> & seen & Hp & -> & Hf). rewrite app_nil_r in Hp. subst seen.
    cbn [goroutine_step]. split; cbn [cs_running cs_fs].
    + intros j cj gj Hj. rewrite list_lookup_insert_ne by done. by apply Hoth.
    + eexists. rewrite list_lookup_insert_eq by (by eapply lookup_lt_Some). by split.
  - destruct Hg as (-> & seen & Hp & -> & Hf). cbn [goroutine_step].
    set (s := {| ps_fs := cs_fs st |}).
    destruct (live_step p ev s c1 (recorded seen) f eq_refl Hcast Hopen Hf) as [H1 H2].
    split; cbn [cs_running cs_fs].
    + intros j cj gj Hj. rewrite list_lookup_insert_ne by done. by apply Hoth.
    + eexists. rewrite list_lookup_insert_eq by (by eapply lookup_lt_Some). split; [done|].
      split; [done|]. exists (seen ++ [ev]). rewrite <- (assoc_L (++)), recorded_snoc. done.
  - destruct Hg as (-> & Hf). cbn [goroutine_step]. unfold CloseRec.
    cbn [set_rec rclosed rec]. rewrite Hopen, bool_decide_eq_true_2 by done. split; cbn [cs_running cs_fs cs_trace].
    + intros j cj gj Hj. rewrite list_lookup_insert_ne by done. by apply Hoth.
    + eexists. rewrite list_lookup_insert_eq by (by eapply lookup_lt_Some). split; [done|].
      split; [done|]. eexists. by rewrite of_chan_app, of_chan_own.
  - cbn. split; [done|]. by eexists.
Qed.

Lemma recording_other st j : j ≠ i → recording st → recording (conn_step st (Run j)).
Proof.
  intros Hne [Hoth (g & Hi & Hg)]. cbn [conn_step].
  destruct (cs_running st !! j) as [[cj gj]|] eqn:Hj; [|split; [done|by eexists]].
  destruct (goroutine_step cj gj (cs_fs st)) as [[[g2 t2] a]|] eqn:Hs; [|split; [done|by eexists]].
  pose proof (goroutine_step_store _ _ _ _ _ _ Hs) as Hss. pose proof (Hoth j cj gj Hne Hj) as Hnf.
  assert (∀ rc, holds (cs_fs st) rc → holds t2 rc) as Hkeep.
  { intros rc. by apply (ss_frame _ _ _ _ Hss). }
  assert (is_Some (cs_fs st !! f)) as Hex.
  { destruct g; try done; unfold holds in Hg; destruct_and?; destruct_or?; naive_solver. }
  split; cbn [cs_running cs_fs cs_trace].
  - intros k ck gk Hk. destruct (decide (k = j)) as [->|Hkj].
    + rewrite list_lookup_insert_eq by (by eapply lookup_lt_Some). intros [= <- <-] Hf.
      destruct (ss_owner _ _ _ _ Hss f Hf) as [|[Hn _]]; [done|]. rewrite Hn in Hex. by destruct Hex.
    + rewrite list_lookup_insert_ne by done. by apply Hoth.
  - exists g. rewrite list_lookup_insert_ne by done. split; [done|].
    rewrite of_chan_app, of_chan_other, app_nil_r by done. destruct g; naive_solver.
Qed.

Lemma recording_run ms st : recording st → recording (conn_run ms st).
Proof.
  revert st. induction ms as [|m ms IH]; intros st Hr; [done|]. apply IH. destruct m as [|j].
  - destruct Hr as [Hoth (g & Hi & Hg)]. cbn [conn_step].
    destruct (cs_inbox st) as [|c' rest]; [split; [done|by eexists]|]. split; cbn [cs_running cs_fs cs_trace].
    + intros j cj gj Hj. rewrite lookup_app_Some.
      intros [Hl|[_ Hl]]; [by eapply Hoth|]. by apply list_lookup_singleton_Some in Hl as [_ [= <- <-]].
    + exists g. split; [by apply lookup_app_l_Some|done].
  - destruct (decide (j = i)) as [->|]; [by apply recording_own|by apply recording_other].
Qed.
End Running.
End Isolation.

(** ** A channel that is not recorded sees nothing of the others *)
Section Unrecorded.
Context {W : SshWire} {S : Type} `{CastSink S}.
Implicit Types (p : Proxier S) (c : channel S) (t : fs) (g : goroutine S).

Lemma alone_add n m c x : alone (n + m) c x = alone m c (alone n c x).
Proof.
  revert x. induction n as [|n IH]; intros [[g t] tr]; [done|]. cbn [Nat.add alone].
  destruct (goroutine_step c g t) as [[[g' t'] a]|] eqn:Hs; [apply IH|].
  apply goroutine_step_stuck in Hs as ->. by rewrite alone_Done.
Qed.

Lemma goroutine_step_unrecorded c g t g' t' a t2 :
  channel_recorder (proxier_of c) c.1.2 = None → recorder_of g = None →
  goroutine_step c g t = Some (g', t', a) →
  recorder_of g' = None ∧ goroutine_step c g t2 = Some (g', t2, a).
Proof.
  destruct c as [[p nc] env]. cbn [fst snd]. change (proxier_of (p, nc, env)) with p. intros Hnr Hrc.
  destruct g as [| | |pf rc bi bo [|ev todo]|rc|]; cbn -[pipe_step pf_open pf_close] in *; subst.
  - destruct (_ && _); [intros; by simplify_eq|].
    destruct (open_target env) as [|e|]; [|destruct (openChannelRejection e)|]; intros; by simplify_eq.
  - destruct (accept_ok env); intros; by simplify_eq.
  - destruct (pf_open _ _). rewrite Hnr. intros; by simplify_eq.
  - intros; by simplify_eq.
  - destruct ev as [r e|tnow b n|b]; cbn; try (intros; by simplify_eq/=).
    unfold handle_request. destruct (permitsRequest p (Type_ r)); cbn; intros; by simplify_eq/=.
  - intros; by simplify_eq.
  - done.
Qed.

(** Whatever the other channels do, it does what [handleChannel] does alone. *)
Lemma unrecorded_alone ms chans t i p nc env :
  channel_recorder p nc = None →
  let st := conn_run ms (conn_start chans t) in
  cs_running st !! i = Some ((p, nc, env) : channel S, Done) →
  of_chan i (cs_trace st) = (handleChannel p nc env ∅).2.
Proof.
  intros Hnr st Hi.
  destruct (local_invariant (λ c g tr, channel_recorder (proxier_of c) c.1.2 = None →
    recorder_of g = None ∧ ∃ n, alone n c (Begin, ∅, []) = (g, ∅, tr))
    ltac:(intros c _; split; [done|by exists 0%nat])
    ltac:(intros c g tr t0 g' t' a HI Hs Hc; destruct (HI Hc) as [Hr [n Hn]];
      destruct (goroutine_step_unrecorded c g t0 g' t' a ∅ Hc Hr Hs) as [Hr' Hs'];
      split; [done|]; exists (Datatypes.S n); by rewrite alone_snoc, Hn, Hs')
    ms chans t i (p, nc, env) Done Hi Hnr) as [_ [n Hn]].
  pose proof (alone_handleChannel p nc env ∅ (n + steps_left (p, nc, env) Begin) ltac:(lia)) as Ha.
  rewrite alone_add, Hn, alone_Done in Ha. by injection Ha.
Qed.

(** Recordings a channel completed. *)
Definition completions (tr : list action) : nat :=
  length (filter (λ e, Action e = ActionRecordingComplete) (omap action_entry tr)).

Lemma completions_app tr tr' : completions (tr ++ tr') = (completions tr + completions tr')%nat.
Proof. unfold completions. by rewrite omap_app, filter_app, length_app. Qed.

Lemma request_entries_completions p tr : request_entries p tr → completions tr = 0%nat.
Proof.
  unfold request_entries, completions. generalize (omap action_entry tr). intros es Hes.
  induction Hes as [|e es [_ He] _ IH]; [done|]. by rewrite filter_cons_False.
Qed.

Lemma completion_entry d (r : channelRecorder S) : completions [Append (emitCompleted d r)] = 1%nat.
Proof. reflexivity. Qed.

Lemma completions_entries tr : (completions tr ≤ length (omap action_entry tr))%nat.
Proof. apply length_filter. Qed.

Lemma goroutine_step_completions c g t g' t' a :
  goroutine_step c g t = Some (g', t', a) → is_done g' = true → (completions a ≤ 1)%nat.
Proof.
  intros Hs Hd. etrans; [apply completions_entries|]. revert Hs Hd. destruct c as [[p nc] env].
  destruct g as [| | |pf rc bi bo [|ev todo]|rc|]; cbn -[pipe_step pf_open CloseRec].
  - destruct (_ && _); [intros; simplify_eq/=; lia|].
    destruct (open_target env) as [|e|]; [|destruct (openChannelRejection e)|]; intros; simplify_eq/=; lia.
  - destruct (accept_ok env); intros; simplify_eq/=; lia.
  - destruct (pf_open _ _); intros; by simplify_eq.
  - intros; by simplify_eq.
  - intros; by simplify_eq.
  - intros [= <- <- <-] _. destruct rc as [r|]; [|cbn; lia]. rewrite omap_action_entry.
    unfold CloseRec. destruct (rclosed r); cbn; [lia|]. case_bool_decide; cbn; lia.
  - done.
Qed.

Lemma channel_completions ms chans t i c g :
  let st := conn_run ms (conn_start chans t) in
  cs_running st !! i = Some (c, g) → p_sessionID (proxier_of c) ≠ "" →
  (completions (of_chan i (cs_trace st)) ≤ 1)%nat.
Proof.
  cbv zeta. intros Hi Hne.
  refine (proj2 (proj2 (local_invariant (λ c g tr, p_sessionID (proxier_of c) ≠ "" →
    own_goroutine (proxier_of c) g ∧ (is_done g = false → request_entries (proxier_of c) tr) ∧
    (completions tr ≤ 1)%nat) _ _ ms chans t i c g Hi Hne))); clear.
  - intros c'. repeat split; try done; try constructor. cbn. lia.
  - intros c' g0 tr t0 g' t' a HI Hs Hne. destruct (HI Hne) as (H1 & H2 & H3).
    destruct (goroutine_step_own c' g0 t0 g' t' a Hne H1 Hs) as (H4 & _ & H6).
    assert (request_entries (proxier_of c') tr) as Htr by (apply H2; destruct g0; try done; by destruct c' as [[??]?]).
    assert (is_done g' = false → request_entries (proxier_of c') (tr ++ a)) as Hall.
    { intros Hd. unfold request_entries. rewrite omap_app, Forall_app. split; [done|by apply H6]. }
    split; [done|]. split; [done|]. destruct (is_done g') eqn:Hd.
    + rewrite completions_app, (request_entries_completions (proxier_of c') tr Htr).
      by apply (goroutine_step_completions _ _ _ _ _ _ Hs).
    + rewrite (request_entries_completions (proxier_of c') _ (Hall eq_refl)). lia.
Qed.
End Unrecorded.

(** ** A recorded session *)
Section RecordedSession.
Context {W : SshWire} {S : Type} `{CastSinkLaws S}.

Lemma recorded_session (chans : list (channel S)) (t t1 : fs) (s : S)
    (ms ms' : list move) (i : nat) (p : Proxier S) (nc : NewChannel) (env : chan_env) (pf : option portForwardAuditor)
    (rc : option (channelRecorder S)) (bi bo : Z) (pre post : list pipe_event) (r : Request) (e : req_env)
    (w h : Z) (f : list string) (loc : string) (rc0 : Recorder) :
  p_sink p = Some s → p_sessionID p ≠ "" → ChannelType nc = "session" →
  pipe env = pre ++ UserRequest r e :: post → Forall (λ ev, starts p ev = false) pre →
  permitsRequest p (Type_ r) = true → Type_ r = "pty-req" → parsePTYReq (Payload r) = Ret (w, h) →
  let st := conn_run ms (conn_start chans t) in
  cs_running st !! i = Some ((p, nc, env) : channel S, Piping pf rc bi bo (UserRequest r e :: post)) →
  sink_open s (now (start_draw e)) (cs_fs st)
    {| SessionID := p_sessionID p; User := p_user p; Target := p_host p;
       Started := Some (now (start_draw e)) |} = (t1, Ret (Some f, loc)) →
  Recording.New (Some {| w_bytes := []; w_room := cast_room e |}) w h
    (p_user p +:+ "@" +:+ p_host p) (now (start_draw e)) = Ret rc0 →
  let st' := conn_run (Run i :: ms') st in
  cs_running st' !! i = Some ((p, nc, env) : channel S, Done) →
  cs_fs st' !! f = Some (File (w_bytes (encoded (rec_run rc0 (post ≫= rec_ops_of p))))) ∧
  completions (of_chan i (cs_trace st')) = 1%nat ∧
  ∃ tr done_entry, of_chan i (cs_trace st') = tr ++ [Append done_entry] ∧
    Action done_entry = ActionRecordingComplete ∧ RecordingPath done_entry = loc ∧
    EntrySessionID done_entry = p_sessionID p ∧ EntryUser done_entry = p_user p ∧
    OccurredAt done_entry = now (rec_close_draw env) ∧
    ∀ q, t1 !! q = Some Dir → cs_fs st' !! q = Some Dir.
Proof.
  intros Hs Hsid Ht Hpipe Hpre Hperm Hty Hparse st Hi Hopen Hnew st' Hdone.
  destruct (channel_progress ms chans t i p nc env pf rc bi bo _ Ht Hi) as (-> & seen & Hseen & Hrc).
  rewrite Hpipe in Hseen. apply app_inv_tail in Hseen as <-. specialize (Hrc Hpre).
  unfold channel_recorder in Hrc. rewrite Hs, bool_decide_eq_true_2 in Hrc by done. subst rc.
  set (c0 := newChannelRecorder s (p_sessionID p) (p_user p) (p_host p) (p_attr p)) in *.
  set (c1 := started_rec c0 (start_draw e) f loc rc0).
  destruct (start_step p {| ps_fs := cs_fs st; ps_rec := Some c0; bytesRead := bi; bytesWritten := bo; ps_trace := [] |}
    c0 r e w h t1 f loc rc0 eq_refl eq_refl eq_refl Hsid Hperm Hty Hparse Hopen Hnew) as [H1 H2].
  assert (recording p i nc env f post c1 rc0 (conn_step st (Run i))) as Hrec.
  { erewrite conn_step_Run by done. split; cbn [cs_running cs_fs].
    - intros j cj gj Hj. rewrite list_lookup_insert_ne by done. intros Hcj Hf.
      destruct (cast_files_exist ms chans t j cj gj f Hcj Hf) as [x Hx].
      apply sink_open_new in Hopen as (_ & Hn & _). fold st in Hx. congruence.
    - eexists. rewrite list_lookup_insert_eq by (by eapply lookup_lt_Some). split; [done|].
      split; [done|]. exists []. split; [done|]. rewrite H1, H2. split; [done|]. by apply lookup_insert_eq. }
  apply (recording_run p i nc env f post c1 rc0 eq_refl eq_refl ms') in Hrec as [_ (g & Hg & Hfin)].
  change (conn_run ms' (conn_step st (Run i))) with st' in *. rewrite Hdone in Hg. injection Hg as <-.
  destruct Hfin as [Hf [tr Htr]]. split; [exact Hf|]. split.
  - pose proof (channel_completions (ms ++ Run i :: ms') chans t i (p, nc, env) Done) as Hle.
    rewrite conn_run_app in Hle. specialize (Hle Hdone Hsid). fold st st' in Hle. rewrite Htr in Hle |- *.
    rewrite completions_app, completion_entry in *. lia.
  - do 2 eexists. split; [exact Htr|]. do 5 (split; [done|]). intros q Hq. subst st'.
    change (conn_run (Run i :: ms') st) with (conn_run ms' (conn_step st (Run i))).
    subst st. rewrite <-conn_run_snoc. apply conn_run_dir. rewrite conn_run_snoc.
    erewrite conn_step_Run by done. cbn [cs_fs]. rewrite H2.
    apply sink_open_new in Hopen as (_ & _ & Hf1). rewrite lookup_insert_ne by congruence. exact Hq.
Qed.
End RecordedSession.

(** ** Properties *)
Section Properties.
Context {W : SshWire} {S : Type}.

(** The channel gate, however the channels of a connection interleave.
    For any schedule of their goroutines, a port-forwarding channel without
    the certificate's permission is refused as prohibited and does nothing
    else, so the target never hears of it, and no channel ever forwards a
    request the certificate withholds (terminal, X11, agent). *)
Theorem channels_gated `{CastSink S} (p : Proxier S) (chans : list (NewChannel * chan_env))
    (ms : list move) (t : fs) :
  let tr := (HandleNewChannels p chans ms t).2 in
  Forall (λ r, permitsRequest p (Type_ r) = true) (omap forwarded tr.*2) ∧
  ∀ i nc env, chans !! i = Some (nc, env) →
    ChannelType nc = "direct-tcpip" → PermitsPortForwarding (p_rbac p) = false →
    of_chan i tr = [Reject Prohibited "port forwarding not permitted by cert"].
Proof.
  destruct (HandleNewChannels_run p chans ms t) as (ms' & Hrun & Hret).
  cbv zeta in *. split; [apply HandleNewChannels_forwarded|]. rewrite Hrun. cbn [snd].
  intros i nc env Hi Ht Hp. apply (of_conn_lookup p) in Hi.
  apply (returned_channel (ms ++ ms') _ t) in Hi; [|done].
  destruct (channel_permitted _ _ t i _ _ Hi) as [_ Hr].
  destruct Hr as [[? _]|[_ ?]]; [|done..].
  unfold refused. cbn. by rewrite Ht, Hp, bool_decide_eq_true_2.
Qed.

(** C18: a session is recorded from its terminal request to its end, whatever
    the other channels do, of its own connection or of any other the server is
    serving.  Let channel [i] be a session channel with a recording sink and
    [r] its first permitted [pty-req] that parses; stop any schedule when [r]
    is next, and let the sink then open file [f].  However the schedule goes
    on, when the channel is done [f] holds the header and exactly the events
    that followed on that channel, every chunk written to the user and every
    valid window change, none lost, reordered or mixed with another channel's
    (a disk that fills up takes a prefix of each write, as the recorder's
    writer does); and the last thing the channel does is to publish the one
    recording.completed entry it publishes, with the location, the session id
    and the user. *)
Theorem recording_isolated `{CastSinkLaws S} (chans : list (channel S)) (t t1 : fs) (s : S)
    (ms ms' : list move) (i : nat) (p : Proxier S) (nc : NewChannel) (env : chan_env) (pf : option portForwardAuditor)
    (rc : option (channelRecorder S)) (bi bo : Z) (pre post : list pipe_event) (r : Request) (e : req_env)
    (w h : Z) (f : list string) (loc : string) (rc0 : Recorder) :
  p_sink p = Some s → p_sessionID p ≠ "" → ChannelType nc = "session" →
  pipe env = pre ++ UserRequest r e :: post → Forall (λ ev, starts p ev = false) pre →
  permitsRequest p (Type_ r) = true → Type_ r = "pty-req" → parsePTYReq (Payload r) = Ret (w, h) →
  let st := conn_run ms (conn_start chans t) in
  cs_running st !! i = Some ((p, nc, env) : channel S, Piping pf rc bi bo (UserRequest r e :: post)) →
  sink_open s (now (start_draw e)) (cs_fs st)
    {| SessionID := p_sessionID p; User := p_user p; Target := p_host p;
       Started := Some (now (start_draw e)) |} = (t1, Ret (Some f, loc)) →
  Recording.New (Some {| w_bytes := []; w_room := cast_room e |}) w h
    (p_user p +:+ "@" +:+ p_host p) (now (start_draw e)) = Ret rc0 →
  let st' := conn_run (Run i :: ms') st in
  cs_running st' !! i = Some ((p, nc, env) : channel S, Done) →
  cs_fs st' !! f = Some (File (w_bytes (encoded (rec_run rc0 (post ≫= rec_ops_of p))))) ∧
  completions (of_chan i (cs_trace st')) = 1%nat ∧
  ∃ tr done_entry, of_chan i (cs_trace st') = tr ++ [Append done_entry] ∧
    Action done_entry = ActionRecordingComplete ∧ RecordingPath done_entry = loc ∧
    EntrySessionID done_entry = p_sessionID p ∧ EntryUser done_entry = p_user p.
Proof.
  intros. destruct (recorded_session chans t t1 s ms ms' i p nc env pf rc bi bo pre post r e w h f loc rc0)
    as (? & ? & tr & x & ? & ? & ? & ? & ? & _ & _); try done.
  split; [done|]. split; [done|]. by exists tr, x.
Qed.

End Properties.

(** ** Witnesses: two terminal sessions of two connections, interleaved; and a
    connection with a terminal session and a port forward *)
Section Witnesses.
#[local] Existing Instance rfc_wire.

Definition proxier2 : Proxier LocalDirSink :=
  NewProxier None (Some (LocalDir (path_string root1))) "user:bob" "db-1:22" true "sess-2" attr1.
Definition typing1 : chan_env :=
  env1 [UserChunk (chars "x"); UserRequest ptyreq1 reqenv1; TargetChunk 9 (chars "hi") 2].
Definition typing2 : chan_env := env1 [UserRequest ptyreq1 reqenv1; TargetChunk 10 (chars "ls") 2].
Definition pool2 : list (channel LocalDirSink) :=
  [(proxier1, session1, typing1); (proxier2, session1, typing2)].
Definition before2 : list move :=
  [Receive; Run 0; Receive; Run 0; Run 1; Run 0; Run 1; Run 0; Run 1; Run 1].
Definition after2 : list move := [Run 1; Run 1; Run 0; Run 1; Run 0; Run 1; Run 0; Run 1].
Definition chans2 : list (NewChannel * chan_env) :=
  [(session1, typing1); (forward1, env1 [UserChunk (chars "abc"); TargetChunk 0 (chars "de") 2])].

Lemma channels_gated_example : of_chan 0 (HandleNewChannels (S := LocalDirSink)
    (NewProxier (Rbac.New None) None "user:alice" "db-1:22" true "sess-1" attr1)
    [(forward1, env1 [])] [Run 4; Receive] ∅).2 =
  [Reject Prohibited "port forwarding not permitted by cert"].
Proof. vm_compute. reflexivity. Qed.

(** The store when the first session's terminal request is next: the second
    session records already. *)
Definition store2 : fs := cs_fs (conn_run before2 (conn_start pool2 fs1)).

Lemma recording_isolated_witness :
  let st := conn_run (Run 0 :: after2) (conn_run before2 (conn_start pool2 fs1)) in
  cs_fs st !! cast_path root1 0 meta2 =
    Some (File (w_bytes (encoded (rec_run rec2 [OpOutput 9 (chars "hi")])))) ∧
  completions (of_chan 0 (cs_trace st)) = 1%nat.
Proof.
  destruct (recording_isolated pool2 fs1
    (sink_open (LocalDir (path_string root1)) (now draw1) store2 meta2).1
    (LocalDir (path_string root1)) before2 after2 0 proxier1 session1 typing1
    None (Some (newChannelRecorder (LocalDir (path_string root1)) "sess-1" "user:alice" "db-1:22" attr1))
    1 0 [UserChunk (chars "x")] [TargetChunk 9 (chars "hi") 2] ptyreq1 reqenv1 80 24
    (cast_path root1 0 meta2) (path_string (cast_path root1 0 meta2)) rec2)
    as (Hf & Hc & _).
  - reflexivity.
  - discriminate.
  - reflexivity.
  - reflexivity.
  - repeat constructor.
  - vm_compute. reflexivity.
  - reflexivity.
  - vm_compute. reflexivity.
  - vm_compute. reflexivity.
  - apply pair_snd. vm_compute. reflexivity.
  - vm_compute. reflexivity.
  - vm_compute. reflexivity.
  - split; [exact Hf|exact Hc].
Defined.

End Witnesses.
