(* ===== verification/Pipe.v ===== *)
(** * Package [session]: the goroutines of [pipeChannel]

    [internal/proxyd/session/proxy.go], [pipeChannel].  Two SSH channels, one to
    the user and one to the target, are joined by six copying goroutines (data,
    requests and stderr, each way) and a once-only close of both.  The model is
    a transition system whose labels are the moves of the peers and of the
    goroutines; [Channel] models what a single request or chunk does.

    Library behaviour used: a read returns end-of-file when the peer has sent
    EOF or closed and the buffer is empty; the request stream ends when the
    peer has closed; a write or a request on a channel that either end has
    closed fails; [Close] is all a peer sees of the proxy's end of stream. *)

From Stdlib Require Import ZArith Lia Ascii.
From stdpp Require Import prelude strings list.
From S2P Require Import Prelude GoStrings GoSsh.

Inductive side := User | Target.
Definition other (s : side) : side := match s with User => Target | Target => User end.

(** One channel, seen from the proxy: what the peer sent and is still unread,
    and what the proxy delivered to the peer.  [sent], [sent_reqs] are the
    history of what the peer sent. *)
Record endpoint := {
  inq : list (list ascii);
  inerr : list (list ascii);
  ineof : bool;
  inreqs : list Request;
  peer_closed : bool;
  out : list (list ascii);
  outerr : list (list ascii);
  outreqs : list Request;
  sent : list (list ascii);
  sent_reqs : list Request
}.

(** Which of the goroutines reading from a side have returned. *)
Record copiers := { data_done : bool; reqs_done : bool; err_done : bool }.

Record pipe_st := {
  ep_user : endpoint;
  ep_target : endpoint;
  from_user : copiers;
  from_target : copiers;
  both_closed : bool
}.

Definition ep (s : side) (st : pipe_st) : endpoint :=
  match s with User => ep_user st | Target => ep_target st end.
Definition from (s : side) (st : pipe_st) : copiers :=
  match s with User => from_user st | Target => from_target st end.
Definition put_ep (s : side) (e : endpoint) (st : pipe_st) : pipe_st :=
  match s with
  | User => {| ep_user := e; ep_target := ep_target st; from_user := from_user st;
               from_target := from_target st; both_closed := both_closed st |}
  | Target => {| ep_user := ep_user st; ep_target := e; from_user := from_user st;
                 from_target := from_target st; both_closed := both_closed st |}
  end.
Definition put_from (s : side) (c : copiers) (st : pipe_st) : pipe_st :=
  match s with
  | User => {| ep_user := ep_user st; ep_target := ep_target st; from_user := c;
               from_target := from_target st; both_closed := both_closed st |}
  | Target => {| ep_user := ep_user st; ep_target := ep_target st; from_user := from_user st;
                 from_target := c; both_closed := both_closed st |}
  end.

Definition fresh_ep : endpoint :=
  {| inq := []; inerr := []; ineof := false; inreqs := []; peer_closed := false;
     out := []; outerr := []; outreqs := []; sent := []; sent_reqs := [] |}.
Definition no_copier_done : copiers := {| data_done := false; reqs_done := false; err_done := false |}.
Definition pipe_init : pipe_st :=
  {| ep_user := fresh_ep; ep_target := fresh_ep; from_user := no_copier_done;
     from_target := no_copier_done; both_closed := false |}.

Inductive label :=
  (* the peer on a side *)
  | PData (s : side) (c : list ascii)
  | PErr (s : side) (c : list ascii)
  | PReq (s : side) (r : Request)
  | PEof (s : side)
  | PClose (s : side)
  (* the goroutine copying from a side *)
  | CopyData (s : side)
  | CopyErr (s : side)
  | CopyReq (s : side)
  | CloseBoth (s : side).

Definition by_proxy (l : label) : bool :=
  match l with CopyData _ | CopyErr _ | CopyReq _ | CloseBoth _ => true | _ => false end.

Section Pipe.
(** [permitsRequest] of the proxier, for the user's requests. *)
Context (permits : Request → bool).

Definition admitted (s : side) (r : Request) : bool :=
  match s with User => permits r | Target => true end.

(** A write or a request towards a side succeeds. *)
Definition writable (s : side) (st : pipe_st) : bool :=
  negb (both_closed st) && negb (peer_closed (ep s st)).

(** Setters, one per way an endpoint or a goroutine changes. *)
Definition enq (c : list ascii) (e : endpoint) : endpoint :=
  {| inq := inq e ++ [c]; inerr := inerr e; ineof := ineof e; inreqs := inreqs e;
     peer_closed := peer_closed e; out := out e; outerr := outerr e; outreqs := outreqs e;
     sent := sent e ++ [c]; sent_reqs := sent_reqs e |}.
Definition enq_err (c : list ascii) (e : endpoint) : endpoint :=
  {| inq := inq e; inerr := inerr e ++ [c]; ineof := ineof e; inreqs := inreqs e;
     peer_closed := peer_closed e; out := out e; outerr := outerr e; outreqs := outreqs e;
     sent := sent e; sent_reqs := sent_reqs e |}.
Definition enq_req (r : Request) (e : endpoint) : endpoint :=
  {| inq := inq e; inerr := inerr e; ineof := ineof e; inreqs := inreqs e ++ [r];
     peer_closed := peer_closed e; out := out e; outerr := outerr e; outreqs := outreqs e;
     sent := sent e; sent_reqs := sent_reqs e ++ [r] |}.
Definition ended (closes : bool) (e : endpoint) : endpoint :=
  {| inq := inq e; inerr := inerr e; ineof := true; inreqs := inreqs e;
     peer_closed := peer_closed e || closes; out := out e; outerr := outerr e; outreqs := outreqs e;
     sent := sent e; sent_reqs := sent_reqs e |}.
Definition set_in q er rq (e : endpoint) : endpoint :=
  {| inq := q; inerr := er; ineof := ineof e; inreqs := rq;
     peer_closed := peer_closed e; out := out e; outerr := outerr e; outreqs := outreqs e;
     sent := sent e; sent_reqs := sent_reqs e |}.
Definition set_out o oe orq (e : endpoint) : endpoint :=
  {| inq := inq e; inerr := inerr e; ineof := ineof e; inreqs := inreqs e;
     peer_closed := peer_closed e; out := o; outerr := oe; outreqs := orq;
     sent := sent e; sent_reqs := sent_reqs e |}.

Definition end_data (s : side) (st : pipe_st) : pipe_st :=
  put_from s {| data_done := true; reqs_done := reqs_done (from s st); err_done := err_done (from s st) |} st.
Definition end_reqs (s : side) (st : pipe_st) : pipe_st :=
  put_from s {| data_done := data_done (from s st); reqs_done := true; err_done := err_done (from s st) |} st.
Definition end_err (s : side) (st : pipe_st) : pipe_st :=
  put_from s {| data_done := data_done (from s st); reqs_done := reqs_done (from s st); err_done := true |} st.

Definition pipe_step (st : pipe_st) (l : label) : option pipe_st :=
  match l with
  | PData s c => if ineof (ep s st) then None else Some (put_ep s (enq c (ep s st)) st)
  | PErr s c => if ineof (ep s st) then None else Some (put_ep s (enq_err c (ep s st)) st)
  | PReq s r => if peer_closed (ep s st) then None else Some (put_ep s (enq_req r (ep s st)) st)
  | PEof s => Some (put_ep s (ended false (ep s st)) st)
  | PClose s => Some (put_ep s (ended true (ep s st)) st)
  | CopyData s =>
      let e := ep s st in let d := ep (other s) st in
      if data_done (from s st) then None
      else match inq e with
      | c :: q =>
          let st' := put_ep s (set_in q (inerr e) (inreqs e) e) st in
          if writable (other s) st
          then Some (put_ep (other s) (set_out (out d ++ [c]) (outerr d) (outreqs d) d) st')
          else Some (end_data s st')
      | [] => if ineof e then Some (end_data s st) else None
      end
  | CopyErr s =>
      let e := ep s st in let d := ep (other s) st in
      if err_done (from s st) then None
      else match inerr e with
      | c :: q =>
          let st' := put_ep s (set_in (inq e) q (inreqs e) e) st in
          if writable (other s) st
          then Some (put_ep (other s) (set_out (out d) (outerr d ++ [c]) (outreqs d) d) st')
          else Some (end_err s st')
      | [] => if ineof e then Some (end_err s st) else None
      end
  | CopyReq s =>
      let e := ep s st in let d := ep (other s) st in
      if reqs_done (from s st) then None
      else match inreqs e with
      | r :: q =>
          let st' := put_ep s (set_in (inq e) (inerr e) q e) st in
          if admitted s r && writable (other s) st
          then Some (put_ep (other s) (set_out (out d) (outerr d) (outreqs d ++ [r]) d) st')
          else Some st'
      | [] => if peer_closed e then Some (end_reqs s st) else None
      end
  | CloseBoth s =>
      if data_done (from s st) && reqs_done (from s st) && negb (both_closed st)
      then Some {| ep_user := ep_user st; ep_target := ep_target st; from_user := from_user st;
                   from_target := from_target st; both_closed := true |}
      else None
  end.

Fixpoint pipe_run (st : pipe_st) (ls : list label) : option pipe_st :=
  match ls with
  | [] => Some st
  | l :: ls => st' ← pipe_step st l; pipe_run st' ls
  end.

(** [pipeChannel] has returned: all four goroutines of the wait group have. *)
Definition side_done (s : side) (st : pipe_st) : bool :=
  data_done (from s st) && reqs_done (from s st) && err_done (from s st).
Definition returned (st : pipe_st) : bool :=
  side_done User st && side_done Target st && both_closed st.

(** ** Invariants *)
Lemma pipe_run_inv (P : pipe_st → Prop) :
  (∀ st l st', P st → pipe_step st l = Some st' → P st') →
  ∀ ls st st', P st → pipe_run st ls = Some st' → P st'.
Proof.
  intros Hs ls. induction ls as [|l ls IH]; intros st st' HP; cbn [pipe_run]; [by intros [= <-]|].
  destruct (pipe_step st l) as [st1|] eqn:Hl; cbn; [|done]. apply IH. by eapply Hs.
Qed.

(** What the target sent, while the user has not closed: delivered, then
    pending, and nothing lost. *)
Record delivers (st : pipe_st) : Prop := {
  dl_data : out (ep_user st) ++ inq (ep_target st) = sent (ep_target st);
  dl_reqs : outreqs (ep_user st) ++ inreqs (ep_target st) = sent_reqs (ep_target st);
  dl_data_done : data_done (from_target st) = true → inq (ep_target st) = [] ∧ ineof (ep_target st) = true;
  dl_reqs_done : reqs_done (from_target st) = true → inreqs (ep_target st) = [] ∧ peer_closed (ep_target st) = true;
  dl_closed : both_closed st = true →
    data_done (from_target st) = true ∧ reqs_done (from_target st) = true
}.

(** A request goroutine returns only after its peer has closed. *)
Record reqs_ok (st : pipe_st) : Prop := {
  ro_user : reqs_done (from_user st) = true → peer_closed (ep_user st) = true;
  ro_target : reqs_done (from_target st) = true → peer_closed (ep_target st) = true;
  ro_closed : both_closed st = true → peer_closed (ep_user st) = true ∨ peer_closed (ep_target st) = true;
  ro_eof s : peer_closed (ep s st) = true → ineof (ep s st) = true
}.

(** Case analysis of one step on a state taken apart. *)
Ltac open_state st :=
  destruct st as [[uq ue ueof urq upc uo uoe uor us usr] [tq te teof trq tpc to_ toe tor ts tsr]
                  [ud ur uerr] [td tr terr] bc]; cbn in *.
Ltac step_cases :=
  match goal with
  | H : pipe_step _ ?l = Some _ |- _ =>
      destruct l as [s c|s c|s r|s|s|s|s|s|s]; destruct s; unfold pipe_step, writable in H; cbn in H;
      repeat match type of H with
      | (match ?x with _ => _ end) = _ => first [is_var x; destruct x | destruct x eqn:?]; cbn in H
      end; try discriminate H; injection H as <-; cbn
  end.
Ltac by_side := match goal with |- ∀ s : side, _ => intros []; cbn end.
Ltac bools :=
  repeat match goal with
  | H : _ && _ = true |- _ => apply andb_true_iff in H as [? ?]
  | H : _ && _ = false |- _ => apply andb_false_iff in H as [H|H]
  | H : _ || _ = true |- _ => apply orb_true_iff in H
  | H : negb _ = true |- _ => apply negb_true_iff in H
  | H : negb _ = false |- _ => apply negb_false_iff in H
  end; rewrite ?orb_false_r, ?orb_true_r in *.

Lemma reqs_ok_step st l st' : reqs_ok st → pipe_step st l = Some st' → reqs_ok st'.
Proof.
  intros [Hu Ht Hc He] Hst. pose proof (He User) as Heu. pose proof (He Target) as Het. clear He.
  open_state st. step_cases; split; cbn; try by_side; bools; intuition congruence.
Qed.

Lemma reqs_ok_run ls st : pipe_run pipe_init ls = Some st → reqs_ok st.
Proof.
  apply (pipe_run_inv reqs_ok); [apply reqs_ok_step|]. split; try done. by intros [].
Qed.

Lemma delivers_step st l st' :
  reqs_ok st → (peer_closed (ep_user st) = false → delivers st) →
  pipe_step st l = Some st' → peer_closed (ep_user st') = false → delivers st'.
Proof.
  intros [Hu Ht Hc He] Hd Hst Hpc'. pose proof (He Target) as Het. clear He.
  assert (peer_closed (ep_user st) = false) as Hpc.
  { open_state st. step_cases; cbn in Hpc'; bools; try done. }
  specialize (Hd Hpc) as [H1 H2 H3 H4 H5]. open_state st.
  step_cases; cbn in Hpc'; split; cbn; bools; rewrite <-?(assoc_L (++)) in *; cbn [app] in *;
    first [by rewrite (assoc_L (++)), H1 | by rewrite (assoc_L (++)), H2
          | intuition (subst; eauto; congruence)].
Qed.

Lemma delivers_run ls st :
  pipe_run pipe_init ls = Some st → peer_closed (ep_user st) = false → delivers st.
Proof.
  intros Hr. apply (pipe_run_inv (λ st, reqs_ok st ∧ (peer_closed (ep_user st) = false → delivers st)))
    in Hr as [_ Hd]; [done| |].
  - intros s l s' [Hok Hd] Hst. split; [by eapply reqs_ok_step|]. intros. by eapply delivers_step.
  - split; [split; try done; by intros []|]. intros _. by split.
Qed.

(** Work left: pending items and unfinished goroutines. *)
Definition undone (b : bool) : nat := if b then 0 else 1.
Definition side_work (s : side) (st : pipe_st) : nat :=
  length (inq (ep s st)) + length (inerr (ep s st)) + length (inreqs (ep s st)) +
  undone (data_done (from s st)) + undone (reqs_done (from s st)) + undone (err_done (from s st)).
Definition work (st : pipe_st) : nat :=
  side_work User st + side_work Target st + undone (both_closed st).

Lemma work_step st l st' : by_proxy l = true → pipe_step st l = Some st' → work st' < work st.
Proof.
  intros Hl Hst. open_state st. step_cases; try discriminate Hl;
    unfold work, side_work; cbn; bools; subst; cbn [undone length]; try lia;
    repeat match goal with |- context [undone ?b] => destruct b; cbn [undone] end; try done; lia.
Qed.

Lemma proxy_step_closed st l st' s :
  by_proxy l = true → pipe_step st l = Some st' → peer_closed (ep s st') = peer_closed (ep s st).
Proof.
  intros Hl Hst. destruct s; open_state st; step_cases; try discriminate Hl; done.
Qed.

Lemma copy_progress st s :
  ineof (ep s st) = true → peer_closed (ep s st) = true →
  pipe_step st (CopyData s) = None → pipe_step st (CopyReq s) = None → pipe_step st (CopyErr s) = None →
  side_done s st = true.
Proof.
  intros He Hc H1 H2 H3. unfold side_done. cbn [pipe_step] in *.
  destruct (data_done (from s st)); [|destruct (inq (ep s st)); [by rewrite He in H1|by destruct (writable _ _)]].
  destruct (reqs_done (from s st)); [|destruct (inreqs (ep s st)); [by rewrite Hc in H2|by destruct (_ && _)]].
  destruct (err_done (from s st)); [done|].
  destruct (inerr (ep s st)); [by rewrite He in H3|by destruct (writable _ _)].
Qed.

(** ** Properties *)

(** C14: output and exit status are complete when the channels close.  In every
    reachable state in which the proxy has closed both channels while the user
    has not hung up, everything the target sent on its main stream has been
    delivered to the user in order, and so has every one of its channel
    requests, the exit status included. *)
Theorem exit_status_delivered (ls : list label) (st : pipe_st) :
  pipe_run pipe_init ls = Some st → both_closed st = true → peer_closed (ep_user st) = false →
  out (ep_user st) = sent (ep_target st) ∧ outreqs (ep_user st) = sent_reqs (ep_target st).
Proof.
  intros Hr Hc Hu. destruct (delivers_run ls st Hr Hu) as [H1 H2 H3 H4 H5].
  destruct (H5 Hc) as [Hd Hq]. destruct (H3 Hd) as [H3' _]. destruct (H4 Hq) as [H4' _].
  rewrite H3', app_nil_r in H1. by rewrite H4', app_nil_r in H2.
Qed.

(** C15: [pipeChannel] terminates once both peers have closed.  From every
    reachable such state, however the goroutines are scheduled, they take only
    finitely many steps, and when none can step any more all of them have
    returned and both channels are closed: none is left blocked. *)
Theorem pipe_terminates (ls ls' : list label) (st st' : pipe_st) :
  pipe_run pipe_init ls = Some st →
  peer_closed (ep_user st) = true → peer_closed (ep_target st) = true →
  pipe_run st ls' = Some st' → Forall (λ l, by_proxy l = true) ls' →
  length ls' ≤ work st ∧
  ((∀ l, by_proxy l = true → pipe_step st' l = None) → returned st' = true).
Proof.
  intros Hr Hu Ht Hr' Hall. apply reqs_ok_run in Hr.
  revert st Hr Hu Ht Hr'. induction Hall as [|l ls' Hl _ IH]; intros st Hok Hu Ht Hr'; cbn [pipe_run] in Hr'.
  - injection Hr' as <-. split; [cbn; lia|]. intros Hno. destruct Hok as [_ _ _ He].
    assert (∀ s, side_done s st = true) as Hs.
    { intros s. apply copy_progress; try (by apply Hno); try apply He; by destruct s. }
    unfold returned. rewrite (Hs User), (Hs Target). cbn [andb].
    destruct (both_closed st) eqn:Hb; [done|]. specialize (Hno (CloseBoth User) eq_refl).
    cbn [pipe_step] in Hno. specialize (Hs User). unfold side_done in Hs.
    apply andb_true_iff in Hs as [Hs _]. rewrite Hs, Hb in Hno. done.
  - destruct (pipe_step st l) as [st1|] eqn:Hst; [|done]. cbn in Hr'.
    pose proof (work_step _ _ _ Hl Hst).
    destruct (IH st1) as [Hlen Hret]; [by eapply reqs_ok_step| | |done|].
    + etrans; [exact (proxy_step_closed _ _ _ User Hl Hst)|done].
    + etrans; [exact (proxy_step_closed _ _ _ Target Hl Hst)|done].
    + split; [cbn; lia|done].
Qed.

(** End of input is not passed on.  As long as neither peer has closed its
    channel, the proxy closes nothing, in every reachable state, whether or
    not the user has sent EOF: the only end of stream a target can see is the
    close of the whole channel, so a command that reads to the end of its
    input waits for the user to hang up. *)
Theorem eof_not_propagated (ls : list label) (st : pipe_st) :
  pipe_run pipe_init ls = Some st →
  peer_closed (ep_user st) = false → peer_closed (ep_target st) = false → both_closed st = false.
Proof.
  intros [_ _ Hc _]%reqs_ok_run Hu Ht. destruct (both_closed st); [|done].
  destruct (Hc eq_refl); congruence.
Qed.
End Pipe.

(** A target that reports an error on stderr, exits and closes, with the
    goroutine that copies stderr scheduled last. *)
Definition stderr_race : list label :=
  [PErr Target (chars "error"); PClose Target;
   CopyData Target; CopyReq Target; CloseBoth Target; CopyErr Target].

(** Stderr may be cut off.  There is a schedule in which the target sends
    on stderr and then closes, the user never hangs up, and the proxy closes
    both channels and drops the chunk: the close waits for the main stream and
    the requests only. *)
Theorem stderr_may_be_lost :
  ∃ st, pipe_run (λ _, true) pipe_init stderr_race = Some st ∧ both_closed st = true ∧
    peer_closed (ep_user st) = false ∧ outerr (ep_user st) = [] ∧ inerr (ep_target st) = [].
Proof. eexists. split; [reflexivity|]. done. Qed.

(** ** Witnesses *)
Definition exit_req : Request := {| Type_ := "exit-status"; WantReply := false; Payload := be32 0 |}.
Definition session_run : list label :=
  [PData Target (chars "hi"); PReq Target exit_req; CopyReq Target; PClose Target;
   CopyData Target; CopyData Target; CopyReq Target; CloseBoth Target].
Definition session_end : pipe_st := default pipe_init (pipe_run (λ _, true) pipe_init session_run).

Lemma exit_status_delivered_witness :
  out (ep_user session_end) = [chars "hi"] ∧ outreqs (ep_user session_end) = [exit_req].
Proof.
  destruct (exit_status_delivered (λ _, true) session_run session_end) as [Hd Hr];
    [vm_compute; reflexivity..|].
  rewrite Hd, Hr. split; vm_compute; reflexivity.
Defined.

Definition hangup_run : list label := [PData Target (chars "hi"); PClose Target; PClose User].
Definition hangup_st : pipe_st := default pipe_init (pipe_run (λ _, true) pipe_init hangup_run).

Lemma pipe_terminates_witness : length [CopyData Target; CopyErr User] ≤ work hangup_st.
Proof.
  destruct (pipe_terminates (λ _, true) hangup_run [CopyData Target; CopyErr User] hangup_st
    (default pipe_init (pipe_run (λ _, true) hangup_st [CopyData Target; CopyErr User])))
    as [H _]; [reflexivity..| |exact H].
  repeat constructor.
Defined.

Lemma eof_not_propagated_witness :
  both_closed (default pipe_init (pipe_run (λ _, true) pipe_init
    [PData User (chars "x"); PEof User; CopyData User; CopyData User])) = false.
Proof.
  apply (eof_not_propagated (λ _, true) [PData User (chars "x"); PEof User; CopyData User; CopyData User]);
    reflexivity.
Defined.
