(* ===== verification/SshServer.v ===== *)
(** * Package [ssh]: the SSH server

    [internal/proxyd/ssh/server.go]: authentication of a user certificate,
    routing of the target dial, and the life of one connection as the events
    it causes.  The SSH library's certificate checker is the class
    [CertAuthority]; its documented checks are [CertAuthorityLaws]. *)

From Stdlib Require Import ZArith Lia Ascii.
From stdpp Require Import prelude strings pretty gmap list.
From S2P Require Import Prelude GoStrings GoTime NetAddr Rbac Routing GoSsh Revcheck Json GoCalendar GoOs Recording Target AuditLog Channel Channels.

Local Open Scope Z_scope.
Local Open Scope go_scope.

(** ** The certificate checker *)

(** [gossh.CertChecker.Authenticate] with its two hooks: whether a key (in
    marshalled form) is a user authority, and whether a certificate is
    revoked, which may panic. *)
Class CertAuthority := {
  Authenticate : (string → bool) → (Certificate → outcome Empty_set bool) →
    string → PublicKey → outcome string Permissions
}.
Class CertAuthorityLaws (A : CertAuthority) : Prop := {
  (** an accepted key is a user certificate of an authority, not revoked, with the
      user among its principals (an empty list admits every user); its own
      permissions are returned *)
  authenticate_sound auth rev user key perms :
    Authenticate auth rev user key = Ret perms →
    ∃ c, key = CertKey c ∧ CertType c = UserCert ∧ auth (SignatureKey c) = true ∧ rev c = Ret false ∧
         (ValidPrincipals c = [] ∨ user ∈ ValidPrincipals c) ∧ perms = CertPermissions c;
  (** the hooks are consulted in this order, and a panic of a hook is one of
      the call *)
  authenticate_panic auth rev user c :
    CertType c = UserCert → auth (SignatureKey c) = true → rev c = Panic → Authenticate auth rev user (CertKey c) = Panic
}.

(** ** Authentication *)
Inductive PkError := PkTarget (e : TargetError) | PkCert (e : string) | PkSourceAddress.

Record ConnMetadata := { MetaUser : string; RemoteAddr : Addr }.

(** [remoteUserMeta]: the same connection under the remote user's name. *)
Definition remoteUserMeta (m : ConnMetadata) (u : string) : ConnMetadata :=
  {| MetaUser := u; RemoteAddr := RemoteAddr m |}.

Section Authentication.
Context {A : CertAuthority}.

(** The fields of [Config] the callback reads. *)
Context (TrustedUserCA : string) (Revocations : Checker).

Definition isRevoked (c : Certificate) : outcome Empty_set bool :=
  match Revocations with
  | CheckerNil => Ret false
  | r => checker_IsRevoked r (Some c)
  end.

Definition merge_extensions (perms : Permissions) (c : Certificate) (remoteUser targetHost : string)
    : Permissions :=
  {| CriticalOptions := CriticalOptions perms;
     Extensions := Some
       (<["target-host" := targetHost]> (<["remote-user" := remoteUser]>
       (<["serial" := pretty (Serial c)]> (<["principals" := Join "," (ValidPrincipals c)]>
       (<["key-id" := KeyId c]> (default ∅ (Extensions perms))))))) |}.

Definition publicKeyCallback (meta : ConnMetadata) (key : PublicKey) : outcome PkError Permissions :=
  match ParseTarget (MetaUser meta) with
  | Err e => Err (PkTarget e)
  | Panic => Panic
  | Ret (remoteUser, targetHost) =>
      let! perms := map_err PkCert
        (Authenticate (λ k, bool_decide (k = TrustedUserCA)) isRevoked
           (MetaUser (remoteUserMeta meta remoteUser)) key) in
      match key with
      | RawKey _ => Panic (* the unchecked type assertion *)
      | CertKey cert =>
          let enforcer := Rbac.New (Some perms) in
          require SourceAddressOK enforcer (RemoteAddr meta) else PkSourceAddress;;
          Ret (merge_extensions perms cert remoteUser targetHost)
      end
  end.
End Authentication.

(** ** Routing of the dial *)
Inductive net_conn := TunnelStream (stream : nat) | TCPConn (c : nat).

Section Tunnel.
Context {U : UnicodeTables}.

Definition lookup_host (host : string) : string :=
  match SplitHostPort host with Ret (h, _) => h | _ => host end.

(** The transport hook, given the registry and what the libraries answer:
    liveness and [Open] of yamux sessions, the TCP dialer. *)
Definition tunnelTransport (TunnelRegistry : option Registry) (host : string)
    : option ((nat → bool) → (nat → outcome string nat) → (string → outcome string nat) →
              bool → string → Registry * outcome string net_conn) :=
  match TunnelRegistry with
  | None => None
  | Some registry => Some (λ dead yamux_open tcp_dial ctx_done addr,
      let '(r, res) := Open dead yamux_open ctx_done registry (lookup_host host) in
      match res with
      | Ret st => (r, Ret (TunnelStream st))
      | Err ErrNoTunnel => (r, let! c := tcp_dial addr in Ret (TCPConn c))
      | Err ErrCtx => (r, Err "context done")
      | Err (ErrOpenStream h cause) => (r, Err ("open stream to " +:+ h +:+ ": " +:+ cause))
      | Err _ => (r, Err "registry")
      | Panic => (r, Panic)
      end)
  end.
End Tunnel.

(** ** Audit events of a connection *)
Definition ipFromAddr (a : Addr) : string :=
  match a with
  | AddrNil => ""
  | _ => match SplitHostPort (addr_String a) with Ret (host, _) => host | _ => addr_String a end
  end.

Record sessionEvents := {
  ev_sessionID : string; ev_user : string; ev_principals : string;
  ev_target : string; ev_remoteUser : string; ev_clientIP : string
}.

Definition emit (e : sessionEvents) (d : draw) (act reason : string)
    (metadata : list (string * json)) : Entry :=
  {| ID := uuid d; Action := act; EntrySessionID := ev_sessionID e; EntryUser := ev_user e;
     EntryPrincipals := ev_principals e; EntryTarget := ev_target e;
     EntryRemoteUser := ev_remoteUser e; EntryClientIP := ev_clientIP e;
     RecordingPath := ""; EntryReason := reason;
     Metadata := if bool_decide (metadata = []) then [] else Marshal (JMap metadata);
     OccurredAt := now d |}.

(** ** Configuration *)

(** Pointers, interfaces and functions are [option]s; what they point to does
    not matter here. *)
Record Config := {
  Addr : string; HostSigner : option nat; CfgTrustedUserCA : option string;
  ClientSignerFunc : option nat; TargetHostKeyCallback : option nat; HandshakeTimeout : Z
}.
Inductive ConfigError :=
  | AddrRequired | HostSignerRequired | TrustedUserCARequired
  | ClientSignerFuncRequired | TargetHostKeyCallbackRequired.

Definition New (cfg : Config) : outcome ConfigError Config :=
  require negb (bool_decide (Addr cfg = "")) else AddrRequired;;
  require bool_decide (is_Some (HostSigner cfg)) else HostSignerRequired;;
  require bool_decide (is_Some (CfgTrustedUserCA cfg)) else TrustedUserCARequired;;
  require bool_decide (is_Some (ClientSignerFunc cfg)) else ClientSignerFuncRequired;;
  require bool_decide (is_Some (TargetHostKeyCallback cfg)) else TargetHostKeyCallbackRequired;;
  Ret {| Addr := Addr cfg; HostSigner := HostSigner cfg; CfgTrustedUserCA := CfgTrustedUserCA cfg;
         ClientSignerFunc := ClientSignerFunc cfg;
         TargetHostKeyCallback := TargetHostKeyCallback cfg;
         HandshakeTimeout := if HandshakeTimeout cfg =? 0 then 30 * second else HandshakeTimeout cfg |}.

(** ** The life of a connection *)

(** A channel opened by the user's client: what it is, what its peers answer,
    and whether the server's context is done when it is rejected. *)
Record in_channel := { ic_chan : NewChannel; ic_env : chan_env; ic_ctx_done : bool }.

Inductive conn_event :=
  | SetDeadline (t : Z)
  | ClearDeadline
  | Appended (e : Entry)
  | AskedSigner (user : string)
  | RejectedChannel (reason : Z) (msg : string)
  | ChannelAction (i : nat) (a : action)
  | TargetClosed
  | SshClosed
  | ConnClosed.

(** [rejectAll]: every remaining channel, with the shutdown message once the
    context is done. *)
Fixpoint rejectAll (chans : list in_channel) (reason : Z) (msg : string) : list conn_event :=
  match chans with
  | [] => []
  | c :: rest =>
      (if ic_ctx_done c then RejectedChannel ConnectionFailed "server shutting down"
       else RejectedChannel reason msg) :: rejectAll rest reason msg
  end.

(** What the outside answers during one connection: the handshake (the
    permissions the callback returned), the signer, the target dial, the
    channels the client opens and how their goroutines are scheduled. *)
Record conn_env := {
  remote : NetAddr.Addr;
  handshake : outcome string Permissions;
  conn_uuid : string;
  signer : outcome string nat;
  dial : outcome string nat;
  channels : list in_channel;
  schedule : list move;
  d_start : draw; d_opened : draw; d_rejected : draw; d_closed : draw
}.

Section Connection.
Context {W : SshWire} {S : Type} `{CastSink S}.
Context (HandshakeTimeout : Z) (RecordingSink : option S).

(** [m[k]] on a map that may be nil. *)
Definition ext (perms : Permissions) (k : string) : string := default "" (map_get (Extensions perms) k).

Definition session_events (env : conn_env) (perms : Permissions) : sessionEvents :=
  {| ev_sessionID := conn_uuid env; ev_user := ext perms "key-id";
     ev_principals := ext perms "principals"; ev_target := ext perms "target-host";
     ev_remoteUser := ext perms "remote-user"; ev_clientIP := ipFromAddr (remote env) |}.

Definition session_proxier (env : conn_env) (perms : Permissions) : Proxier S :=
  let ev := session_events env perms in
  NewProxier (Rbac.New (Some perms)) RecordingSink (ev_user ev) (ev_target ev) true (ev_sessionID ev)
    {| Principals := ev_principals ev; AttrTarget := ev_target ev;
       RemoteUser := ev_remoteUser ev; ClientIP := ev_clientIP ev |}.

Definition accepted (chans : list in_channel) : list (NewChannel * chan_env) := (λ c, (ic_chan c, ic_env c)) <$> chans.

(** After the handshake: the part between the opened and the closed event. *)
Definition serve_session (env : conn_env) (perms : Permissions) (t : fs) : fs * list conn_event :=
  let ev := session_events env perms in
  match signer env with
  | Err e =>
      let reason := "proxy could not obtain a client signer: " +:+ e in
      (t, AskedSigner (ev_remoteUser ev) ::
          Appended (emit ev (d_rejected env) ActionChannelRejected reason
            [("stage", JString (chars "client_signer"))]) ::
          rejectAll (channels env) ConnectionFailed reason)
  | Panic => (t, [AskedSigner (ev_remoteUser ev)])
  | Ret sig =>
      match dial env with
      | Err e =>
          let reason := "target unreachable: " +:+ e in
          (t, AskedSigner (ev_remoteUser ev) ::
              Appended (emit ev (d_rejected env) ActionChannelRejected reason
                [("stage", JString (chars "target_dial"))]) ::
              rejectAll (channels env) ConnectionFailed reason)
      | Panic => (t, [AskedSigner (ev_remoteUser ev)])
      | Ret _ =>
          let '(t, acts) := HandleNewChannels (session_proxier env perms) (accepted (channels env))
                              (schedule env) t in
          (t, AskedSigner (ev_remoteUser ev) :: (uncurry ChannelAction <$> acts) ++ [TargetClosed])
      end
  end.

Definition handleConn (env : conn_env) (t : fs) : fs * list conn_event :=
  let opening := SetDeadline (now (d_start env) + HandshakeTimeout) in
  match handshake env with
  | Ret perms =>
      let ev := session_events env perms in
      let '(t, mid) := serve_session env perms t in
      (t, [opening; ClearDeadline; Appended (emit ev (d_opened env) ActionSessionOpened "" [])] ++ mid ++
          [Appended (emit ev (d_closed env) ActionSessionClosed "" []); SshClosed; ConnClosed])
  | _ => (t, [opening; ConnClosed])
  end.
End Connection.

(** ** The accept loop *)
Inductive accept_result := Accepted (conn : nat) | ListenerClosed | AcceptError (e : string).

(** The connections handled and the returned error; [None] while blocked in
    [Accept]. *)
Fixpoint ListenAndServe (accepts : list accept_result) : list nat * option (outcome string unit) :=
  match accepts with
  | [] => ([], None)
  | Accepted c :: rest => let '(cs, r) := ListenAndServe rest in (c :: cs, r)
  | ListenerClosed :: _ => ([], Some (Ret ()))
  | AcceptError e :: _ => ([], Some (Err ("accept: " +:+ e)))
  end.

(** ** Facts *)
Lemma map_get_merge perms c ru th k :
  map_get (Extensions (merge_extensions perms c ru th)) k =
    if bool_decide (k = "target-host") then Some th
    else if bool_decide (k = "remote-user") then Some ru
    else if bool_decide (k = "serial") then Some (pretty (Serial c))
    else if bool_decide (k = "principals") then Some (Join "," (ValidPrincipals c))
    else if bool_decide (k = "key-id") then Some (KeyId c)
    else map_get (Extensions perms) k.
Proof.
  unfold merge_extensions, map_get. cbn [Extensions mbind option_bind].
  repeat (case_bool_decide; [subst; by simplify_map_eq|]).
  rewrite !lookup_insert_ne by congruence. by destruct (Extensions perms).
Qed.

(** The names the server adds. *)
Definition attribution_keys : list string :=
  ["target-host"; "remote-user"; "serial"; "principals"; "key-id"].

Lemma hasExtension_merge perms c ru th name :
  name ∉ attribution_keys →
  hasExtension (Rbac.New (Some (merge_extensions perms c ru th))) name =
  hasExtension (Rbac.New (Some perms)) name.
Proof.
  intros Hn. unfold hasExtension. cbn [enforcer_perms Rbac.New mbind option_bind Rbac.perms].
  rewrite map_get_merge. unfold attribution_keys in Hn. rewrite !not_elem_of_cons in Hn.
  destruct Hn as (H1 & H2 & H3 & H4 & H5 & _).
  by rewrite (bool_decide_eq_false_2 _ H1), (bool_decide_eq_false_2 _ H2), (bool_decide_eq_false_2 _ H3),
    (bool_decide_eq_false_2 _ H4), (bool_decide_eq_false_2 _ H5).
Qed.

Section AuthFacts.
Context {A : CertAuthority} {AL : CertAuthorityLaws A}.

Lemma publicKeyCallback_inv ca rv meta key perms :
  publicKeyCallback ca rv meta key = Ret perms →
  ∃ ru th c, ParseTarget (MetaUser meta) = Ret (ru, th) ∧ key = CertKey c ∧ CertType c = UserCert ∧
    SignatureKey c = ca ∧ isRevoked rv c = Ret false ∧
    (ValidPrincipals c = [] ∨ ru ∈ ValidPrincipals c) ∧
    SourceAddressOK (Rbac.New (Some (CertPermissions c))) (RemoteAddr meta) = true ∧
    perms = merge_extensions (CertPermissions c) c ru th.
Proof.
  unfold publicKeyCallback. destruct (ParseTarget (MetaUser meta)) as [[ru th]| |]; [|done..].
  destruct (Authenticate _ _ _ key) as [ps|e|] eqn:HA; [|done..]. cbn [map_err obind].
  apply authenticate_sound in HA as (c & -> & Ht & Hauth & Hrev & Hp & ->).
  intros H. inv_outcome. apply bool_decide_eq_true in Hauth.
  exists ru, th, c. done.
Qed.
End AuthFacts.

(** Every entry among the events of a connection. *)
Definition event_entry (e : conn_event) : option Entry :=
  match e with
  | Appended x => Some x
  | ChannelAction _ (Append x) => Some x
  | _ => None
  end.
Definition rejection (e : conn_event) : option (Z * string) :=
  match e with RejectedChannel reason msg => Some (reason, msg) | _ => None end.
Lemma event_entry_actions (acts : list (nat * action)) :
  omap event_entry (uncurry ChannelAction <$> acts) = omap action_entry acts.*2.
Proof. induction acts as [|[i a] acts IH]; [done|]. destruct a; csimpl; by rewrite IH. Qed.

(** ** Properties of authentication *)
Section AuthProperties.
Context {A : CertAuthority} {AL : CertAuthorityLaws A}.

(** C1: who gets in.  The callback accepts a key only when the username splits
    into a remote user and a target, the key is a user certificate signed by
    the configured CA itself, the revocation store does not name it, the
    remote user (not the whole username) is one of its principals or it has
    none, and the peer's address passes its source-address option; the
    critical options are handed on unchanged. *)
Theorem authentication_sound (ca : string) (rv : Checker) (meta : ConnMetadata) (key : PublicKey)
    (perms : Permissions) :
  publicKeyCallback ca rv meta key = Ret perms →
  ∃ ru th c, MetaUser meta = ru +:+ "@" +:+ th ∧ ru ≠ "" ∧ th ≠ "" ∧
    key = CertKey c ∧ CertType c = UserCert ∧ SignatureKey c = ca ∧
    (rv = CheckerNil ∨ checker_IsRevoked rv (Some c) = Ret false) ∧
    (ValidPrincipals c = [] ∨ ru ∈ ValidPrincipals c) ∧
    SourceAddressOK (Rbac.New (Some (CertPermissions c))) (RemoteAddr meta) = true ∧
    CriticalOptions perms = CriticalOptions (CertPermissions c).
Proof.
  intros (ru & th & c & Hp & -> & Ht & Hca & Hr & Hpr & Hs & ->)%publicKeyCallback_inv.
  destruct (ParseTarget_inv _ _ _ Hp) as (? & ? & ? & _). exists ru, th, c. do 6 (split; [done|]).
  split; [|done]. destruct rv; [by left|by right..].
Qed.


(** A non-nil interface around a nil [*PollingChecker]: every user certificate
    of the CA that reaches the revocation check makes the callback panic. *)
Lemma typed_nil_panics (ca ru th : string) (meta : ConnMetadata) (c : Certificate) :
  ParseTarget (MetaUser meta) = Ret (ru, th) → CertType c = UserCert → SignatureKey c = ca →
  publicKeyCallback ca (Polling None) meta (CertKey c) = Panic.
Proof.
  intros Hp Ht Hca. unfold publicKeyCallback. rewrite Hp.
  rewrite authenticate_panic; [done|done| |done]. by apply bool_decide_eq_true.
Qed.
End AuthProperties.

(** ** Properties of routing *)
Section RouteProperties.
Context {U : UnicodeTables}.

(** How a target is reached.  With a registry configured, a target whose
    host part has a live owner is dialled as a new stream of that owner's
    session and never by TCP; a failure to open the stream is returned, not
    papered over by a direct dial; and only when no live session owns the host
    is the address dialled by TCP. *)
Theorem tunnel_transport_routes (r : Registry) (host addr : string) (dead : nat → bool)
    (yamux_open : nat → outcome string nat) (tcp_dial : string → outcome string nat) :
  ∃ transport, tunnelTransport (Some r) host = Some transport ∧
  (transport dead yamux_open tcp_dial false addr).2 =
    match view dead r (normalize (lookup_host host)) with
    | Some s => match yamux_open s with
                | Ret st => Ret (TunnelStream st)
                | Err cause => Err ("open stream to " +:+ lookup_host host +:+ ": " +:+ cause)
                | Panic => Panic
                end
    | None => let! c := tcp_dial addr in Ret (TCPConn c)
    end.
Proof.
  eexists. split; [reflexivity|]. cbv beta. unfold Open, Lookup, view.
  destruct (tunnels r !! normalize (lookup_host host)) as [e|]; [|done].
  cbn [mbind option_bind isDead]. destruct (dead (session e)); [done|].
  cbn [obind snd]. by destruct (yamux_open (session e)).
Qed.
End RouteProperties.

(** A signer is only asked for the authenticated remote user. *)
Lemma asked_signer_user {W : SshWire} {S : Type} `{CastSink S} timeout (sink : option S) env perms t u :
  handshake env = Ret perms → AskedSigner u ∈ (handleConn timeout sink env t).2 → u = ext perms "remote-user".
Proof.
  intros Hh. unfold handleConn. rewrite Hh.
  assert (∀ chans re msg, AskedSigner u ∉ rejectAll chans re msg) as Hrej.
  { induction chans as [|ch chans IH]; intros re msg; cbn; [set_solver|].
    rewrite not_elem_of_cons. split; [by destruct (ic_ctx_done ch)|apply IH]. }
  destruct (serve_session sink env perms t) as [t' mid] eqn:Hs. cbn [snd].
  rewrite !elem_of_app, !elem_of_cons. intros [[|[|[|]]]|[Hin|[|[|[|]]]]]; try done; try set_solver.
  revert Hs. unfold serve_session. destruct (signer env) as [sig|x|]; [destruct (dial env) as [cl|x|]|..].
  - destruct (HandleNewChannels _ _ _ t) as [t2 acts]. intros [= _ <-].
    rewrite elem_of_cons, elem_of_app in Hin. destruct Hin as [[= ->]|[Hin|Hin]]; [done| |set_solver].
    by apply list_elem_of_fmap in Hin as ([i a] & ? & _).
  - intros [= _ <-]. rewrite !elem_of_cons in Hin. destruct Hin as [[= ->]|[?|Hin]]; [done..|].
    by apply Hrej in Hin.
  - intros [= _ <-]. apply list_elem_of_singleton in Hin. by injection Hin.
  - intros [= _ <-]. rewrite !elem_of_cons in Hin. destruct Hin as [[= ->]|[?|Hin]]; [done..|].
    by apply Hrej in Hin.
  - intros [= _ <-]. apply list_elem_of_singleton in Hin. by injection Hin.
Qed.

(** ** Properties of a connection *)
Section ConnProperties.
Context {W : SshWire} {S : Type} `{CastSink S}.
Context (timeout : Z) (sink : option S).

(** Every session is bracketed and attributed in the audit stream.  A
    connection that completes its handshake publishes session.opened first and
    session.closed last, whatever happens in between (no signer, unreachable
    target, proxied channels); every entry it causes, those of the channels'
    recordings, forwards and subsystems included, carries its session id; and
    both connections are closed at the end. *)
Theorem connection_audited (env : conn_env) (perms : Permissions) (t : fs) :
  handshake env = Ret perms → conn_uuid env ≠ "" →
  ∃ opened closed mid,
    (handleConn timeout sink env t).2 =
      [SetDeadline (now (d_start env) + timeout); ClearDeadline; Appended opened] ++ mid ++
      [Appended closed; SshClosed; ConnClosed] ∧
    Action opened = ActionSessionOpened ∧ Action closed = ActionSessionClosed ∧
    EntryUser opened = ext perms "key-id" ∧ EntryTarget opened = ext perms "target-host" ∧
    EntryUser closed = EntryUser opened ∧ EntryTarget closed = EntryTarget opened ∧
    of_session (conn_uuid env) (omap event_entry ((handleConn timeout sink env t).2)).
Proof.
  intros Hh Hid. unfold handleConn. rewrite Hh.
  destruct (serve_session sink env perms t) as [t' mid] eqn:Hs.
  do 3 eexists. split; [reflexivity|]. do 6 (split; [reflexivity|]). cbn [snd].
  assert (∀ chans re msg, omap event_entry (rejectAll chans re msg) = []) as Hrej.
  { induction chans as [|ch chans IH]; intros re msg; [done|]. cbn [rejectAll].
    destruct (ic_ctx_done ch); apply IH. }
  assert (of_session (conn_uuid env) (omap event_entry mid)) as Hmid.
  { unfold serve_session in Hs. destruct (signer env) as [sig|e|].
    - destruct (dial env) as [cl|e|].
      + pose proof (HandleNewChannels_sid (session_proxier sink env perms) (accepted (channels env)) (schedule env) t Hid) as Hsid.
        destruct (HandleNewChannels _ _ _ t) as [t2 acts]. simplify_eq/=.
        by rewrite omap_app, event_entry_actions, app_nil_r.
      + simplify_eq/=. rewrite Hrej. by repeat constructor.
      + simplify_eq/=. constructor.
    - simplify_eq/=. rewrite Hrej. by repeat constructor.
    - simplify_eq/=. constructor. }
  rewrite !omap_app. unfold of_session in *. rewrite !Forall_app.
  split; [by repeat constructor|]. split; [done|]. by repeat constructor.
Qed.

(** A session that cannot be served serves nothing.  When no client signer
    can be had or the target cannot be dialled, no channel reaches a target:
    every channel the client opens is rejected, and one channel.rejected entry
    says why. *)
Theorem failed_session_rejects (env : conn_env) (perms : Permissions) (t : fs) :
  handshake env = Ret perms →
  (∃ e, signer env = Err e) ∨ (∃ sig e, signer env = Ret sig ∧ dial env = Err e) →
  let evs := (handleConn timeout sink env t).2 in
  (handleConn timeout sink env t).1 = t ∧
  (∀ i a, ChannelAction i a ∉ evs) ∧
  length (omap rejection evs) = length (channels env) ∧
  length (filter (λ e, Action e = ActionChannelRejected) (omap event_entry evs)) = 1%nat.
Proof.
  intros Hh Hf. cbv zeta.
  assert (∀ chans re msg, length (omap rejection (rejectAll chans re msg)) = length chans ∧
    omap event_entry (rejectAll chans re msg) = [] ∧
    ∀ i a, ChannelAction i a ∉ rejectAll chans re msg) as Hrej.
  { intros chans re msg. induction chans as [|ch chans (IH1 & IH2 & IH3)]; [split; [done|split; [done|set_solver]]|].
    cbn [rejectAll]. destruct (ic_ctx_done ch); cbn; rewrite IH1;
      (split; [done|split; [done|]]); intros i a; rewrite not_elem_of_cons; (split; [done|apply IH3]). }
  assert (∃ reason stage, serve_session sink env perms t = (t,
    AskedSigner (ev_remoteUser (session_events env perms)) ::
    Appended (emit (session_events env perms) (d_rejected env) ActionChannelRejected reason stage) ::
    rejectAll (channels env) ConnectionFailed reason)) as (reason & stage & Hs).
  { unfold serve_session. destruct Hf as [[e ->]|(sig & e & -> & ->)]; by do 2 eexists. }
  unfold handleConn. rewrite Hh, Hs. cbn [fst snd].
  destruct (Hrej (channels env) ConnectionFailed reason) as (H1 & H2 & H3).
  split; [done|]. split; [|split].
  - intros i a. rewrite !not_elem_of_app, !not_elem_of_cons. repeat split; try done; try set_solver.
  - rewrite !omap_app, !length_app. cbn. rewrite H1. lia.
  - rewrite !omap_app. cbn. rewrite H2. cbn. done.
Qed.

(** A request that the proxier of an accepted connection permits is one the
    certificate that was presented permits. *)
Lemma permitted_by_certificate (env : conn_env) (c : Certificate) (ru th : string) (r : Request) :
  let perms := merge_extensions (CertPermissions c) c ru th in
  permitsRequest (session_proxier sink env perms) (Type_ r) = true →
  (Type_ r = "pty-req" → is_Some (map_get (Extensions (CertPermissions c)) "permit-pty")) ∧
  (Type_ r = "x11-req" → is_Some (map_get (Extensions (CertPermissions c)) "permit-X11-forwarding")) ∧
  (Type_ r = "auth-agent-req@openssh.com" →
     is_Some (map_get (Extensions (CertPermissions c)) "permit-agent-forwarding")).
Proof.
  intros perms Hp.
  assert (∀ name, name ∉ attribution_keys → hasExtension (Rbac.New (Some perms)) name = true →
    is_Some (map_get (Extensions (CertPermissions c)) name)) as Hext.
  { intros name Hn Hx. unfold perms in Hx. rewrite hasExtension_merge in Hx by done.
    by apply hasExtension_spec in Hx. }
  destruct (permitsRequest_gates (session_proxier sink env perms)) as (H1 & H2 & H3).
  change (p_rbac (session_proxier sink env perms)) with (Rbac.New (Some perms)) in *.
  split; [|split]; intros Hty; rewrite Hty in Hp; rewrite ?H1, ?H2, ?H3 in Hp;
    (apply Hext; [apply (bool_decide_unpack _); vm_compute; exact I|exact Hp]).
Qed.

(** The certificate's limits hold end to end.  Whatever channels and
    requests the client of an accepted connection tries, no terminal, X11 or
    agent request reaches the target unless the certificate that was
    presented carries the matching extension. *)
Theorem session_gates_end_to_end {A : CertAuthority} {AL : CertAuthorityLaws A}
    (ca : string) (rv : Checker) (meta : ConnMetadata) (c : Certificate)
    (perms : Permissions) (env : conn_env) (t : fs) (i : nat) (r : Request) :
  publicKeyCallback ca rv meta (CertKey c) = Ret perms → handshake env = Ret perms →
  ChannelAction i (Forward r) ∈ (handleConn timeout sink env t).2 →
  (Type_ r = "pty-req" → is_Some (map_get (Extensions (CertPermissions c)) "permit-pty")) ∧
  (Type_ r = "x11-req" → is_Some (map_get (Extensions (CertPermissions c)) "permit-X11-forwarding")) ∧
  (Type_ r = "auth-agent-req@openssh.com" →
     is_Some (map_get (Extensions (CertPermissions c)) "permit-agent-forwarding")).
Proof.
  intros (ru & th & c' & _ & [= <-] & _ & _ & _ & _ & _ & ->)%publicKeyCallback_inv Hh Hin.
  set (perms := merge_extensions _ _ _ _) in *.
  assert (permitsRequest (session_proxier sink env perms) (Type_ r) = true) as Hp.
  { unfold handleConn in Hin. rewrite Hh in Hin.
    destruct (serve_session sink env perms t) as [t' mid] eqn:Hs. cbn [snd] in Hin.
    assert (ChannelAction i (Forward r) ∈ mid) as Hmid.
    { rewrite !elem_of_app, !elem_of_cons in Hin. set_solver. }
    clear Hin. unfold serve_session in Hs.
    assert (∀ chans re msg a, ChannelAction i a ∉ rejectAll chans re msg) as Hrej.
    { induction chans as [|ch chans IH]; intros; cbn; [set_solver|].
      rewrite not_elem_of_cons. split; [by destruct (ic_ctx_done ch)|apply IH]. }
    destruct (signer env) as [sig|e|].
    - destruct (dial env) as [cl|e|].
      + pose proof (HandleNewChannels_forwarded (session_proxier sink env perms) (accepted (channels env))
          (schedule env) t) as Hf.
        destruct (HandleNewChannels _ _ _ t) as [t2 acts]. simplify_eq/=.
        rewrite elem_of_cons, elem_of_app in Hmid. destruct Hmid as [?|[Hmid|?]]; [done| |set_solver].
        apply list_elem_of_fmap in Hmid as ([j a] & [= <- <-] & Ha). rewrite Forall_forall in Hf. apply Hf.
        apply list_elem_of_omap. exists (Forward r). split; [|done].
        apply list_elem_of_fmap. by exists (i, Forward r).
      + simplify_eq/=. rewrite !elem_of_cons in Hmid. destruct Hmid as [?|[?|Hm]]; [done..|]. by apply Hrej in Hm.
      + simplify_eq/=. set_solver.
    - simplify_eq/=. rewrite !elem_of_cons in Hmid. destruct Hmid as [?|[?|Hm]]; [done..|]. by apply Hrej in Hm.
    - simplify_eq/=. set_solver. }
  by apply (permitted_by_certificate env c ru th).
Qed.
End ConnProperties.

(** ** A concrete checker, at which the laws hold *)
Definition simple_authority : CertAuthority := {|
  Authenticate auth rev user key :=
    match key with
    | RawKey _ => Err "not a certificate"
    | CertKey c =>
        if negb (CertType c =? UserCert) then Err "not a user certificate"
        else if negb (auth (SignatureKey c)) then Err "unknown authority"
        else match rev c with
        | Panic => Panic
        | Err _ | Ret true => Err "revoked"
        | Ret false =>
            if bool_decide (ValidPrincipals c = []) || bool_decide (user ∈ ValidPrincipals c)
            then Ret (CertPermissions c) else Err "principal"
        end
    end
|}.

Lemma simple_authority_laws : CertAuthorityLaws simple_authority.
Proof.
  split.
  - intros auth rev user [c|b] perms; cbn; [|done].
    destruct (Z.eqb_spec (CertType c) UserCert); cbn; [|done].
    destruct (auth (SignatureKey c)) eqn:Ha; cbn; [|done].
    destruct (rev c) as [[]| |] eqn:Hr; try done. destruct (_ || _) eqn:Hp; [|done].
    intros [= <-]. exists c. do 4 (split; [done|]). split; [|done].
    apply orb_true_iff in Hp as [Hp|Hp]; apply bool_decide_eq_true in Hp; tauto.
  - intros auth rev user c Ht Ha Hr. cbn. rewrite Ht, Ha, Hr. done.
Qed.

Section Witnesses.
#[local] Existing Instance simple_authority.
#[local] Existing Instance simple_authority_laws.
#[local] Existing Instance rfc_wire.
#[local] Existing Instance identity_tables.

Definition cert1 : Certificate :=
  {| Serial := 7; CertType := UserCert; KeyId := "user:alice"; ValidPrincipals := ["alice"];
     CertPermissions := {| CriticalOptions := Some {[ "source-address" := "10.0.0.0/8" ]};
       Extensions := Some {[ "permit-pty" := ""; "remote-user" := "root" ]} |};
     SignatureKey := "ca" |}.
Definition conn_meta1 : ConnMetadata :=
  {| MetaUser := "alice@db-1:22"; RemoteAddr := TCPAddr [10; 9; 8; 7] "10.9.8.7:5000" |}.
Definition perms1 : Permissions :=
  merge_extensions (CertPermissions cert1) cert1 "alice" "db-1:22".

Lemma callback1 :
  publicKeyCallback "ca" (Polling (Some example_checker)) conn_meta1 (CertKey cert1) = Ret perms1.
Proof. vm_compute. reflexivity. Qed.

Lemma authentication_sound_witness : ∃ ru th, "alice@db-1:22" = ru +:+ "@" +:+ th ∧ ru ≠ "".
Proof.
  destruct (authentication_sound "ca" (Polling (Some example_checker)) conn_meta1 (CertKey cert1) perms1
    callback1) as (ru & th & c & Hu & Hne & _).
  exists ru, th. split; [exact Hu|exact Hne].
Defined.


Definition env_ok : conn_env :=
  {| remote := TCPAddr [10; 9; 8; 7] "10.9.8.7:5000"; handshake := Ret perms1; conn_uuid := "sess-1";
     signer := Ret 1%nat; dial := Ret 2%nat;
     channels := [{| ic_chan := session1; ic_env := env1 [UserRequest ptyreq1 reqenv1]; ic_ctx_done := false |}];
     schedule := [Receive; Run 0];
     d_start := draw1; d_opened := draw1; d_rejected := draw1; d_closed := draw1 |}.
Definition env_unreachable : conn_env :=
  {| remote := remote env_ok; handshake := Ret perms1; conn_uuid := "sess-1";
     signer := Ret 1%nat; dial := Err "no route"; channels := channels env_ok; schedule := [];
     d_start := draw1; d_opened := draw1; d_rejected := draw1; d_closed := draw1 |}.

Lemma connection_audited_witness :
  ∃ opened mid closed, (handleConn (S := LocalDirSink) 30 None env_ok ∅).2 =
    [SetDeadline (now draw1 + 30); ClearDeadline; Appended opened] ++ mid ++
    [Appended closed; SshClosed; ConnClosed] ∧ Action closed = ActionSessionClosed.
Proof.
  destruct (connection_audited (S := LocalDirSink) 30 None env_ok perms1 ∅ eq_refl ltac:(discriminate))
    as (o & c & mid & He & _ & Hc & _).
  exists o, mid, c. split; [exact He|exact Hc].
Defined.

Lemma failed_session_rejects_witness :
  length (omap rejection (handleConn (S := LocalDirSink) 30 None env_unreachable ∅).2) = 1%nat.
Proof.
  apply (failed_session_rejects (S := LocalDirSink) 30 None env_unreachable perms1 ∅ eq_refl).
  right. do 2 eexists. split; reflexivity.
Defined.

Lemma session_gates_end_to_end_witness :
  is_Some (map_get (Extensions (CertPermissions cert1)) "permit-pty").
Proof.
  refine (proj1 (session_gates_end_to_end (S := LocalDirSink) 30 None "ca" (Polling (Some example_checker))
    conn_meta1 cert1 perms1 env_ok ∅ 0 ptyreq1 callback1 eq_refl _) eq_refl).
  vm_compute. right. right. right. right. right. right. left.
Defined.
End Witnesses.
