(* ===== verification/SshServing.v ===== *)
(** * Package [ssh]: the server with all its connections

    [ListenAndServe] and [handleConn] of [internal/proxyd/ssh/server.go] when
    many clients are connected at once.  Every connection is a goroutine that
    steps through [handleConn] (the handshake, the signer and the dial, the
    channels of [Channels] each on a goroutine of its own, the deferred closes);
    all of them share the recording store and one audit stream; the accept loop
    and the goroutine that closes the listener step along with them.  [SshServer]
    says what one connection does by itself; here is what holds of the server
    under every schedule. *)

From Stdlib Require Import ZArith Lia Ascii.
From stdpp Require Import prelude strings gmap list.
From S2P Require Import Prelude GoStrings GoTime Json GoCalendar GoOs Recording NetAddr Rbac GoSsh Revcheck Routing Target AuditLog Channel Channels SshServer.

Local Open Scope Z_scope.

(** ** The goroutines *)
Section Server.
Context {W : SshWire} {S : Type} `{CastSink S}.
Context (HandshakeTimeout : Z) (RecordingSink : option S).

(** Where [handleConn] is: in the handshake; opened, before the signer and the
    dial; proxying, with the channels not yet received and those running; in the
    deferred calls; returned; or panicked, its deferred calls made. *)
Inductive phase :=
  | Handshaking
  | Dialing (perms : Permissions)
  | Proxying (perms : Permissions) (inbox : list (channel S)) (running : list (channel S * goroutine S))
  | Finishing (perms : Permissions)
  | Ended
  | Panicked.
Definition is_ended (ph : phase) : bool := match ph with Ended => true | _ => false end.
Definition is_panicked (ph : phase) : bool := match ph with Panicked => true | _ => false end.

(** The deferred calls of [handleConn] once the session is opened. *)
Definition deferred (env : conn_env) (perms : Permissions) : list conn_event :=
  [Appended (emit (session_events env perms) (d_closed env) ActionSessionClosed "" []); SshClosed; ConnClosed].

(** [handleConn] goes on, or one of the goroutines of its channels does.  A step
    reaches to the next access to what connections share, the store and the audit
    stream; what a connection does to its own sockets in between (deadlines,
    the rejection of its channels) is in the step of the access next to it. *)
Inductive session_move := Advance | Chan (m : move).

Definition session_step (env : conn_env) (ph : phase) (t : fs) (m : session_move)
    : option (phase * fs * list conn_event) :=
  match ph, m with
  | Handshaking, Advance =>
      let opening := SetDeadline (now (d_start env) + HandshakeTimeout) in
      match handshake env with
      | Ret perms =>
          Some (Dialing perms, t,
            [opening; ClearDeadline; Appended (emit (session_events env perms) (d_opened env) ActionSessionOpened "" [])])
      | Err _ => Some (Ended, t, [opening; ConnClosed])
      | Panic => Some (Panicked, t, [opening; ConnClosed])
      end
  | Dialing perms, Advance =>
      let ev := session_events env perms in
      let failed (reason : string) (stage : string) :=
        Some (Finishing perms, t,
          AskedSigner (ev_remoteUser ev) ::
          Appended (emit ev (d_rejected env) ActionChannelRejected reason [("stage", JString (chars stage))]) ::
          rejectAll (channels env) ConnectionFailed reason) in
      match signer env with
      | Err e => failed ("proxy could not obtain a client signer: " +:+ e) "client_signer"
      | Panic => Some (Panicked, t, AskedSigner (ev_remoteUser ev) :: deferred env perms)
      | Ret _ =>
          match dial env with
          | Err e => failed ("target unreachable: " +:+ e) "target_dial"
          | Panic => Some (Panicked, t, AskedSigner (ev_remoteUser ev) :: deferred env perms)
          | Ret _ =>
              Some (Proxying perms (of_conn (session_proxier RecordingSink env perms) (accepted (channels env))) [], t,
                    [AskedSigner (ev_remoteUser ev)])
          end
      end
  | Proxying perms inbox running, Chan Receive =>
      match inbox with
      | [] => None
      | c :: rest => Some (Proxying perms rest (running ++ [(c, Begin)]), t, [])
      end
  | Proxying perms inbox running, Chan (Run j) =>
      match running !! j with
      | None => None
      | Some (c, g) =>
          match goroutine_step c g t with
          | None => None
          | Some (g', t', a) => Some (Proxying perms inbox (<[j := (c, g')]> running), t', ChannelAction j <$> a)
          end
      end
  | Proxying perms inbox running, Advance =>
      (* [HandleNewChannels] returns *)
      match inbox with
      | [] => if forallb (λ cg, is_done cg.2) running then Some (Finishing perms, t, [TargetClosed]) else None
      | _ => None
      end
  | Finishing perms, Advance => Some (Ended, t, deferred env perms)
  | _, _ => None
  end.

(** The accept loop: in [Accept], in [wg.Wait], or returned. *)
Inductive accept_loop := InAccept | Draining | Stopped (r : outcome string unit).

Record server := {
  sv_fs : fs;
  sv_conns : list (conn_env * phase);
  sv_log : list (nat * conn_event);
  listening : bool;
  ctx_over : bool;
  watching : bool;   (* the goroutine that closes the listener *)
  sv_loop : accept_loop
}.
Definition server_start (t : fs) : server :=
  {| sv_fs := t; sv_conns := []; sv_log := []; listening := true; ctx_over := false; watching := true;
     sv_loop := InAccept |}.

(** [net.Listen] on the configured address. *)
Definition server_listen (addr : string) (listen : outcome string unit) (t : fs) : outcome string server :=
  match listen with
  | Ret _ => Ret (server_start t)
  | Err e => Err ("listen " +:+ addr +:+ ": " +:+ e)
  | Panic => Panic
  end.

(** An unrecovered panic ends the process. *)
Definition crashed (s : server) : bool := existsb (λ c, is_panicked c.2) (sv_conns s).

Inductive server_move :=
  (* the outside *)
  | Connect (env : conn_env) | AcceptFails (e : string) | CtxDone
  (* the program *)
  | CloseListener | StopWatching | AcceptClosed | WaitReturns
  | Session (i : nat) (m : session_move).

Definition set_loop (l : accept_loop) (s : server) : server :=
  {| sv_fs := sv_fs s; sv_conns := sv_conns s; sv_log := sv_log s; listening := listening s;
     ctx_over := ctx_over s; watching := watching s; sv_loop := l |}.
Definition set_listener (l w : bool) (s : server) : server :=
  {| sv_fs := sv_fs s; sv_conns := sv_conns s; sv_log := sv_log s; listening := l;
     ctx_over := ctx_over s; watching := w; sv_loop := sv_loop s |}.

Definition server_step (s : server) (m : server_move) : option server :=
  if crashed s then None else
  match m with
  | Connect env =>
      match sv_loop s, listening s with
      | InAccept, true =>
          Some {| sv_fs := sv_fs s; sv_conns := sv_conns s ++ [(env, Handshaking)]; sv_log := sv_log s;
                  listening := true; ctx_over := ctx_over s; watching := watching s; sv_loop := InAccept |}
      | _, _ => None
      end
  | AcceptFails e =>
      (* any error of [Accept] but a closed listener ends the loop at once *)
      match sv_loop s, listening s with
      | InAccept, true => Some (set_loop (Stopped (Err ("accept: " +:+ e))) s)
      | _, _ => None
      end
  | CtxDone =>
      Some {| sv_fs := sv_fs s; sv_conns := sv_conns s; sv_log := sv_log s; listening := listening s;
              ctx_over := true; watching := watching s; sv_loop := sv_loop s |}
  | CloseListener => if watching s && ctx_over s then Some (set_listener false false s) else None
  | StopWatching =>
      match sv_loop s with
      | Stopped _ => if watching s then Some (set_listener (listening s) false s) else None
      | _ => None
      end
  | AcceptClosed =>
      match sv_loop s, listening s with
      | InAccept, false => Some (set_loop Draining s)
      | _, _ => None
      end
  | WaitReturns =>
      match sv_loop s with
      | Draining => if forallb (λ c, is_ended c.2) (sv_conns s) then Some (set_loop (Stopped (Ret tt)) s) else None
      | _ => None
      end
  | Session i m =>
      match sv_conns s !! i with
      | None => None
      | Some (env, ph) =>
      match session_step env ph (sv_fs s) m with
      | None => None
      | Some (ph', t, evs) =>
      Some {| sv_fs := t; sv_conns := <[i := (env, ph')]> (sv_conns s); sv_log := sv_log s ++ (pair i <$> evs);
              listening := listening s; ctx_over := ctx_over s; watching := watching s; sv_loop := sv_loop s |}
      end
      end
  end.
Fixpoint server_run (s : server) (ms : list server_move) : option server :=
  match ms with
  | [] => Some s
  | m :: ms => s' ← server_step s m; server_run s' ms
  end.

(** What connection [i] did, and the audit stream. *)
Definition of_connection (i : nat) (log : list (nat * conn_event)) : list conn_event :=
  omap (λ x, if bool_decide (x.1 = i) then Some x.2 else None) log.
Definition stream (log : list (nat * conn_event)) : list Entry := omap (event_entry ∘ snd) log.
End Server.
Arguments Handshaking {S}. Arguments Dialing {S}. Arguments Proxying {S}. Arguments Finishing {S}. Arguments Ended {S}.
Arguments Panicked {S}. Arguments crashed {S}. Arguments is_panicked {S}.
Arguments sv_fs {S}. Arguments sv_conns {S}. Arguments sv_log {S}. Arguments listening {S}. Arguments ctx_over {S}.
Arguments watching {S}. Arguments sv_loop {S}. Arguments is_ended {S}.

Arguments of_connection : simpl never.

(** ** The log *)
Lemma of_connection_app i a b : of_connection i (a ++ b) = of_connection i a ++ of_connection i b.
Proof. apply omap_app. Qed.

Lemma of_connection_own i (evs : list conn_event) : of_connection i (pair i <$> evs) = evs.
Proof.
  induction evs as [|e evs IH]; [done|]. unfold of_connection in *. csimpl.
  rewrite bool_decide_eq_true_2 by done. by f_equal.
Qed.

Lemma of_connection_other i j (evs : list conn_event) : i ≠ j → of_connection i (pair j <$> evs) = [].
Proof.
  intros Hij. induction evs as [|e evs IH]; [done|]. unfold of_connection in *. csimpl.
  by rewrite bool_decide_eq_false_2.
Qed.

Lemma elem_of_of_connection i e log : e ∈ of_connection i log ↔ (i, e) ∈ log.
Proof.
  unfold of_connection. rewrite list_elem_of_omap. split.
  - intros ([j x] & Hin & Hx). cbn in Hx. case_bool_decide; simplify_eq/=. done.
  - intros Hin. exists (i, e). split; [done|]. cbn. by rewrite bool_decide_eq_true_2.
Qed.

(** ** From one connection to the server *)
Section Lift.
Context {W : SshWire} {S : Type} `{CastSink S}.
Context (timeout : Z) (sink : option S).
Implicit Types (env : conn_env) (ph : phase (S := S)) (t : fs) (s : server (S := S)).

(** What a step changes of the connections and of the log. *)
Lemma server_step_cases s m s' :
  server_step timeout sink s m = Some s' →
  (∃ env, m = Connect env ∧ sv_conns s' = sv_conns s ++ [(env, Handshaking)] ∧ sv_log s' = sv_log s) ∨
  (∃ i sm env ph ph' t evs, m = Session i sm ∧ sv_conns s !! i = Some (env, ph) ∧
     session_step timeout sink env ph (sv_fs s) sm = Some (ph', t, evs) ∧
     sv_conns s' = <[i := (env, ph')]> (sv_conns s) ∧ sv_log s' = sv_log s ++ (pair i <$> evs)) ∨
  ((∀ env, m ≠ Connect env) ∧ sv_conns s' = sv_conns s ∧ sv_log s' = sv_log s).
Proof.
  unfold server_step. destruct (crashed s); [done|].
  destruct m as [env|e| | | | | |i m]; intros Hs.
  8: { destruct (sv_conns s !! i) as [[env ph]|] eqn:Hi; [|done].
       destruct (session_step timeout sink env ph (sv_fs s) m) as [[[ph' t'] evs]|] eqn:Hst; [|done].
       injection Hs as <-. right. left. by exists i, m, env, ph, ph', t', evs. }
  1: { destruct (sv_loop s), (listening s); try done. injection Hs as <-. left. by exists env. }
  all: right; right; split; [done|]; repeat (case_match; try done); by injection Hs as <-.
Qed.

(** Every log entry is of a connection there is. *)
Definition log_bounded s : Prop := ∀ x, x ∈ sv_log s → (x.1 < length (sv_conns s))%nat.

Lemma log_bounded_fresh s : log_bounded s → of_connection (length (sv_conns s)) (sv_log s) = [].
Proof.
  intros Hlog. destruct (of_connection (length (sv_conns s)) (sv_log s)) as [|e l] eqn:Hl; [done|exfalso].
  assert ((length (sv_conns s), e) ∈ sv_log s) as Hin by (apply elem_of_of_connection; rewrite Hl; by left).
  apply Hlog in Hin. cbn in Hin. lia.
Qed.

(** An invariant of one connection and its own events is one of every
    connection of the server. *)
Lemma server_step_invariant (I : nat → conn_env → phase (S := S) → list conn_event → Prop) s m s' :
  (∀ i env ph, sv_conns s !! i = Some (env, ph) → I i env ph (of_connection i (sv_log s))) → log_bounded s →
  server_step timeout sink s m = Some s' →
  (∀ env, m = Connect env → I (length (sv_conns s)) env Handshaking []) →
  (∀ i sm env ph evs ph' t' a, m = Session i sm → sv_conns s !! i = Some (env, ph) → I i env ph evs →
    session_step timeout sink env ph (sv_fs s) sm = Some (ph', t', a) → I i env ph' (evs ++ a)) →
  (∀ i env ph, sv_conns s' !! i = Some (env, ph) → I i env ph (of_connection i (sv_log s'))) ∧ log_bounded s'.
Proof.
  intros HI Hlog Hs H0 Hstep. unfold log_bounded.
  apply server_step_cases in Hs as [(env & -> & Hc & ->)|[(i & sm & env & ph & ph' & t & a & -> & Hi & Hst & Hc & ->)|(_ & -> & ->)]];
    rewrite ?Hc; [..|done].
  - split.
    + intros i env' ph. rewrite lookup_app_Some. intros [Hi|[Hge Hi]]; [by apply HI|].
      apply list_lookup_singleton_Some in Hi as [Hi [= <- <-]].
      replace i with (length (sv_conns s)) by lia. rewrite log_bounded_fresh by done. by apply H0.
    + intros x Hx. rewrite length_app. specialize (Hlog x Hx). lia.
  - split.
    + intros k env' ph1 Hk. rewrite of_connection_app. destruct (decide (k = i)) as [->|Hne].
      * rewrite list_lookup_insert_eq in Hk by (by eapply lookup_lt_Some). injection Hk as <- <-.
        rewrite of_connection_own. eapply Hstep; [done|done|by apply HI|done].
      * rewrite list_lookup_insert_ne in Hk by done. rewrite of_connection_other, app_nil_r by done. by apply HI.
    + intros x [Hx|Hx]%elem_of_app; rewrite length_insert; [by apply Hlog|].
      apply list_elem_of_fmap in Hx as (y & -> & _). cbn. by eapply lookup_lt_Some.
Qed.

Lemma server_run_app s ms ms' :
  server_run timeout sink s (ms ++ ms') = s' ← server_run timeout sink s ms; server_run timeout sink s' ms'.
Proof.
  revert s. induction ms as [|m ms IH]; intros s; [done|]. cbn.
  destruct (server_step timeout sink s m); [apply IH|done].
Qed.

Lemma server_run_split s ms s1 ms' s2 :
  server_run timeout sink s ms = Some s1 → server_run timeout sink s (ms ++ ms') = Some s2 →
  server_run timeout sink s1 ms' = Some s2.
Proof. rewrite server_run_app. by intros ->. Qed.

Lemma server_run_ind (P : server → Prop) s ms s' :
  P s → (∀ s m s', P s → server_step timeout sink s m = Some s' → P s') → server_run timeout sink s ms = Some s' → P s'.
Proof.
  intros Hs Hstep. revert s Hs. induction ms as [|m ms IH]; intros s Hs Hr; cbn in Hr; [by injection Hr as <-|].
  destruct (server_step timeout sink s m) as [s1|] eqn:Hst; [|done]. eapply IH; [by eapply Hstep|done].
Qed.

Lemma server_invariant (I : conn_env → phase (S := S) → list conn_event → Prop) :
  (∀ env, I env Handshaking []) →
  (∀ env ph evs t m ph' t' a, I env ph evs → session_step timeout sink env ph t m = Some (ph', t', a) →
    I env ph' (evs ++ a)) →
  ∀ ms t s, server_run timeout sink (server_start t) ms = Some s →
  (∀ i env ph, sv_conns s !! i = Some (env, ph) → I env ph (of_connection i (sv_log s))) ∧ log_bounded s.
Proof.
  intros H0 Hstep ms t s.
  apply (server_run_ind (λ s, (∀ i env ph, sv_conns s !! i = Some (env, ph) →
    I env ph (of_connection i (sv_log s))) ∧ log_bounded s)); [split; [done|intros x; cbn; set_solver]|].
  clear s ms. intros s m s' [HI Hlog] Hs.
  apply (server_step_invariant (λ _, I) s m s'); eauto.
Qed.
End Lift.

(** ** One connection *)
Section OneConnection.
Context {W : SshWire} {S : Type} `{CastSink S}.
Context (timeout : Z) (sink : option S).
Implicit Types (env : conn_env) (ph : phase (S := S)) (t : fs).

Definition opening env perms : list conn_event :=
  [SetDeadline (now (d_start env) + timeout); ClearDeadline;
   Appended (emit (session_events env perms) (d_opened env) ActionSessionOpened "" [])].

(** What may happen between the opened and the closed event: entries of the
    session, and requests the certificate permits. *)
Definition event_permitted (p : Proxier S) (e : conn_event) : Prop :=
  match e with ChannelAction _ a => permitted p a | _ => True end.
Definition body env perms (mid : list conn_event) : Prop :=
  (conn_uuid env ≠ "" → of_session (conn_uuid env) (omap event_entry mid)) ∧
  Forall (event_permitted (session_proxier sink env perms)) mid.

Lemma body_app env perms a b : body env perms a → body env perms b → body env perms (a ++ b).
Proof.
  intros [H1 H2] [H3 H4]. split; [|by apply Forall_app]. intros Hne. unfold of_session in *.
  rewrite omap_app. apply Forall_app. auto.
Qed.

Lemma body_actions env perms j a :
  (conn_uuid env ≠ "" → of_session (conn_uuid env) (omap action_entry a)) →
  Forall (permitted (session_proxier sink env perms)) a →
  body env perms (ChannelAction j <$> a).
Proof.
  intros H1 H2. split.
  - intros Hne. specialize (H1 Hne). replace (omap event_entry (ChannelAction j <$> a)) with (omap action_entry a); [done|].
    clear. induction a as [|x a IH]; [done|]. destruct x; csimpl; by rewrite IH.
  - by apply Forall_fmap.
Qed.

Lemma rejectAll_body env perms chans reason msg : body env perms (rejectAll chans reason msg).
Proof.
  induction chans as [|c chans IH]; [by split; [constructor|]|]. cbn [rejectAll].
  apply (body_app _ _ [_]); [|done]. by destruct (ic_ctx_done c); split; repeat constructor.
Qed.

Definition session_inv env ph (evs : list conn_event) : Prop :=
  match ph with
  | Handshaking => evs = []
  | Dialing perms | Finishing perms =>
      handshake env = Ret perms ∧ ∃ mid, evs = opening env perms ++ mid ∧ body env perms mid
  | Proxying perms inbox running =>
      let p := session_proxier sink env perms in
      handshake env = Ret perms ∧ (∃ mid, evs = opening env perms ++ mid ∧ body env perms mid) ∧
      Forall (λ c, proxier_of c = p) inbox ∧
      Forall (λ cg, proxier_of cg.1 = p ∧ (conn_uuid env ≠ "" → own_goroutine p cg.2)) running
  | Ended | Panicked =>
      (ph = Panicked → handshake env = Panic ∨ signer env = Panic ∨ dial env = Panic) ∧
      match handshake env with
      | Ret perms => ∃ mid, evs = opening env perms ++ mid ++ deferred env perms ∧ body env perms mid
      | _ => evs = [SetDeadline (now (d_start env) + timeout); ConnClosed]
      end
  end.

Lemma session_inv_step env ph evs t m ph' t' a :
  session_inv env ph evs → session_step timeout sink env ph t m = Some (ph', t', a) → session_inv env ph' (evs ++ a).
Proof.
  destruct ph as [|perms|perms inbox running|perms| |], m as [|[|j]]; cbn [session_step]; try done.
  - intros ->. unfold session_inv. destruct (handshake env) as [perms|e|] eqn:Hh; intros [= <- <- <-]; rewrite ?Hh.
    + split; [done|]. exists []. by split; [rewrite app_nil_r|split; [constructor|]].
    + done.
    + split; [by left|done].
  - intros (Hh & mid & -> & Hb).
    assert (∀ e, body env perms [AskedSigner e]) as Hask by (intros; split; repeat constructor).
    assert (∀ d act reason md, body env perms [Appended (emit (session_events env perms) d act reason md)]) as Hemit
      by (intros; split; repeat constructor).
    destruct (signer env) as [sig|e|] eqn:Hsig; [destruct (dial env) as [cl|e|] eqn:Hdial|..]; intros [= <- <- <-]; unfold session_inv;
      (split; [by auto|]); rewrite ?Hh.
    + split; [eexists; rewrite <-(assoc_L (++)); split; [done|by apply body_app]|].
      split; [|constructor]. apply Forall_fmap, Forall_true. done.
    + eexists. rewrite <-(assoc_L (++)). split; [done|]. apply body_app; [done|].
      apply (body_app _ _ [_]); [done|]. apply (body_app _ _ [_]); [done|]. apply rejectAll_body.
    + eexists (mid ++ [_]). rewrite <-!(assoc_L (++)). split; [done|]. by apply body_app.
    + eexists. rewrite <-(assoc_L (++)). split; [done|]. apply body_app; [done|].
      apply (body_app _ _ [_]); [done|]. apply (body_app _ _ [_]); [done|]. apply rejectAll_body.
    + eexists (mid ++ [_]). rewrite <-!(assoc_L (++)). split; [done|]. by apply body_app.
  - intros (Hh & (mid & -> & Hb) & _). destruct inbox; [|done]. case_match; [|done]. intros [= <- <- <-].
    split; [done|]. eexists. rewrite <-(assoc_L (++)). split; [done|]. apply body_app; [done|]. by split; repeat constructor.
  - intros (Hh & Hm & Hin & Hr). destruct inbox as [|c rest]; [done|]. intros [= <- <- <-].
    rewrite app_nil_r. apply Forall_cons in Hin as [Hc Hin]. do 3 (split; [done|]).
    apply Forall_app. split; [done|]. apply Forall_singleton. split; [done|]. intros _. by split.
  - intros (Hh & (mid & -> & Hb) & Hin & Hr). destruct (running !! j) as [[c g]|] eqn:Hj; [|done].
    destruct (goroutine_step c g t) as [[[g' t2] acts]|] eqn:Hs; [|done]. intros [= <- <- <-].
    destruct (Forall_lookup_1 _ _ _ _ Hr Hj) as [Hp Hown]. cbn in Hp, Hown.
    destruct (goroutine_step_permitted _ _ _ _ _ _ Hs) as [Hperm _]. rewrite Hp in Hperm.
    split; [done|]. split; [|split; [done|]].
    + eexists. rewrite <-(assoc_L (++)). split; [done|]. apply body_app; [done|]. apply body_actions; [|done].
      intros Hne. pose proof (goroutine_step_own c g t g' t2 acts) as Ho. cbv zeta in Ho. rewrite Hp in Ho.
      destruct (Ho Hne (Hown Hne) Hs) as (_ & ? & _). done.
    + apply Forall_insert; [done|]. cbn. split; [done|]. intros Hne.
      pose proof (goroutine_step_own c g t g' t2 acts) as Ho. cbv zeta in Ho. rewrite Hp in Ho.
      by destruct (Ho Hne (Hown Hne) Hs) as (? & _ & _).
  - intros (Hh & mid & -> & Hb) [= <- <- <-]. unfold session_inv. rewrite Hh. split; [done|]. exists mid.
    by rewrite <-(assoc_L (++)).
Qed.
End OneConnection.

(** ** Termination *)
Lemma forallb_false {A} (f : A → bool) (l : list A) :
  forallb f l = false → ∃ i x, l !! i = Some x ∧ f x = false.
Proof.
  induction l as [|x l IH]; [done|]. cbn. destruct (f x) eqn:Hf; [|by exists 0%nat, x].
  intros (i & y & Hi & Hy)%IH. by exists (Datatypes.S i), y.
Qed.

Section Work.
Context {W : SshWire} {S : Type} `{CastSink S}.
Context (timeout : Z) (sink : option S).
Implicit Types (env : conn_env) (ph : phase (S := S)) (t : fs) (s : server (S := S)).

(** The steps the channels of a connection take at most, and the connection. *)
Definition channels_work env : nat := sum_list_with (λ c, 6 + length (pipe (ic_env c)))%nat (channels env).
Definition session_work env ph : nat :=
  match ph with
  | Handshaking => 4 + channels_work env
  | Dialing _ => 3 + channels_work env
  | Proxying _ inbox running =>
      2 + (sum_list_with (λ c, Datatypes.S (steps_left c (Begin : goroutine S))) inbox
           + sum_list_with (λ cg, steps_left cg.1 cg.2) running)
  | Finishing _ => 1
  | Ended | Panicked => 0
  end.

Lemma of_conn_work p chans :
  sum_list_with (λ c, Datatypes.S (steps_left c (Begin : goroutine S))) (of_conn p (accepted chans)) =
  sum_list_with (λ c, 6 + length (pipe (ic_env c)))%nat chans.
Proof. induction chans as [|c chans IH]; [done|].
  exact (f_equal (λ n, 6 + length (pipe (ic_env c)) + n)%nat IH). Qed.

Lemma session_step_work env ph t m ph' t' a :
  session_step timeout sink env ph t m = Some (ph', t', a) → (session_work env ph' < session_work env ph)%nat.
Proof.
  destruct ph as [|perms|perms inbox running|perms| |], m as [|[|j]]; cbn [session_step]; try done.
  - destruct (handshake env); intros [= <- _ _]; cbn; lia.
  - destruct (signer env); [destruct (dial env)|..]; intros [= <- _ _]; cbn [session_work sum_list_with]; try lia.
    rewrite of_conn_work. unfold channels_work. lia.
  - destruct inbox; [|done]. case_match; [|done]. intros [= <- _ _]. cbn. lia.
  - destruct inbox as [|c rest]; [done|]. intros [= <- _ _]. cbn [session_work]. rewrite sum_list_with_app. cbn. lia.
  - destruct (running !! j) as [[c g]|] eqn:Hj; [|done].
    destruct (goroutine_step c g t) as [[[g' t2] acts]|] eqn:Hs; [|done]. intros [= <- _ _].
    apply goroutine_step_left in Hs. cbn [session_work].
    pose proof (sum_list_with_insert (λ cg, steps_left cg.1 cg.2) _ j _ (c, g') Hj). cbn in *. lia.
  - intros [= <- _ _]. cbn. lia.
Qed.

(** A connection can step until it has returned, or panicked. *)
Lemma session_progress env ph t :
  ph = Ended ∨ ph = Panicked ∨ ∃ m, is_Some (session_step timeout sink env ph t m).
Proof.
  destruct ph as [|perms|perms inbox running|perms| |]; [| | | |by left|by right; left]; right; right.
  - exists Advance. cbn. by destruct (handshake env).
  - exists Advance. cbn. by destruct (signer env); [destruct (dial env)|..].
  - destruct inbox as [|c rest]; [|by exists (Chan Receive)].
    destruct (forallb (λ cg, is_done cg.2) running) eqn:Hall; [exists Advance; cbn; by rewrite Hall|].
    apply forallb_false in Hall as (j & [c g] & Hj & Hg).
    exists (Chan (Run j)). cbn. rewrite Hj.
    destruct (goroutine_step c g t) as [[[g' t'] a]|] eqn:Hs; [done|]. by apply goroutine_step_stuck in Hs as ->.
  - by exists Advance.
Qed.

Definition by_server (m : server_move) : bool :=
  match m with Connect _ | AcceptFails _ | CtxDone => false | _ => true end.
Definition server_work s : nat :=
  sum_list_with (λ c, session_work c.1 c.2) (sv_conns s)
  + match sv_loop s with InAccept => 2 | Draining => 1 | Stopped _ => 0 end
  + (if watching s then 1 else 0).

Lemma server_step_work s m s' :
  by_server m = true → server_step timeout sink s m = Some s' → (server_work s' < server_work s)%nat.
Proof.
  unfold server_work, server_step. destruct (crashed s); [done|].
  destruct m as [env|e| | | | | |i m]; intros Hm Hs; try done.
  - destruct (watching s) eqn:Hw; [|done]. destruct (ctx_over s); [|done]. injection Hs as <-. cbn. lia.
  - destruct (sv_loop s) eqn:Hl; try done. destruct (watching s) eqn:Hw; [|done]. injection Hs as <-. cbn. rewrite Hl. lia.
  - destruct (sv_loop s) eqn:Hl, (listening s); try done. injection Hs as <-. cbn. lia.
  - destruct (sv_loop s) eqn:Hl; try done. case_match; [|done]. injection Hs as <-. cbn. lia.
  - destruct (sv_conns s !! i) as [[env ph]|] eqn:Hi; [|done].
    destruct (session_step timeout sink env ph (sv_fs s) m) as [[[ph' t'] evs]|] eqn:Hst; [|done].
    injection Hs as <-. cbn [sv_conns sv_loop watching]. apply session_step_work in Hst.
    pose proof (sum_list_with_insert (λ c, session_work c.1 c.2) _ i _ (env, ph') Hi). cbn in *. lia.
Qed.

(** What holds of the accept loop and the listener. *)
Record loop_inv s : Prop := {
  li_closed : listening s = false → watching s = false ∧ ctx_over s = true;
  li_gone : watching s = false → listening s = false ∨ (∃ r, sv_loop s = Stopped r);
  li_draining : sv_loop s = Draining → listening s = false;
  li_returned : sv_loop s = Stopped (Ret tt) →
    listening s = false ∧ Forall (λ c, c.2 = Ended) (sv_conns s)
}.

Lemma loop_inv_start t : loop_inv (server_start t).
Proof. by constructor. Qed.

Lemma all_ended (conns : list (conn_env * phase (S := S))) :
  forallb (λ c, is_ended c.2) conns = true ↔ Forall (λ c, c.2 = Ended) conns.
Proof.
  split.
  - intros Hall. apply Forall_forall. intros [env ph] Hin. rewrite forallb_forall in Hall.
    specialize (Hall (env, ph) (proj1 (list_elem_of_In _ _) Hin)). by destruct ph.
  - intros Hall. apply forallb_forall. intros [env ph] Hin. rewrite Forall_forall in Hall.
    specialize (Hall (env, ph) (proj2 (list_elem_of_In _ _) Hin)). cbn in Hall. by rewrite Hall.
Qed.

Lemma loop_inv_step s m s' : loop_inv s → server_step timeout sink s m = Some s' → loop_inv s'.
Proof.
  unfold server_step. intros [Hc Hg Hd Hr] Hs. destruct (crashed s); [done|].
  destruct m as [env|e| | | | | |i m].
  - destruct (sv_loop s) eqn:Hl, (listening s) eqn:Hli; try done. injection Hs as <-.
    constructor; cbn; try done.
  - destruct (sv_loop s) eqn:Hl, (listening s) eqn:Hli; try done. injection Hs as <-.
    constructor; cbn; rewrite ?Hli; try done. intros _. right. by eexists.
  - injection Hs as <-. constructor; cbn; auto. intros Hli. by destruct (Hc Hli).
  - destruct (watching s) eqn:Hw; [|done]. destruct (ctx_over s) eqn:Hctx; [|done]. injection Hs as <-.
    constructor; cbn; auto. intros Hl. split; [done|]. by apply Hr.
  - destruct (sv_loop s) eqn:Hl; try done. destruct (watching s) eqn:Hw; [|done]. injection Hs as <-.
    constructor; cbn; rewrite ?Hl; auto; [|right; by eexists]. intros Hli. by destruct (Hc Hli).
  - destruct (sv_loop s) eqn:Hl, (listening s) eqn:Hli; try done. injection Hs as <-.
    by constructor; cbn; rewrite ?Hli; auto.
  - destruct (sv_loop s) eqn:Hl; try done. destruct (forallb _ _) eqn:Hall; [|done]. injection Hs as <-.
    constructor; cbn; eauto. intros _. split; [by apply Hd|by apply all_ended].
  - destruct (sv_conns s !! i) as [[env ph]|] eqn:Hi; [|done].
    destruct (session_step timeout sink env ph (sv_fs s) m) as [[[ph' t'] evs]|] eqn:Hst; [|done].
    injection Hs as <-. constructor; cbn; auto. intros Hl. destruct (Hr Hl) as [? Hall]. split; [done|].
    pose proof (Forall_lookup_1 _ _ _ _ Hall Hi) as Hph. cbn in Hph. subst ph. by destruct m.
Qed.

(** The server is going down: its context is over, or the loop has ended. *)
Definition going_down s : Prop := ctx_over s = true ∨ sv_loop s ≠ InAccept.

Lemma going_down_step s m s' : going_down s → server_step timeout sink s m = Some s' → going_down s'.
Proof.
  unfold server_step, going_down. intros Hg Hs. destruct (crashed s); [done|].
  destruct m as [env|e| | | | | |i m]; repeat (case_match; try done); simplify_eq/=; first [naive_solver | right; congruence].
Qed.

(** Down: the accept loop has returned, so has every connection, and the
    goroutine that watches the context is gone. *)
Definition is_down s : Prop :=
  (∃ r, sv_loop s = Stopped r) ∧ Forall (λ c, c.2 = Ended) (sv_conns s) ∧ watching s = false.

Lemma connections_progress s :
  crashed s = false →
  Forall (λ c, c.2 = Ended) (sv_conns s) ∨ ∃ i m, is_Some (server_step timeout sink s (Session i m)).
Proof.
  intros Hcr. destruct (forallb (λ c, is_ended c.2) (sv_conns s)) eqn:Hall; [left; by apply all_ended|right].
  apply forallb_false in Hall as (i & [env ph] & Hi & Hph).
  destruct (session_progress env ph (sv_fs s)) as [->|[->|[m [[[ph' t'] a] Hs]]]]; [done| |].
  - exfalso. apply not_true_iff_false in Hcr. apply Hcr, existsb_exists. exists (env, Panicked).
    split; [by eapply list_elem_of_In, list_elem_of_lookup_2|done].
  - exists i, m. unfold server_step. by rewrite Hcr, Hi, Hs.
Qed.

Lemma server_progress s :
  loop_inv s → going_down s →
  crashed s = true ∨ is_down s ∨ ∃ m, by_server m = true ∧ is_Some (server_step timeout sink s m).
Proof.
  intros [Hc Hg Hd Hr] Hdown. destruct (crashed s) eqn:Hcr; [by left|right].
  destruct (connections_progress s Hcr) as [Hall|(i & m & Hs)]; [|right; by exists (Session i m)].
  destruct (sv_loop s) eqn:Hl.
  - right. destruct (watching s) eqn:Hw.
    + exists CloseListener. destruct Hdown as [Hctx|?]; [|done].
      split; [done|]. unfold server_step. by rewrite Hcr, Hw, Hctx.
    + exists AcceptClosed. destruct (Hg eq_refl) as [Hli|[? ?]]; [|done].
      split; [done|]. unfold server_step. by rewrite Hcr, Hl, Hli.
  - right. exists WaitReturns. split; [done|]. unfold server_step. by rewrite Hcr, Hl, (proj2 (all_ended _) Hall).
  - destruct (watching s) eqn:Hw; [right|left; split; [by eexists|done]].
    exists StopWatching. split; [done|]. unfold server_step. by rewrite Hcr, Hl, Hw.
Qed.

Lemma server_run_work s ms s' :
  Forall (λ m, by_server m = true) ms → server_run timeout sink s ms = Some s' →
  (length ms + server_work s' ≤ server_work s)%nat.
Proof.
  intros Hms. revert s. induction Hms as [|m ms Hm Hms IH]; intros s Hr; cbn in Hr; [by injection Hr as <-|].
  destruct (server_step timeout sink s m) as [s1|] eqn:Hs; [|done].
  apply IH in Hr. apply server_step_work in Hs; [|done]. cbn. lia.
Qed.
End Work.

(** ** The audit stream *)

(** The entries of one session, when its id tells it from every other. *)
Lemma stream_of_connection i u (log : list (nat * conn_event)) :
  (∀ j e x, (j, e) ∈ log → event_entry e = Some x → EntrySessionID x = u ↔ j = i) →
  filter (λ e, EntrySessionID e = u) (stream log) = omap event_entry (of_connection i log).
Proof.
  unfold stream, of_connection. induction log as [|[j e] log IH]; intros Hlog; [done|].
  specialize (IH (λ j e x Hin, Hlog j e x (list_elem_of_further _ _ _ Hin))).
  specialize (Hlog j e). csimpl. destruct (event_entry e) as [x|] eqn:He.
  - specialize (Hlog x ltac:(by left) eq_refl). case_bool_decide as Hj; csimpl; rewrite ?He.
    + rewrite filter_cons_True by tauto. by f_equal.
    + by rewrite filter_cons_False by tauto.
  - case_bool_decide; csimpl; by rewrite ?He.
Qed.

(** Session ids are drawn afresh. *)
Definition distinct_sessions {S : Type} (conns : list (conn_env * phase (S := S))) : Prop :=
  NoDup (conn_uuid ∘ fst <$> conns) ∧ Forall (λ c, conn_uuid c.1 ≠ "") conns.

(** ** Properties *)
Section ServerProperties.
Context {W : SshWire} {S : Type} `{CastSink S}.
Context (timeout : Z) (sink : option S).
Implicit Types (env : conn_env) (ph : phase (S := S)) (t : fs) (s : server (S := S)) (ms : list (server_move)).

(** What a session past its handshake has logged. *)
Lemma session_inv_shape env ph evs perms :
  session_inv timeout sink env ph evs → handshake env = Ret perms → ph ≠ Handshaking →
  ∃ mid, body sink env perms mid ∧
    evs = opening timeout env perms ++ mid ++ (if is_ended ph || is_panicked ph then deferred env perms else []).
Proof.
  intros Hinv Hh Hph. destruct ph as [|p|p inbox running|p| |]; [done|..]; cbn in *.
  1-3: destruct Hinv as (Hh' & Hinv); rewrite Hh' in Hh; injection Hh as ->.
  1,3: destruct Hinv as (mid & -> & Hb); exists mid; by rewrite app_nil_r.
  1: destruct Hinv as ((mid & -> & Hb) & _); exists mid; by rewrite app_nil_r.
  1-2: destruct Hinv as [_ Hinv]; rewrite Hh in Hinv; destruct Hinv as (mid & -> & Hb); by exists mid.
Qed.

Lemma session_inv_entries env ph evs :
  session_inv timeout sink env ph evs → conn_uuid env ≠ "" → of_session (conn_uuid env) (omap event_entry evs).
Proof.
  intros Hinv Hne. destruct (handshake env) as [perms|e|] eqn:Hh.
  2,3: destruct ph; cbn in Hinv; rewrite ?Hh in Hinv; destruct_and?; try done; subst; by repeat constructor.
  destruct (decide (evs = [])) as [->|Hev]; [constructor|].
  destruct (session_inv_shape _ _ _ _ Hinv Hh) as (mid & [Hmid _] & ->); [by intros ->|].
  unfold of_session in *. rewrite !omap_app. apply Forall_app. split; [by repeat constructor|].
  apply Forall_app. split; [by apply Hmid|]. destruct (is_ended ph || is_panicked ph); by repeat constructor.
Qed.

Lemma server_session_inv ms t s :
  server_run timeout sink (server_start t) ms = Some s →
  (∀ i env ph, sv_conns s !! i = Some (env, ph) → session_inv timeout sink env ph (of_connection i (sv_log s))) ∧
  (∀ x, x ∈ sv_log s → (x.1 < length (sv_conns s))%nat).
Proof. apply server_invariant; [done|]. intros. by eapply session_inv_step. Qed.

(** C9: the audit stream tells every session's story, however connections
    interleave.  While any number of clients are served, the entries of the
    shared stream that carry a session's id are exactly those its own connection
    published, in order; the first says who opened it and for which target; and
    once its connection has returned the last is session.closed, by the same user,
    after which both ends are closed. *)
Theorem server_audited ms t s (i : nat) env ph (perms : Permissions) :
  server_run timeout sink (server_start t) ms = Some s → distinct_sessions (sv_conns s) →
  sv_conns s !! i = Some (env, ph) → handshake env = Ret perms → ph ≠ Handshaking →
  ∃ opened rest,
    filter (λ e, EntrySessionID e = conn_uuid env) (stream (sv_log s)) = opened :: rest ∧
    opened :: rest = omap event_entry (of_connection i (sv_log s)) ∧
    Action opened = ActionSessionOpened ∧
    EntryUser opened = ext perms "key-id" ∧ EntryTarget opened = ext perms "target-host" ∧
    (ph = Ended → ∃ before mid closed,
      of_connection i (sv_log s) = before ++ [Appended closed; SshClosed; ConnClosed] ∧
      rest = mid ++ [closed] ∧ Action closed = ActionSessionClosed ∧
      EntryUser closed = EntryUser opened ∧ EntryTarget closed = EntryTarget opened).
Proof.
  intros Hrun [Hdup Hne] Hi Hh Hph. destruct (server_session_inv _ _ _ Hrun) as [Hinv Hlog].
  rewrite (stream_of_connection i).
  2: { intros j e x Hin Hx. pose proof (Hlog _ Hin) as Hlt. cbn in Hlt.
       apply lookup_lt_is_Some in Hlt as [[envj phj] Hj].
       pose proof (Forall_lookup_1 _ _ _ _ Hne Hj) as Hnej. cbn in Hnej.
       pose proof (session_inv_entries _ _ _ (Hinv _ _ _ Hj) Hnej) as Hsid.
       unfold of_session in Hsid. rewrite Forall_forall in Hsid. rewrite (Hsid x); cycle 1.
       { apply list_elem_of_omap. exists e. by rewrite elem_of_of_connection. }
       split; [|intros ->; by simplify_eq]. intros Heq.
       apply (NoDup_lookup (conn_uuid ∘ fst <$> sv_conns s) j i (conn_uuid env)); [done|..];
         rewrite list_lookup_fmap, ?Hi, ?Hj; cbn; congruence. }
  destruct (session_inv_shape _ _ _ _ (Hinv _ _ _ Hi) Hh Hph) as (mid & _ & ->).
  do 2 eexists. do 5 (split; [reflexivity|]). intros ->. cbn [is_ended is_panicked orb].
  exists (opening timeout env perms ++ mid), (omap event_entry mid). eexists.
  split; [by rewrite <-(assoc_L (++))|]. split; [exact (omap_app event_entry mid (deferred env perms))|done].
Qed.

Lemma session_inv_permitted env ph evs perms j a :
  session_inv timeout sink env ph evs → handshake env = Ret perms → ChannelAction j a ∈ evs →
  permitted (session_proxier sink env perms) a.
Proof.
  intros Hinv Hh Hin. destruct (decide (evs = [])) as [->|Hev]; [by apply elem_of_nil in Hin|].
  destruct (session_inv_shape _ _ _ _ Hinv Hh) as (mid & [_ Hb] & ->); [by intros ->|].
  rewrite Forall_forall in Hb. rewrite !elem_of_app in Hin. destruct Hin as [Hin|[Hin|Hin]].
  - unfold opening in Hin. rewrite !elem_of_cons, elem_of_nil in Hin. naive_solver.
  - by apply Hb in Hin.
  - destruct (is_ended ph || is_panicked ph); [|by apply elem_of_nil in Hin].
    unfold deferred in Hin. rewrite !elem_of_cons, elem_of_nil in Hin. naive_solver.
Qed.

(** C4: the certificate's limits hold end to end.  On a server with any number
    of clients connected, whatever channels and requests the client behind an
    accepted connection tries, no terminal, X11 or agent request reaches the target
    unless the certificate that client presented carries the matching extension:
    no other client's certificate lends it one. *)
Theorem server_gates {A : CertAuthority} {AL : CertAuthorityLaws A} (ca : string) (rv : Checker)
    (meta : ConnMetadata) (c : Certificate) (perms : Permissions) ms t s (i j : nat) env ph (r : Request) :
  server_run timeout sink (server_start t) ms = Some s → sv_conns s !! i = Some (env, ph) →
  publicKeyCallback ca rv meta (CertKey c) = Ret perms → handshake env = Ret perms →
  (i, ChannelAction j (Forward r)) ∈ sv_log s →
  (Type_ r = "pty-req" → is_Some (map_get (Extensions (CertPermissions c)) "permit-pty")) ∧
  (Type_ r = "x11-req" → is_Some (map_get (Extensions (CertPermissions c)) "permit-X11-forwarding")) ∧
  (Type_ r = "auth-agent-req@openssh.com" →
     is_Some (map_get (Extensions (CertPermissions c)) "permit-agent-forwarding")).
Proof.
  intros Hrun Hi (ru & th & c' & _ & [= <-] & _ & _ & _ & _ & _ & ->)%publicKeyCallback_inv Hh Hin.
  destruct (server_session_inv _ _ _ Hrun) as [Hinv _]. apply elem_of_of_connection in Hin.
  pose proof (session_inv_permitted _ _ _ _ _ _ (Hinv _ _ _ Hi) Hh Hin) as Hp.
  by apply (permitted_by_certificate sink env c ru th).
Qed.

End ServerProperties.

(** ** Two clients at once *)
Section ServerWitnesses.
#[local] Existing Instance simple_authority.
#[local] Existing Instance simple_authority_laws.
#[local] Existing Instance rfc_wire.
#[local] Existing Instance identity_tables.

(** [env_ok] is alice with a terminal; bob's target cannot be dialled. *)
Definition env_bob : conn_env :=
  {| remote := remote env_ok; handshake := Ret perms1; conn_uuid := "sess-2";
     signer := Ret 1%nat; dial := Err "no route"; channels := channels env_ok; schedule := [];
     d_start := draw1; d_opened := draw1; d_rejected := draw1; d_closed := draw1 |}.
Definition busy : list server_move :=
  [Connect env_ok; Connect env_bob; Session 0 Advance; Session 1 Advance; Session 0 Advance;
   Session 0 (Chan Receive); Session 1 Advance; Session 0 (Chan (Run 0)); Session 0 (Chan (Run 0));
   Session 0 (Chan (Run 0)); Session 0 (Chan (Run 0)); CtxDone].
Definition draining : list server_move :=
  [Session 0 (Chan (Run 0)); CloseListener; Session 1 Advance; AcceptClosed; Session 0 (Chan (Run 0));
   Session 0 Advance; Session 0 Advance; WaitReturns].
Definition served (ms : list server_move) : server (S := LocalDirSink) :=
  default (server_start ∅) (server_run 30 None (server_start ∅) ms).

Definition runs (ms : list server_move) : bool :=
  match server_run (S := LocalDirSink) 30 None (server_start ∅) ms with Some _ => true | None => false end.
Lemma served_run ms :
  runs ms = true → server_run (S := LocalDirSink) 30 None (server_start ∅) ms = Some (served ms).
Proof. unfold runs, served. by destruct (server_run _ _ _ ms). Qed.

(** With a terminal open, the context cancelled and bob's connection about to
    return, eight more moves bring everything down. *)
Lemma busy_run : server_run (S := LocalDirSink) 30 None (server_start ∅) busy = Some (served busy).
Proof. apply served_run. by_vm. Qed.
Lemma drained_run :
  server_run (S := LocalDirSink) 30 None (server_start ∅) (busy ++ draining) = Some (served (busy ++ draining)).
Proof. apply served_run. by_vm. Qed.
Lemma draining_run : server_run (S := LocalDirSink) 30 None (served busy) draining = Some (served (busy ++ draining)).
Proof. exact (server_run_split _ _ _ _ _ _ _ busy_run drained_run). Qed.
Lemma busy_ctx : ctx_over (served busy) = true.
Proof. by_vm. Qed.
Lemma drained_loop : sv_loop (served (busy ++ draining)) = Stopped (Ret tt).
Proof. by_vm. Qed.

Lemma server_audited_witness :
  ∃ opened mid closed,
    filter (λ e, EntrySessionID e = "sess-2") (stream (sv_log (served (busy ++ draining)))) = opened :: mid ++ [closed] ∧
    Action opened = ActionSessionOpened ∧ Action closed = ActionSessionClosed.
Proof.
  destruct (server_audited (S := LocalDirSink) 30 None (busy ++ draining) ∅ (served (busy ++ draining)) 1
    env_bob Ended perms1) as (opened & rest & Hf & _ & Ho & _ & _ & Hc).
  - exact drained_run.
  - split; apply (bool_decide_unpack _); vm_compute; exact I.
  - by_vm.
  - reflexivity.
  - discriminate.
  - destruct (Hc eq_refl) as (_ & mid & closed & _ & -> & Hcl & _). exists opened, mid, closed.
    split; [exact Hf|]. split; [exact Ho|exact Hcl].
Defined.

Lemma server_gates_witness : is_Some (map_get (Extensions (CertPermissions cert1)) "permit-pty").
Proof.
  refine (proj1 (server_gates (S := LocalDirSink) 30 None "ca" (Polling (Some example_checker)) conn_meta1 cert1 perms1
    (busy ++ draining) ∅ (served (busy ++ draining)) 0 0 env_ok Ended ptyreq1 drained_run _ callback1 eq_refl _) eq_refl).
  - by_vm.
  - apply elem_of_of_connection, list_elem_of_lookup. exists 6%nat. by_vm.
Defined.

End ServerWitnesses.
