(* ===== verification/SshAlone.v ===== *)
(** * Package [ssh]: one connection by itself

    [SshServer.handleConn] says in one function what a connection does under a
    schedule of its channels; [SshServing.session_step] is the same handler as a
    goroutine among others.  Here the two are the same: the complete runs of the
    goroutine, with the store to itself, are the results of the function. *)

From Stdlib Require Import ZArith Lia Ascii.
From stdpp Require Import prelude strings gmap list.
From S2P Require Import Prelude GoStrings GoTime Json GoCalendar GoOs Recording NetAddr Rbac GoSsh Revcheck Routing Target AuditLog Channel Channels SshServer SshServing.

Local Open Scope Z_scope.

Section Alone.
Context {W : SshWire} {S : Type} `{CastSink S}.
Context (timeout : Z) (sink : option S).
Implicit Types (env : conn_env) (ph : phase (S := S)) (t : fs) (st : conn_state S).

(** The connection stepping with no other in between. *)
Fixpoint session_run env ph t (ms : list session_move) : option (phase (S := S) * fs * list conn_event) :=
  match ms with
  | [] => Some (ph, t, [])
  | m :: ms =>
      match session_step timeout sink env ph t m with
      | None => None
      | Some (ph', t', a) =>
          match session_run env ph' t' ms with
          | None => None
          | Some (ph'', t'', b) => Some (ph'', t'', a ++ b)
          end
      end
  end.

Definition with_schedule (ms : list move) env : conn_env :=
  {| remote := remote env; handshake := handshake env; conn_uuid := conn_uuid env; signer := signer env;
     dial := dial env; channels := channels env; schedule := ms; d_start := d_start env;
     d_opened := d_opened env; d_rejected := d_rejected env; d_closed := d_closed env |}.

Definition over ph : bool := is_ended ph || is_panicked ph.
Definition proxying perms st : phase (S := S) := Proxying perms (cs_inbox st) (cs_running st).

Lemma session_run_app env ph t ms ph1 t1 a ms' :
  session_run env ph t ms = Some (ph1, t1, a) →
  session_run env ph t (ms ++ ms') =
    match session_run env ph1 t1 ms' with Some (ph2, t2, b) => Some (ph2, t2, a ++ b) | None => None end.
Proof.
  revert ph t a. induction ms as [|m ms IH]; intros ph t a; cbn [session_run app].
  - intros [= -> -> <-]. by destruct (session_run env ph1 t1 ms') as [[[??]?]|].
  - destruct (session_step timeout sink env ph t m) as [[[ph0 t0] a0]|]; [|done].
    destruct (session_run env ph0 t0 ms) as [[[ph2 t2] b]|] eqn:Hr; [|done]. intros [= -> -> <-].
    rewrite (IH _ _ _ Hr). destruct (session_run env ph1 t1 ms') as [[[??]?]|]; [|done].
    by rewrite (assoc_L (++)).
Qed.

Lemma session_run_over env ph t ms r : over ph = true → session_run env ph t ms = Some r → ms = [] ∧ r = (ph, t, []).
Proof. destruct ms as [|m ms]; [by intros _ [= <-]|]. by destruct ph, m. Qed.

(** A step of a channel is one of [HandleNewChannels]. *)
Lemma channel_step env perms st m :
  match session_step timeout sink env (proxying perms st) (cs_fs st) (Chan m) with
  | None => conn_step st m = st
  | Some (ph, t, a) => ph = proxying perms (conn_step st m) ∧ t = cs_fs (conn_step st m) ∧
      ∃ acts, cs_trace (conn_step st m) = cs_trace st ++ acts ∧ a = uncurry ChannelAction <$> acts
  end.
Proof.
  unfold proxying. destruct m as [|i]; cbn [session_step conn_step].
  - destruct (cs_inbox st) as [|c rest]; [done|]. do 2 (split; [done|]). exists []. by rewrite app_nil_r.
  - destruct (cs_running st !! i) as [[c g]|]; [|done].
    destruct (goroutine_step c g (cs_fs st)) as [[[g' t'] a]|]; [|done]. do 2 (split; [done|]).
    eexists. split; [reflexivity|]. by rewrite <-list_fmap_compose.
Qed.

Lemma channels_run env perms st ms :
  ∃ ms' acts, session_run env (proxying perms st) (cs_fs st) (Chan <$> ms') =
    Some (proxying perms (conn_run ms st), cs_fs (conn_run ms st), uncurry ChannelAction <$> acts) ∧
    cs_trace (conn_run ms st) = cs_trace st ++ acts.
Proof.
  revert st. induction ms as [|m ms IH]; intros st; [exists [], []; by rewrite app_nil_r|].
  change (conn_run (m :: ms) st) with (conn_run ms (conn_step st m)).
  destruct (IH (conn_step st m)) as (ms' & acts & Hr & Ht).
  pose proof (channel_step env perms st m) as Hs.
  destruct (session_step timeout sink env (proxying perms st) (cs_fs st) (Chan m)) as [[[ph t] a]|] eqn:Hstep.
  - destruct Hs as (-> & -> & acts0 & Ht0 & ->). exists (m :: ms'), (acts0 ++ acts).
    rewrite fmap_cons. cbn [session_run]. rewrite Hstep, Hr, fmap_app. split; [done|]. by rewrite Ht, Ht0, (assoc_L (++)).
  - rewrite Hs in *. by exists ms', acts.
Qed.

(** Once [HandleNewChannels] can return, the deferred calls are what is left. *)
Lemma proxying_returns env perms st t :
  returned st → session_run env (proxying perms st) t [Advance; Advance] =
    Some (Ended, t, TargetClosed :: deferred env perms).
Proof.
  intros [Hin Hrun]. unfold proxying. rewrite Hin. cbn [session_run session_step].
  assert (forallb (λ cg, is_done cg.2) (cs_running st) = true) as ->; [|done].
  apply forallb_forall. intros [c g] Hcg%list_elem_of_In. rewrite Forall_forall in Hrun.
  specialize (Hrun _ Hcg). cbn in *. by rewrite Hrun.
Qed.

Lemma proxying_run_inv env perms st ms ph t a :
  session_run env (proxying perms st) (cs_fs st) ms = Some (ph, t, a) → over ph = true →
  ∃ sched acts, returned (conn_run sched st) ∧ ph = Ended ∧ t = cs_fs (conn_run sched st) ∧
    cs_trace (conn_run sched st) = cs_trace st ++ acts ∧
    a = (uncurry ChannelAction <$> acts) ++ TargetClosed :: deferred env perms.
Proof.
  revert st a. induction ms as [|[|m] ms IH]; intros st a; cbn [session_run]; [by intros [= <- _ _]| |].
  - unfold proxying. cbn [session_step]. destruct (cs_inbox st) as [|? ?] eqn:Hin; [|done].
    destruct (forallb _ _) eqn:Hall; [|done]. destruct ms as [|[|m] ms]; [by intros [= <- _ _]| |done].
    cbn [session_run session_step]. destruct (session_run env Ended (cs_fs st) ms) as [[[??]?]|] eqn:Hr; [|done].
    apply session_run_over in Hr as [-> [= -> -> ->]]; [|done]. intros [= <- <- <-] _. exists [], [].
    split; [|by rewrite app_nil_r]. split; [done|]. apply Forall_forall. intros [c g] Hcg.
    rewrite forallb_forall in Hall. specialize (Hall (c, g) (proj1 (list_elem_of_In _ _) Hcg)). by destruct g.
  - pose proof (channel_step env perms st m) as Hs.
    destruct (session_step timeout sink env (proxying perms st) (cs_fs st) (Chan m)) as [[[ph0 t0] a0]|]; [|done].
    destruct Hs as (-> & -> & acts0 & Ht0 & ->).
    destruct (session_run env _ _ ms) as [[[ph1 t1] a1]|] eqn:Hr; [|done]. intros [= -> -> <-] Hover.
    destruct (IH _ _ Hr Hover) as (sched & acts & Hret & -> & -> & Ht & ->). exists (m :: sched), (acts0 ++ acts).
    split; [done|]. do 2 (split; [done|]). split; [|by rewrite fmap_app, (assoc_L (++))].
    change (conn_run (m :: sched) st) with (conn_run sched (conn_step st m)). by rewrite Ht, Ht0, (assoc_L (++)).
Qed.

(** A schedule that runs everything leaves nothing to drain. *)
Lemma HandleNewChannels_returned p chans ms t :
  returned (conn_run ms (conn_start (of_conn p chans) t)) →
  HandleNewChannels p chans ms t =
    (cs_fs (conn_run ms (conn_start (of_conn p chans) t)), cs_trace (conn_run ms (conn_start (of_conn p chans) t))).
Proof.
  unfold HandleNewChannels. set (st := conn_run ms _). intros [Hin Hrun].
  assert (∀ n, conn_drain n st = st) as ->; [|done]. intros [|n]; [done|]. cbn [conn_drain].
  replace (next_move st) with (None (A := move)); [done|]. unfold next_move. rewrite Hin.
  destruct (list_find _ (cs_running st)) as [[i [c g]]|] eqn:Hf; [|done].
  apply list_find_Some in Hf as (Hi & Hg & _). rewrite Forall_lookup in Hrun. specialize (Hrun _ _ Hi).
  cbn in *. by subst g.
Qed.

(** What a proxied session does between the dial and the deferred calls. *)
Definition proxied perms env t sched : conn_state S :=
  conn_run sched (conn_start (of_conn (session_proxier sink env perms) (accepted (channels env))) t).

Lemma dialing_serves env perms t sched :
  ∃ ms ph, over ph = true ∧
    session_run env (Dialing perms) t ms =
      Some (ph, (serve_session sink (with_schedule sched env) perms t).1,
            (serve_session sink (with_schedule sched env) perms t).2 ++ deferred env perms).
Proof.
  unfold serve_session. cbn [with_schedule signer dial channels schedule d_rejected].
  destruct (signer env) as [sig|e|] eqn:Hsig; [destruct (dial env) as [cl|e|] eqn:Hd|..].
  2,4: exists [Advance; Advance], Ended; split; [done|]; cbn [session_run session_step]; rewrite Hsig, ?Hd;
    cbn [fst snd]; by rewrite ?app_nil_r.
  2,3: exists [Advance], Panicked; split; [done|]; cbn [session_run session_step]; rewrite Hsig, ?Hd; done.
  change (session_proxier sink (with_schedule sched env) perms) with (session_proxier sink env perms).
  destruct (HandleNewChannels_run (session_proxier sink env perms) (accepted (channels env)) sched t) as (sched' & Hh & Hret).
  rewrite Hh. fold (proxied perms env t (sched ++ sched')) in *. cbn [fst snd].
  destruct (channels_run env perms (conn_start (of_conn (session_proxier sink env perms) (accepted (channels env))) t)
    (sched ++ sched')) as (ms & acts & Hr & Ht).
  fold (proxied perms env t (sched ++ sched')) in *. cbn [cs_trace conn_start app] in Ht.
  exists (Advance :: (Chan <$> ms) ++ [Advance; Advance]), Ended. split; [done|].
  cbn [session_run session_step]. rewrite Hsig, Hd.
  change (Proxying perms (of_conn (session_proxier sink env perms) (accepted (channels env))) [])
    with (proxying perms (conn_start (of_conn (session_proxier sink env perms) (accepted (channels env))) t)).
  cbn [cs_fs conn_start] in Hr. rewrite (session_run_app _ _ _ _ _ _ _ [Advance; Advance] Hr).
  rewrite proxying_returns by done. rewrite Ht. cbn [fst snd app]. by rewrite <-(assoc_L (++)).
Qed.

Lemma dialing_run_inv env perms t ms ph t' a :
  session_run env (Dialing perms) t ms = Some (ph, t', a) → over ph = true →
  ∃ sched mid, serve_session sink (with_schedule sched env) perms t = (t', mid) ∧ a = mid ++ deferred env perms.
Proof.
  intros Hr Hover. destruct ms as [|[|m] ms]; [by injection Hr as <- _ _| |done]. cbn [session_run session_step] in Hr.
  unfold serve_session. cbn [with_schedule signer dial channels schedule d_rejected].
  assert (∀ (mid : list conn_event) t0, match session_run env (Finishing perms) t0 ms with
    | Some (ph'', t'', b) => Some (ph'', t'', mid ++ b) | None => None end = Some (ph, t', a) →
    t' = t0 ∧ a = mid ++ deferred env perms) as Hfin.
  { intros mid t0 Hr0. destruct ms as [|[|m] ms]; [by injection Hr0 as <- _ _| |done].
    cbn [session_run session_step] in Hr0. destruct (session_run env Ended t0 ms) as [[[??]?]|] eqn:Hr1; [|done].
    apply session_run_over in Hr1 as [-> [= -> -> ->]]; [|done]. rewrite app_nil_r in Hr0. by injection Hr0 as <- <- <-. }
  assert (∀ (mid : list conn_event) t0, match session_run env Panicked t0 ms with
    | Some (ph'', t'', b) => Some (ph'', t'', (mid ++ deferred env perms) ++ b) | None => None end = Some (ph, t', a) →
    t' = t0 ∧ a = mid ++ deferred env perms) as Hpan.
  { intros mid t0 Hr0. destruct (session_run env Panicked t0 ms) as [[[??]?]|] eqn:Hr1; [|done].
    apply session_run_over in Hr1 as [-> [= -> -> ->]]; [|done]. rewrite app_nil_r in Hr0. by injection Hr0 as <- <- <-. }
  destruct (signer env) as [sig|e|]; [destruct (dial env) as [cl|e|]|..].
  2,4: destruct (Hfin _ _ Hr) as [-> ->]; exists []; by eexists.
  2,3: destruct (Hpan [AskedSigner _] _ Hr) as [-> ->]; exists []; by eexists.
  set (p := session_proxier sink env perms) in *. set (st := conn_start (of_conn p (accepted (channels env))) t).
  change (Proxying perms (of_conn p (accepted (channels env))) []) with (proxying perms st) in Hr.
  change (session_run env (proxying perms st) t ms) with (session_run env (proxying perms st) (cs_fs st) ms) in Hr.
  destruct (session_run env (proxying perms st) (cs_fs st) ms) as [[[ph1 t1] b]|] eqn:Hr1; [|done]. injection Hr as -> -> <-.
  destruct (proxying_run_inv _ _ _ _ _ _ _ Hr1 Hover) as (sched & acts & Hret & _ & -> & Ht & ->).
  exists sched. change (session_proxier sink (with_schedule sched env) perms) with p.
  rewrite HandleNewChannels_returned by done. eexists. split; [reflexivity|].
  fold st. rewrite Ht. cbn. by rewrite <-(assoc_L (++)).
Qed.
End Alone.

(** ** Properties *)
Section AloneProperties.
Context {W : SshWire} {S : Type} `{CastSink S}.
Context (timeout : Z) (sink : option S).

End AloneProperties.
