(* ===== verification/Gateway.v ===== *)
(** * The running gateway

    The goroutines of one [ssh-proxyd] that serves users while agents come and
    go and revocations are polled: the SSH server ([SshServing]), the tunnel
    listener with its registry ([Listener], [Routing]) and the revocation
    poller ([Revcheck]), all stepping against the same registry and the same
    snapshot, as [runServe] of [cmd/ssh-proxyd/main.go] starts them when
    tunnels and revocations are configured.  A handshake runs
    [publicKeyCallback] against the snapshot of that moment; a dial runs
    [DialTarget] through [tunnelTransport] against the registry of that moment. *)

From Stdlib Require Import ZArith Lia Ascii.
From stdpp Require Import prelude strings gmap list.
From S2P Require Import Prelude GoStrings GoTime NetAddr Rbac Routing Listener GoSsh Json GoCalendar Revcheck GoOs Recording Target AuditLog Channel Channels SshServer SshServing.

Local Open Scope Z_scope.
Local Open Scope go_scope.

(** ** One dial *)
Section Dial.
Context {U : UnicodeTables}.

(** What the libraries answer while a target is dialled: [Session.Open], the TCP
    dialer, the SSH client handshake, and whether the context is over. *)
Record dial_answers := {
  yamux_open : nat → outcome string nat;
  tcp_dial : string → outcome string nat;
  NewClientConn : net_conn → string → string → nat → nat → Z → outcome string nat;
  dial_ctx_done : bool
}.

(** The label a session is routed by, and the session that holds it. *)
Definition route_label (perms : Permissions) : string := normalize (lookup_host (ext perms "target-host")).
Definition owner (w : world) (perms : Permissions) : option nat := view (is_closed w) (reg w) (route_label perms).

(** The transport [handleConn] hands to [DialTarget]. *)
Definition open_target_conn (a : dial_answers) (w : world) (perms : Permissions) (addr : string)
    : Registry * outcome string net_conn :=
  match tunnelTransport (Some (reg w)) (ext perms "target-host") with
  | Some transport => transport (is_closed w) (yamux_open a) (tcp_dial a) (dial_ctx_done a) addr
  | None => (reg w, let! c := tcp_dial a addr in Ret (TCPConn c))
  end.
#[global] Arguments open_target_conn : simpl never.
Definition gateway_dial (a : dial_answers) (hostkey : nat) (w : world) (perms : Permissions) (sig : nat)
    : outcome DialError nat * list (dial_event net_conn) :=
  DialTarget (λ _ addr, let! c := tcp_dial a addr in Ret (TCPConn c)) (NewClientConn a)
    {| Address := ext perms "target-host"; User := ext perms "remote-user"; Signer := Some sig;
       HostKeyCallback := Some hostkey; Timeout := 0;
       Transport := Some (λ addr, (open_target_conn a w perms addr).2) |}.

(** What the dial leaves of the registry: a lookup evicts a dead owner. *)
Definition after_dial (a : dial_answers) (hostkey : nat) (w : world) (perms : Permissions) (sig : nat) : world :=
  match (gateway_dial a hostkey w perms sig).2 with
  | [] => w
  | _ => {| reg := (open_target_conn a w perms (dial_addr (ext perms "target-host"))).1; dead_set := dead_set w |}
  end.

(** What a dial that succeeded runs over. *)
Lemma open_target_conn_via a w perms addr c :
  (open_target_conn a w perms addr).2 = Ret c →
  match owner w perms with
  | Some s => ∃ st, yamux_open a s = Ret st ∧ c = TunnelStream st
  | None => ∃ n, c = TCPConn n
  end.
Proof.
  unfold open_target_conn, owner, view, route_label, tunnelTransport, Open, Lookup.
  destruct (dial_ctx_done a); [done|].
  destruct (tunnels (reg w) !! normalize (lookup_host (ext perms "target-host"))) as [e|]; cbn [mbind option_bind].
  2: { cbn. destruct (tcp_dial a addr) as [n|?|]; intros [=]; eauto. }
  cbn [isDead]. destruct (is_closed w (session e)).
  - cbn. destruct (tcp_dial a addr) as [n|?|]; intros [=]; eauto.
  - cbn. destruct (yamux_open a (session e)) as [st|?|]; intros [=]; eauto.
Qed.

Lemma gateway_dial_via a hostkey w perms sig cl :
  (gateway_dial a hostkey w perms sig).1 = Ret cl →
  ∃ c, (open_target_conn a w perms (dial_addr (ext perms "target-host"))).2 = Ret c ∧
    match owner w perms with
    | Some s => ∃ st, yamux_open a s = Ret st ∧ c = TunnelStream st
    | None => ∃ n, c = TCPConn n
    end.
Proof.
  unfold gateway_dial, DialTarget. cbn [Address User Signer HostKeyCallback Transport Timeout default].
  case_bool_decide; [done|]. case_bool_decide; [done|]. cbn.
  destruct (open_target_conn a w perms (dial_addr (ext perms "target-host"))) as [r [c|e|]] eqn:Ho; [|done..].
  intros _. exists c. split; [done|]. eapply open_target_conn_via. by rewrite Ho.
Qed.
End Dial.

(** ** The gateway *)

(** A run of the callback: for which connection and key, on which polls (latest
    first) the snapshot of that moment stood, and what it returned. *)
Record key_check := {
  kc_conn : nat; kc_key : PublicKey; kc_polls : list (Z * http_reply); kc_result : outcome PkError Permissions
}.
(** A dial that succeeded: for which connection, whose tunnel the target's label
    was at that moment, and what the session runs over. *)
Record route := { rt_conn : nat; rt_owner : option nat; rt_via : net_conn }.

Section Gateway.
Context {U : UnicodeTables} {A : CertAuthority} {W : SshWire} {S : Type} `{CastSink S}.
Context (HandshakeTimeout : Z) (RecordingSink : option S) (TrustedUserCA : string) (hostkey : nat).
Context (extractor : option Listener.Certificate → outcome SpiffeError (list string)).

(** The state of the three components; who is at the end of each user connection
    and each agent connection; and what has been polled, checked and dialled. *)
Record gateway := {
  gw_ssh : SshServing.server (S := S);
  gw_tunnels : Listener.server;
  gw_checker : PollingChecker;
  gw_clients : list ConnMetadata;
  gw_agents : gmap nat Conn;
  gw_polls : list (Z * http_reply);
  gw_checks : list key_check;
  gw_routes : list route
}.

Definition gateway_start (t : fs) (checker : PollingChecker) : gateway :=
  {| gw_ssh := server_start t; gw_tunnels := server_init; gw_checker := checker;
     gw_clients := []; gw_agents := ∅; gw_polls := []; gw_checks := []; gw_routes := [] |}.

Definition set_ssh (s : SshServing.server (S := S)) (g : gateway) : gateway :=
  {| gw_ssh := s; gw_tunnels := gw_tunnels g; gw_checker := gw_checker g; gw_clients := gw_clients g;
     gw_agents := gw_agents g; gw_polls := gw_polls g; gw_checks := gw_checks g; gw_routes := gw_routes g |}.
Definition with_world (w : world) (t : Listener.server) : Listener.server :=
  {| srv_world := w; ctx_done := ctx_done t; srv_loop := srv_loop t; handlers := handlers t |}.
Definition set_tunnels (t : Listener.server) (agents : gmap nat Conn) (g : gateway) : gateway :=
  {| gw_ssh := gw_ssh g; gw_tunnels := t; gw_checker := gw_checker g; gw_clients := gw_clients g;
     gw_agents := agents; gw_polls := gw_polls g; gw_checks := gw_checks g; gw_routes := gw_routes g |}.

(** The moves of [SshServing] that read neither the snapshot nor the registry. *)
Definition own_move (s : SshServing.server (S := S)) (m : server_move) : bool :=
  match m with
  | Connect _ => false
  | Session i Advance =>
      match sv_conns s !! i with
      | Some (_, Handshaking) | Some (_, SshServing.Dialing _) => false
      | _ => true
      end
  | _ => true
  end.

(** What a connection's environment says of its handshake and of its dial is what
    the callback and [DialTarget] return when they run. *)
Inductive gateway_step : gateway → gateway → Prop :=
  | step_connect g env meta s :
      remote env = RemoteAddr meta →
      server_step HandshakeTimeout RecordingSink (gw_ssh g) (Connect env) = Some s →
      gateway_step g
        {| gw_ssh := s; gw_tunnels := gw_tunnels g; gw_checker := gw_checker g;
           gw_clients := gw_clients g ++ [meta]; gw_agents := gw_agents g; gw_polls := gw_polls g;
           gw_checks := gw_checks g; gw_routes := gw_routes g |}
  | step_check g i env meta key :
      sv_conns (gw_ssh g) !! i = Some (env, Handshaking) → gw_clients g !! i = Some meta →
      gateway_step g
        {| gw_ssh := gw_ssh g; gw_tunnels := gw_tunnels g; gw_checker := gw_checker g;
           gw_clients := gw_clients g; gw_agents := gw_agents g; gw_polls := gw_polls g;
           gw_checks := {| kc_conn := i; kc_key := key; kc_polls := gw_polls g;
             kc_result := publicKeyCallback TrustedUserCA (Polling (Some (gw_checker g))) meta key |} :: gw_checks g;
           gw_routes := gw_routes g |}
  | step_handshake g i env s :
      sv_conns (gw_ssh g) !! i = Some (env, Handshaking) →
      (∀ perms, handshake env = Ret perms →
        ∃ kc, kc ∈ gw_checks g ∧ kc_conn kc = i ∧ kc_result kc = Ret perms) →
      server_step HandshakeTimeout RecordingSink (gw_ssh g) (Session i Advance) = Some s →
      gateway_step g (set_ssh s g)
  | step_no_signer g i env perms s :
      sv_conns (gw_ssh g) !! i = Some (env, SshServing.Dialing perms) → (∀ sig, signer env ≠ Ret sig) →
      server_step HandshakeTimeout RecordingSink (gw_ssh g) (Session i Advance) = Some s →
      gateway_step g (set_ssh s g)
  | step_dial_fails g i env perms sig a s :
      sv_conns (gw_ssh g) !! i = Some (env, SshServing.Dialing perms) → signer env = Ret sig →
      (∀ cl, (gateway_dial a hostkey (srv_world (gw_tunnels g)) perms sig).1 ≠ Ret cl) →
      (∀ cl, dial env ≠ Ret cl) →
      server_step HandshakeTimeout RecordingSink (gw_ssh g) (Session i Advance) = Some s →
      gateway_step g
        (set_tunnels (with_world (after_dial a hostkey (srv_world (gw_tunnels g)) perms sig) (gw_tunnels g))
           (gw_agents g) (set_ssh s g))
  | step_dial g i env perms sig a cl via s :
      sv_conns (gw_ssh g) !! i = Some (env, SshServing.Dialing perms) → signer env = Ret sig →
      (gateway_dial a hostkey (srv_world (gw_tunnels g)) perms sig).1 = Ret cl → dial env = Ret cl →
      (open_target_conn a (srv_world (gw_tunnels g)) perms (dial_addr (ext perms "target-host"))).2 = Ret via →
      server_step HandshakeTimeout RecordingSink (gw_ssh g) (Session i Advance) = Some s →
      gateway_step g
        {| gw_ssh := s;
           gw_tunnels := with_world (after_dial a hostkey (srv_world (gw_tunnels g)) perms sig) (gw_tunnels g);
           gw_checker := gw_checker g;
           gw_clients := gw_clients g; gw_agents := gw_agents g; gw_polls := gw_polls g; gw_checks := gw_checks g;
           gw_routes := {| rt_conn := i; rt_owner := owner (srv_world (gw_tunnels g)) perms; rt_via := via |}
             :: gw_routes g |}
  | step_ssh g m s :
      own_move (gw_ssh g) m = true →
      server_step HandshakeTimeout RecordingSink (gw_ssh g) m = Some s →
      gateway_step g (set_ssh s g)
  | step_agent g i c t :
      handlers (gw_tunnels g) !! i = None → serve extractor (gw_tunnels g) t →
      handlers t = <[i := PhStart c]> (handlers (gw_tunnels g)) →
      gateway_step g (set_tunnels t (<[i := c]> (gw_agents g)) g)
  | step_tunnels g t :
      serve extractor (gw_tunnels g) t → dom (handlers t) = dom (handlers (gw_tunnels g)) →
      gateway_step g (set_tunnels t (gw_agents g) g)
  | step_poll g now r :
      gateway_step g
        {| gw_ssh := gw_ssh g; gw_tunnels := gw_tunnels g; gw_checker := refresh now r (gw_checker g);
           gw_clients := gw_clients g; gw_agents := gw_agents g; gw_polls := (now, r) :: gw_polls g;
           gw_checks := gw_checks g; gw_routes := gw_routes g |}.
End Gateway.

(** ** What a step of the SSH server changes *)
Section ServerSteps.
Context {W : SshWire} {S : Type} `{CastSink S}.
Context (timeout : Z) (sink : option S).

Lemma session_step_actions env ph t m ph' t' evs j (x : action) :
  session_step timeout sink env ph t m = Some (ph', t', evs) → ChannelAction j x ∈ evs →
  ∃ perms inbox running inbox' running', ph = Proxying perms inbox running ∧ ph' = Proxying perms inbox' running'.
Proof.
  assert (∀ chans reason msg, ChannelAction j x ∉ rejectAll chans reason msg) as Hrej.
  { induction chans as [|c chans IH]; intros; cbn; [set_solver|].
    rewrite not_elem_of_cons. split; [by destruct (ic_ctx_done c)|apply IH]. }
  destruct ph as [|perms|perms inbox running|perms| |], m as [|[|k]]; cbn [session_step]; try done.
  - destruct (handshake env); intros [= <- <- <-]; rewrite ?elem_of_cons, ?elem_of_nil; naive_solver.
  - destruct (signer env); [destruct (dial env)|..]; intros [= <- <- <-]; unfold deferred;
      rewrite ?elem_of_cons, ?elem_of_nil; intros Hin; exfalso; destruct_or?; try done; by eapply Hrej.
  - destruct inbox; [|done]. case_match; [|done]. intros [= <- <- <-]. rewrite elem_of_cons, elem_of_nil. naive_solver.
  - destruct inbox; [done|]. intros [= <- <- <-]. set_solver.
  - destruct (running !! k) as [[c g]|]; [|done]. destruct (goroutine_step c g t) as [[[??]?]|]; [|done].
    intros [= <- <- <-] _. by do 5 eexists.
  - intros [= <- <- <-]. unfold deferred. rewrite ?elem_of_cons, ?elem_of_nil. naive_solver.
Qed.

(** Once a connection has left a phase it does not come back to it. *)
Lemma session_step_phase env ph t m ph' t' evs :
  session_step timeout sink env ph t m = Some (ph', t', evs) →
  ph' ≠ Handshaking ∧
  (ph = Handshaking → m = Advance ∧ ∀ perms inbox running, ph' ≠ Proxying perms inbox running) ∧
  (∀ perms, ph = SshServing.Dialing perms → m = Advance ∧ (∀ inbox running p, ph' = Proxying p inbox running →
     p = perms ∧ (∃ sig, signer env = Ret sig) ∧ ∃ cl, dial env = Ret cl)) ∧
  (∀ p inbox running, ph' = Proxying p inbox running → ph ≠ SshServing.Dialing p →
     ∃ inbox' running', ph = Proxying p inbox' running').
Proof.
  destruct ph as [|perms|perms inbox running|perms| |], m as [|[|k]]; cbn [session_step]; try done;
    repeat (case_match; try done); intros [= <- <- <-]; repeat split; naive_solver.
Qed.
End ServerSteps.

(** ** Invariants, component by component *)
Section Agents.
Context {U : UnicodeTables} {UL : UnicodeLaws U}.
Context (extractor : option Listener.Certificate → outcome SpiffeError (list string)).
Implicit Types (t : Listener.server) (agents : gmap nat Conn).

(** The agent's connection is TLS with a completed handshake, its yamux session
    is [s], and [ls] are the labels of the certificate it presented. *)
Definition agent_holds (c : Conn) (s : nat) (ls : list string) : Prop :=
  is_tls c = true ∧ handshake_ok c = true ∧ yamux_server c = Some s ∧
  ∃ leaf rest, PeerCertificates c = leaf :: rest ∧ extractor (Some leaf) = Ret ls.
Definition agent_named agents (s : nat) (label : string) : Prop :=
  ∃ k c ls, agents !! k = Some c ∧ agent_holds c s ls ∧ label ∈ normalize <$> ls.

Definition handler_of agents (k : nat) (p : Listener.phase) : Prop :=
  match p with
  | PhStart c => agents !! k = Some c
  | PhRegister s ls => ∃ c, agents !! k = Some c ∧ agent_holds c s ls
  | PhServing s ls => ∃ c ls0, agents !! k = Some c ∧ agent_holds c s ls0 ∧ ls = normalize <$> ls0
  | _ => True
  end.
Record agents_inv t agents : Prop := {
  ai_reachable : Listener.reachable extractor t;
  ai_dom : dom (handlers t) = dom agents;
  ai_handlers k p : handlers t !! k = Some p → handler_of agents k p
}.

Lemma Register_Ret dead r s hs ls : (Register dead r (Some s) hs).2 = Ret ls → ls = normalize <$> hs.
Proof.
  unfold Register. case_bool_decide; [done|]. destruct (normalize_hosts hs) as [ls'|?|] eqn:Hn; [|done..].
  destruct (reg_closed r); [done|]. destruct (check_labels dead s (tunnels r) ls') as [t [c|]]; [done|].
  intros [= <-]. by apply normalize_hosts_Ret in Hn as [-> _].
Qed.

Lemma handler_of_step agents k d w p w' p' :
  Listener.handleConn extractor d w p = Some (w', p') → handler_of agents k p → handler_of agents k p'.
Proof.
  destruct p as [c|s hs|s|s ls|s|]; cbn [Listener.handleConn]; intros Hh Hp; simplify_eq; try done.
  - unfold handle_prologue. destruct (is_tls c) eqn:Ht; [|done]. destruct (handshake_ok c) eqn:Hk; [|done]. cbn.
    destruct (PeerCertificates c) as [|leaf rest] eqn:Hc; [done|]. destruct (extractor (Some leaf)) as [hs|?|] eqn:He; [|done..].
    case_bool_decide; [done|]. destruct (yamux_server c) as [s|] eqn:Hy; [|done].
    exists c. split; [done|]. split; [done|]. split; [done|]. split; [done|]. by exists leaf, rest.
  - destruct Hp as (c & Hc & Hl). destruct (Register (is_closed w) (reg w) (Some s) hs) as [r res] eqn:HR.
    pose proof (Register_Ret (is_closed w) (reg w) s hs) as Hret. rewrite HR in Hret. cbn in Hret.
    destruct res as [ls|?|]; simplify_eq; try done. exists c, hs. by rewrite (Hret ls).
  - case_match; by simplify_eq.
Qed.

Lemma handler_of_mono agents agents' k p : agents ⊆ agents' → handler_of agents k p → handler_of agents' k p.
Proof.
  intros Hsub. pose proof (λ k c H, lookup_weaken agents agents' k c H Hsub) as Hw. destruct p; cbn; naive_solver.
Qed.

Lemma agent_named_mono agents agents' s label : agents ⊆ agents' → agent_named agents s label → agent_named agents' s label.
Proof. intros Hsub (k & c & ls & Hk & ?). exists k, c, ls. split; [by eapply lookup_weaken|done]. Qed.

Lemma agents_inv_start : agents_inv server_init ∅.
Proof. split; [apply rtc_refl|by rewrite !dom_empty_L|intros k p; cbn; by rewrite lookup_empty]. Qed.

(** The listener takes an agent's connection, or goes on otherwise. *)
Lemma agents_inv_agent t agents i c t' :
  agents_inv t agents → handlers t !! i = None → serve extractor t t' → handlers t' = <[i := PhStart c]> (handlers t) →
  agents ⊆ <[i := c]> agents ∧ agents_inv t' (<[i := c]> agents).
Proof.
  intros [Hr Hd Hh] Hi Hs Ht'.
  assert (agents !! i = None) as Ha by (rewrite <-not_elem_of_dom, <-Hd; by apply not_elem_of_dom).
  assert (agents ⊆ <[i := c]> agents) as Hsub by by apply insert_subseteq. split; [done|]. split.
  - eapply rtc_r; [exact Hr|exact Hs].
  - by rewrite Ht', !dom_insert_L, Hd.
  - intros k p. rewrite Ht', lookup_insert. case_decide as Hk.
    + intros [= <-]. subst k. cbn. by rewrite lookup_insert_eq.
    + intros Hp. by apply (handler_of_mono agents), Hh.
Qed.

Lemma agents_inv_tunnels t agents t' :
  agents_inv t agents → serve extractor t t' → dom (handlers t') = dom (handlers t) → agents_inv t' agents.
Proof.
  intros [Hr Hd Hh] Hs Hdom. split; [by eapply rtc_r|by rewrite Hdom|].
  destruct Hs as [w d hs i c Hi Hfr|w d hs|w d e hs Hall|w d l hs i p w' p' Hi Hst|w d l hs|w d l hs ev w' Hev Hw]; cbn in *; try done.
  - rewrite dom_insert_L in Hdom. apply not_elem_of_dom in Hi. set_solver.
  - intros k q. rewrite lookup_insert. case_decide as Hk; [|by apply Hh]. subst k. intros [= <-].
    eapply handler_of_step; [done|by apply Hh].
Qed.

Lemma agents_inv_dial t agents a hostkey perms sig :
  agents_inv t agents → agents_inv (with_world (after_dial a hostkey (srv_world t) perms sig) t) agents.
Proof.
  intros [Hr Hd Hh]. split; [|done..]. unfold after_dial. destruct t as [w d l hs]. cbn [srv_world] in *.
  destruct (gateway_dial a hostkey w perms sig).2; [done|].
  unfold open_target_conn, tunnelTransport, Open. unfold with_world. cbn [ctx_done srv_loop handlers].
  destruct (dial_ctx_done a); [by destruct w|].
  eapply rtc_r; [exact Hr|].
  pose proof (serve_client extractor w d l hs (EvLookup (lookup_host (ext perms "target-host"))) _ I
    (step_lookup w _)) as Hs.
  destruct (Lookup (is_closed w) (reg w) (lookup_host (ext perms "target-host"))) as [r [s|[]|]]; try exact Hs;
    cbn; destruct (yamux_open a s); exact Hs.
Qed.

(** A label is routed to the agent that presented it. *)
Lemma owner_named t agents s perms :
  agents_inv t agents → owner (srv_world t) perms = Some s → agent_named agents s (route_label perms).
Proof.
  intros [Hr _ Hh] Ho. unfold owner, view in Ho.
  destruct (tunnels (reg (srv_world t)) !! route_label perms) as [e|] eqn:He; cbn in Ho; [|done].
  case_match; [done|]. injection Ho as <-. apply owned_reachable in Hr as [[Hwf _] Hent _ _].
  destruct (Hent _ _ He) as [k Hk]. apply Hh in Hk as (c & ls & Hc & Hl & Hls).
  exists k, c, ls. split; [done|]. split; [done|]. rewrite <-Hls. by apply (Hwf _ e).
Qed.
End Agents.

Section Connections.
Context {U : UnicodeTables} {W : SshWire} {S : Type} `{CastSink S}.
Context (timeout : Z) (sink : option S) (extractor : option Listener.Certificate → outcome SpiffeError (list string)).
Implicit Types (checks : list key_check) (routes : list route) (agents : gmap nat Conn) (env : conn_env)
  (ph : SshServing.phase (S := S)) (s : SshServing.server (S := S)).

(** A session past its handshake was admitted by a run of the callback. *)
Definition checked checks (i : nat) env ph : Prop :=
  ph ≠ Handshaking → ∀ perms, handshake env = Ret perms →
  ∃ kc, kc ∈ checks ∧ kc_conn kc = i ∧ kc_result kc = Ret perms.

(** A session whose channels run was dialled, through the tunnel of an agent that
    presented its label if one held it, by TCP if none did. *)
Definition routed routes agents (i : nat) (perms : Permissions) : Prop :=
  ∃ rt, rt ∈ routes ∧ rt_conn rt = i ∧
    match rt_owner rt with
    | Some s => (∃ st, rt_via rt = TunnelStream st) ∧ agent_named extractor agents s (route_label perms)
    | None => ∃ n, rt_via rt = TCPConn n
    end.
Definition acts ph (evs : list conn_event) : Prop :=
  (∃ p inbox running, ph = Proxying p inbox running) ∨ (∃ j x, ChannelAction j x ∈ evs).
Definition conn_inv checks routes agents (i : nat) env ph (evs : list conn_event) : Prop :=
  checked checks i env ph ∧
  (acts ph evs → ∃ perms, handshake env = Ret perms ∧ routed routes agents i perms).
Definition conns_inv checks routes agents s : Prop :=
  (∀ i env ph, sv_conns s !! i = Some (env, ph) → conn_inv checks routes agents i env ph (of_connection i (sv_log s))) ∧
  log_bounded s.

Lemma routed_mono routes routes' agents agents' i perms :
  routes ⊆ routes' → agents ⊆ agents' → routed routes agents i perms → routed routes' agents' i perms.
Proof.
  intros Hr Ha (rt & Hin & Hi & Hv). exists rt. split; [by apply Hr|]. split; [done|].
  destruct (rt_owner rt); [|done]. destruct Hv as [? Hn]. split; [done|]. by eapply agent_named_mono.
Qed.

Lemma conns_inv_mono checks checks' routes routes' agents agents' s :
  checks ⊆ checks' → routes ⊆ routes' → agents ⊆ agents' →
  conns_inv checks routes agents s → conns_inv checks' routes' agents' s.
Proof.
  intros Hc Hr Ha [Hinv Hlog]. split; [|done]. intros i env ph Hi. destruct (Hinv i env ph Hi) as [Hck Hrt]. split.
  - intros Hph perms Hh. destruct (Hck Hph perms Hh) as (kc & ? & ?). exists kc. split; [by apply Hc|done].
  - intros Hacts. destruct (Hrt Hacts) as (perms & ? & ?). exists perms. split; [done|]. by eapply routed_mono.
Qed.

Lemma conns_inv_step checks routes agents s m s' :
  conns_inv checks routes agents s → server_step timeout sink s m = Some s' →
  (∀ i env, m = Session i Advance → sv_conns s !! i = Some (env, Handshaking) → checked checks i env Ended) →
  (∀ i env perms sig cl, m = Session i Advance → sv_conns s !! i = Some (env, SshServing.Dialing perms) →
    signer env = Ret sig → dial env = Ret cl →
    ∃ perms, handshake env = Ret perms ∧ routed routes agents i perms) →
  conns_inv checks routes agents s'.
Proof.
  intros [Hinv Hlog] Hs Hck Hrt. eapply server_step_invariant; [exact Hinv|done|exact Hs|..].
  - intros env _. split; [by intros []|]. intros [(? & ? & ? & [=])|(? & ? & Hin)]. by apply elem_of_nil in Hin.
  - intros i sm env ph evs ph' t' a -> Hi [Hc Hr] Hst.
    destruct (session_step_phase _ _ _ _ _ _ _ _ _ Hst) as (Hne & Hhs & Hdl & Hpr). split.
    + intros _. destruct ph; [|by apply Hc..]. destruct (Hhs eq_refl) as [-> _]. by apply (Hck i env).
    + intros [(p & inbox & running & Hp)|(j & x & [Hin|Hin]%elem_of_app)].
      * destruct ph as [|p0|p0 inbox0 running0|p0| |]; [| |apply Hr; left; by do 3 eexists|..].
        -- destruct (Hhs eq_refl) as [_ Hno]. by destruct (Hno p inbox running).
        -- destruct (Hdl p0 eq_refl) as [-> Hd]. destruct (Hd _ _ _ Hp) as (_ & [sig Hsig] & [cl Hcl]).
           by apply (Hrt i env p0 sig cl).
        -- by destruct (Hpr _ _ _ Hp) as (? & ? & ?).
        -- by destruct (Hpr _ _ _ Hp) as (? & ? & ?).
        -- by destruct (Hpr _ _ _ Hp) as (? & ? & ?).
      * apply Hr. right. by exists j, x.
      * destruct (session_step_actions _ _ _ _ _ _ _ _ _ _ _ Hst Hin) as (p & ib & rn & _ & _ & -> & _).
        apply Hr. left. by do 3 eexists.
Qed.
End Connections.

(** ** Properties *)
Section GatewayProperties.
Context {U : UnicodeTables} {UL : UnicodeLaws U} {A : CertAuthority} {AL : CertAuthorityLaws A}.
Context {W : SshWire} {S : Type} `{CastSink S}.
Context (timeout : Z) (sink : option S) (ca : string) (hostkey : nat).
Context (extractor : option Listener.Certificate → outcome SpiffeError (list string)).
Implicit Types (g : gateway (S := S)).

Definition gateway_reachable (t : fs) (p0 : PollingChecker) : gateway → Prop :=
  rtc (gateway_step timeout sink ca hostkey extractor) (gateway_start t p0).

Definition check_ok (p0 : PollingChecker) (clients : list ConnMetadata) (polls : list (Z * http_reply)) (kc : key_check) : Prop :=
  kc_polls kc `suffix_of` polls ∧ ∃ meta, clients !! kc_conn kc = Some meta ∧
    kc_result kc = publicKeyCallback ca (Polling (Some (polled p0 (kc_polls kc)))) meta (kc_key kc).
Record gateway_inv (t : fs) (p0 : PollingChecker) g : Prop := {
  gi_ssh : ∃ ms, server_run timeout sink (server_start t) ms = Some (gw_ssh g);
  gi_checker : gw_checker g = polled p0 (gw_polls g);
  gi_clients : Forall2 (λ c meta, remote c.1 = RemoteAddr meta) (sv_conns (gw_ssh g)) (gw_clients g);
  gi_checks : Forall (check_ok p0 (gw_clients g) (gw_polls g)) (gw_checks g);
  gi_agents : agents_inv extractor (gw_tunnels g) (gw_agents g);
  gi_conns : conns_inv extractor (gw_checks g) (gw_routes g) (gw_agents g) (gw_ssh g)
}.

Lemma server_run_snoc s0 ms (s s' : SshServing.server (S := S)) m :
  server_run timeout sink s0 ms = Some s → server_step timeout sink s m = Some s' →
  server_run timeout sink s0 (ms ++ [m]) = Some s'.
Proof. intros Hr Hs. rewrite server_run_app, Hr. cbn. by rewrite Hs. Qed.

Lemma clients_step (s s' : SshServing.server (S := S)) m (clients : list ConnMetadata) :
  Forall2 (λ c meta, remote c.1 = RemoteAddr meta) (sv_conns s) clients →
  server_step timeout sink s m = Some s' → (∀ env, m ≠ Connect env) →
  Forall2 (λ c meta, remote c.1 = RemoteAddr meta) (sv_conns s') clients.
Proof.
  intros Hf Hs Hm.
  apply server_step_cases in Hs as [(env & -> & _)|[(i & sm & env & ph & ph' & t' & evs & -> & Hi & _ & -> & _)|(_ & -> & _)]];
    [by destruct (Hm env)| |done].
  destruct (Forall2_lookup_l _ _ _ _ _ Hf Hi) as (meta & Hm' & Hr).
  rewrite <-(list_insert_id clients i meta Hm'). by apply Forall2_insert.
Qed.

(** A step of the SSH server on its own, or with a dial. *)
Lemma gateway_inv_ssh t p0 g m s tn routes :
  gateway_inv t p0 g → server_step timeout sink (gw_ssh g) m = Some s → (∀ env, m ≠ Connect env) →
  agents_inv extractor tn (gw_agents g) → gw_routes g ⊆ routes →
  (∀ i env, m = Session i Advance → sv_conns (gw_ssh g) !! i = Some (env, Handshaking) →
    checked (gw_checks g) i env (Ended (S := S))) →
  (∀ i env perms sig cl, m = Session i Advance → sv_conns (gw_ssh g) !! i = Some (env, SshServing.Dialing perms) →
    signer env = Ret sig → dial env = Ret cl → routed extractor routes (gw_agents g) i perms) →
  gateway_inv t p0
    {| gw_ssh := s; gw_tunnels := tn; gw_checker := gw_checker g; gw_clients := gw_clients g;
       gw_agents := gw_agents g; gw_polls := gw_polls g; gw_checks := gw_checks g; gw_routes := routes |}.
Proof.
  intros [[ms Hrun] Hck Hcl Hchk Hag Hco] Hs Hm Htn Hroutes Hhs Hdl. split; cbn; [|done| |done|done|].
  - exists (ms ++ [m]). by eapply server_run_snoc.
  - by eapply clients_step.
  - eapply conns_inv_step; [eapply conns_inv_mono, Hco; done|exact Hs|exact Hhs|].
    intros i env perms sig cl -> Hi Hsig Hd. exists perms. split; [|by eapply Hdl].
    apply (server_session_inv _ _ _ _ _ Hrun) in Hi. apply Hi.
Qed.

Lemma own_move_phase (s : SshServing.server (S := S)) m :
  own_move s m = true → (∀ env, m ≠ Connect env) ∧
  ∀ i env ph, m = Session i Advance → sv_conns s !! i = Some (env, ph) →
    ph ≠ Handshaking ∧ ∀ perms, ph ≠ SshServing.Dialing perms.
Proof.
  destruct m as [env|e| | | | | |i m]; cbn; try done. intros Hm. split; [done|].
  intros j env ph [= -> ->] Hj. rewrite Hj in Hm. by destruct ph.
Qed.

Lemma gateway_inv_step t p0 g g' :
  gateway_inv t p0 g → gateway_step timeout sink ca hostkey extractor g g' → gateway_inv t p0 g'.
Proof.
  intros Hinv Hst. pose proof Hinv as [[ms Hrun] Hck Hcl Hchk Hag Hco].
  destruct Hst as [g env meta s Hrem Hs|g i env meta key Hi Hm|g i env s Hi Hkc Hs|g i env perms s Hi Hsig Hs
    |g i env perms sig a s Hi Hsig Hnd Hd Hs|g i env perms sig a cl via s Hi Hsig Hgd Hd Hvia Hs|g m s Hm Hs
    |g i c tn Hi Hs Htn|g tn Hs Htn|g now r].
  - split; cbn; [exists (ms ++ [Connect env]); by eapply server_run_snoc|done| | |done|].
    + apply server_step_cases in Hs as [(env' & [= <-] & -> & _)|[(? & ? & ? & ? & ? & ? & ? & [=] & _)|(Hno & _)]]; [|by destruct (Hno env)].
      by apply Forall2_app; [|constructor].
    + eapply Forall_impl; [exact Hchk|]. intros kc (Hsuf & meta' & Hl & Hr). split; [done|]. exists meta'.
      split; [by apply lookup_app_l_Some|done].
    + by eapply conns_inv_step.
  - split; cbn; [by eexists|done|done| |done|].
    + constructor; [|done]. split; [done|]. exists meta. cbn. by rewrite <-Hck.
    + eapply conns_inv_mono, Hco; [set_solver|done|done].
  - eapply gateway_inv_ssh; [done|exact Hs|done|done|done|..].
    + intros j env' [= ->] Hj _ perms Hh. rewrite Hi in Hj. injection Hj as <-. by apply Hkc.
    + intros j env' perms sig cl [= ->] Hj. by rewrite Hi in Hj.
  - eapply gateway_inv_ssh; [done|exact Hs|done|done|done|..].
    + intros j env' [= ->] Hj. by rewrite Hi in Hj.
    + intros j env' p sig cl [= ->] Hj. rewrite Hi in Hj. injection Hj as <- <-. intros Hsg. by destruct (Hsig sig).
  - apply (gateway_inv_ssh t p0 g (Session i Advance) s); [done|exact Hs|done|by apply agents_inv_dial|done|..].
    + intros j env' [= ->] Hj. by rewrite Hi in Hj.
    + intros j env' p sig' cl [= ->] Hj. rewrite Hi in Hj. injection Hj as <- <-. intros _ Hc. by destruct (Hd cl).
  - eapply gateway_inv_ssh; [done|exact Hs|done|by apply agents_inv_dial|set_solver|..].
    + intros j env' [= ->] Hj. by rewrite Hi in Hj.
    + intros j env' p sig' cl' [= ->] Hj. rewrite Hi in Hj. injection Hj as <- <-. intros _ _.
      eexists. split; [by left|]. split; [done|]. cbn.
      apply open_target_conn_via in Hvia. destruct (owner (srv_world (gw_tunnels g)) perms) as [sess|] eqn:Ho; [|done].
      destruct Hvia as (st & _ & ->). split; [by eexists|]. by eapply owner_named.
  - destruct (own_move_phase _ _ Hm) as [Hnc Hph]. eapply gateway_inv_ssh; [done|exact Hs|done|done|done|..].
    + intros i env Hmi Hi. by destruct (Hph i env _ Hmi Hi).
    + intros i env perms sig cl Hmi Hi. destruct (Hph i env _ Hmi Hi) as [_ Hno]. by destruct (Hno perms).
  - destruct (agents_inv_agent _ _ _ _ _ _ Hag Hi Hs Htn) as [Hsub Hag'].
    split; cbn; [by eexists|done..|]. by eapply conns_inv_mono, Hco.
  - split; cbn; [by eexists|done..| |done]. by eapply agents_inv_tunnels.
  - split; cbn; [by eexists|by rewrite Hck|done| |done|done].
    eapply Forall_impl; [exact Hchk|]. intros kc (Hsuf & Hr). split; [by apply suffix_cons_r|done].
Qed.

Lemma gateway_inv_reachable t p0 g : gateway_reachable t p0 g → gateway_inv t p0 g.
Proof.
  intros Hr. assert (gateway_inv t p0 (gateway_start t p0)) as H0.
  { split; cbn; [by exists []|done|constructor|constructor|apply agents_inv_start|].
    split; [done|]. intros x Hx. by apply elem_of_nil in Hx. }
  assert (∀ a b, rtc (gateway_step timeout sink ca hostkey extractor) a b → gateway_inv t p0 a → gateway_inv t p0 b) as Hind.
  { intros a b Hab. induction Hab; eauto using gateway_inv_step. }
  by eapply Hind.
Qed.


End GatewayProperties.

(** ** Alice, served through an agent's tunnel *)
Section GatewayWitnesses.
#[local] Existing Instance simple_authority.
#[local] Existing Instance simple_authority_laws.
#[local] Existing Instance rfc_wire.
#[local] Existing Instance identity_tables.
#[local] Existing Instance identity_tables_laws.

(** An agent for db-1 connects, a snapshot is polled, alice connects, shows her
    key, is dialled over the agent's session 7 and opens a channel. *)
Definition ssh_moves : list server_move :=
  [Connect env_ok; Session 0 Advance; Session 0 Advance; Session 0 (Chan Receive); Session 0 (Chan (Run 0))].
Definition ssh_at (n : nat) : SshServing.server (S := LocalDirSink) := served (take n ssh_moves).
Definition agent_start : Listener.server :=
  {| srv_world := {| reg := Routing.New; dead_set := ∅ |}; ctx_done := false; srv_loop := Listener.Accepting;
     handlers := <[0%nat := PhStart example_conn]> ∅ |}.
Definition agent_register : Listener.server :=
  {| srv_world := {| reg := Routing.New; dead_set := ∅ |}; ctx_done := false; srv_loop := Listener.Accepting;
     handlers := <[0%nat := PhRegister 7 ["db-1.prod"; "db-1"]]> (<[0%nat := PhStart example_conn]> ∅) |}.
Definition poll1 : Z * http_reply := (10, Response 200 example_body None).
Definition answers1 : dial_answers :=
  {| yamux_open := λ s, Ret (s * 100)%nat; tcp_dial := λ _, Err "refused";
     NewClientConn := λ _ _ _ _ _ _, Ret 2%nat; dial_ctx_done := false |}.
Definition check1 : key_check :=
  {| kc_conn := 0; kc_key := CertKey cert1; kc_polls := [poll1]; kc_result := Ret perms1 |}.
Definition route1 : route := {| rt_conn := 0; rt_owner := Some 7%nat; rt_via := TunnelStream 700 |}.
Definition gateway_at (n : nat) (tn : Listener.server) (polls : list (Z * http_reply)) (checks : list key_check)
    (routes : list route) : gateway (S := LocalDirSink) :=
  {| gw_ssh := ssh_at n; gw_tunnels := tn; gw_checker := polled example_checker polls;
     gw_clients := take n [conn_meta1]; gw_agents := {[ 0%nat := example_conn ]}; gw_polls := polls;
     gw_checks := checks; gw_routes := routes |}.
Definition gateway1 := gateway_at 5 example_server [poll1] [check1] [route1].

Definition one_step : relation (gateway (S := LocalDirSink)) := gateway_step 30 None "ca" 1 HostFromSPIFFE.

Lemma one_step_to (g g1 g2 h : gateway (S := LocalDirSink)) : one_step g g1 → g1 = g2 → rtc one_step g2 h → rtc one_step g h.
Proof. intros Hs <- Hr. by eapply rtc_l. Qed.

Lemma agent_registers : rtc one_step (gateway_start ∅ example_checker) (gateway_at 0 example_server [] [] []).
Proof.
  eapply (one_step_to _ _ (gateway_at 0 agent_start [] [] [])); [|by_vm|].
  { apply (step_agent _ _ _ _ _ _ 0%nat example_conn agent_start); [done| |done].
    apply (serve_accept HostFromSPIFFE _ _ _ 0%nat example_conn); [done|]. intros i p s. cbn. by rewrite lookup_empty. }
  eapply (one_step_to _ _ (gateway_at 0 agent_register [] [] [])); [|by_vm|].
  { apply (step_tunnels _ _ _ _ _ _ agent_register); [|by_vm].
    apply (serve_handler HostFromSPIFFE _ false Listener.Accepting _ 0%nat (PhStart example_conn)); by_vm. }
  eapply (one_step_to _ _ (gateway_at 0 example_server [] [] [])); [|by_vm|apply rtc_refl].
  apply (step_tunnels _ _ _ _ _ _ example_server); [|by_vm].
  apply (serve_handler HostFromSPIFFE _ false Listener.Accepting _ 0%nat (PhRegister 7 ["db-1.prod"; "db-1"])); by_vm.
Qed.

Lemma alice_admitted :
  rtc one_step (gateway_at 0 example_server [] [] []) (gateway_at 2 example_server [poll1] [check1] []).
Proof.
  eapply (one_step_to _ _ (gateway_at 0 example_server [poll1] [] [])); [apply (step_poll _ _ _ _ _ _ 10 poll1.2)|by_vm|].
  eapply (one_step_to _ _ (gateway_at 1 example_server [poll1] [] []));
    [apply (step_connect _ _ _ _ _ _ env_ok conn_meta1 (ssh_at 1)); by_vm|by_vm|].
  eapply (one_step_to _ _ (gateway_at 1 example_server [poll1] [check1] []));
    [apply (step_check _ _ _ _ _ _ 0%nat env_ok conn_meta1 (CertKey cert1)); by_vm|by_vm|].
  eapply (one_step_to _ _ (gateway_at 2 example_server [poll1] [check1] [])); [|by_vm|apply rtc_refl].
  apply (step_handshake _ _ _ _ _ _ 0%nat env_ok (ssh_at 2)); [by_vm| |by_vm].
  intros perms [= <-]. exists check1. split; [by left|done].
Qed.

Definition gateway2 := gateway_at 2 example_server [poll1] [check1] [].
Lemma gateway2_reachable : gateway_reachable 30 None "ca" 1 HostFromSPIFFE ∅ example_checker gateway2.
Proof. unfold gateway_reachable. etransitivity; [apply agent_registers|apply alice_admitted]. Qed.
Lemma gateway1_reachable : gateway_reachable 30 None "ca" 1 HostFromSPIFFE ∅ example_checker gateway1.
Proof.
  unfold gateway_reachable. etransitivity; [exact gateway2_reachable|].
  eapply (one_step_to _ _ (gateway_at 3 example_server [poll1] [check1] [route1])).
  { apply (step_dial _ _ _ _ _ _ 0%nat env_ok perms1 1%nat answers1 2%nat (TunnelStream 700) (ssh_at 3)); by_vm. }
  { by_vm. }
  eapply (one_step_to _ _ (gateway_at 4 example_server [poll1] [check1] [route1]));
    [apply (step_ssh _ _ _ _ _ _ (Session 0 (Chan Receive)) (ssh_at 4)); by_vm|by_vm|].
  eapply (one_step_to _ _ gateway1);
    [apply (step_ssh _ _ _ _ _ _ (Session 0 (Chan (Run 0))) (ssh_at 5)); by_vm|by_vm|apply rtc_refl].
Qed.


End GatewayWitnesses.
