(* ===== verification/Portal.v ===== *)
(** * Package [portal]: replay and listing

    [internal/proxyd/portal]: the cast store with its root guard ([cast.go]),
    the decoders of the audit stream ([audit.go], [sessions.go]) and the HTTP
    handlers ([portal.go]).  A handler that renders a page answers with the
    page's data; [Pages] renders it. *)

From Stdlib Require Import ZArith Lia Ascii.
From Stdlib Require Import Floats.SpecFloat.
From stdpp Require Import prelude strings pretty gmap list.
From S2P Require Import Prelude GoStrings GoTime Json GoCalendar JsonDecode JsonRound GoOs Recording AuditLog.

Local Open Scope Z_scope.
Local Open Scope go_scope.

(** ** The cast store *)
Inductive CastError :=
  | CastRootRequired | CastRootResolve (e : os_error) | CastRootStat (e : os_error) | CastRootNotDir
  | ErrCastNotFound | ErrCastOutsideRoot | CastResolve (e : os_error) | CastStat (e : os_error).

(** The root field is the resolved absolute path. *)
Record LocalCastStore := { cast_root : string }.

Definition NewLocalCastStore (cwd : string) (t : fs) (root : string) : outcome CastError LocalCastStore :=
  require negb (bool_decide (root = "")) else CastRootRequired;;
  let! resolved := map_err CastRootResolve (EvalSymlinks t (Abs cwd root)) in
  let! info := map_err CastRootStat (Stat t resolved) in
  require bool_decide (info = Dir) else CastRootNotDir;;
  Ret {| cast_root := resolved |}.

(** [Open]: the bytes of the file and its size. *)
Definition Open (s : LocalCastStore) (cwd : string) (t : fs) (recordingPath : string)
    : outcome CastError (list ascii * Z) :=
  if bool_decide (recordingPath = "") then Err ErrCastNotFound
  else match EvalSymlinks t (Abs cwd recordingPath) with
  | Err e => Err (if IsNotExist e then ErrCastNotFound else CastResolve e)
  | Panic => Panic
  | Ret resolved =>
      let rootWithSep := cast_root s +:+ "/" in
      if negb (bool_decide (resolved = cast_root s)) && negb (HasPrefix resolved rootWithSep)
      then Err ErrCastOutsideRoot
      else match Stat t resolved with
      | Err e => Err (if IsNotExist e then ErrCastNotFound else CastStat e)
      | Panic => Panic
      | Ret (File content) => Ret (content, Z.of_nat (length content))
      | Ret _ => Err ErrCastNotFound
      end
  end.

(** ** Decoding the audit stream *)

(** The variable a message is decoded into: the fields of the two anonymous
    structs together, [None] for the zero time. *)
Record raw_event := {
  raw_id : string; raw_action : string; raw_occurred : option Z; raw_user : string;
  raw_target : string; raw_remote_user : string; raw_principals : string;
  raw_client_ip : string; raw_session_id : string; raw_reason : string;
  raw_recording_path : string; raw_metadata : list ascii
}.

Record AuditEvent := {
  evID : string; evAction : string; evOccurredAt : option Z; evActor : string; evSubject : string;
  evIP : string; evSessionID : string; evReason : string; evDetail : list ascii
}.

Record Session := {
  sSessionID : string; sUser : string; sTarget : string; sRemoteUser : string;
  sPrincipals : string; sClientIP : string; sRecordingPath : string;
  sCompletedAt : option Z; sDuration : Z
}.

(** The fields by their tags; each decoder has those of its own struct. *)
Definition field_id : field raw_event :=
  set_field "id" raw_id
    (λ x '(Build_raw_event _ b c d e f g h i j k l), Build_raw_event x b c d e f g h i j k l) decode_string.
Definition field_action : field raw_event :=
  set_field "action" raw_action
    (λ x '(Build_raw_event a _ c d e f g h i j k l), Build_raw_event a x c d e f g h i j k l) decode_string.
Definition field_occurred : field raw_event :=
  set_field "occurred_at" raw_occurred
    (λ x '(Build_raw_event a b _ d e f g h i j k l), Build_raw_event a b x d e f g h i j k l) decode_time.
Definition field_user : field raw_event :=
  set_field "user" raw_user
    (λ x '(Build_raw_event a b c _ e f g h i j k l), Build_raw_event a b c x e f g h i j k l) decode_string.
Definition field_target : field raw_event :=
  set_field "target" raw_target
    (λ x '(Build_raw_event a b c d _ f g h i j k l), Build_raw_event a b c d x f g h i j k l) decode_string.
Definition field_remote_user : field raw_event :=
  set_field "remote_user" raw_remote_user
    (λ x '(Build_raw_event a b c d e _ g h i j k l), Build_raw_event a b c d e x g h i j k l) decode_string.
Definition field_principals : field raw_event :=
  set_field "principals" raw_principals
    (λ x '(Build_raw_event a b c d e f _ h i j k l), Build_raw_event a b c d e f x h i j k l) decode_string.
Definition field_client_ip : field raw_event :=
  set_field "client_ip" raw_client_ip
    (λ x '(Build_raw_event a b c d e f g _ i j k l), Build_raw_event a b c d e f g x i j k l) decode_string.
Definition field_session_id : field raw_event :=
  set_field "session_id" raw_session_id
    (λ x '(Build_raw_event a b c d e f g h _ j k l), Build_raw_event a b c d e f g h x j k l) decode_string.
Definition field_reason : field raw_event :=
  set_field "reason" raw_reason
    (λ x '(Build_raw_event a b c d e f g h i _ k l), Build_raw_event a b c d e f g h i x k l) decode_string.
Definition field_recording_path : field raw_event :=
  set_field "recording_path" raw_recording_path
    (λ x '(Build_raw_event a b c d e f g h i j _ l), Build_raw_event a b c d e f g h i j x l) decode_string.
Definition field_metadata : field raw_event :=
  set_field "metadata" raw_metadata
    (λ x '(Build_raw_event a b c d e f g h i j k _), Build_raw_event a b c d e f g h i j k x) decode_bytes.
Definition audit_fields : list (field raw_event) :=
  [field_id; field_action; field_occurred; field_user; field_target;
   field_client_ip; field_session_id; field_reason; field_metadata].
Definition session_fields : list (field raw_event) :=
  [field_action; field_session_id; field_user; field_target; field_remote_user;
   field_principals; field_client_ip; field_recording_path; field_metadata; field_occurred].
Definition zero_raw : raw_event := Build_raw_event "" "" None "" "" "" "" "" "" "" "" [].

Definition decodeAuditEvent (data : list ascii) : option AuditEvent :=
  match Unmarshal (decode_struct audit_fields) zero_raw data with
  | None => None
  | Some raw =>
      if bool_decide (raw_action raw = "") || bool_decide (raw_occurred raw = None) then None
      else Some {| evID := raw_id raw; evAction := raw_action raw; evOccurredAt := raw_occurred raw;
                   evActor := raw_user raw; evSubject := raw_target raw; evIP := raw_client_ip raw;
                   evSessionID := raw_session_id raw; evReason := raw_reason raw;
                   evDetail := raw_metadata raw |}
  end.

(** [v > 0] on float64. *)
Definition f64_positive (v : spec_float) : bool :=
  match v with S754_finite false _ _ | S754_infinity false => true | _ => false end.

(** The one field of the struct a metadata blob is decoded into. *)
Definition metadata_fields : list (field spec_float) :=
  [set_field "duration_seconds" (λ v, v) (λ x _, x) decode_float64].

(** [time.Duration(seconds * 1e9)]; what Go makes of a product outside int64
    depends on the machine. *)
Definition metadata_duration (md : list ascii) : Z :=
  if bool_decide (md = []) then 0
  else match Unmarshal (decode_struct metadata_fields) f64_zero md with
       | Some v => if f64_positive v then int_of_f64 (f64_mul v (f64_of_Z second)) else 0
       | None => 0
       end.

Definition decodeSession (data : list ascii) : option Session :=
  match Unmarshal (decode_struct session_fields) zero_raw data with
  | None => None
  | Some raw =>
      if negb (bool_decide (raw_action raw = ActionRecordingComplete)) then None
      else
        Some {| sSessionID := raw_session_id raw; sUser := raw_user raw; sTarget := raw_target raw;
                sRemoteUser := raw_remote_user raw; sPrincipals := raw_principals raw;
                sClientIP := raw_client_ip raw; sRecordingPath := raw_recording_path raw;
                sCompletedAt := raw_occurred raw;
                sDuration := metadata_duration (raw_metadata raw) |}
  end.

(** ** Handlers *)
Record pageEntry := { Name : string; Path : string; Description : string; Status : string }.

(** The data of a page: [Version] and [RenderedAt], which every page has, and
    its own. *)
Inductive page_model :=
  | IndexData (pages : list pageEntry)
  | SessionsData (ss : list Session)
  | SessionDetailData (id : string) (s : option Session) (castAvailable : bool)
  | AuditData (es : list AuditEvent).
Record page_data := { data_version : string; data_rendered_at : Z; data_model : page_model }.

(** A response: status, the content headers that are set, and the body. *)
Inductive body := Text (s : string) | Page (name : string) (d : page_data) | Cast (b : list ascii).
Record response := {
  code : Z; content_type : option string; content_length : option Z; no_store : bool; resp_body : body
}.

Definition StatusOK : Z := 200.
Definition StatusUnauthorized : Z := 401.
Definition StatusForbidden : Z := 403.
Definition StatusNotFound : Z := 404.
Definition StatusInternalServerError : Z := 500.
Definition StatusServiceUnavailable : Z := 503.

Definition http_error (msg : string) (c : Z) : response :=
  {| code := c; content_type := Some "text/plain; charset=utf-8"; content_length := None;
     no_store := false; resp_body := Text msg |}.
Definition render_as (c : Z) (page : string) (d : page_data) : response :=
  {| code := c; content_type := None; content_length := None; no_store := false; resp_body := Page page d |}.

(** The version, the instant [Now] gives during the request, and the stores:
    [None] is a nil interface, and a cast store is its [Open] method. *)
Record Config := {
  Version : string;
  Now : Z;
  SessionStore : option (list Session);
  CastStore : option (string → outcome CastError (list ascii * Z));
  AuditStore : option (list AuditEvent)
}.

Section Handlers.
Context (cfg : Config).

Definition page (m : page_model) : page_data :=
  {| data_version := Version cfg; data_rendered_at := Now cfg; data_model := m |}.

Definition status_text (wired : bool) : string := if wired then "ready" else "planned".
Definition landingPages : list pageEntry :=
  [{| Name := "Sessions"; Path := "/sessions";
      Description := "Recent recorded SSH sessions with asciinema replay";
      Status := status_text (bool_decide (is_Some (SessionStore cfg))) |};
   {| Name := "Audit"; Path := "/audit";
      Description := "Live audit-event viewer (session lifecycle, channels, recordings, port-forwards)";
      Status := status_text (bool_decide (is_Some (AuditStore cfg))) |}].

Definition handleIndex : response := render_as StatusOK "index" (page (IndexData landingPages)).
Definition handleHealthz : response :=
  {| code := StatusOK; content_type := Some "text/plain; charset=utf-8"; content_length := None;
     no_store := false; resp_body := Text ("ok" +:+ of_chars [byte_of 10]) |}.

Definition handleSessionsIndex : response :=
  match SessionStore cfg with
  | None => http_error "session store not configured" StatusServiceUnavailable
  | Some ss => render_as StatusOK "sessions" (page (SessionsData ss))
  end.

Definition find_session (ss : list Session) (id : string) : option Session :=
  find_first (λ s, bool_decide (sSessionID s = id)) ss.

Definition handleSessionDetail (id : string) : response :=
  match SessionStore cfg with
  | None => http_error "session store not configured" StatusServiceUnavailable
  | Some ss =>
      match find_session ss id with
      | None => render_as StatusNotFound "session_detail" (page (SessionDetailData id None false))
      | Some s => render_as StatusOK "session_detail" (page (SessionDetailData id (Some s)
          (bool_decide (is_Some (CastStore cfg)) && negb (bool_decide (sRecordingPath s = "")))))
      end
  end.

Definition handleSessionCast (id : string) : outcome Empty_set response :=
  match SessionStore cfg, CastStore cfg with
  | None, _ => Ret (http_error "session store not configured" StatusServiceUnavailable)
  | _, None => Ret (http_error "cast store not configured" StatusServiceUnavailable)
  | Some ss, Some open =>
      match find_session ss id with
      | None => Ret (http_error "session not found" StatusNotFound)
      | Some s =>
          if bool_decide (sRecordingPath s = "")
          then Ret (http_error "session has no recording" StatusNotFound)
          else match open (sRecordingPath s) with
          | Err ErrCastNotFound => Ret (http_error "cast file not found" StatusNotFound)
          | Err ErrCastOutsideRoot => Ret (http_error "cast outside allowed root" StatusForbidden)
          | Err _ => Ret (http_error "cast open failed" StatusInternalServerError)
          | Panic => Panic
          | Ret (b, size) =>
              Ret {| code := StatusOK; content_type := Some "text/plain; charset=utf-8";
                     content_length := if 0 <? size then Some size else None;
                     no_store := true; resp_body := Cast b |}
          end
      end
  end.

Definition handleAuditIndex : response :=
  match AuditStore cfg with
  | None => http_error "audit store not configured" StatusServiceUnavailable
  | Some es => render_as StatusOK "audit" (page (AuditData es))
  end.

(** [Routes]: the mux of [GET] patterns by path segments, behind
    [httpauth.BasicAuth], which exempts /healthz.  [authorized] is the
    library's verdict on the request. *)
Definition Routes (authorized : bool) (segments : list string) : outcome Empty_set response :=
  if negb authorized && negb (bool_decide (segments = ["healthz"]))
  then Ret (http_error "Unauthorized" StatusUnauthorized)
  else match segments with
  | [] => Ret handleIndex
  | ["healthz"] => Ret handleHealthz
  | ["sessions"] => Ret handleSessionsIndex
  | ["sessions"; id] => Ret (handleSessionDetail id)
  | ["sessions"; id; "cast"] => handleSessionCast id
  | ["audit"] => Ret handleAuditIndex
  | _ => Ret (http_error "404 page not found" StatusNotFound)
  end.
End Handlers.

(** ** Facts *)

(** A request is answered by one of the handlers, or refused. *)
Lemma Routes_ind cfg authorized segments (P : outcome Empty_set response → Prop) :
  P (Ret (http_error "Unauthorized" StatusUnauthorized)) →
  P (Ret (http_error "404 page not found" StatusNotFound)) →
  P (Ret (handleIndex cfg)) → P (Ret handleHealthz) → P (Ret (handleSessionsIndex cfg)) →
  P (Ret (handleAuditIndex cfg)) →
  (∀ id, P (Ret (handleSessionDetail cfg id))) → (∀ id, P (handleSessionCast cfg id)) →
  P (Routes cfg authorized segments).
Proof.
  unfold Routes. case_match; [done|].
  generalize (handleIndex cfg) (handleSessionsIndex cfg) (handleAuditIndex cfg) (handleSessionDetail cfg)
    (handleSessionCast cfg) handleHealthz (http_error "404 page not found" StatusNotFound).
  intros. repeat case_match; auto.
Qed.

(** *** Messages *)

(** The members of a message, in the order they are written, for a struct that
    has the fields [fs]. *)
#[local] Ltac message_string fs name :=
  first [json_omitempty fs name ltac:(first [apply decode_string_clean | apply decode_bytes_sanitize])
        | json_skip fs name].
#[local] Ltac message_members fs :=
  message_string fs "session_id"; message_string fs "user"; message_string fs "principals";
  message_string fs "target"; message_string fs "remote_user"; message_string fs "client_ip";
  message_string fs "recording_path"; message_string fs "reason"; message_string fs "metadata";
  rewrite <-(app_nil_r (members [_]));
  json_member fs "occurred_at" ltac:(by apply decode_time_marshal).

#[local] Ltac message_open e Ht :=
  intros Ht; rewrite Unmarshal_Marshal by apply entry_json_ok;
  let md := fresh "md" in destruct e as [? ? ? ? ? ? ? ? ? ? md ?];
  unfold entry_json; cbn [ID Action EntrySessionID EntryUser EntryPrincipals EntryTarget EntryRemoteUser
    EntryClientIP RecordingPath EntryReason Metadata OccurredAt] in *;
  rewrite <-(chars_of_chars md); generalize (of_chars md); clear md; intros md; rewrite of_chars_chars;
  change (tree_of (JObject ?fs)) with (VObject (members fs)); cbn [decode_struct];
  change ([?x; ?y] ++ ?l) with ([x] ++ [y] ++ l); rewrite !members_app; unfold omitempty_string.

Lemma audit_raw e :
  rfc3339_range (OccurredAt e) →
  Unmarshal (decode_struct audit_fields) zero_raw (Marshal (entry_json e)) =
    Some (Build_raw_event (clean (ID e)) (clean (Action e))
      (if OccurredAt e =? zero_instant then None else Some (OccurredAt e)) (clean (EntryUser e))
      (clean (EntryTarget e)) "" "" (clean (EntryClientIP e)) (clean (EntrySessionID e))
      (clean (EntryReason e)) "" (sanitize (Metadata e))).
Proof.
  message_open e Ht.
  json_member audit_fields "id" ltac:(apply decode_string_clean).
  json_member audit_fields "action" ltac:(apply decode_string_clean).
  message_members audit_fields. reflexivity.
Qed.

Lemma session_raw e :
  rfc3339_range (OccurredAt e) →
  Unmarshal (decode_struct session_fields) zero_raw (Marshal (entry_json e)) =
    Some (Build_raw_event "" (clean (Action e))
      (if OccurredAt e =? zero_instant then None else Some (OccurredAt e)) (clean (EntryUser e))
      (clean (EntryTarget e)) (clean (EntryRemoteUser e)) (clean (EntryPrincipals e))
      (clean (EntryClientIP e)) (clean (EntrySessionID e)) "" (clean (RecordingPath e))
      (sanitize (Metadata e))).
Proof.
  message_open e Ht.
  change [?x] with (omitempty x.1 false x.2) at 1. json_skip session_fields "id".
  json_member session_fields "action" ltac:(apply decode_string_clean).
  message_members session_fields. reflexivity.
Qed.
Lemma NewLocalCastStore_root cwd t root s :
  NewLocalCastStore cwd t root = Ret s →
  ∃ cs, cast_root s = path_string cs ∧ real t cs ∧ node_at t cs = Some Dir.
Proof.
  unfold NewLocalCastStore. intros H. inv_outcome.
  destruct (EvalSymlinks t (Abs cwd root)) as [rs|e|] eqn:He; [|done..].
  unfold EvalSymlinks in He. destruct (eval_parts t (Abs cwd root)) as [cs|e|] eqn:Hp; [|done..].
  cbn in *. simplify_eq/=. apply EvalSymlinks_real in Hp. exists cs. split; [done|]. split; [done|].
  pose proof Hp as (_ & _ & n & Hn & _). rewrite (Stat_real t cs n) in * by done. cbn in *. simplify_eq/=.
  by match goal with H : bool_decide (_ = Dir) = true |- _ => apply bool_decide_eq_true in H as -> end.
Qed.

(** What [Open] returns is a file under the root, whatever the path. *)
Lemma Open_inv root cwd t path b n :
  Forall plain root → Open {| cast_root := path_string root |} cwd t path = Ret (b, n) →
  ∃ p, real t p ∧ node_at t p = Some (File b) ∧ root `prefix_of` p ∧ (root = [] → p = []).
Proof.
  intros Hroot. unfold Open. case_bool_decide; [done|]. unfold EvalSymlinks.
  destruct (eval_parts t (Abs cwd path)) as [p|e|] eqn:Hp; [|by case_match|done]. cbn [obind cast_root].
  apply EvalSymlinks_real in Hp. pose proof Hp as (Hpl & _ & nd & Hn & _).
  destruct (negb _ && negb _) eqn:Hg; [done|]. rewrite (Stat_real t p nd) by done.
  destruct nd as [|c|s]; intros; simplify_eq. exists p. split; [done|]. split; [done|].
  apply andb_false_iff in Hg as [Hg|Hg].
  - apply negb_false_iff, bool_decide_eq_true, path_string_inj in Hg as ->; done.
  - apply negb_false_iff in Hg. destruct (decide (root = [])) as [->|Hne].
    + exfalso. clear Hn. destruct p as [|c p]; [by vm_compute in Hg|].
      inversion Hpl as [|? ? (Hc & _ & _ & Hs) _]; subst.
      unfold HasPrefix in Hg. apply bool_decide_eq_true in Hg as [k Hk].
      rewrite path_string_render, render_cons in Hk by done. cbn in Hk. injection Hk as Hk.
      apply contains_byte_false in Hs. destruct (chars c) as [|a l] eqn:Hcc; [by apply chars_nil in Hcc|].
      cbn in Hk. injection Hk as -> _. set_solver.
    + apply HasPrefix_path in Hg as [? _]; done.
Qed.

Lemma Open_file root cwd t p b :
  root ≠ [] → root `prefix_of` p → root ≠ p → real t p → node_at t p = Some (File b) →
  Open {| cast_root := path_string root |} cwd t (path_string p) = Ret (b, Z.of_nat (length b)).
Proof.
  intros Hne Hpre Hneq Hr Hn. pose proof (real_plain _ _ Hr) as Hpl.
  assert (Forall plain root) as Hroot.
  { destruct Hpre as [k ->]. by apply Forall_app in Hpl as [? _]. }
  unfold Open. rewrite bool_decide_eq_false_2 by apply path_string_nonempty.
  rewrite Abs_path_string by done. unfold EvalSymlinks, eval_parts.
  rewrite walk_path_string by done. cbn [obind cast_root].
  rewrite (proj2 (HasPrefix_path root p Hne Hroot Hpl)) by done.
  rewrite andb_false_r. by rewrite (Stat_real t p (File b)).
Qed.

(** The opened file under the root of a store that has grown since. *)
Lemma Open_recorded cwd t t1 t' root now meta f loc b :
  root ≠ [] → alldir t root →
  (∀ s, t !! (root ++ [format_day (default now (Started meta))]) ≠ Some (Symlink s)) →
  OpenCast (path_string root) now t meta = (t1, Ret (f, loc)) →
  t' !! f = Some (File b) → (∀ q, t1 !! q = Some Dir → t' !! q = Some Dir) →
  f = cast_path root now meta ∧ loc = path_string f ∧
  Open {| cast_root := path_string root |} cwd t' loc = Ret (b, Z.of_nat (length b)).
Proof.
  intros Hne Hd Hns HO Hf Hdirs.
  destruct (OpenCast_spec t t1 root now meta f loc Hd Hns HO) as (-> & -> & Hpl & _ & _ & Hday & _ & _).
  split; [done|]. split; [done|]. set (day := root ++ [format_day (default now (Started meta))]) in *.
  assert (cast_path root now meta = day ++ [sanitizeFilename (SessionID meta) +:+ ".cast"]) as Hp
    by (unfold cast_path, day; by rewrite <-(assoc_L (++))).
  assert (node_at t' (cast_path root now meta) = Some (File b)) as Hn.
  { rewrite Hp in *. unfold node_at. by destruct day. }
  apply Open_file; [done| | | |done].
  - unfold cast_path. by apply prefix_app_r.
  - unfold cast_path. intros Heq. apply (f_equal length) in Heq. rewrite length_app in Heq. cbn in Heq. lia.
  - rewrite Hp in *. eapply real_snoc; [|apply cast_name_plain|exact Hn|done].
    destruct Hday as [Hdp Hdd]. split; [done|]. intros ps Hps. specialize (Hdd ps Hps).
    unfold node_at in *. destruct ps; [done|]. by apply Hdirs.
Qed.

Lemma Open_outside_slash cwd t path p :
  path ≠ "" → eval_parts t (Abs cwd path) = Ret p → p ≠ [] →
  Open {| cast_root := "/" |} cwd t path = Err ErrCastOutsideRoot.
Proof.
  intros Hne Hp Hpn. unfold Open. rewrite bool_decide_eq_false_2 by done.
  unfold EvalSymlinks. rewrite Hp. cbn [obind cast_root].
  pose proof (EvalSymlinks_real _ _ _ Hp) as (Hpl & _).
  assert (bool_decide (path_string p = "/") = false) as ->.
  { apply bool_decide_eq_false_2. change "/" with (path_string []). intros Heq.
    apply path_string_inj in Heq; [done|done|constructor]. }
  assert (HasPrefix (path_string p) ("/" +:+ "/") = false) as ->; [|done].
  destruct p as [|c p]; [done|]. inversion Hpl as [|? ? (Hc & _ & _ & Hs) _]; subst.
  unfold HasPrefix. apply bool_decide_eq_false_2. intros [k Hk].
  rewrite path_string_render, render_cons in Hk by done. cbn in Hk. injection Hk as Hk.
  apply contains_byte_false in Hs. destruct (chars c) as [|a l] eqn:Hcc; [by apply chars_nil in Hcc|].
  cbn in Hk. injection Hk as -> _. set_solver.
Qed.

(** ** Properties *)

(** C24: the portal serves nothing outside the cast root.  Whatever path a
    recording event carries, and whatever links the file system holds, a
    request answered with cast bytes was authorised, names a session of the
    store, and the bytes are those of a regular file whose fully resolved path
    lies under the store's resolved root. *)
Theorem cast_served_under_root (cwd cwd' root : string) (t0 t : fs) (st : LocalCastStore)
    (version : string) (now : Z) (ss : list Session) (au : option (list AuditEvent)) (authorized : bool) (id : string)
    (resp : response) (b : list ascii) :
  NewLocalCastStore cwd t0 root = Ret st →
  Routes {| Version := version; Now := now; SessionStore := Some ss; CastStore := Some (Open st cwd' t); AuditStore := au |}
    authorized ["sessions"; id; "cast"] = Ret resp →
  resp_body resp = Cast b →
  authorized = true ∧
  ∃ s rootcs p, s ∈ ss ∧ sSessionID s = id ∧ sRecordingPath s ≠ "" ∧
    cast_root st = path_string rootcs ∧ rootcs `prefix_of` p ∧
    real t p ∧ node_at t p = Some (File b).
Proof.
  intros (rootcs & Hroot & Hreal & _)%NewLocalCastStore_root HR Hb. unfold Routes in HR.
  rewrite bool_decide_eq_false_2 in HR by done.
  destruct authorized; cbn [negb andb] in HR; [|by simplify_eq/=]. split; [done|].
  unfold handleSessionCast in HR. cbn [SessionStore CastStore] in HR.
  destruct (find_session ss id) as [s|] eqn:Hs; [|by simplify_eq/=].
  apply find_first_Some in Hs as (l1 & l2 & -> & Hid%bool_decide_eq_true & _).
  case_bool_decide as Hpath; [by simplify_eq/=|].
  destruct (Open st cwd' t (sRecordingPath s)) as [[b' n]|e|] eqn:Ho; [|by destruct e; simplify_eq/=|done].
  injection HR as <-. cbn in Hb. injection Hb as ->.
  destruct st as [sr]. cbn in Hroot. subst sr.
  apply Open_inv in Ho as (p & Hp & Hn & Hpre & _); [|by eapply real_plain].
  exists s, rootcs, p. split; [set_solver|]. done.
Qed.

(** What was recorded can be replayed.  When the portal's root is the
    sink's and is a real directory other than "/", the location [OpenCast]
    returned for a session opens, whatever the recorder wrote since, to
    exactly the bytes of that file. *)
Theorem recorded_cast_replays (cwd : string) (t t' : fs) (root : list string) (now : Z) (meta : CastMeta)
    (file : list string) (loc : string) (b : list ascii) :
  root ≠ [] → alldir t root →
  (∀ s, t !! (root ++ [format_day (default now (Started meta))]) ≠ Some (Symlink s)) →
  OpenCast (path_string root) now t meta = (t', Ret (file, loc)) →
  Open {| cast_root := path_string root |} cwd (<[file := File b]> t') loc =
    Ret (b, Z.of_nat (length b)).
Proof.
  intros Hne Hd Hns HO. pose proof (OpenCast_spec t t' root now meta file loc Hd Hns HO) as (_ & _ & _ & _ & Hf & _).
  destruct (Open_recorded cwd t t' (<[file := File b]> t') root now meta file loc b) as (_ & _ & Ho); try done.
  - by apply lookup_insert_eq.
  - intros q Hq. rewrite lookup_insert_ne; [done|]. intros ->. destruct (OpenCast_spec _ _ _ _ _ _ _ Hd Hns HO) as (-> & _).
    congruence.
Qed.

(** A cast root of "/" serves nothing.  The separator is appended to a
    root that already ends in one, so every path that resolves to anything but
    the root itself is refused as outside it. *)
Theorem cast_root_slash_refuses (cwd : string) (t : fs) (path : string) (p : list string) :
  path ≠ "" → eval_parts t (Abs cwd path) = Ret p → p ≠ [] →
  NewLocalCastStore cwd t "/" = Ret {| cast_root := "/" |} ∧
  Open {| cast_root := "/" |} cwd t path = Err ErrCastOutsideRoot.
Proof. intros. split; [reflexivity|by eapply Open_outside_slash]. Qed.

(** The landing page tells the truth.  The landing page marks a page ready
    exactly when an authorised request for its path is not answered with 503,
    and every page it lists is one the mux knows. *)
Theorem landing_ready_iff_served (cfg : Config) (e : pageEntry) :
  e ∈ landingPages cfg →
  ∃ seg resp, Path e = path_string [seg] ∧ Routes cfg true [seg] = Ret resp ∧
    (Status e = "ready" ↔ code resp = StatusOK) ∧
    (Status e = "planned" ↔ code resp = StatusServiceUnavailable).
Proof.
  unfold landingPages. rewrite !elem_of_cons. intros [->|[->|H]]; [| |set_solver].
  - exists "sessions", (handleSessionsIndex cfg). split; [reflexivity|]. split; [reflexivity|].
    unfold handleSessionsIndex. cbn [Status]. destruct (SessionStore cfg); cbn; split; split; congruence || done.
  - exists "audit", (handleAuditIndex cfg). split; [reflexivity|]. split; [reflexivity|].
    unfold handleAuditIndex. cbn [Status]. destruct (AuditStore cfg); cbn; split; split; congruence || done.
Qed.

(** ** Witnesses *)
Definition cast_file : list string := cast_path root1 0 meta1.
Definition fs_cast : fs := <[cast_file := File (chars "cast")]> (OpenCast (path_string root1) 0 fs1 meta1).1.
Definition session_x : Session :=
  {| sSessionID := "x"; sUser := ""; sTarget := ""; sRemoteUser := ""; sPrincipals := "";
     sClientIP := ""; sRecordingPath := loc1; sCompletedAt := None; sDuration := 0 |}.
Definition store1 : LocalCastStore := {| cast_root := path_string root1 |}.
Definition portal1 : Config :=
  {| Version := "v1"; Now := 0; SessionStore := Some [session_x]; CastStore := Some (Open store1 "/" fs_cast); AuditStore := None |}.

Lemma replay1 :
  Routes portal1 true ["sessions"; "x"; "cast"] =
  Ret {| code := StatusOK; content_type := Some "text/plain; charset=utf-8"; content_length := Some 4;
         no_store := true; resp_body := Cast (chars "cast") |}.
Proof. vm_compute. reflexivity. Qed.

Lemma store1_new : NewLocalCastStore "/" fs1 "/var/casts" = Ret store1.
Proof. vm_compute. reflexivity. Qed.

Lemma cast_served_under_root_witness :
  ∃ p, real fs_cast p ∧ node_at fs_cast p = Some (File (chars "cast")).
Proof.
  destruct (cast_served_under_root "/" "/" "/var/casts" fs1 fs_cast store1 "v1" 0 [session_x] None true "x" _
    (chars "cast") store1_new replay1 eq_refl) as (_ & s & rc & p & _ & _ & _ & _ & _ & Hr & Hn).
  exists p. split; [exact Hr|exact Hn].
Defined.

Lemma recorded_cast_replays_witness :
  Open store1 "/" fs_cast loc1 = Ret (chars "cast", Z.of_nat (length (chars "cast"))).
Proof.
  apply (recorded_cast_replays "/" fs1 (OpenCast (path_string root1) 0 fs1 meta1).1 root1 0 meta1
    cast_file loc1).
  - discriminate.
  - exact root1_alldir.
  - intros s. vm_compute. discriminate.
  - apply pair_snd, opencast_loc1.
Defined.

Lemma cast_root_slash_refuses_witness :
  Open {| cast_root := "/" |} "/" fs1 "/var/casts" = Err ErrCastOutsideRoot.
Proof.
  apply (cast_root_slash_refuses "/" fs1 "/var/casts" ["var"; "casts"]);
    [discriminate|vm_compute; reflexivity|discriminate].
Defined.

Lemma landing_ready_iff_served_witness :
  ∃ seg resp, Routes portal1 true [seg] = Ret resp ∧ code resp = StatusOK.
Proof.
  destruct (landing_ready_iff_served portal1
    {| Name := "Sessions"; Path := "/sessions";
       Description := "Recent recorded SSH sessions with asciinema replay"; Status := "ready" |})
    as (seg & resp & _ & Hr & [Hc _] & _); [left|].
  exists seg, resp. split; [exact Hr|]. apply Hc. reflexivity.
Defined.
