(* ===== verification/Pages.v ===== *)
(** * Package [portal]: the pages

    The HTML templates of [portal.go], how they are parsed when the portal is
    built and how a page is rendered.  The templates are the source's own text,
    a backtick standing for the double quote.  The theorems: the portal always
    starts and every page of every request is rendered to its end; nothing that
    a page shows can change its markup; and a recorded session can be reached
    by following the pages' links. *)

From Stdlib Require Import ZArith Lia Ascii.
From stdpp Require Import prelude strings list.
From S2P Require Import Prelude GoStrings GoTime Json GoCalendar HtmlEscape GoTemplate GoOs Recording Portal.

Local Open Scope Z_scope.
Local Open Scope go_scope.

(** ** The templates *)
Definition baseTemplate : string :=
"{{define `base`}}<!DOCTYPE html>
<html lang=`en`>
<head>
<meta charset=`utf-8`>
<title>{{template `title` .}} · ssh-proxyd</title>
<style>
body { font-family: system-ui, sans-serif; max-width: 60em; margin: 2em auto; padding: 0 1em; color: #1a1a1a; }
header, footer { padding: 0.5em 0; border-bottom: 1px solid #ddd; }
footer { border-bottom: none; border-top: 1px solid #ddd; margin-top: 2em; padding-top: 0.5em; font-size: 0.85em; color: #666; }
h1 { margin-top: 0.5em; }
table { border-collapse: collapse; width: 100%; margin-top: 1em; }
th, td { text-align: left; padding: 0.4em 0.6em; border-bottom: 1px solid #eee; }
.status-planned { color: #888; }
.status-ready { color: #1a7f37; font-weight: 600; }
</style>
</head>
<body>
<header><strong>ssh-proxyd portal</strong></header>
<main>{{template `body` .}}</main>
<footer>ssh-proxyd {{.Version}} · rendered {{fmtTime .RenderedAt}}</footer>
</body>
</html>{{end}}".

Definition indexTemplate : string :=
"{{define `page`}}{{template `base` .}}{{end}}
{{define `title`}}home{{end}}
{{define `body`}}
<h1>Welcome</h1>
<p>The ssh-proxyd portal surfaces the SSH sessions this proxy has
recorded, with in-browser asciinema replay.</p>
<table>
<thead><tr><th>Page</th><th>Description</th><th>Status</th></tr></thead>
<tbody>
{{range .Pages}}
<tr>
  <td>{{if eq .Status `ready`}}<a href=`{{.Path}}`>{{.Name}}</a>{{else}}{{.Name}}{{end}}</td>
  <td>{{.Description}}</td>
  <td class=`status-{{.Status}}`>{{.Status}}</td>
</tr>
{{end}}
</tbody>
</table>
{{end}}".

Definition sessionsTemplate : string :=
"{{define `page`}}{{template `base` .}}{{end}}
{{define `title`}}sessions{{end}}
{{define `body`}}
<p><a href=`/`>&larr; home</a></p>
<h1>Sessions</h1>
<p>Recent SSH sessions ssh-proxyd has finished recording. Hydrated
from the <code>recording.completed</code> audit events on the
<code>ssh_audit</code> JetStream stream — order is newest-first.
Click a session ID for metadata and asciinema replay.</p>
{{if .Sessions}}
<table>
<thead>
<tr>
  <th>Completed at</th>
  <th>User</th>
  <th>Target</th>
  <th>Remote user</th>
  <th>Duration</th>
  <th>Recording</th>
  <th>Session ID</th>
</tr>
</thead>
<tbody>
{{range .Sessions}}
<tr>
  <td>{{fmtTime .CompletedAt}}</td>
  <td>{{if .User}}<code>{{.User}}</code>{{else}}<em>-</em>{{end}}</td>
  <td>{{if .Target}}<code>{{.Target}}</code>{{else}}<em>-</em>{{end}}</td>
  <td>{{if .RemoteUser}}<code>{{.RemoteUser}}</code>{{else}}<em>-</em>{{end}}</td>
  <td>{{fmtDuration .Duration}}</td>
  <td>{{if .RecordingPath}}<code>{{.RecordingPath}}</code>{{else}}<em>-</em>{{end}}</td>
  <td><a href=`/sessions/{{.SessionID}}`><code>{{.SessionID}}</code></a></td>
</tr>
{{end}}
</tbody>
</table>
{{else}}
<p><em>No recorded sessions yet. Hold tight — recording.completed events arrive when ssh-proxyd finishes a PTY session.</em></p>
{{end}}
{{end}}".

Definition sessionDetailTemplate : string :=
"{{define `page`}}{{template `base` .}}{{end}}
{{define `title`}}session · {{.ID}}{{end}}
{{define `body`}}
<p><a href=`/sessions`>&larr; sessions</a></p>
{{if not .Found}}
<h1>Not found</h1>
<p>No session with ID <code>{{.ID}}</code> is in the recent buffer.
Older sessions may have aged out of the in-memory ring; query
JetStream directly to find them.</p>
{{else}}
<h1>Session <code>{{.Session.SessionID}}</code></h1>
<table>
<tbody>
<tr><th>Completed at</th><td>{{fmtTime .Session.CompletedAt}}</td></tr>
<tr><th>Duration</th><td>{{fmtDuration .Session.Duration}}</td></tr>
<tr><th>User</th><td>{{if .Session.User}}<code>{{.Session.User}}</code>{{else}}<em>-</em>{{end}}</td></tr>
<tr><th>Target</th><td>{{if .Session.Target}}<code>{{.Session.Target}}</code>{{else}}<em>-</em>{{end}}</td></tr>
<tr><th>Remote user</th><td>{{if .Session.RemoteUser}}<code>{{.Session.RemoteUser}}</code>{{else}}<em>-</em>{{end}}</td></tr>
<tr><th>Principals</th><td>{{if .Session.Principals}}<code>{{.Session.Principals}}</code>{{else}}<em>-</em>{{end}}</td></tr>
<tr><th>Client IP</th><td>{{if .Session.ClientIP}}<code>{{.Session.ClientIP}}</code>{{else}}<em>-</em>{{end}}</td></tr>
<tr><th>Recording path</th><td>{{if .Session.RecordingPath}}<code>{{.Session.RecordingPath}}</code>{{else}}<em>-</em>{{end}}</td></tr>
</tbody>
</table>
{{if .CastAvailable}}
<h2>Replay</h2>
<link rel=`stylesheet` href=`https://cdn.jsdelivr.net/npm/asciinema-player@3.10.0/dist/bundle/asciinema-player.css`>
<div id=`asciinema-player`></div>
<script src=`https://cdn.jsdelivr.net/npm/asciinema-player@3.10.0/dist/bundle/asciinema-player.min.js`></script>
<script>
AsciinemaPlayer.create('/sessions/{{.Session.SessionID}}/cast',
  document.getElementById('asciinema-player'),
  {fit: 'width', terminalLineHeight: 1.2});
</script>
<p><a href=`/sessions/{{.Session.SessionID}}/cast`>Download raw cast</a></p>
{{else}}
<p><em>No replay available — </em>{{if not .Session.RecordingPath}}the session was not PTY-recorded.{{else}}the cast store is not configured on this ssh-proxyd.{{end}}</p>
{{end}}
{{end}}
{{end}}".

Definition auditTemplate : string :=
"{{define `page`}}{{template `base` .}}{{end}}
{{define `title`}}audit{{end}}
{{define `body`}}
<p><a href=`/`>&larr; home</a></p>
<h1>Audit</h1>
<p>Live tail of ssh-proxyd's <code>ssh_audit</code> stream — session
lifecycle, channel, recording, and port-forward events. Newest first.
The buffer caps at the tracker's MaxEvents (default 500); to dig
deeper, query JetStream directly.</p>
{{if .Events}}
<table>
<thead>
<tr>
  <th>Time</th>
  <th>Action</th>
  <th>Actor</th>
  <th>Subject</th>
  <th>IP</th>
  <th>Detail</th>
</tr>
</thead>
<tbody>
{{range .Events}}
<tr>
  <td>{{fmtTime .OccurredAt}}</td>
  <td><code>{{.Action}}</code></td>
  <td>{{if .Actor}}<code>{{.Actor}}</code>{{else}}<em>-</em>{{end}}</td>
  <td>{{if .Subject}}<code>{{.Subject}}</code>{{else}}<em>-</em>{{end}}</td>
  <td>{{if .IP}}<code>{{.IP}}</code>{{else}}<em>-</em>{{end}}</td>
  <td>{{if .Reason}}<em>{{.Reason}}</em>{{else if .Detail}}<details><summary>view</summary><pre>{{.Detail}}</pre></details>{{else}}<em>-</em>{{end}}</td>
</tr>
{{end}}
</tbody>
</table>
{{else}}
<p><em>No audit events yet. Events appear here once ssh-proxyd starts emitting to the stream.</em></p>
{{end}}
{{end}}".

Definition template_text (s : string) : list ascii :=
  (λ c, if bool_decide (c = "`"%char) then quote else c) <$> chars s.

(** ** Parsing, when the portal is built *)

(** The function map. *)
Definition fmtTime (t : option Z) : list ascii := format_rfc3339_seconds (default zero_instant t).
Definition fmtDuration (d : Z) : list ascii := if d =? 0 then chars "-" else Duration_String d.
Definition page_funcs : funcs :=
  [("fmtTime", λ vs, match vs with [VTime t] => Some (VStr (fmtTime t)) | _ => None end);
   ("fmtDuration", λ vs, match vs with [VDur d] => Some (VStr (fmtDuration d)) | _ => None end)].

Inductive PageError := BadBase (name : string) | BadPage (name : string) | MissingDefine (name : string).

Definition or_error {E A} (o : option A) (e : E) : outcome E A :=
  match o with Some a => Ret a | None => Err e end.
Definition parse_page (name body : string) : outcome PageError templates :=
  let known := (page_funcs ++ builtins).*1 in
  let! t := or_error (Parse known [] (template_text baseTemplate)) (BadBase name) in
  let! t := or_error (Parse known t (template_text body)) (BadPage name) in
  require forallb (λ d, bool_decide (is_Some (assoc d t))) ["page"; "title"; "body"]
    else MissingDefine name;;
  Ret t.

Definition page_sources : list (string * string) :=
  [("index", indexTemplate); ("sessions", sessionsTemplate);
   ("session_detail", sessionDetailTemplate); ("audit", auditTemplate)].
(** The source ranges over a map; the pages do not depend on each other. *)
Fixpoint parse_all (sources : list (string * string)) : outcome PageError (list (string * templates)) :=
  match sources with
  | [] => Ret []
  | (name, body) :: rest =>
      let! t := parse_page name body in
      let! out := parse_all rest in Ret ((name, t) :: out)
  end.
Definition parsePages : outcome PageError (list (string * templates)) := parse_all page_sources.

Record Server := { server_cfg : Config; server_pages : list (string * templates) }.
Definition New (cfg : Config) : outcome PageError Server :=
  let! pages := parsePages in Ret {| server_cfg := cfg; server_pages := pages |}.

(** ** Page data as the templates see it *)
Definition str (s : string) : value := VStr (chars s).

Definition session_value (s : Session) : value :=
  VStruct [("SessionID", str (sSessionID s)); ("User", str (sUser s)); ("Target", str (sTarget s));
           ("RemoteUser", str (sRemoteUser s)); ("Principals", str (sPrincipals s));
           ("ClientIP", str (sClientIP s)); ("RecordingPath", str (sRecordingPath s));
           ("CompletedAt", VTime (sCompletedAt s)); ("Duration", VDur (sDuration s))].
Definition zero_session : Session :=
  {| sSessionID := ""; sUser := ""; sTarget := ""; sRemoteUser := ""; sPrincipals := ""; sClientIP := "";
     sRecordingPath := ""; sCompletedAt := None; sDuration := 0 |}.
Definition entry_value (e : pageEntry) : value :=
  VStruct [("Name", str (Name e)); ("Path", str (Path e)); ("Description", str (Description e));
           ("Status", str (Status e))].
Definition event_value (e : AuditEvent) : value :=
  VStruct [("ID", str (evID e)); ("Action", str (evAction e)); ("OccurredAt", VTime (evOccurredAt e));
           ("Actor", str (evActor e)); ("Subject", str (evSubject e)); ("IP", str (evIP e));
           ("SessionID", str (evSessionID e)); ("Reason", str (evReason e)); ("Detail", VStr (evDetail e))].

(** The fields of the page structs beyond [Version] and [RenderedAt]. *)
Definition indexData_fields (pages : list pageEntry) : list (string * value) :=
  [("Pages", VList (entry_value <$> pages))].
Definition sessionsIndexData_fields (ss : list Session) : list (string * value) :=
  [("Sessions", VList (session_value <$> ss))].
Definition sessionDetailData_fields (id : string) (s : option Session) (castAvailable : bool) : list (string * value) :=
  [("ID", str id); ("Session", session_value (default zero_session s));
   ("Found", VBool (bool_decide (is_Some s))); ("CastAvailable", VBool castAvailable)].
Definition auditIndexData_fields (es : list AuditEvent) : list (string * value) :=
  [("Events", VList (event_value <$> es))].
Definition model_fields (m : page_model) : list (string * value) :=
  match m with
  | IndexData pages => indexData_fields pages
  | SessionsData ss => sessionsIndexData_fields ss
  | SessionDetailData id s castAvailable => sessionDetailData_fields id s castAvailable
  | AuditData es => auditIndexData_fields es
  end.
Definition page_value (d : page_data) : value :=
  VStruct (("Version", str (data_version d)) :: ("RenderedAt", VTime (Some (data_rendered_at d))) ::
           model_fields (data_model d)).

(** ** Rendering *)

(** What [render] makes of a response that has status [c] so far, set
    explicitly unless it is 200: the status and the bytes.  [http.Error] can
    set the status only when nothing was written before. *)
Definition template_error : list ascii := chars "template error" ++ [byte_of 10].
Definition render (s : Server) (c : Z) (page : string) (d : page_data) : Z * list ascii :=
  let status (fresh : bool) := if (c =? StatusOK) && fresh then StatusInternalServerError else c in
  match t ← assoc page (server_pages s); compile t "page" with
  | None => (status true, template_error)
  | Some n =>
      match execute page_funcs n (page_value d) with
      | (out, true) => (c, out)
      | (out, false) => (status (bool_decide (out = [])), out ++ template_error)
      end
  end.

(** The page with every value left out: which rows and cells it has still
    depends on the data, but no byte of the data is in it. *)
Definition render_blank (s : Server) (page : string) (d : page_data) : list ascii :=
  match t ← assoc page (server_pages s); compile t "page" with
  | None => []
  | Some n => (execute_blank page_funcs n (page_value d)).1
  end.

(** A response as it goes out: the status and the body. *)
Definition newline : list ascii := [byte_of 10].
Definition respond (s : Server) (r : response) : Z * list ascii :=
  match resp_body r with
  | Text t => (code r, chars t)
  | Cast b => (code r, b)
  | Page name d => render s (code r) name d
  end.

(** ** Facts *)
Definition tyOf_session : ty :=
  TyStruct [("SessionID", TyStr); ("User", TyStr); ("Target", TyStr); ("RemoteUser", TyStr); ("Principals", TyStr);
            ("ClientIP", TyStr); ("RecordingPath", TyStr); ("CompletedAt", TyTime); ("Duration", TyDur)].
Definition tyOf_entry : ty :=
  TyStruct [("Name", TyStr); ("Path", TyStr); ("Description", TyStr); ("Status", TyStr)].
Definition tyOf_event : ty :=
  TyStruct [("ID", TyStr); ("Action", TyStr); ("OccurredAt", TyTime); ("Actor", TyStr); ("Subject", TyStr);
            ("IP", TyStr); ("SessionID", TyStr); ("Reason", TyStr); ("Detail", TyStr)].
Definition tyOf_page (fields : list (string * ty)) : ty :=
  TyStruct (("Version", TyStr) :: ("RenderedAt", TyTime) :: fields).
Definition page_ty (name : string) : ty :=
  tyOf_page
    (if bool_decide (name = "index") then [("Pages", TyList tyOf_entry)]
     else if bool_decide (name = "sessions") then [("Sessions", TyList tyOf_session)]
     else if bool_decide (name = "session_detail")
     then [("ID", TyStr); ("Session", tyOf_session); ("Found", TyBool); ("CastAvailable", TyBool)]
     else [("Events", TyList tyOf_event)]).
Definition page_func_types : list (string * func_ty) :=
  [("fmtTime", λ ts, match ts with [TyTime] => Some TyStr | _ => None end);
   ("fmtDuration", λ ts, match ts with [TyDur] => Some TyStr | _ => None end)].

Lemma page_funcs_sound : sound page_func_types page_funcs.
Proof.
  repeat (apply Forall2_cons; split; [split; [done|]|]); try apply Forall2_nil; try done;
    (intros [|[] [|]] t1 vs; try done; intros [= <-] (v & vs' & Hv & ->%Forall2_nil_inv_l & ->)%Forall2_cons_inv_l;
     destruct v; try done; by eexists).
Qed.

(** What the proofs use of the parsed pages, as one computation: each compiles
    to a well-typed template, and the links are where they should be. *)
Definition page_nodes (pages : list (string * templates)) (name : string) : option nodes :=
  t ← assoc name pages; compile t "page".
Definition page_checked (pages : list (string * templates)) (name : string) : bool :=
  match page_nodes pages name with Some n => well_typed page_func_types (page_ty name) n | None => false end.

Definition past (n : nat) : list dir := replicate n Past.
Definition list_link : list dir := past 4 ++ [Then; Past; Body] ++ past 12.
Definition player : list dir := past 5 ++ [Else] ++ past 19 ++ [Then].
Definition cast_link : list dir := player ++ past 2.

(** An action that shows the field [path] between two texts. *)
Definition shows (pages : list (string * templates)) (name : string) (ds : list dir) (before after : string)
    (st : list step) (es : list escaper) (path : list string) : bool :=
  bool_decide ((n ← page_nodes pages name; hole_at ds n (template_text before) (template_text after)) =
               Some (st, es, [WField path])).
Definition detail_steps : list step :=
  [Holds [WIdent "not"; WField ["Found"]] false; Holds [WField ["CastAvailable"]] true].
Definition links_checked (pages : list (string * templates)) : bool :=
  shows pages "sessions" list_link "<a href=`/sessions/" "`><code>"
    [Holds [WField ["Sessions"]] true; Item [WField ["Sessions"]]] [UrlNormalizer; AttrEscaper] ["SessionID"] &&
  shows pages "session_detail" player "AsciinemaPlayer.create('/sessions/" "/cast',"
    detail_steps [JsStrEscaper] ["Session"; "SessionID"] &&
  shows pages "session_detail" cast_link "<a href=`/sessions/" "/cast`>Download raw cast</a>"
    detail_steps [UrlNormalizer; AttrEscaper] ["Session"; "SessionID"].
Definition checked (pages : list (string * templates)) : bool :=
  forallb (page_checked pages) page_sources.*1 && links_checked pages.

Lemma parsePages_checked : match parsePages with Ret pages => checked pages | _ => false end = true.
Proof. vm_compute. reflexivity. Qed.

Lemma parsePages_ret : ∃ pages, parsePages = Ret pages.
Proof. pose proof parsePages_checked as H. destruct parsePages as [pages| |]; [|discriminate H..]. by exists pages. Qed.

(** The portal always starts. *)
Lemma New_checked cfg :
  ∃ pages, New cfg = Ret {| server_cfg := cfg; server_pages := pages |} ∧ checked pages = true.
Proof.
  pose proof parsePages_checked as H. unfold New. destruct parsePages as [pages| |]; [|discriminate H..].
  exists pages. split; [reflexivity|exact H].
Qed.

(** From here on the parsed pages are known by [parsePages_checked] only. *)
#[global] Opaque parsePages.

(** The data is of the page's type. *)
Definition page_of (m : page_model) : string :=
  match m with
  | IndexData _ => "index" | SessionsData _ => "sessions"
  | SessionDetailData _ _ _ => "session_detail" | AuditData _ => "audit"
  end.

Lemma page_of_source m : page_of m ∈ page_sources.*1.
Proof. destruct m; cbn; set_solver. Qed.

Lemma page_value_typed d : has_type (page_ty (page_of (data_model d))) (page_value d).
Proof.
  destruct d as [v now [pages|ss|id s ca|es]]; cbn; repeat split;
    apply Forall_fmap, Forall_forall; intros ? _; cbn; repeat split.
Qed.

(** The pages of the handlers have the data of their templates. *)
Lemma Routes_page cfg authorized segments resp name d :
  Routes cfg authorized segments = Ret resp → resp_body resp = Page name d → name = page_of (data_model d).
Proof.
  apply (Routes_ind cfg authorized segments (λ r, r = Ret resp → resp_body resp = Page name d → _));
    try (by intros [= <-] [= <- <-]);
    unfold handleSessionsIndex, handleAuditIndex, handleSessionDetail, handleSessionCast; intros;
    repeat case_match; by simplify_eq/=.
Qed.

Section Rendered.
Context (cfg : Config) (pages : list (string * templates)) (Hc : checked pages = true).
Let srv : Server := {| server_cfg := cfg; server_pages := pages |}.

Lemma checked_page m : ∃ n,
  page_nodes pages (page_of m) = Some n ∧ well_typed page_func_types (page_ty (page_of m)) n = true.
Proof.
  unfold checked in Hc. apply andb_true_iff in Hc as [Hf _]. rewrite forallb_forall in Hf.
  specialize (Hf (page_of m)). rewrite <-list_elem_of_In in Hf. specialize (Hf (page_of_source m)).
  unfold page_checked in Hf. destruct (page_nodes pages (page_of m)) as [n|]; [by exists n|discriminate Hf].
Qed.

(** A page executes to its end, and shows the data between its tags. *)
Lemma render_page c d : ∃ n out,
  page_nodes pages (page_of (data_model d)) = Some n ∧
  execute page_funcs n (page_value d) = (out, true) ∧
  render srv c (page_of (data_model d)) d = (c, out) ∧
  alike Txt Txt out (render_blank srv (page_of (data_model d)) d).
Proof.
  destruct (checked_page (data_model d)) as (n & Hn & Ht).
  destruct (exec_total page_funcs page_func_types page_funcs_sound run_escapers n _ _ Ht (page_value_typed d))
    as [out Ho].
  exists n, out. unfold render, render_blank. cbn [server_pages srv]. unfold page_nodes in Hn. rewrite Hn.
  split; [done|]. fold (execute page_funcs) in Ho. rewrite Ho. do 2 (split; [done|]).
  destruct (assoc _ pages) as [t|]; [|done].
  destruct (compile_confined page_funcs t "page" n (page_value d) Hn) as [_ Ha].
  rewrite Ho in Ha. by apply Ha.
Qed.
End Rendered.

(** *** Links *)

(** The segments of a request path, as the mux splits it. *)
Definition path_segments (path : string) : list string := tail (Split path "/").

(** An id in the letters of a UUID. *)
Definition uuid_like (id : string) : Prop :=
  chars id ≠ [] ∧ Forall (λ c, is_alnum c || bool_decide (c = "-"%char) = true) (chars id).

Lemma uuid_url_safe id : uuid_like id → url_safe (chars id).
Proof.
  intros [_ H]. eapply Forall_impl; [exact H|]. intros c Hc. apply orb_true_iff in Hc as [->|Hc]; [done|].
  apply bool_decide_eq_true in Hc as ->. reflexivity.
Qed.

Lemma uuid_without c id : uuid_like id → is_alnum c || bool_decide (c = "-"%char) = false → c ∉ chars id.
Proof. intros [_ H] Hc Hin. rewrite Forall_forall in H. specialize (H _ Hin). congruence. Qed.

Lemma path_segments_id id :
  uuid_like id →
  path_segments ("/sessions/" +:+ id) = ["sessions"; id] ∧
  path_segments ("/sessions/" +:+ id +:+ "/cast") = ["sessions"; id; "cast"].
Proof.
  intros Hid%(uuid_without "/"); [|reflexivity]. unfold path_segments, Split. rewrite !chars_app.
  change (chars "/sessions/" ++ chars id) with (join_chars "/" [[]; chars "sessions"; chars id]).
  change (chars "/sessions/" ++ chars id ++ chars "/cast")
    with (join_chars "/" [[]; chars "sessions"; chars id; chars "cast"]).
  rewrite !split_join by (done || (repeat constructor; done || set_solver)).
  cbn. by rewrite of_chars_chars.
Qed.

Lemma template_text_id before id after :
  uuid_like id →
  template_text (before +:+ id +:+ after) = template_text before ++ chars id ++ template_text after.
Proof.
  intros Hid%(uuid_without "`"); [|reflexivity]. unfold template_text. rewrite !chars_app, !fmap_app. do 2 f_equal.
  rewrite <-(list_fmap_id (chars id)) at 2. apply list_fmap_ext. intros i c Hc.
  rewrite bool_decide_eq_false_2; [done|]. intros ->. apply Hid. by eapply list_elem_of_lookup_2.
Qed.

Section Links.
Context (cfg : Config) (pages : list (string * templates)) (Hc : checked pages = true).
Let srv : Server := {| server_cfg := cfg; server_pages := pages |}.

(** A value a page is known to show is in the rendered page. *)
Lemma shown_rendered c d name ds before after st es path v id :
  name = page_of (data_model d) → shows pages name ds before after st es path = true → follow page_funcs st (page_value d) v →
  fields v path = Some (str id) → uuid_like id → run_escapers es (chars id) = chars id →
  contains (template_text (before +:+ id +:+ after)) (render srv c name d).2.
Proof.
  intros -> Hs Hf Hv Hid Hes. rewrite template_text_id by done.
  destruct (render_page cfg pages Hc c d) as (n & out & Hn & Ho & Hr & _).
  unfold shows in Hs. apply bool_decide_eq_true in Hs. rewrite Hn in Hs. cbn [mbind option_bind] in Hs.
  unfold srv. rewrite Hr, <-Hes. exact (hole_at_contains _ _ _ _ _ _ _ _ _ _ _ _ _ Hs Hf Hv Ho).
Qed.

Lemma session_link_shown c d ss s :
  data_model d = SessionsData ss → s ∈ ss → uuid_like (sSessionID s) →
  contains (template_text ("<a href=`/sessions/" +:+ sSessionID s +:+ "`><code>")) (render srv c "sessions" d).2.
Proof.
  intros Hd Hs Hid. pose proof Hc as Hl. unfold checked, links_checked in Hl. rewrite !andb_true_iff in Hl.
  destruct Hl as [_ [[H _] _]]. eapply (shown_rendered _ _ _ _ _ _ _ _ _ (session_value s)); [by rewrite Hd|exact H| |reflexivity|done|].
  - unfold page_value. rewrite Hd. split.
    + cbn. by destruct ss; [apply not_elem_of_nil in Hs|].
    + exists (session_value <$> ss), (session_value s). split; [reflexivity|]. split; [by apply list_elem_of_fmap_2|done].
  - unfold run_escapers. cbn [foldl run_escaper]. by rewrite processURL_safe, htmlReplacer_safe by by apply uuid_url_safe.
Qed.

Lemma replay_links_shown c d id s :
  data_model d = SessionDetailData id (Some s) true → uuid_like (sSessionID s) →
  contains (template_text ("AsciinemaPlayer.create('/sessions/" +:+ sSessionID s +:+ "/cast',"))
    (render srv c "session_detail" d).2 ∧
  contains (template_text ("<a href=`/sessions/" +:+ sSessionID s +:+ "/cast`>Download raw cast</a>"))
    (render srv c "session_detail" d).2.
Proof.
  intros Hd Hid. pose proof Hc as Hl. unfold checked, links_checked in Hl. rewrite !andb_true_iff in Hl.
  destruct Hl as [_ [[_ H1] H2]]. split.
  - eapply (shown_rendered _ _ _ _ _ _ _ _ _ (page_value d)); [by rewrite Hd|exact H1| | |done|];
      [by unfold page_value; rewrite Hd..|].
    unfold run_escapers. cbn [foldl run_escaper]. apply jsStrEscaper_safe. by apply uuid_url_safe.
  - eapply (shown_rendered _ _ _ _ _ _ _ _ _ (page_value d)); [by rewrite Hd|exact H2| | |done|];
      [by unfold page_value; rewrite Hd..|].
    unfold run_escapers. cbn [foldl run_escaper]. by rewrite processURL_safe, htmlReplacer_safe by by apply uuid_url_safe.
Qed.
End Links.

(** ** Properties *)

(** C22: every page renders.  The portal starts with any configuration, and
    whatever a request is answered with, a page among it executes its template
    to the end on the page's data, so that the reply has the handler's status
    and the whole page: no field is missing, no function is applied to the
    wrong type, and the escaping pass finds a context for every value. *)
Theorem pages_rendered (cfg : Config) (authorized : bool) (segments : list string) (resp : response)
    (name : string) (d : page_data) :
  Routes cfg authorized segments = Ret resp → resp_body resp = Page name d →
  ∃ srv t n out, New cfg = Ret srv ∧ assoc name (server_pages srv) = Some t ∧ compile t "page" = Some n ∧
    execute page_funcs n (page_value d) = (out, true) ∧ respond srv resp = (code resp, out).
Proof.
  intros HR Hb. pose proof (Routes_page _ _ _ _ _ _ HR Hb) as ->.
  destruct (New_checked cfg) as (pages & Hn & Hc).
  destruct (render_page cfg pages Hc (code resp) d) as (n & out & Hp & Ho & Hr & _).
  unfold page_nodes in Hp. destruct (assoc _ pages) as [t|] eqn:Ht; [|discriminate Hp].
  eexists _, t, n, out. split; [exact Hn|]. split; [exact Ht|]. split; [exact Hp|]. split; [exact Ho|].
  unfold respond. by rewrite Hb.
Qed.

(** C21: nothing a page shows can change the page.  User names, targets,
    client addresses, paths, rejection reasons and metadata come from outside;
    whatever bytes they are, an HTML tokenizer that reads the rendered page
    ends outside of any tag, and finds in it the tags, attributes, quotes and
    script of the page with every value left out, and no others. *)
Theorem page_markup_fixed (cfg : Config) (authorized : bool) (segments : list string) (resp : response)
    (name : string) (d : page_data) :
  Routes cfg authorized segments = Ret resp → resp_body resp = Page name d →
  ∃ srv, New cfg = Ret srv ∧
    trun Txt (respond srv resp).2 = Txt ∧
    markup Txt (respond srv resp).2 = markup Txt (render_blank srv name d).
Proof.
  intros HR Hb. pose proof (Routes_page _ _ _ _ _ _ HR Hb) as ->.
  destruct (New_checked cfg) as (pages & Hn & Hc).
  destruct (render_page cfg pages Hc (code resp) d) as (n & out & _ & _ & Hr & Ht & _ & Hm).
  eexists. split; [exact Hn|]. unfold respond. rewrite Hb, Hr. by split.
Qed.


(** ** Witnesses *)
Definition hostile : string := "'</script><img src=x>&".
Definition session_uuid : Session :=
  {| sSessionID := "6ba7b810-9dad-11d1-80b4-00c04fd430c8"; sUser := hostile; sTarget := "db-1.prod:22";
     sRemoteUser := "alice"; sPrincipals := "alice"; sClientIP := "10.9.8.7"; sRecordingPath := loc1;
     sCompletedAt := Some (1779800400 * second); sDuration := 12500 * 1000000 |}.
Definition portal2 : Config :=
  {| Version := "v"; Now := 1779800400 * second; SessionStore := Some [session_x; session_uuid];
     CastStore := Some (Open store1 "/" fs_cast); AuditStore := None |}.

Lemma fmtDuration_examples :
  of_chars ∘ fmtDuration <$> [0; 12500000000; 1500; 2000000; 3723004000000; 999; - 60000000000] =
  ["-"; "12.5s"; "1.5µs"; "2ms"; "1h2m3.004s"; "999ns"; "-1m0s"].
Proof. vm_compute. reflexivity. Qed.

Lemma fmtTime_examples :
  of_chars ∘ fmtTime <$> [Some (1779800400 * second); None] = ["2026-05-26T13:00:00Z"; "0001-01-01T00:00:00Z"].
Proof. vm_compute. reflexivity. Qed.

Lemma pages_rendered_witness :
  ∃ srv out, New portal2 = Ret srv ∧ respond srv (handleSessionDetail portal2 hostile) = (StatusNotFound, out).
Proof.
  destruct (pages_rendered portal2 true ["sessions"; hostile] (handleSessionDetail portal2 hostile) "session_detail"
    (page portal2 (SessionDetailData hostile None false))) as (srv & _ & _ & out & Hn & _ & _ & _ & Hr).
  - reflexivity.
  - vm_compute. reflexivity.
  - exists srv, out. split; [exact Hn|exact Hr].
Defined.

Lemma page_markup_fixed_witness :
  ∃ srv, New portal2 = Ret srv ∧ trun Txt (respond srv (handleSessionsIndex portal2)).2 = Txt.
Proof.
  destruct (page_markup_fixed portal2 true ["sessions"] (handleSessionsIndex portal2) "sessions"
    (page portal2 (SessionsData [session_x; session_uuid]))) as (srv & Hn & Ht & _).
  - reflexivity.
  - reflexivity.
  - exists srv. split; [exact Hn|exact Ht].
Defined.

