(* ===== verification/Trackers.v ===== *)
(** * Package [portal]: the session and audit trackers

    [NewSessionTracker] and [Sessions] of [portal/sessions.go], [NewAuditTracker]
    and [Events] of [portal/audit.go].  The ring they wrap is
    [journal.Tracker], which is not part of the repository: it is the class
    [Journal], whose laws are what the two files and their tests say of it. *)

From Stdlib Require Import ZArith Lia Ascii.
From stdpp Require Import prelude strings list sorting.
From S2P Require Import Prelude GoStrings GoCalendar Portal.

Local Open Scope Z_scope.
Local Open Scope go_scope.

(** ** [journal.Tracker] *)

(** [Source] is [None] for a nil source; [Less] for a nil comparison. *)
Record TrackerConfig (A : Type) := {
  Source : option nat;
  Max : Z;
  Label : string;
  Decode : list ascii → option A;
  Less : option (A → A → bool)
}.
Arguments Source {A} _. Arguments Max {A} _. Arguments Label {A} _.
Arguments Decode {A} _. Arguments Less {A} _.

(** A tracker is its configuration; its snapshot is what it holds after its
    source delivered some messages, oldest first. *)
Class Journal := {
  NewTracker {A} : TrackerConfig A → outcome string unit;
  Snapshot {A} : TrackerConfig A → list (list ascii) → list A
}.

Definition strict_weak {A} (less : A → A → bool) : Prop :=
  (∀ a b, less a b = true → less b a = false) ∧
  (∀ a b c, less b a = false → less c b = false → less c a = false).

(** A source is required.  The ring holds decoded messages, [Max] at most:
    without a comparison the latest to arrive, latest first; with one, no
    element comes after one it should precede. *)
Class JournalLaws `{Journal} : Prop := {
  tracker_source {A} (cfg : TrackerConfig A) : Source cfg = None → ∃ e, NewTracker cfg = Err e;
  tracker_arrival {A} (cfg : TrackerConfig A) msgs :
    Less cfg = None → 0 < Max cfg →
    Snapshot cfg msgs = take (Z.to_nat (Max cfg)) (reverse (omap (Decode cfg) msgs));
  tracker_decoded {A} (cfg : TrackerConfig A) msgs x :
    x ∈ Snapshot cfg msgs → x ∈ omap (Decode cfg) msgs;
  tracker_bounded {A} (cfg : TrackerConfig A) msgs :
    0 < Max cfg → Z.of_nat (length (Snapshot cfg msgs)) ≤ Max cfg;
  tracker_sorted {A} (cfg : TrackerConfig A) less msgs l1 x l2 y l3 :
    Less cfg = Some less → strict_weak less → Snapshot cfg msgs = l1 ++ x :: l2 ++ y :: l3 → less y x = false
}.

(** ** The session tracker *)
Definition DefaultMaxSessions : Z := 200.
Record SessionTrackerConfig := { SessionSource : option nat; MaxSessions : Z }.

Section Trackers.
Context `{Journal}.

Definition NewSessionTracker (cfg : SessionTrackerConfig) : outcome string (TrackerConfig Session) :=
  let t := {| Source := SessionSource cfg;
              Max := if MaxSessions cfg <=? 0 then DefaultMaxSessions else MaxSessions cfg;
              Label := "ssh_audit/sessions"; Decode := decodeSession; Less := None |} in
  let! _ := NewTracker t in Ret t.

Definition Sessions (t : TrackerConfig Session) (msgs : list (list ascii)) : list Session := Snapshot t msgs.

(** ** The audit tracker *)
Definition DefaultMaxAuditEvents : Z := 500.
Record AuditTrackerConfig := { EventSource : option nat; MaxEvents : Z }.

Definition later (a b : AuditEvent) : bool :=
  default zero_instant (evOccurredAt b) <? default zero_instant (evOccurredAt a).

Definition NewAuditTracker (cfg : AuditTrackerConfig) : outcome string (TrackerConfig AuditEvent) :=
  let t := {| Source := EventSource cfg; Max := MaxEvents cfg; Label := "ssh_audit";
              Decode := decodeAuditEvent; Less := Some later |} in
  let! _ := NewTracker t in Ret t.

Definition Events (t : TrackerConfig AuditEvent) (msgs : list (list ascii)) : list AuditEvent := Snapshot t msgs.
End Trackers.

(** ** Facts *)
Section Facts.
Context `{JournalLaws}.

Lemma NewSessionTracker_inv cfg t :
  NewSessionTracker cfg = Ret t →
  SessionSource cfg ≠ None ∧ Decode t = decodeSession ∧ Less t = None ∧ 0 < Max t ∧
  Max t = (if MaxSessions cfg <=? 0 then DefaultMaxSessions else MaxSessions cfg).
Proof.
  unfold NewSessionTracker. set (t0 := {| Source := _ |}). intros Hn.
  assert (SessionSource cfg ≠ None) as Hs.
  { intros Hs. destruct (tracker_source t0 Hs) as [e He]. by rewrite He in Hn. }
  destruct (NewTracker t0) as [u|e|]; [|done..]. cbn [obind] in Hn. injection Hn as <-. subst t0. cbn.
  do 3 (split; [done|]). split; [|done]. destruct (Z.leb_spec (MaxSessions cfg) 0); [by vm_compute|done].
Qed.

Lemma NewAuditTracker_inv cfg t :
  NewAuditTracker cfg = Ret t →
  EventSource cfg ≠ None ∧ Decode t = decodeAuditEvent ∧ Less t = Some later ∧ Max t = MaxEvents cfg.
Proof.
  unfold NewAuditTracker. set (t0 := {| Source := _ |}). intros Hn.
  assert (EventSource cfg ≠ None) as Hs.
  { intros Hs. destruct (tracker_source t0 Hs) as [e He]. by rewrite He in Hn. }
  destruct (NewTracker t0) as [u|e|]; [|done..]. by injection Hn as <-.
Qed.

(** The sessions page: the latest recordings, latest first. *)
Lemma Sessions_latest cfg t msgs :
  NewSessionTracker cfg = Ret t →
  Sessions t msgs = take (Z.to_nat (Max t)) (reverse (omap decodeSession msgs)).
Proof.
  intros (_ & Hd & Hl & Hm & _)%NewSessionTracker_inv. unfold Sessions.
  by rewrite tracker_arrival, Hd.
Qed.
End Facts.

(** ** An instance of the ring *)
Definition not_after {A} (less : A → A → bool) (a b : A) : Prop := less b a = false.
#[export] Instance not_after_dec {A} (less : A → A → bool) a b : Decision (not_after less a b).
Proof. unfold not_after. apply _. Defined.
Definition ring {A} (cfg : TrackerConfig A) (msgs : list (list ascii)) : list A :=
  let arrived := reverse (omap (Decode cfg) msgs) in
  take (Z.to_nat (Max cfg))
    match Less cfg with
    | None => arrived
    | Some less => merge_sort (not_after less) arrived
    end.
Definition ring_journal : Journal := {|
  NewTracker A cfg := match Source cfg with None => Err "journal: source is required" | Some _ => Ret tt end;
  Snapshot A := ring
|}.

Lemma ring_journal_laws : JournalLaws (H := ring_journal).
Proof.
  split; cbn.
  - intros A cfg ->. by eexists.
  - intros A cfg msgs Hl _. unfold ring. by rewrite Hl.
  - intros A cfg msgs x Hx. unfold ring in Hx. apply subseteq_take in Hx.
    destruct (Less cfg) as [less|]; cbv zeta iota in Hx; rewrite ?merge_sort_Permutation, elem_of_reverse in Hx; exact Hx.
  - intros A cfg msgs Hm. unfold ring. rewrite length_take. lia.
  - intros A cfg less msgs l1 x l2 y l3 Hl [Hasym Htrans] Hr. unfold ring in Hr. rewrite Hl in Hr.
    set (R := not_after less) in *. assert (Transitive R) by exact Htrans.
    assert (Total R) as Htot. { intros a b. destruct (less b a) eqn:Hba; [right; exact (Hasym b a Hba)|left; exact Hba]. }
    pose proof (StronglySorted_merge_sort R (reverse (omap (Decode cfg) msgs))) as Hs.
    rewrite <-(take_drop (Z.to_nat (Max cfg)) (merge_sort R _)) in Hs. rewrite Hr in Hs.
    rewrite <-(assoc_L (++)) in Hs. apply StronglySorted_app_1_r in Hs. inversion Hs as [|? ? _ Hall]; subst.
    rewrite Forall_forall in Hall. apply (Hall y). set_solver.
Qed.
