(* ===== verification/Replay.v ===== *)
(** * From the proxy to the portal

    The two ends of the audit stream together: what a connection publishes
    ([Channel], [Channels], [SshServer], [SshServing]) is JSON the portal's decoders take in
    ([Portal], [Trackers]), and the recording of a terminal session is found
    by its session id and replayed byte for byte. *)

From Stdlib Require Import ZArith Lia Ascii.
From Stdlib Require Import Floats.SpecFloat.
From stdpp Require Import prelude strings pretty gmap list sorting.
From S2P Require Import Prelude GoStrings GoTime Json GoCalendar JsonDecode JsonRound GoOs Recording Rbac GoSsh AuditLog Channel Channels SshServer SshServing Portal Trackers.

Local Open Scope Z_scope.
Local Open Scope go_scope.

(** ** Well-formed entries *)
Definition actions : list string :=
  [ActionSessionOpened; ActionSessionClosed; ActionChannelRejected; ActionRecordingComplete;
   ActionPortForwardOpened; ActionPortForwardClosed; ActionSubsystemOpened].

(** [Metadata] is empty or the text of a JSON object. *)
Definition metadata_ok (md : list ascii) : Prop :=
  md = [] ∨ ∃ fs, md = Marshal (JObject fs) ∧ json_ok 0 (JObject fs) = true.
Definition entry_ok (e : Entry) : Prop := Action e ∈ actions ∧ metadata_ok (Metadata e).
Definition entries_ok (a : list action) : Prop := Forall entry_ok (omap action_entry a).

Lemma format_micros_number k : is_number (format_micros k) = true.
Proof.
  unfold format_micros. destruct (trim_zeros _) as [|c l] eqn:Hf.
  - rewrite <-(app_nil_r (chars _)). apply pretty_number. by left.
  - apply pretty_number. right. exists (c :: l). split; [done|]. split; [done|]. rewrite <-Hf.
    unfold trim_zeros, drop_while_end. apply Forall_reverse, drop_while_Forall, Forall_reverse.
    apply appendInt_digits. apply Z.mod_pos_bound. done.
Qed.

Lemma round6_ok d v : json_ok d (round6 v) = true.
Proof. apply format_micros_number. Qed.

Lemma metadata_map fs : Forall (λ f, json_ok 1 f.2 = true) fs → metadata_ok (Marshal (JMap fs)).
Proof.
  intros Hfs. right. exists (merge_sort key_le fs). split; [done|]. cbn. apply forallb_Forall.
  rewrite merge_sort_Permutation. eapply Forall_impl; [done|]. by intros [].
Qed.

Lemma entries_ok_append es : entries_ok (Append <$> es) ↔ Forall entry_ok es.
Proof. unfold entries_ok. by rewrite omap_action_entry. Qed.

Lemma entries_ok_app a b : entries_ok (a ++ b) ↔ entries_ok a ∧ entries_ok b.
Proof. unfold entries_ok. by rewrite omap_app, Forall_app. Qed.

#[local] Ltac known := unfold actions; rewrite !elem_of_cons; tauto.
#[local] Ltac plain_metadata := apply metadata_map; repeat first [constructor | apply round6_ok].

Section Entries.
Context {W : SshWire} {S : Type} `{CastSink S}.
Implicit Types (p : Proxier S) (t : fs) (g : goroutine S).

Lemma handle_request_entries p r e t rc : entries_ok (handle_request p r e t rc).2.
Proof.
  unfold handle_request. destruct (permitsRequest p (Type_ r)); cbn [negb]; [|by destruct (WantReply r); constructor].
  destruct (peek_recording r e t rc) as [t' rc']. cbn [snd]. apply entries_ok_app.
  split; [|by destruct (WantReply r); constructor].
  destruct (detectSubsystem r) as [[k cmd]|]; [|constructor]. apply entries_ok_append.
  unfold emitSubsystemOpened. destruct (p_auditSink p); [|constructor]. cbn [negb].
  apply Forall_singleton. split; [cbn; known|]. cbn [Metadata]. apply metadata_map.
  constructor; [done|]. case_bool_decide; repeat constructor.
Qed.

Lemma pipe_step_entries p st ev : entries_ok (ps_trace st) → entries_ok (ps_trace (pipe_step p st ev)).
Proof.
  intros Ht. destruct ev as [r e|tnow b n|b]; cbn [pipe_step].
  - pose proof (handle_request_entries p r e (ps_fs st) (ps_rec st)) as Hs.
    destruct (handle_request p r e _ _) as [[t rc] a]. cbn [ps_trace]. by apply entries_ok_app.
  - by destruct (recordingTee_Write tnow b n (ps_fs st) (ps_rec st)).
  - done.
Qed.

Lemma pf_open_entries d pf : Forall entry_ok (pf_open d pf).2.
Proof.
  destruct pf as [a|]; [|constructor]. cbn. destruct (pfSink a); cbn [negb snd]; [|constructor].
  apply Forall_singleton. split; [cbn; known|]. cbn [pf_entry Metadata]. plain_metadata.
Qed.

Lemma pf_close_entries d x y pf : Forall entry_ok (pf_close d x y pf).
Proof.
  destruct pf as [a|]; [|constructor]. cbn [pf_close]. destruct (_ || _); [constructor|].
  apply Forall_singleton. split; [cbn; known|]. cbn [pf_entry Metadata]. plain_metadata.
Qed.

Lemma CloseRec_entries d ce (r : channelRecorder S) : Forall entry_ok (CloseRec d ce r).1.2.
Proof.
  unfold CloseRec. destruct (rclosed r); [constructor|]. cbn [fst snd]. case_bool_decide; [|constructor].
  apply Forall_singleton. split; [cbn; known|]. cbn [emitCompleted Metadata]. plain_metadata.
Qed.

Lemma goroutine_step_entries c g t g' t' a :
  goroutine_step c g t = Some (g', t', a) → entries_ok a.
Proof.
  destruct c as [[p nc] env].
  destruct g as [| | |pf rc bi bo [|ev todo]|rc|]; cbn -[pipe_step pf_open pf_close CloseRec].
  - destruct (_ && _); [intros; simplify_eq; by repeat constructor|].
    destruct (open_target env) as [|e|]; [|destruct (openChannelRejection e)|]; intros; simplify_eq; by repeat constructor.
  - destruct (accept_ok env); intros; simplify_eq; by repeat constructor.
  - pose proof (pf_open_entries (pf_open_draw env) (pf_auditor p nc)) as Ho.
    destruct (pf_open _ _). intros; simplify_eq. by apply entries_ok_append.
  - intros; simplify_eq. by apply entries_ok_append, pf_close_entries.
  - intros [= <- <- <-]. apply pipe_step_entries. constructor.
  - intros [= <- <- <-]. destruct rc as [r|]; [|constructor]. by apply entries_ok_append, CloseRec_entries.
  - done.
Qed.

Lemma emit_ok ev d act reason md :
  act ∈ actions → Forall (λ f, json_ok 1 f.2 = true) md → entry_ok (emit ev d act reason md).
Proof.
  intros Ha Hmd. split; [done|]. cbn. case_bool_decide; [by left|]. by apply metadata_map.
Qed.

Lemma event_entry_actions_of j (a : list action) : omap event_entry (ChannelAction j <$> a) = omap action_entry a.
Proof. induction a as [|x a IH]; [done|]. destruct x; csimpl; by rewrite IH. Qed.

Lemma session_step_entries timeout (sink : option S) env ph t m ph' t' evs :
  session_step timeout sink env ph t m = Some (ph', t', evs) → Forall entry_ok (omap event_entry evs).
Proof.
  assert (∀ chans reason msg, omap event_entry (rejectAll chans reason msg) = []) as Hrej.
  { intros chans reason msg. induction chans as [|c chans IH]; [done|]. cbn [rejectAll]. by destruct (ic_ctx_done c); csimpl. }
  assert (∀ perms d act, act ∈ actions → entry_ok (emit (session_events env perms) d act "" [])) as Hplain.
  { intros. by apply emit_ok. }
  assert (∀ perms d reason stage, entry_ok
    (emit (session_events env perms) d ActionChannelRejected reason [("stage", JString stage)])) as Hstage.
  { intros. apply emit_ok; [known|by repeat constructor]. }
  destruct ph as [|perms|perms inbox running|perms| |], m as [|[|k]]; cbn [session_step]; try done.
  - destruct (handshake env); intros [= <- <- <-]; csimpl;
      repeat first [apply Forall_nil_2|apply Forall_cons; split; [apply Hplain; known|]].
  - destruct (signer env); [destruct (dial env)|..]; intros [= <- <- <-]; csimpl; rewrite ?Hrej;
      repeat first [apply Forall_nil_2|apply Forall_cons; split; [first [apply Hstage|apply Hplain; known]|]].
  - destruct inbox; [|done]. case_match; [|done]. intros [= <- <- <-]. constructor.
  - destruct inbox; [done|]. intros [= <- <- <-]. constructor.
  - destruct (running !! k) as [[c g]|]; [|done]. destruct (goroutine_step c g t) as [[[g' t2] a]|] eqn:Hg; [|done].
    intros [= <- <- <-]. rewrite event_entry_actions_of. by eapply goroutine_step_entries.
  - intros [= <- <- <-]. csimpl. apply Forall_singleton, Hplain. known.
Qed.

Lemma stream_entries timeout (sink : option S) t ms s :
  server_run timeout sink (server_start t) ms = Some s → Forall entry_ok (stream (sv_log s)).
Proof.
  intros Hr.
  pose proof (server_invariant timeout sink (λ _ _ (evs : list conn_event), Forall entry_ok (omap (M := list) event_entry evs))
    (λ _, Forall_nil_2 _)) as Hinv.
  destruct (λ Hstep, Hinv Hstep ms t s Hr) as [Hall Hlog].
  { intros env ph evs t0 m ph' t' a Hevs Hs. rewrite omap_app. apply Forall_app. split; [done|].
    by eapply session_step_entries. }
  apply Forall_forall. intros e ([i ev] & Hin & He)%list_elem_of_omap.
  pose proof (Hlog _ Hin) as [[env ph] Hi]%lookup_lt_is_Some. specialize (Hall i env ph Hi).
  rewrite Forall_forall in Hall. apply Hall, list_elem_of_omap. exists ev. by rewrite elem_of_of_connection.
Qed.
End Entries.

(** ** What the portal makes of an entry *)
Definition event_of (e : Entry) : AuditEvent :=
  {| evID := clean (ID e); evAction := clean (Action e); evOccurredAt := Some (OccurredAt e);
     evActor := clean (EntryUser e); evSubject := clean (EntryTarget e); evIP := clean (EntryClientIP e);
     evSessionID := clean (EntrySessionID e); evReason := clean (EntryReason e);
     evDetail := sanitize (Metadata e) |}.

Definition session_of (e : Entry) : Session :=
  {| sSessionID := clean (EntrySessionID e); sUser := clean (EntryUser e); sTarget := clean (EntryTarget e);
     sRemoteUser := clean (EntryRemoteUser e); sPrincipals := clean (EntryPrincipals e);
     sClientIP := clean (EntryClientIP e); sRecordingPath := clean (RecordingPath e);
     sCompletedAt := if OccurredAt e =? zero_instant then None else Some (OccurredAt e);
     sDuration := metadata_duration (sanitize (Metadata e)) |}.

Lemma clean_action a : a ∈ actions → clean a = a ∧ a ≠ "".
Proof. unfold actions. rewrite !elem_of_cons, elem_of_nil. intros [->|[->|[->|[->|[->|[->|[->|[]]]]]]]]; done. Qed.

Lemma decodeAuditEvent_message e data :
  message e = Some data → Action e ∈ actions →
  decodeAuditEvent data = if OccurredAt e =? zero_instant then None else Some (event_of e).
Proof.
  intros [Ht ->]%message_inv Ha. unfold decodeAuditEvent. rewrite audit_raw by done. cbn [raw_action raw_occurred].
  destruct (clean_action _ Ha) as [Hc Hne]. rewrite (bool_decide_eq_false_2 (clean (Action e) = "")) by congruence.
  by destruct (OccurredAt e =? zero_instant).
Qed.

Lemma decodeSession_message e data :
  message e = Some data → Action e ∈ actions →
  decodeSession data = if bool_decide (Action e = ActionRecordingComplete) then Some (session_of e) else None.
Proof.
  intros [Ht ->]%message_inv Ha. unfold decodeSession. rewrite session_raw by done. cbn [raw_action].
  destruct (clean_action _ Ha) as [-> _]. by case_bool_decide.
Qed.

Lemma metadata_sanitized md : metadata_ok md → sanitize md = md.
Proof. intros [->|(fs & -> & Hok)]; [done|]. by eapply sanitize_valid, Marshal_utf8. Qed.

(** The recordings among some entries that were published, as sessions. *)
Definition completed (e : Entry) : Prop := Action e = ActionRecordingComplete ∧ rfc3339_range (OccurredAt e).
#[export] Instance completed_dec e : Decision (completed e).
Proof. unfold completed. apply _. Defined.

Lemma omap_step {A B} (f : A → option B) x l :
  omap f (x :: l) = match f x with Some y => y :: omap f l | None => omap f l end.
Proof. done. Qed.

Lemma decoded_sessions es :
  Forall (λ e, Action e ∈ actions) es →
  omap decodeSession (omap message es) = session_of <$> filter completed es.
Proof.
  induction 1 as [|e es Ha _ IH]; [done|]. rewrite filter_cons, omap_step.
  assert (completed e ↔ Action e = ActionRecordingComplete ∧ is_Some (message e)) as Hc.
  { unfold completed, message. rewrite is_Some_alt. case_bool_decide; tauto. }
  destruct (message e) as [data|] eqn:Hm.
  - rewrite omap_step, (decodeSession_message e data Hm Ha), IH.
    case_bool_decide as Hac; case_decide as Hd; [reflexivity| |exfalso; apply Hac, (proj1 Hc Hd)|reflexivity].
    destruct Hd. apply Hc. split; [exact Hac|by eexists].
  - rewrite IH. case_decide as Hd; [|done]. apply Hc in Hd as [_ [? ?]]. done.
Qed.

(** ** The recording under the portal's root *)
Lemma ascii_bytes_utf8 (P : ascii → Prop) l :
  (∀ c, P c → byte_val c < RuneSelf) → Forall P l → valid_utf8 l.
Proof.
  intros HP Hl. apply ascii_utf8, forallb_Forall. eapply Forall_impl; [done|].
  intros c Hc. by apply Z.ltb_lt, HP.
Qed.

Lemma cast_path_utf8 root now meta :
  root ≠ [] → valid_utf8 (chars (path_string root)) → valid_utf8 (chars (path_string (cast_path root now meta))).
Proof.
  intros Hne Hr. unfold cast_path. rewrite path_string_render in Hr by done.
  rewrite path_string_render by (by destruct root). rewrite render_app. apply valid_utf8_app; [done|].
  rewrite !render_cons, chars_app. apply (valid_utf8_app [_]); [by apply ascii_utf8|].
  apply valid_utf8_app.
  - unfold format_day. destruct (civil _) as [[y m] d]. rewrite chars_of_chars.
    apply (ascii_bytes_utf8 (λ c, is_digit c ∨ c = "-"%char)).
    + intros c [Hc| ->]; [unfold is_digit, RuneSelf in *; lia|done].
    + apply Forall_app. split; [apply appendInt_bytes|]. constructor; [by right|].
      apply Forall_app. split; [apply appendInt_bytes|]. constructor; [by right|apply appendInt_bytes].
  - apply (valid_utf8_app [_]); [by apply ascii_utf8|]. apply valid_utf8_app; [|by apply ascii_utf8].
    apply valid_utf8_app; [|by apply ascii_utf8]. destruct (sanitizeFilename_bytes (SessionID meta)) as [Hb _].
    eapply ascii_bytes_utf8; [|exact Hb]. intros c. unfold name_byte, keep_rune, RuneSelf. lia.
Qed.

Lemma LocalDir_open root tnow t meta t1 f loc :
  sink_open (LocalDir root) tnow t meta = (t1, Ret (Some f, loc)) → OpenCast root tnow t meta = (t1, Ret (f, loc)).
Proof. cbn. destruct (OpenCast root tnow t meta) as [t2 [[f' loc']|x|]]; cbn; intros; by simplify_eq. Qed.

(** The session id finds its latest recording among the newest [n]. *)
Lemma find_latest (n : nat) before d after sid :
  completed d → clean (EntrySessionID d) = sid →
  Forall (λ e, completed e → clean (EntrySessionID e) ≠ sid) after →
  (length (filter completed after) < n)%nat →
  find_session (take n (reverse (session_of <$> filter completed (before ++ d :: after)))) sid = Some (session_of d).
Proof.
  intros Hd Hid Hafter Hlen. rewrite filter_app, filter_cons_True, fmap_app, fmap_cons by done.
  rewrite reverse_app, reverse_cons, <-(assoc_L (++)). cbn [app].
  rewrite take_app_ge by (rewrite length_reverse, length_fmap; lia).
  destruct (n - _)%nat as [|m] eqn:Hm; [rewrite length_reverse, length_fmap in Hm; lia|]. cbn [take].
  apply find_first_Some. do 2 eexists. split; [reflexivity|]. split; [by apply bool_decide_eq_true|].
  apply Forall_reverse, Forall_fmap, Forall_forall. intros e [He Hin]%list_elem_of_filter.
  rewrite Forall_forall in Hafter. cbn. apply bool_decide_eq_false. by apply Hafter.
Qed.

(** ** Properties *)
Section Properties.
Context {W : SshWire}.

(** C20: everything the server publishes is what the portal expects.  Each
    entry of its stream, whatever the clients and the interleaving of their
    connections and channels, has one of
    the package's actions and metadata that is empty or a JSON object; and when
    its time is one that JSON can write, its message is decoded by the audit
    page to the entry's own fields, text that is not UTF-8 repaired and the
    metadata unchanged, and by the sessions page to a session exactly when a
    recording was completed. *)
Theorem published_entries_decode {S : Type} `{CastSink S} (timeout : Z) (sink : option S) (t : fs)
    (ms : list server_move) (s : server (S := S)) (e : Entry) :
  server_run timeout sink (server_start t) ms = Some s → e ∈ stream (sv_log s) →
  Action e ∈ actions ∧ metadata_ok (Metadata e) ∧
  ∀ data, message e = Some data →
    decodeAuditEvent data =
      (if OccurredAt e =? zero_instant then None
       else Some {| evID := clean (ID e); evAction := Action e; evOccurredAt := Some (OccurredAt e);
                    evActor := clean (EntryUser e); evSubject := clean (EntryTarget e);
                    evIP := clean (EntryClientIP e); evSessionID := clean (EntrySessionID e);
                    evReason := clean (EntryReason e); evDetail := Metadata e |}) ∧
    (is_Some (decodeSession data) ↔ Action e = ActionRecordingComplete).
Proof.
  intros Hr He. pose proof (stream_entries timeout sink t ms s Hr) as Hall. rewrite Forall_forall in Hall.
  destruct (Hall e He) as [Ha Hmd]. split; [done|]. split; [done|]. intros data Hm.
  rewrite (decodeAuditEvent_message e data Hm Ha), (decodeSession_message e data Hm Ha). split.
  - unfold event_of. rewrite (proj1 (clean_action _ Ha)), (metadata_sanitized _ Hmd). reflexivity.
  - case_bool_decide as Hc; split; [done|by eexists|by intros [? ?]|done].
Qed.

(** C29: the sessions page lists the latest recordings.  A tracker built with a
    source holds, after any entries of the stream, the recordings among them
    that JSON can write, latest first, up to its limit: the configured one, or
    200 when that is not positive. *)
Theorem sessions_listed `{JournalLaws} (cfg : SessionTrackerConfig) (tr : TrackerConfig Session) (es : list Entry) :
  NewSessionTracker cfg = Ret tr → Forall (λ e, Action e ∈ actions) es →
  Sessions tr (omap message es) =
    take (Z.to_nat (if MaxSessions cfg <=? 0 then DefaultMaxSessions else MaxSessions cfg))
      (reverse (session_of <$> filter completed es)).
Proof.
  intros Ht Hes. rewrite (Sessions_latest cfg tr _ Ht), decoded_sessions by done.
  by apply NewSessionTracker_inv in Ht as (_ & _ & _ & _ & ->).
Qed.

(** C19: a recorded session can be watched, from the terminal request on the
    wire to the bytes of the reply.  Let a terminal session be recorded by the
    local sink as in [recording_isolated], and let the portal's cast store have
    the sink's root.  Once the channel is done, the entry it published as its
    last action, read back through the journal among whatever else was and is
    published, makes GET /sessions/<id>/cast of an authorised request return
    exactly the header and events that the session recorded, until the session
    ages out of the ring or the same session id completes again; whatever the
    other channels write in the meantime. *)
Theorem recorded_session_replays `{JournalLaws} (chans : list (channel LocalDirSink)) (t t1 : fs) (root : list string)
    (ms ms' : list move) (i : nat) (p : Proxier LocalDirSink) (nc : NewChannel) (env : chan_env)
    (pf : option portForwardAuditor) (rc : option (channelRecorder LocalDirSink)) (bi bo : Z)
    (pre post : list pipe_event) (r : Request) (e : req_env) (w h : Z) (f : list string) (loc : string)
    (rc0 : Recorder) (cwd : string) (cfg : SessionTrackerConfig) (tr : TrackerConfig Session)
    (version : string) (rendered : Z) (au : option (list AuditEvent)) :
  root ≠ [] → alldir t root → valid_utf8 (chars (path_string root)) →
  p_sink p = Some (LocalDir (path_string root)) →
  p_sessionID p ≠ "" → valid_utf8 (chars (p_sessionID p)) →
  ChannelType nc = "session" →
  pipe env = pre ++ UserRequest r e :: post → Forall (λ ev, starts p ev = false) pre →
  permitsRequest p (Type_ r) = true → Type_ r = "pty-req" → parsePTYReq (Payload r) = Ret (w, h) →
  rfc3339_range (now (rec_close_draw env)) → NewSessionTracker cfg = Ret tr →
  let st := conn_run ms (conn_start chans t) in
  cs_running st !! i = Some ((p, nc, env) : channel LocalDirSink, Piping pf rc bi bo (UserRequest r e :: post)) →
  (∀ s, cs_fs st !! (root ++ [format_day (now (start_draw e))]) ≠ Some (Symlink s)) →
  sink_open (LocalDir (path_string root)) (now (start_draw e)) (cs_fs st)
    {| SessionID := p_sessionID p; User := p_user p; Target := p_host p;
       Started := Some (now (start_draw e)) |} = (t1, Ret (Some f, loc)) →
  Recording.New (Some {| w_bytes := []; w_room := cast_room e |}) w h
    (p_user p +:+ "@" +:+ p_host p) (now (start_draw e)) = Ret rc0 →
  let st' := conn_run (Run i :: ms') st in
  cs_running st' !! i = Some ((p, nc, env) : channel LocalDirSink, Done) →
  let bytes := w_bytes (encoded (rec_run rc0 (post ≫= rec_ops_of p))) in
  ∃ acts done_entry, of_chan i (cs_trace st') = acts ++ [Append done_entry] ∧
    ∀ before after,
      Forall (λ x, Action x ∈ actions) (before ++ after) →
      Forall (λ x, completed x → clean (EntrySessionID x) ≠ p_sessionID p) after →
      Z.of_nat (length (filter completed after)) < Max tr →
      Routes {| Version := version; Now := rendered;
                SessionStore := Some (Sessions tr (omap message (before ++ done_entry :: after)));
                CastStore := Some (Open {| cast_root := path_string root |} cwd (cs_fs st'));
                AuditStore := au |} true ["sessions"; p_sessionID p; "cast"] =
      Ret {| code := StatusOK; content_type := Some "text/plain; charset=utf-8";
             content_length := if 0 <? Z.of_nat (length bytes) then Some (Z.of_nat (length bytes)) else None;
             no_store := true; resp_body := Cast bytes |}.
Proof.
  intros Hroot Hdir Hru Hs Hsid Hsu Ht Hpipe Hpre Hperm Hty Hparse Hr Htr st Hi Hns Hopen Hnew st' Hdone bytes.
  destruct (recorded_session chans t t1 _ ms ms' i p nc env pf rc bi bo pre post r e w h f loc rc0
    Hs Hsid Ht Hpipe Hpre Hperm Hty Hparse Hi Hopen Hnew Hdone)
    as (Hf & _ & acts & d & Hacts & Ha & Hloc & Hdid & _ & Hat & Hdirs).
  exists acts, d. split; [exact Hacts|]. intros before after Hes Hafter Hmax.
  assert (alldir (cs_fs st) root) as Hdir'.
  { destruct Hdir as [Hp Hd]. split; [done|]. intros ps Hps. specialize (Hd ps Hps). unfold node_at in *.
    destruct ps; [done|]. by apply (conn_run_dir [] ms). }
  assert (OpenCast (path_string root) (now (start_draw e)) (cs_fs st)
    {| SessionID := p_sessionID p; User := p_user p; Target := p_host p; Started := Some (now (start_draw e)) |}
    = (t1, Ret (f, loc))) as HO by (by apply LocalDir_open).
  destruct (Open_recorded cwd (cs_fs st) t1 (cs_fs st') root (now (start_draw e))
    {| SessionID := p_sessionID p; User := p_user p; Target := p_host p; Started := Some (now (start_draw e)) |}
    f loc bytes Hroot Hdir' Hns HO Hf Hdirs) as (-> & -> & HOpen).
  assert (completed d) as Hd by (split; [done|by rewrite Hat]).
  assert (clean (EntrySessionID d) = p_sessionID p) as Hcid by (by rewrite Hdid, clean_utf8).
  assert (sRecordingPath (session_of d) = RecordingPath d) as Hpath.
  { cbn. rewrite Hloc. by apply clean_utf8, cast_path_utf8. }
  rewrite (Sessions_latest cfg tr _ Htr), decoded_sessions.
  2: { apply Forall_app in Hes as [? ?]. apply Forall_app. split; [done|]. constructor; [|done]. rewrite Ha. known. }
  unfold Routes. cbn [negb andb]. unfold handleSessionCast. cbn [SessionStore CastStore].
  assert (length (filter completed after) < Z.to_nat (Max tr))%nat as Hlt by (clear -Hmax; lia).
  rewrite (find_latest _ before d after (p_sessionID p) Hd Hcid Hafter Hlt), Hpath, Hloc.
  rewrite bool_decide_eq_false_2 by apply path_string_nonempty. rewrite HOpen. reflexivity.
Qed.
End Properties.

(** ** Witnesses *)
Section Witnesses.
#[local] Existing Instance rfc_wire.
#[local] Existing Instance identity_tables.
#[local] Existing Instance ring_journal.
#[local] Existing Instance ring_journal_laws.

Definition opened1 : Entry := emit (session_events env_ok perms1) draw1 ActionSessionOpened "" [].

Lemma published_entries_decode_witness :
  ∃ data ev, message opened1 = Some data ∧ decodeAuditEvent data = Some ev ∧ evAction ev = ActionSessionOpened.
Proof.
  destruct (published_entries_decode (S := LocalDirSink) 30 None ∅ busy (served busy) opened1 busy_run
    ltac:(vm_compute; left)) as (_ & _ & Hd).
  destruct (message opened1) as [data|] eqn:Hm; [|vm_compute in Hm; discriminate].
  destruct (Hd data eq_refl) as [He _]. exists data. eexists. split; [reflexivity|]. split; [exact He|reflexivity].
Defined.

Definition tracker1 : TrackerConfig Session :=
  {| Source := Some 1%nat; Max := 200; Label := "ssh_audit/sessions"; Decode := decodeSession; Less := None |}.
Definition done1 : Entry :=
  {| ID := "u1"; Action := ActionRecordingComplete; EntrySessionID := "sess-1"; EntryUser := "user:alice";
     EntryPrincipals := "alice"; EntryTarget := "db-1:22"; EntryRemoteUser := "alice"; EntryClientIP := "10.0.0.9";
     RecordingPath := "/casts/sess-1.cast"; EntryReason := "";
     Metadata := Marshal (JMap [("duration_seconds", round6 (Seconds (1500 * 10^6)))]); OccurredAt := now draw1 |}.

Lemma sessions_listed_witness :
  Sessions tracker1 (omap message [opened1; done1]) = [session_of done1] ∧ sDuration (session_of done1) = 1500 * 10^6.
Proof.
  split; [|vm_compute; reflexivity].
  rewrite (sessions_listed {| SessionSource := Some 1%nat; MaxSessions := 0 |} tracker1 [opened1; done1]).
  - vm_compute. reflexivity.
  - reflexivity.
  - apply Forall_cons_2; [cbn; known|]. apply Forall_singleton. cbn. known.
Defined.

Lemma recorded_session_replays_witness :
  let st := conn_run (Run 0 :: after2) (conn_run before2 (conn_start pool2 fs1)) in
  ∃ acts d, of_chan 0 (cs_trace st) = acts ++ [Append d] ∧
    ∃ resp, Routes {| Version := "v1"; Now := 0;
              SessionStore := Some (Sessions tracker1 (omap message [opened1; d; opened1]));
              CastStore := Some (Open store1 "/" (cs_fs st)); AuditStore := None |} true ["sessions"; "sess-1"; "cast"] =
      Ret resp ∧ resp_body resp = Cast (w_bytes (encoded (rec_run rec2 [OpOutput 9 (chars "hi")]))).
Proof.
  destruct (recorded_session_replays pool2 fs1
    (sink_open (LocalDir (path_string root1)) (now draw1) store2 meta2).1 root1 before2 after2 0 proxier1 session1 typing1
    None (Some (newChannelRecorder (LocalDir (path_string root1)) "sess-1" "user:alice" "db-1:22" attr1))
    1 0 [UserChunk (chars "x")] [TargetChunk 9 (chars "hi") 2] ptyreq1 reqenv1 80 24
    (cast_path root1 0 meta2) (path_string (cast_path root1 0 meta2)) rec2 "/"
    {| SessionSource := Some 1%nat; MaxSessions := 0 |} tracker1 "v1" 0 None)
    as (acts & d & Hacts & Hget).
  - discriminate.
  - exact root1_alldir.
  - apply ascii_utf8. reflexivity.
  - reflexivity.
  - discriminate.
  - apply ascii_utf8. reflexivity.
  - reflexivity.
  - reflexivity.
  - repeat constructor.
  - vm_compute. reflexivity.
  - reflexivity.
  - vm_compute. reflexivity.
  - vm_compute. split; discriminate.
  - reflexivity.
  - vm_compute. reflexivity.
  - intros s. vm_compute. discriminate.
  - apply pair_snd. vm_compute. reflexivity.
  - vm_compute. reflexivity.
  - vm_compute. reflexivity.
  - exists acts, d. split; [exact Hacts|]. eexists. split.
    + apply (Hget [opened1] [opened1]).
      * apply Forall_cons_2; [cbn; known|]. apply Forall_singleton. cbn. known.
      * apply Forall_singleton. intros [Hc _]. discriminate Hc.
      * vm_compute. reflexivity.
    + reflexivity.
Defined.
End Witnesses.
