(* ===== verification/Tunneld.v ===== *)
(** * The tunnel agent: yamux settings, dialer, forwarder

    [internal/common/tunnel/yamux.go], [internal/tunneld/tunnel/dialer.go] and
    [internal/tunneld/forward/forwarder.go].  The agent keeps one connection
    to the proxy alive with exponential backoff, and joins every stream the
    proxy opens to the local sshd. *)

From Stdlib Require Import ZArith Lia Ascii.
From Stdlib Require Import Floats.SpecFloat.
From stdpp Require Import prelude strings list.
From S2P Require Import Prelude GoStrings GoTime Recording.

Local Open Scope Z_scope.
Local Open Scope go_scope.

(** ** Shared yamux settings *)
Module Yamux.

(** The fields of [yamux.Config]; [Rest] stands for those the code leaves at
    the library's defaults. *)
Record YamuxConfig := {
  EnableKeepAlive : bool; KeepAliveInterval_ : Z; ConnectionWriteTimeout_ : Z;
  MaxStreamWindowSize_ : Z; LogDiscarded : bool; Rest : list Z
}.

Definition KeepAliveInterval : Z := 15 * second.
Definition ConnectionWriteTimeout : Z := 30 * second.
Definition MaxStreamWindowSize : Z := 4 * 1024 * 1024.

Inductive ConfigError := ConfigNil | KeepAliveDrifted | WriteTimeoutDrifted | WindowDrifted.

Section WithDefaults.
(** [yamux.DefaultConfig()] *)
Context (DefaultConfig : YamuxConfig).

Definition baseConfig : YamuxConfig :=
  {| EnableKeepAlive := true; KeepAliveInterval_ := KeepAliveInterval;
     ConnectionWriteTimeout_ := ConnectionWriteTimeout;
     MaxStreamWindowSize_ := MaxStreamWindowSize; LogDiscarded := true; Rest := Rest DefaultConfig |}.
Definition ClientConfig := baseConfig.
Definition ServerConfig := baseConfig.
End WithDefaults.

Definition ValidateConfig (cfg : option YamuxConfig) : outcome ConfigError unit :=
  match cfg with
  | None => Err ConfigNil
  | Some cfg =>
      require KeepAliveInterval_ cfg =? KeepAliveInterval else KeepAliveDrifted;;
      require ConnectionWriteTimeout_ cfg =? ConnectionWriteTimeout else WriteTimeoutDrifted;;
      require MaxStreamWindowSize_ cfg =? MaxStreamWindowSize else WindowDrifted;;
      Ret tt
  end.

(** Both ends speak the same yamux.  Whatever the library's defaults, the
    client and the server configuration are equal and validate, the keepalive
    is on and shorter than the write timeout; and [ValidateConfig] accepts a
    configuration exactly when its three settings are the shared ones. *)
Theorem yamux_configs_agree (DefaultConfig : YamuxConfig) :
  ClientConfig DefaultConfig = ServerConfig DefaultConfig ∧
  ValidateConfig (Some (ClientConfig DefaultConfig)) = Ret tt ∧
  EnableKeepAlive (ServerConfig DefaultConfig) = true ∧
  KeepAliveInterval_ (ServerConfig DefaultConfig) < ConnectionWriteTimeout_ (ServerConfig DefaultConfig) ∧
  ∀ cfg, ValidateConfig (Some cfg) = Ret tt ↔
    KeepAliveInterval_ cfg = KeepAliveInterval ∧ ConnectionWriteTimeout_ cfg = ConnectionWriteTimeout ∧
    MaxStreamWindowSize_ cfg = MaxStreamWindowSize.
Proof.
  do 4 (split; [done|]). intros cfg. unfold ValidateConfig, guard_else.
  destruct (Z.eqb_spec (KeepAliveInterval_ cfg) KeepAliveInterval); cbn; [|naive_solver].
  destruct (Z.eqb_spec (ConnectionWriteTimeout_ cfg) ConnectionWriteTimeout); cbn; [|naive_solver].
  destruct (Z.eqb_spec (MaxStreamWindowSize_ cfg) MaxStreamWindowSize); cbn; naive_solver.
Qed.
End Yamux.

(** ** The dialer *)
Module Dialer.

(** [BackoffJitter] is a float64. *)
Record Config := {
  Target : string; TLSConfig : option nat; Handler : option nat;
  DialTimeout : Z; InitialBackoff : Z; MaxBackoff : Z; BackoffJitter : spec_float
}.

Definition DefaultDialTimeout : Z := 10 * second.
Definition DefaultInitialBackoff : Z := 1 * second.
Definition DefaultMaxBackoff : Z := 30 * second.
Definition DefaultBackoffJitter : spec_float := f64_div (f64_of_Z 1) (f64_of_Z 5).

Inductive ConfigError :=
  | TargetRequired | TLSConfigRequired | HandlerRequired
  | BackoffOrder (initial max : Z) | JitterRange.

Definition or_default (z d : Z) : Z := if z =? 0 then d else z.

Definition New (cfg : Config) : outcome ConfigError Config :=
  require negb (bool_decide (Target cfg = "")) else TargetRequired;;
  require bool_decide (is_Some (TLSConfig cfg)) else TLSConfigRequired;;
  require bool_decide (is_Some (Handler cfg)) else HandlerRequired;;
  let initial := or_default (InitialBackoff cfg) DefaultInitialBackoff in
  let max := or_default (MaxBackoff cfg) DefaultMaxBackoff in
  require initial <=? max else BackoffOrder initial max;;
  let jitter := if f64_is_zero (BackoffJitter cfg) then DefaultBackoffJitter else BackoffJitter cfg in
  require negb (f64_lt jitter f64_zero || f64_le (f64_of_Z 1) jitter) else JitterRange;;
  Ret {| Target := Target cfg; TLSConfig := TLSConfig cfg; Handler := Handler cfg;
         DialTimeout := or_default (DialTimeout cfg) DefaultDialTimeout;
         InitialBackoff := initial; MaxBackoff := max; BackoffJitter := jitter |}.

Lemma New_fields cfg c :
  New cfg = Ret c →
  Target c = Target cfg ∧ InitialBackoff c = or_default (InitialBackoff cfg) DefaultInitialBackoff ∧
  MaxBackoff c = or_default (MaxBackoff cfg) DefaultMaxBackoff.
Proof. unfold New. intros H. inv_outcome. done. Qed.

Section Dialer.
Context (cfg : Config).

Definition nextBackoff (delay : Z) : Z :=
  let next := wrap64 (delay * 2) in
  if MaxBackoff cfg <? next then MaxBackoff cfg else next.

(** [rand] is what [Rand] returns. *)
Definition applyJitter (rand : spec_float) (delay : Z) : Z :=
  if f64_is_zero (BackoffJitter cfg) then delay
  else
    let span := f64_mul (f64_of_Z delay) (BackoffJitter cfg) in
    let offset := f64_mul (SFsub 53 1024 (f64_mul rand (f64_of_Z 2)) (f64_of_Z 1)) span in
    let out := int_of_f64 (f64_add (f64_of_Z delay) offset) in
    if out <? 0 then 0 else out.

(** [DialOnce]: TLS, then the yamux client over it; a connection whose yamux
    client cannot be made is closed. *)
Inductive dial_effect := DialTLS (target : string) (timeout : Z) | CloseConn (conn : nat).
Definition DialOnce (dialled : outcome string nat) (yamux_client : nat → outcome string nat)
    : list dial_effect * outcome string nat :=
  let start := DialTLS (Target cfg) (DialTimeout cfg) in
  match dialled with
  | Err e => ([start], Err ("dial " +:+ Target cfg +:+ ": " +:+ e))
  | Panic => ([start], Panic)
  | Ret conn =>
      match yamux_client conn with
      | Ret session => ([start], Ret session)
      | Err e => ([start; CloseConn conn], Err ("yamux client: " +:+ e))
      | Panic => ([start], Panic)
      end
  end.

(** [sleep]: whether it returns the context's error; [fired] is the context
    ending before the timer does, or being done already. *)
Definition sleep (dur : Z) (fired : bool) : bool := if dur <=? 0 then false else fired.

(** What one turn of the loop meets: the dial fails (with the draw of the
    jitter, and whether the context ends during the sleep), or it connects,
    the handler runs, and the context is done or not afterwards. *)
Inductive turn :=
  | DialFails (rand : spec_float) (cancelled : bool)
  | Connects (session : nat) (cancelled : bool).

Inductive effect :=
  | Sleep (base jittered : Z)
  | RunHandler (session : nat)
  | CloseSession (session : nat).

(** [Run] from the backoff [delay]: what it does, and whether it returned. *)
Fixpoint Run_from (delay : Z) (turns : list turn) : list effect * bool :=
  match turns with
  | [] => ([], false)
  | DialFails rand cancelled :: rest =>
      let dur := applyJitter rand delay in
      let s := Sleep delay dur in
      if sleep dur cancelled then ([s], true)
      else if cancelled then ([s], true)  (* the check at the head of the loop *)
      else let '(es, r) := Run_from (nextBackoff delay) rest in (s :: es, r)
  | Connects s cancelled :: rest =>
      if cancelled then ([RunHandler s; CloseSession s], true)
      else let '(es, r) := Run_from (InitialBackoff cfg) rest in (RunHandler s :: CloseSession s :: es, r)
  end.
Definition Run (turns : list turn) : list effect * bool := Run_from (InitialBackoff cfg) turns.

Lemma Run_from_fails delay rand (cancelled : bool) rest :
  Run_from delay (DialFails rand cancelled :: rest) =
    let s := Sleep delay (applyJitter rand delay) in
    if cancelled then ([s], true)
    else let '(es, r) := Run_from (nextBackoff delay) rest in (s :: es, r).
Proof. cbn [Run_from]. unfold sleep. by destruct (_ <=? 0), cancelled. Qed.

(** The turn a dial makes. *)
Definition turn_of (dialled : outcome string nat) (yamux_client : nat → outcome string nat)
    (rand : spec_float) (cancelled : bool) : turn :=
  match (DialOnce dialled yamux_client).2 with
  | Ret session => Connects session cancelled
  | _ => DialFails rand cancelled
  end.

(** The backoff after [k] consecutive failures. *)
Fixpoint backoff_after (k : nat) : Z :=
  match k with O => InitialBackoff cfg | S k => nextBackoff (backoff_after k) end.

Definition base_delay (e : effect) : option Z := match e with Sleep b _ => Some b | _ => None end.

(** The number of failures since the last connection, before each failure. *)
Fixpoint failure_runs (k : nat) (turns : list turn) : list nat :=
  match turns with
  | [] => []
  | DialFails _ _ :: rest => k :: failure_runs (S k) rest
  | Connects _ _ :: rest => failure_runs 0 rest
  end.
Definition cancels (t : turn) : bool := match t with DialFails _ c | Connects _ c => c end.
End Dialer.

Lemma nextBackoff_range cfg d :
  0 < d ≤ MaxBackoff cfg → MaxBackoff cfg < 2^62 → nextBackoff cfg d = Z.min (MaxBackoff cfg) (d * 2).
Proof.
  intros Hd Hm. unfold nextBackoff. rewrite wrap64_id by (unfold int64_range; lia).
  destruct (Z.ltb_spec (MaxBackoff cfg) (d * 2)); lia.
Qed.

Lemma backoff_after_eq cfg k :
  0 < InitialBackoff cfg ≤ MaxBackoff cfg → MaxBackoff cfg < 2^62 →
  backoff_after cfg k = Z.min (MaxBackoff cfg) (InitialBackoff cfg * 2 ^ Z.of_nat k) ∧
  0 < backoff_after cfg k ≤ MaxBackoff cfg.
Proof.
  intros Hi Hm. induction k as [|k [IH Hr]]; cbn [backoff_after]; [rewrite Z.mul_1_r; lia|].
  rewrite nextBackoff_range by done. rewrite Nat2Z.inj_succ, Z.pow_succ_r by lia.
  assert (0 < 2 ^ Z.of_nat k) by (apply Z.pow_pos_nonneg; lia).
  rewrite IH in *. split; [|lia]. nia.
Qed.

Lemma Run_from_delays cfg turns k :
  Forall (λ t, cancels t = false) turns →
  omap base_delay (Run_from cfg (backoff_after cfg k) turns).1 =
    backoff_after cfg <$> failure_runs k turns.
Proof.
  intros Hall. revert k. induction Hall as [|t turns Ht _ IH]; intros k; [done|].
  destruct t as [rand c|s c]; cbn in Ht; subst c; rewrite ?Run_from_fails; cbn [Run_from failure_runs andb].
  - specialize (IH (S k)). cbn [backoff_after] in IH.
    destruct (Run_from cfg (nextBackoff cfg (backoff_after cfg k)) turns) as [es r].
    cbn [fst] in *. csimpl. by rewrite IH.
  - specialize (IH 0%nat). cbn [backoff_after] in IH.
    destruct (Run_from cfg (InitialBackoff cfg) turns) as [es r]. cbn [fst] in *. csimpl. by rewrite IH.
Qed.

(** The reconnect schedule.  With a positive initial backoff not above the
    maximum, the base of the n-th sleep is the initial backoff doubled once
    per dial failure since the last successful connection and capped at the
    maximum; it is always positive, so a dead proxy is never dialled in a tight
    loop, and a successful connection starts the schedule over. *)
Theorem dialer_backoff_schedule (cfg : Config) (turns : list turn) :
  0 < InitialBackoff cfg ≤ MaxBackoff cfg → MaxBackoff cfg < 2^62 →
  Forall (λ t, cancels t = false) turns →
  omap base_delay (Run cfg turns).1 =
    (λ k, Z.min (MaxBackoff cfg) (InitialBackoff cfg * 2 ^ Z.of_nat k)) <$> failure_runs 0 turns ∧
  Forall (λ d, 0 < d ≤ MaxBackoff cfg) (omap base_delay (Run cfg turns).1).
Proof.
  intros Hi Hm Hall.
  assert (omap base_delay (Run cfg turns).1 = backoff_after cfg <$> failure_runs 0 turns) as ->
    by exact (Run_from_delays cfg turns 0 Hall).
  split.
  - apply list_fmap_ext. intros i k _. by apply backoff_after_eq.
  - apply Forall_fmap, Forall_true. intros k. by apply backoff_after_eq.
Qed.

(** Sessions that were handed to the handler are closed. *)
Definition opened_session (e : effect) : option nat := match e with RunHandler s => Some s | _ => None end.
Definition closed_session (e : effect) : option nat := match e with CloseSession s => Some s | _ => None end.

(** [Run] leaks no session and stops when told.  Every session handed to
    the handler is closed afterwards, in order, and [Run] returns exactly when
    the context ends in some turn. *)
Theorem dialer_run_sound (cfg : Config) (turns : list turn) :
  let '(es, returned) := Run cfg turns in
  omap opened_session es = omap closed_session es ∧
  (returned = true ↔ Exists (λ t, cancels t = true) turns).
Proof.
  unfold Run. generalize (InitialBackoff cfg) at 1. induction turns as [|t turns IH]; intros d.
  { split; [done|]. split; [done|]. intros H. by apply Exists_nil in H. }
  destruct t as [rand c|s c]; rewrite ?Run_from_fails; cbn [Run_from].
  - destruct c; [split; [done|]; split; [by left|done]|].
    specialize (IH (nextBackoff cfg d)). destruct (Run_from cfg _ turns) as [es r].
    destruct IH as (H1 & H2). split; [done|]. rewrite Exists_cons, H2. cbn. naive_solver.
  - destruct c; [split; [done|]; split; [by left|done]|].
    specialize (IH (InitialBackoff cfg)). destruct (Run_from cfg _ turns) as [es r].
    destruct IH as (H1 & H2). split; [csimpl; by rewrite H1|]. rewrite Exists_cons, H2. cbn. naive_solver.
Qed.

(** C40: the backoff only covers failed dials.  However fast the proxy drops the
    sessions it accepts, the loop dials again without any sleep: [n] dials that
    connect make [n] handlers and not one wait. *)
Theorem dropped_session_redials_at_once (cfg : Config) (dials : list (nat * nat)) (rand : spec_float) :
  let turns := (λ '(conn, s), turn_of cfg (Ret conn) (λ _, Ret s) rand false) <$> dials in
  omap base_delay (Run cfg turns).1 = [] ∧
  omap opened_session (Run cfg turns).1 = snd <$> dials ∧ (Run cfg turns).2 = false.
Proof.
  cbv zeta. unfold Run. generalize (InitialBackoff cfg) at 1 2 3.
  induction dials as [|[conn s] dials IH]; intros d; [done|].
  rewrite fmap_cons. cbn [turn_of DialOnce snd Run_from]. specialize (IH (InitialBackoff cfg)).
  destruct (Run_from cfg (InitialBackoff cfg) _) as [es r]. cbn [fst snd] in *.
  destruct IH as (H1 & H2 & H3). csimpl. rewrite H2. done.
Qed.

(** ** Witness *)
Definition cfg1 : Config :=
  {| Target := "proxy:2223"; TLSConfig := Some 1%nat; Handler := Some 1%nat; DialTimeout := DefaultDialTimeout;
     InitialBackoff := DefaultInitialBackoff; MaxBackoff := DefaultMaxBackoff;
     BackoffJitter := DefaultBackoffJitter |}.
Definition half : spec_float := f64_div (f64_of_Z 1) (f64_of_Z 2).

Lemma dialer_backoff_schedule_witness :
  omap base_delay (Run cfg1 [DialFails half false; DialFails half false; Connects 1 false; DialFails half false]).1
  = [1 * second; 2 * second; 1 * second].
Proof.
  destruct (dialer_backoff_schedule cfg1
    [DialFails half false; DialFails half false; Connects 1 false; DialFails half false]) as [H _].
  - vm_compute. split; [reflexivity|discriminate].
  - vm_compute. reflexivity.
  - repeat constructor.
  - rewrite H. reflexivity.
Defined.
End Dialer.

(** ** The forwarder *)
Module Forward.

Record Config := { LocalAddr : string; DialTimeout : Z }.
Definition DefaultLocalAddr : string := "127.0.0.1:22".
Definition DefaultDialTimeout : Z := 5 * second.

Definition New (cfg : Config) : Config :=
  {| LocalAddr := if bool_decide (LocalAddr cfg = "") then DefaultLocalAddr else LocalAddr cfg;
     DialTimeout := if DialTimeout cfg =? 0 then DefaultDialTimeout else DialTimeout cfg |}.

(** Errors the copies and [AcceptStream] return, by the sentinel they wrap. *)
Inductive io_error := EOF | ErrClosedPipe | ErrStreamClosed | ErrSessionShutdown | ErrNetClosed | OtherIO (e : string).

Definition isExpectedCopyErr (e : option io_error) : bool :=
  match e with
  | None => true
  | Some (OtherIO _) => false
  | Some _ => true
  end.

(** [Handle]: the streams served, and the returned error; [None] while it
    blocks in [AcceptStream]. *)
Inductive accept := Stream (id : nat) | AcceptFails (e : io_error) (ctx_done : bool).
Inductive handle_error := HandleCtx | HandleAccept (e : string).

Fixpoint Handle (accepts : list accept) : list nat * option (outcome handle_error unit) :=
  match accepts with
  | [] => ([], None)
  | Stream id :: rest => let '(ids, r) := Handle rest in (id :: ids, r)
  | AcceptFails e ctx_done :: _ =>
      ([], Some (if ctx_done then Err HandleCtx
                 else match e with
                      | ErrSessionShutdown | EOF => Ret tt
                      | ErrClosedPipe => Err (HandleAccept "io: read/write on closed pipe")
                      | ErrStreamClosed => Err (HandleAccept "stream closed")
                      | ErrNetClosed => Err (HandleAccept "use of closed network connection")
                      | OtherIO t => Err (HandleAccept t)
                      end))
  end.

(** [serveStream]: the stream is closed whatever happens; a local sshd that
    cannot be dialled closes this stream only. *)
Inductive stream_effect := DialLocal (addr : string) (timeout : Z) | Pipe (local : nat) | CloseLocal (local : nat) | CloseStream.
Definition serveStream (cfg : Config) (dialled : outcome string nat) : list stream_effect :=
  DialLocal (LocalAddr cfg) (DialTimeout cfg) ::
  match dialled with
  | Ret local => [Pipe local; CloseLocal local; CloseStream]
  | _ => [CloseStream]
  end.

(** *** [pipe]: two copies, a once-only close, a watcher of the context *)

(** One direction: what its source still holds, whether the source has ended,
    what was delivered, and whether the copy has returned. *)
Record flow := { pending : list (list ascii); ended : bool; delivered : list (list ascii); copy_done : bool }.
Record pipe_st := { to_local : flow; to_stream : flow; closed : bool; ctx_ended : bool }.

Inductive dir := ToLocal | ToStream.
Definition flow_of (d : dir) (st : pipe_st) : flow := match d with ToLocal => to_local st | ToStream => to_stream st end.
Definition put_flow (d : dir) (f : flow) (st : pipe_st) : pipe_st :=
  match d with
  | ToLocal => {| to_local := f; to_stream := to_stream st; closed := closed st; ctx_ended := ctx_ended st |}
  | ToStream => {| to_local := to_local st; to_stream := f; closed := closed st; ctx_ended := ctx_ended st |}
  end.
Definition close_both (st : pipe_st) : pipe_st :=
  {| to_local := to_local st; to_stream := to_stream st; closed := true; ctx_ended := ctx_ended st |}.

Inductive label :=
  | Produce (d : dir) (b : list ascii)
  | End (d : dir)
  | Cancel
  | Copy (d : dir)
  | CopyFails (d : dir)
  | Watch.
Definition by_pipe (l : label) : bool := match l with Copy _ | Watch => true | _ => false end.
Definition advances (l : label) : bool := match l with Copy _ | CopyFails _ | Watch => true | _ => false end.

(** One direction's goroutine after its [io.Copy] has returned. *)
Definition finish_copy (d : dir) (st : pipe_st) : pipe_st :=
  let f := flow_of d st in
  close_both (put_flow d {| pending := pending f; ended := ended f;
                            delivered := delivered f; copy_done := true |} st).

(** A copy moves a chunk, or returns, and then closes both ends: at the end of
    its source, when either end has been closed, or on an error of either
    connection ([CopyFails], which the peers cause). *)
Definition pipe_step (st : pipe_st) (l : label) : option pipe_st :=
  match l with
  | Produce d b =>
      let f := flow_of d st in
      if ended f then None
      else Some (put_flow d {| pending := pending f ++ [b]; ended := false;
                               delivered := delivered f; copy_done := copy_done f |} st)
  | End d =>
      let f := flow_of d st in
      Some (put_flow d {| pending := pending f; ended := true;
                          delivered := delivered f; copy_done := copy_done f |} st)
  | Cancel => Some {| to_local := to_local st; to_stream := to_stream st; closed := closed st; ctx_ended := true |}
  | Copy d =>
      let f := flow_of d st in
      if copy_done f then None
      else if closed st then Some (finish_copy d st)
      else match pending f with
      | b :: q => Some (put_flow d {| pending := q; ended := ended f;
                                      delivered := delivered f ++ [b]; copy_done := false |} st)
      | [] => if ended f then Some (finish_copy d st) else None
      end
  | CopyFails d => if copy_done (flow_of d st) then None else Some (finish_copy d st)
  | Watch => if ctx_ended st && negb (closed st) then Some (close_both st) else None
  end.

Fixpoint pipe_run (st : pipe_st) (ls : list label) : option pipe_st :=
  match ls with
  | [] => Some st
  | l :: ls => st' ← pipe_step st l; pipe_run st' ls
  end.
Definition fresh_flow : flow := {| pending := []; ended := false; delivered := []; copy_done := false |}.
Definition pipe_init : pipe_st :=
  {| to_local := fresh_flow; to_stream := fresh_flow; closed := false; ctx_ended := false |}.
Definition returned (st : pipe_st) : bool := copy_done (to_local st) && copy_done (to_stream st).

Definition flow_work (f : flow) : nat := (length (pending f) + if copy_done f then 0 else 1)%nat.
Definition work (st : pipe_st) : nat :=
  (flow_work (to_local st) + flow_work (to_stream st) + if closed st then 0 else 1)%nat.

Lemma forward_work_step st l st' : advances l = true → pipe_step st l = Some st' → (work st' < work st)%nat.
Proof.
  intros Hl Hst. destruct l as [| | |d|d|]; try done; cbn [pipe_step] in Hst.
  - destruct (copy_done (flow_of d st)) eqn:Hc; [done|].
    destruct (closed st) eqn:Hcl; [|destruct (pending (flow_of d st)) as [|b q] eqn:Hp;
      [destruct (ended (flow_of d st)); [|done]|]]; injection Hst as <-;
      destruct d; unfold work, flow_work; cbn in *; rewrite ?Hc, ?Hp, ?Hcl; cbn; lia.
  - destruct (copy_done (flow_of d st)) eqn:Hc; [done|]. injection Hst as <-.
    destruct d; unfold work, flow_work; cbn in *; rewrite Hc; destruct (closed st); lia.
  - destruct (ctx_ended st), (closed st) eqn:Hcl; try done. injection Hst as <-.
    unfold work. cbn. rewrite Hcl. lia.
Qed.

(** Something will end the pipe: it is closed already, the context has ended,
    or one of the sources has. *)
Definition ending (st : pipe_st) : Prop :=
  closed st = true ∨ ctx_ended st = true ∨ ended (to_local st) = true ∨ ended (to_stream st) = true.
(** A copy that has returned has closed both ends. *)
Definition closes (st : pipe_st) : Prop :=
  copy_done (to_local st) = true ∨ copy_done (to_stream st) = true → closed st = true.

Lemma closes_step st l st' : closes st → pipe_step st l = Some st' → closes st'.
Proof.
  unfold closes. intros Hc Hst. destruct l as [d b|d| |d|d|]; cbn [pipe_step] in Hst.
  - destruct (ended (flow_of d st)); [done|]. injection Hst as <-. by destruct d.
  - injection Hst as <-. by destruct d.
  - by injection Hst as <-.
  - destruct (copy_done (flow_of d st)) eqn:Hd; [done|].
    destruct (closed st) eqn:Hcl; [by injection Hst as <-|].
    destruct (pending (flow_of d st)) as [|b q]; [destruct (ended _); [|done]; by injection Hst as <-|].
    injection Hst as <-. destruct d; cbn in *; rewrite Hcl; intros [H|H]; try done; apply Hc; tauto.
  - destruct (copy_done (flow_of d st)); [done|]. by injection Hst as <-.
  - destruct (_ && _); [|done]. by injection Hst as <-.
Qed.

Lemma ending_step st l st' : ending st → pipe_step st l = Some st' → ending st'.
Proof.
  unfold ending. intros He Hst. destruct l as [d b|d| |d|d|]; cbn [pipe_step] in Hst.
  - destruct (ended (flow_of d st)) eqn:Hd; [done|]. injection Hst as <-. destruct d; cbn in *; intuition congruence.
  - injection Hst as <-. destruct d; cbn; tauto.
  - injection Hst as <-. cbn. tauto.
  - destruct (copy_done (flow_of d st)); [done|].
    destruct (closed st) eqn:Hcl; [injection Hst as <-; by left|].
    destruct (pending (flow_of d st)) as [|b q]; [destruct (ended (flow_of d st)); [|done]; injection Hst as <-; by left|].
    injection Hst as <-. destruct d; cbn; rewrite Hcl; tauto.
  - destruct (copy_done (flow_of d st)); [done|]. injection Hst as <-. by left.
  - destruct (_ && _); [|done]. injection Hst as <-. by left.
Qed.

Lemma pipe_stuck_returned st :
  closes st → ending st → (∀ l, by_pipe l = true → pipe_step st l = None) → returned st = true.
Proof.
  intros Hc He Hno. unfold returned.
  pose proof (Hno (Copy ToLocal) eq_refl) as H1. pose proof (Hno (Copy ToStream) eq_refl) as H2.
  pose proof (Hno Watch eq_refl) as H3. cbn [pipe_step flow_of] in *.
  destruct (closed st) eqn:Hcl.
  - destruct (copy_done (to_local st)); [|done]. by destruct (copy_done (to_stream st)).
  - exfalso. unfold closes in Hc.
    destruct (copy_done (to_local st)); [specialize (Hc (or_introl eq_refl)); congruence|].
    destruct (copy_done (to_stream st)); [specialize (Hc (or_intror eq_refl)); congruence|].
    destruct (pending (to_local st)); [|done]. destruct (pending (to_stream st)); [|done].
    destruct (ended (to_local st)) eqn:E1; [done|]. destruct (ended (to_stream st)) eqn:E2; [done|].
    destruct (ctx_ended st) eqn:E3; [done|]. unfold ending in He. rewrite Hcl, E1, E2, E3 in He. naive_solver.
Qed.

(** A forwarded stream always ends.  Once either side has ended or the
    agent is told to stop, the goroutines of [pipe] take only finitely many
    steps under any schedule, whatever copies fail on the way, and when none can
    step both copies have
    returned, with both connections closed. *)
Theorem forward_pipe_returns (ls ls' : list label) (st st' : pipe_st) :
  pipe_run pipe_init ls = Some st → ending st →
  pipe_run st ls' = Some st' → Forall (λ l, advances l = true) ls' →
  (length ls' ≤ work st)%nat ∧
  ((∀ l, by_pipe l = true → pipe_step st' l = None) → returned st' = true ∧ closed st' = true).
Proof.
  intros Hr He Hr' Hall.
  assert (closes st) as Hc.
  { clear -Hr. assert (closes pipe_init) as H0 by (intros [|]; done). revert H0 Hr. generalize pipe_init.
    induction ls as [|l ls IH]; intros s H0; cbn [pipe_run]; [by intros [= <-]|].
    destruct (pipe_step s l) as [s1|] eqn:Hl; cbn; [|done]. apply IH. by eapply closes_step. }
  clear Hr. revert st He Hc Hr'. induction Hall as [|l ls' Hl _ IH]; intros st He Hc Hr'; cbn [pipe_run] in Hr'.
  - injection Hr' as <-. split; [cbn; lia|]. intros Hno.
    pose proof (pipe_stuck_returned st Hc He Hno) as Hret. split; [done|].
    apply Hc. unfold returned in Hret. apply andb_true_iff in Hret as [? _]. by left.
  - destruct (pipe_step st l) as [st1|] eqn:Hst; [|done]. cbn in Hr'.
    pose proof (forward_work_step _ _ _ Hl Hst).
    destruct (IH st1) as [Hlen Hret]; [by eapply ending_step|by eapply closes_step|done|].
    split; [cbn; lia|done].
Qed.

(** ** Witness *)
Definition ended_run : list label := [Produce ToStream (chars "bye"); End ToStream].
Definition ended_st : pipe_st := default pipe_init (pipe_run pipe_init ended_run).

Lemma forward_pipe_returns_witness :
  returned (default pipe_init (pipe_run ended_st [Copy ToStream; Copy ToStream; Copy ToLocal])) = true.
Proof.
  destruct (forward_pipe_returns ended_run [Copy ToStream; Copy ToStream; Copy ToLocal] ended_st
    (default pipe_init (pipe_run ended_st [Copy ToStream; Copy ToStream; Copy ToLocal]))) as [_ H].
  - reflexivity.
  - right. right. right. reflexivity.
  - reflexivity.
  - repeat constructor.
  - apply H. intros [| | |[|]|[|]|]; intros Hl; try discriminate Hl; reflexivity.
Defined.
End Forward.
