(* ===== verification/AgentSession.v ===== *)
(** * One tunnel session of the agent, with all its goroutines

    [runSession] of [internal/tunneld/tunnel/dialer.go] runs the handler under
    a watcher of the session; [Handle] of [internal/tunneld/forward] runs the
    accept loop, a second watcher that closes the session when its context
    ends, and a goroutine per stream, whose two copies are [Forward.pipe_step].
    Here all of them step together, under any schedule, and the theorem is that
    they all end once the session or the context does. *)

From Stdlib Require Import ZArith Lia.
From stdpp Require Import prelude strings list.
From S2P Require Import Prelude Tunneld.
Import Forward.

(** ** The goroutines *)

(** A stream's goroutine: in the dial to the local sshd, in [pipe], or ended
    ([wg.Done]). *)
Inductive stream := Dialing | Serving (p : pipe_st) | Over.

(** The accept loop: in [AcceptStream], in the deferred [wg.Wait] (the channel
    [stopWatch] is closed then), or returned. *)
Inductive loop := Accepting | Waiting | Returned.
#[export] Instance loop_eq_dec : EqDecision loop.
Proof. solve_decision. Defined.

(** [sub_done] is the context [runSession] derives, [watcher] its goroutine,
    [closer] the goroutine of [Handle] that closes the session. *)
Record state := {
  parent_done : bool; sub_done : bool; session_closed : bool;
  watcher : bool; closer : bool; accept_loop : loop; streams : list stream
}.
Definition start (parent : bool) : state :=
  {| parent_done := parent; sub_done := parent; session_closed := false;
     watcher := true; closer := true; accept_loop := Accepting; streams := [] |}.

Inductive label :=
  (* the outside: the caller's context, the peer and the connection, a new
     stream, what the ends of a stream do *)
  | ParentCancel | SessionDies | NewStream
  | DialReturns (i : nat) (ok : bool)
  | StreamDoes (i : nat) (l : Forward.label)
  (* the goroutines *)
  | WatchSession | WatchContext | StopWatch | AcceptFails | HandleReturns
  | StreamDone (i : nat).

(** The end of the derived context reaches the pipes at once. *)
Definition cancel_stream (s : stream) : stream :=
  match s with
  | Serving p => Serving {| to_local := to_local p; to_stream := to_stream p; Forward.closed := Forward.closed p;
                            ctx_ended := true |}
  | _ => s
  end.
Definition cancel (st : state) : state :=
  {| parent_done := parent_done st; sub_done := true; session_closed := session_closed st;
     watcher := watcher st; closer := closer st; accept_loop := accept_loop st;
     streams := cancel_stream <$> streams st |}.
Definition put_stream (i : nat) (s : stream) (st : state) : state :=
  {| parent_done := parent_done st; sub_done := sub_done st; session_closed := session_closed st;
     watcher := watcher st; closer := closer st; accept_loop := accept_loop st; streams := <[i := s]> (streams st) |}.
Definition served (sub : bool) : stream :=
  Serving {| to_local := fresh_flow; to_stream := fresh_flow; Forward.closed := false; ctx_ended := sub |}.
Definition all_over (st : state) : bool := forallb (λ s, match s with Over => true | _ => false end) (streams st).

(** A label of a pipe that is not the end of its context, which is the
    session's. *)
Definition own_label (l : Forward.label) : bool := match l with Cancel => false | _ => true end.

Definition step (st : state) (l : label) : option state :=
  match l with
  | ParentCancel =>
      Some (cancel {| parent_done := true; sub_done := sub_done st; session_closed := session_closed st;
                      watcher := watcher st; closer := closer st; accept_loop := accept_loop st;
                      streams := streams st |})
  | SessionDies =>
      Some {| parent_done := parent_done st; sub_done := sub_done st; session_closed := true;
              watcher := watcher st; closer := closer st; accept_loop := accept_loop st; streams := streams st |}
  | NewStream =>
      if bool_decide (accept_loop st = Accepting) && negb (session_closed st)
      then Some {| parent_done := parent_done st; sub_done := sub_done st; session_closed := session_closed st;
                   watcher := watcher st; closer := closer st; accept_loop := accept_loop st;
                   streams := streams st ++ [Dialing] |}
      else None
  | DialReturns i ok =>
      match streams st !! i with
      | Some Dialing => Some (put_stream i (if ok then served (sub_done st) else Over) st)
      | _ => None
      end
  | StreamDoes i l =>
      match streams st !! i with
      | Some (Serving p) =>
          if own_label l then p' ← pipe_step p l; Some (put_stream i (Serving p') st) else None
      | _ => None
      end
  | StreamDone i =>
      match streams st !! i with
      | Some (Serving p) => if Forward.returned p then Some (put_stream i Over st) else None
      | _ => None
      end
  | WatchSession =>
      (* <-session.CloseChan() or <-subCtx.Done(), then cancel() *)
      if watcher st && (session_closed st || sub_done st)
      then Some (cancel {| parent_done := parent_done st; sub_done := sub_done st; session_closed := session_closed st;
                           watcher := false; closer := closer st; accept_loop := accept_loop st;
                           streams := streams st |})
      else None
  | WatchContext =>
      (* <-ctx.Done(), then session.Close() *)
      if closer st && sub_done st
      then Some {| parent_done := parent_done st; sub_done := sub_done st; session_closed := true;
                   watcher := watcher st; closer := false; accept_loop := accept_loop st; streams := streams st |}
      else None
  | StopWatch =>
      if closer st && negb (bool_decide (accept_loop st = Accepting))
      then Some {| parent_done := parent_done st; sub_done := sub_done st; session_closed := session_closed st;
                   watcher := watcher st; closer := false; accept_loop := accept_loop st; streams := streams st |}
      else None
  | AcceptFails =>
      if bool_decide (accept_loop st = Accepting) && session_closed st
      then Some {| parent_done := parent_done st; sub_done := sub_done st; session_closed := session_closed st;
                   watcher := watcher st; closer := closer st; accept_loop := Waiting; streams := streams st |}
      else None
  | HandleReturns =>
      (* [wg.Wait] is over; [runSession] returns and its deferred cancel runs *)
      if bool_decide (accept_loop st = Waiting) && all_over st
      then Some (cancel {| parent_done := parent_done st; sub_done := sub_done st; session_closed := session_closed st;
                           watcher := watcher st; closer := closer st; accept_loop := Returned;
                           streams := streams st |})
      else None
  end.
Fixpoint run (st : state) (ls : list label) : option state :=
  match ls with
  | [] => Some st
  | l :: ls => st' ← step st l; run st' ls
  end.

(** Steps of the program, and those that bring the end closer: they include
    the dials, which their timeout ends, and copies that fail. *)
Definition by_agent (l : label) : bool :=
  match l with
  | ParentCancel | SessionDies | NewStream => false
  | DialReturns _ ok => negb ok
  | StreamDoes _ l => by_pipe l
  | _ => true
  end.
Definition unwinds (l : label) : bool :=
  match l with
  | ParentCancel | SessionDies | NewStream => false
  | StreamDoes _ l => advances l
  | _ => true
  end.

(** ** The measure *)
Definition stream_work (s : stream) : nat :=
  match s with
  | Dialing => S (S (Forward.work pipe_init))
  | Serving p => S (Forward.work p)
  | Over => 0
  end.
Definition loop_work (l : loop) : nat := match l with Accepting => 2 | Waiting => 1 | Returned => 0 end.
Definition session_work (st : state) : nat :=
  sum_list (stream_work <$> streams st) + loop_work (accept_loop st)
  + (if watcher st then 1 else 0) + (if closer st then 1 else 0).

Lemma sum_list_insert (l : list stream) i s s' :
  l !! i = Some s → stream_work s' < stream_work s →
  sum_list (stream_work <$> <[i := s']> l) < sum_list (stream_work <$> l).
Proof.
  revert i. induction l as [|x l IH]; intros [|i] Hi Hlt; try done.
  - injection Hi as ->. cbn. lia.
  - exact (proj1 (Nat.add_lt_mono_l _ _ (stream_work x)) (IH i Hi Hlt)).
Qed.

Lemma cancel_work st : session_work (cancel st) = session_work st.
Proof.
  unfold session_work, cancel. cbn. do 3 f_equal. rewrite <-list_fmap_compose.
  induction (streams st) as [|s l IH]; [done|]. cbn. rewrite IH. by destruct s.
Qed.

Lemma step_session_work st l st' : unwinds l = true → step st l = Some st' → session_work st' < session_work st.
Proof.
  intros Hl Hs. destruct l as [| | |i ok|i l| | | | | |i]; try done; cbn [step unwinds] in *.
  - destruct (streams st !! i) as [[]|] eqn:Hi; try done. injection Hs as <-.
    assert (sum_list (stream_work <$> <[i := if ok then served (sub_done st) else Over]> (streams st)) <
            sum_list (stream_work <$> streams st)) by (apply (sum_list_insert _ _ _ _ Hi); destruct ok; cbn; lia).
    unfold session_work. cbn [put_stream streams accept_loop watcher closer]. lia.
  - destruct (streams st !! i) as [[|p|]|] eqn:Hi; try done. destruct (own_label l); [|done].
    destruct (pipe_step p l) as [p'|] eqn:Hp; [|done]. injection Hs as <-.
    pose proof (forward_work_step _ _ _ Hl Hp).
    assert (sum_list (stream_work <$> <[i := Serving p']> (streams st)) < sum_list (stream_work <$> streams st))
      by (apply (sum_list_insert _ _ _ _ Hi); cbn; lia).
    unfold session_work. cbn [put_stream streams accept_loop watcher closer]. lia.
  - destruct (watcher st) eqn:Hw; [|done]. case_match; [|done]. injection Hs as <-. rewrite cancel_work.
    unfold session_work. cbn. rewrite Hw. lia.
  - destruct (closer st) eqn:Hw; [|done]. case_match; [|done]. injection Hs as <-. unfold session_work. cbn. rewrite Hw. lia.
  - destruct (closer st) eqn:Hw; [|done]. case_match; [|done]. injection Hs as <-. unfold session_work. cbn. rewrite Hw. lia.
  - case_bool_decide as Ha; [|done]. destruct (session_closed st); [|done]. injection Hs as <-.
    unfold session_work. cbn. rewrite Ha. cbn. lia.
  - case_bool_decide as Ha; [|done]. destruct (all_over st); [|done]. injection Hs as <-. rewrite cancel_work.
    unfold session_work. cbn. rewrite Ha. cbn. lia.
  - destruct (streams st !! i) as [[|p|]|] eqn:Hi; try done. destruct (Forward.returned p); [|done]. injection Hs as <-.
    assert (sum_list (stream_work <$> <[i := Over]> (streams st)) < sum_list (stream_work <$> streams st))
      by (apply (sum_list_insert _ _ _ _ Hi); cbn; lia).
    unfold session_work. cbn [put_stream streams accept_loop watcher closer]. lia.
Qed.

(** ** Invariants *)

(** What holds of every state: a pipe's own invariant, its context being the
    session's; the accept loop ends only when the session is closed; and a
    watcher is gone only when what it waits for is set. *)
Record wf (st : state) : Prop := {
  wf_pipes : ∀ p, Serving p ∈ streams st → closes p ∧ (sub_done st = true → ctx_ended p = true);
  wf_accept : accept_loop st ≠ Accepting → session_closed st = true;
  wf_watcher : watcher st = false → sub_done st = true;
  wf_closer : closer st = false → session_closed st = true;
  wf_parent : parent_done st = true → sub_done st = true;
  wf_returned : accept_loop st = Returned → sub_done st = true ∧ all_over st = true
}.

Lemma wf_start parent : wf (start parent).
Proof. constructor; cbn; try done. intros p Hp. by apply not_elem_of_nil in Hp. Qed.

Lemma ctx_ended_step p l p' : pipe_step p l = Some p' → ctx_ended p = true → ctx_ended p' = true.
Proof.
  intros Hs Hc. destruct l as [d b|d| |d|d|]; cbn [pipe_step] in Hs;
    repeat (case_match; try done); simplify_eq; destruct d || idtac; done.
Qed.

Lemma all_over_insert st i s : all_over st = true → streams st !! i = Some s → s = Over.
Proof.
  unfold all_over. rewrite forallb_forall. intros H Hi.
  specialize (H s). rewrite <-list_elem_of_In in H. specialize (H (list_elem_of_lookup_2 _ _ _ Hi)). by destruct s.
Qed.

Lemma wf_put_stream st i s s0 :
  wf st → streams st !! i = Some s0 → s0 ≠ Over →
  (∀ p, s = Serving p → closes p ∧ (sub_done st = true → ctx_ended p = true)) → wf (put_stream i s st).
Proof.
  intros [Hp Ha Hw Hc Hpa Hr] Hi Hs0 Hs. constructor; cbn; try done.
  - intros p H. apply list_elem_of_lookup in H as [j Hj]. apply list_lookup_insert_Some in Hj as [(-> & Hj & _)|[_ Hj]].
    + by apply Hs.
    + apply Hp. by eapply list_elem_of_lookup_2.
  - intros H. destruct (Hr H) as [_ Hall]. exfalso. by apply Hs0, (all_over_insert st i).
Qed.

Lemma wf_cancel st : wf st → sub_done (cancel st) = true ∧
  ∀ p, Serving p ∈ streams (cancel st) → closes p ∧ (sub_done (cancel st) = true → ctx_ended p = true).
Proof.
  intros H. split; [done|]. intros p Hp. cbn in Hp. apply list_elem_of_fmap in Hp as (s & Hs & Hin).
  destruct s as [|q|]; try done. injection Hs as ->. split; [|done]. exact (proj1 (wf_pipes _ H q Hin)).
Qed.

Lemma all_over_cancel st : all_over (cancel st) = all_over st.
Proof. unfold all_over, cancel. cbn. induction (streams st) as [|s l IH]; [done|]. cbn. rewrite IH. by destruct s. Qed.

Lemma wf_step st l st' : wf st → step st l = Some st' → wf st'.
Proof.
  intros H Hs. pose proof H as [Hp Ha Hw Hc Hpa Hr].
  destruct l as [| | |i ok|i l| | | | | |i]; cbn [step] in Hs.
  - injection Hs as <-. pose proof (wf_cancel _ H) as [_ Hcp]. constructor; cbn; try done.
    intros [_ Hall]%Hr. split; [done|]. exact (eq_trans (all_over_cancel st) Hall).
  - injection Hs as <-. by constructor.
  - case_bool_decide as Hacc; [|done]. destruct (session_closed st) eqn:Hcl; [done|]. injection Hs as <-.
    constructor; cbn; try done; [|congruence..|].
    + intros p [Hin|Hin%list_elem_of_singleton]%elem_of_app; [by apply Hp|done].
    + rewrite Hacc. done.
  - destruct (streams st !! i) as [[]|] eqn:Hi; try done. injection Hs as <-.
    eapply wf_put_stream; [done..|]. intros p. destruct ok; [|done]. intros [= <-]. split; [intros [|]; done|done].
  - destruct (streams st !! i) as [[|p|]|] eqn:Hi; try done. destruct (own_label l); [|done].
    destruct (pipe_step p l) as [p'|] eqn:Hst; [|done]. injection Hs as <-.
    eapply wf_put_stream; [done..|]. intros q [= <-]. destruct (Hp p (list_elem_of_lookup_2 _ _ _ Hi)) as [Hcl Hctx].
    split; [by eapply closes_step|]. intros Hsub. by eapply ctx_ended_step, Hctx.
  - destruct (watcher st) eqn:Hwt; [|done]. case_match; [|done]. injection Hs as <-.
    pose proof (wf_cancel _ H) as [_ Hcp]. constructor; cbn; try done.
    intros [_ Hall]%Hr. split; [done|]. exact (eq_trans (all_over_cancel st) Hall).
  - destruct (closer st) eqn:Hcl; [|done]. destruct (sub_done st) eqn:Hsub; [|done]. injection Hs as <-.
    by constructor; cbn; rewrite ?Hsub.
  - destruct (closer st) eqn:Hcl; [|done]. case_bool_decide; [done|]. injection Hs as <-.
    constructor; cbn; auto.
  - case_bool_decide as Hacc; [|done]. destruct (session_closed st) eqn:Hcl; [|done]. injection Hs as <-.
    by constructor; cbn; rewrite ?Hcl.
  - case_bool_decide as Hacc; [|done]. destruct (all_over st) eqn:Hall; [|done]. injection Hs as <-.
    pose proof (wf_cancel _ H) as [_ Hcp]. constructor; cbn; try done.
    + intros _. apply Ha. by rewrite Hacc.
    + intros _. split; [done|]. exact (eq_trans (all_over_cancel st) Hall).
  - destruct (streams st !! i) as [[|p|]|] eqn:Hi; try done. destruct (Forward.returned p); [|done]. injection Hs as <-.
    by eapply wf_put_stream.
Qed.

(** The session ends: its context is done, or its connection is gone. *)
Definition ending_session (st : state) : Prop := sub_done st = true ∨ session_closed st = true.

Lemma ending_session_step st l st' : ending_session st → step st l = Some st' → ending_session st'.
Proof.
  intros He Hs. destruct l as [| | |i ok|i l| | | | | |i]; cbn [step] in Hs;
    repeat (case_match; try done); try (destruct (pipe_step _ _); [|done]); simplify_eq/=;
    unfold ending_session in *; cbn; tauto.
Qed.

(** Everything that ran for the session has ended. *)
Definition unwound (st : state) : Prop :=
  accept_loop st = Returned ∧ all_over st = true ∧ watcher st = false ∧ closer st = false ∧
  session_closed st = true ∧ sub_done st = true.

Lemma stuck_unwound st :
  wf st → ending_session st → (∀ l, by_agent l = true → step st l = None) → unwound st.
Proof.
  intros [Hp Ha Hw Hc Hpa Hr] He Hno.
  assert (watcher st = false) as Hwt.
  { pose proof (Hno WatchSession eq_refl) as H. cbn [step] in H. destruct (watcher st); [|done].
    destruct He as [E|E]; rewrite E, ?orb_true_r in H; done. }
  pose proof (Hw Hwt) as Hsub.
  assert (closer st = false) as Hcl.
  { pose proof (Hno WatchContext eq_refl) as H. cbn [step] in H. rewrite Hsub in H. by destruct (closer st). }
  pose proof (Hc Hcl) as Hsc.
  assert (all_over st = true) as Hall.
  { apply forallb_forall. intros s Hs. apply list_elem_of_In, list_elem_of_lookup in Hs as [i Hi].
    destruct s as [|p|]; [| |done]; exfalso.
    - pose proof (Hno (DialReturns i false) eq_refl) as H. cbn [step] in H. by rewrite Hi in H.
    - destruct (Hp p (list_elem_of_lookup_2 _ _ _ Hi)) as [Hclo Hctx].
      pose proof (Hno (StreamDone i) eq_refl) as H. cbn [step] in H. rewrite Hi in H.
      rewrite (pipe_stuck_returned p) in H; [done|done|right; left; auto|].
      intros l Hl. pose proof (Hno (StreamDoes i l) Hl) as H'. cbn [step] in H'. rewrite Hi in H'.
      destruct l; try done; cbn [own_label] in H'; by destruct (pipe_step p _). }
  repeat split; try done. destruct (accept_loop st) eqn:Hl; [| |done].
  - pose proof (Hno AcceptFails eq_refl) as H. cbn [step] in H. rewrite Hl, Hsc in H. done.
  - pose proof (Hno HandleReturns eq_refl) as H. cbn [step] in H. rewrite Hl, Hall in H. done.
Qed.

Lemma wf_run ls st st' : wf st → run st ls = Some st' → wf st'.
Proof.
  revert st. induction ls as [|l ls IH]; intros st H Hr; cbn in Hr; [by injection Hr as <-|].
  destruct (step st l) as [st1|] eqn:Hs; [|done]. eapply IH; [by eapply wf_step|done].
Qed.


(** ** Witness *)

(** A session with a stream in each state: the connection is lost. *)
Definition busy : list label :=
  [NewStream; NewStream; DialReturns 0 true; StreamDoes 0 (Produce ToLocal []); StreamDoes 0 (Copy ToLocal);
   SessionDies].
Definition busy_st : state := default (start false) (run (start false) busy).
Definition unwinding : list label :=
  [WatchSession; AcceptFails; StopWatch; StreamDoes 0 Watch; StreamDoes 0 (Copy ToLocal); StreamDoes 0 (Copy ToStream);
   StreamDone 0; DialReturns 1 false; HandleReturns].

