(* ===== verification/GoEnv.v ===== *)
(** * Environment variables

    [os.Getenv] on an environment, and the base library's [envutil] helpers as
    a class with the behaviour the commands' documentation states. *)

From stdpp Require Import prelude strings gmap list.
From S2P Require Import Prelude.

Abbreviation environ := (gmap string string).

(** The value, or "" when unset. *)
Definition Getenv (e : environ) (k : string) : string := default "" (e !! k).
Definition is_set (e : environ) (k : string) : bool := negb (bool_decide (Getenv e k = "")).

(** [envutil.Or(k, fallback)], [envutil.First(k1, k2, ...)] and
    [envutil.MustEnv(k)], which does not return when the variable is unset. *)
Class EnvUtil := {
  Or : environ → string → string → string;
  First : environ → list string → string;
  MustEnv : environ → string → outcome string string
}.
Class EnvUtilLaws (E : EnvUtil) : Prop := {
  or_spec e k d : Or e k d = if is_set e k then Getenv e k else d;
  first_spec e ks :
    First e ks = default "" (Getenv e <$> find_first (is_set e) ks);
  must_spec e k v : MustEnv e k = Ret v → is_set e k = true ∧ v = Getenv e k
}.

Lemma is_set_true e k : is_set e k = true ↔ Getenv e k ≠ "".
Proof. unfold is_set. by rewrite negb_true_iff, bool_decide_eq_false. Qed.
Lemma is_set_false e k : is_set e k = false ↔ Getenv e k = "".
Proof. unfold is_set. by rewrite negb_false_iff, bool_decide_eq_true. Qed.

(** An implementation, at which the laws hold. *)
Definition simple_envutil : EnvUtil := {|
  Or e k d := if is_set e k then Getenv e k else d;
  First e ks := default "" (Getenv e <$> find_first (is_set e) ks);
  MustEnv e k := if is_set e k then Ret (Getenv e k) else Err k
|}.
Lemma simple_envutil_laws : EnvUtilLaws simple_envutil.
Proof. split; [done..|]. intros e k v. cbn. by destruct (is_set e k); intros; simplify_eq/=. Qed.
