(* ===== verification/CertClient.v ===== *)
(** * Package [certclient]: the client of certd's signing endpoints

    [internal/common/certclient/certclient.go].  The HTTP stack is the class
    [RestyClient]; the request bodies are the JSON the struct tags describe. *)

From Stdlib Require Import ZArith Lia Ascii.
From stdpp Require Import prelude strings pretty list.
From S2P Require Import Prelude GoStrings GoTime Json.

Local Open Scope Z_scope.
Local Open Scope go_scope.

Definition DefaultTimeout : Z := 5 * second.

(** A client: its base URL and the TLS configuration of its transport; the
    timeout is [DefaultTimeout] for every client. *)
Record Client := { base_url : string; transport : option nat }.
Inductive ClientError := BaseURLRequired.

Definition NewClient (baseURL : string) (tlsCfg : option nat) : outcome ClientError Client :=
  require negb (bool_decide (baseURL = "")) else BaseURLRequired;;
  Ret {| base_url := TrimRightByte baseURL "/"; transport := tlsCfg |}.

Record SignUserRequest := {
  UserPublicKey : string; UserKeyID : string; UserPrincipals : list string;
  UserGroups : list string; Extensions : list (string * string);
  CriticalOptions : list (string * string); UserTTLSeconds : Z
}.
Record SignHostRequest := {
  PublicKey : string; KeyID : string; Principals : list string;
  Groups : list string; TTLSeconds : Z
}.

(** [SignUserResponse] and [SignHostResponse] have the same fields. *)
Record SignResponse := {
  Certificate : string; Serial : Z; RespKeyID : string; RespPrincipals : list string;
  ValidAfter : Z; ValidBefore : Z
}.

(** *** The JSON bodies; a field with [omitempty] is left out when empty *)
Definition json_string (s : string) : json := JString (chars s).
Definition json_strings (l : list string) : json := JArray (json_string <$> l).
Definition json_map (m : list (string * string)) : json := JMap (prod_map id json_string <$> m).

Definition user_body (r : SignUserRequest) : json :=
  JObject ([("public_key", json_string (UserPublicKey r)); ("key_id", json_string (UserKeyID r));
            ("principals", json_strings (UserPrincipals r))]
    ++ omitempty "groups" (bool_decide (UserGroups r = [])) (json_strings (UserGroups r))
    ++ omitempty "extensions" (bool_decide (Extensions r = [])) (json_map (Extensions r))
    ++ omitempty "critical_options" (bool_decide (CriticalOptions r = [])) (json_map (CriticalOptions r))
    ++ omitempty "ttl_seconds" (UserTTLSeconds r =? 0) (JInt (UserTTLSeconds r))).
Definition host_body (r : SignHostRequest) : json :=
  JObject ([("public_key", json_string (PublicKey r)); ("key_id", json_string (KeyID r));
            ("principals", json_strings (Principals r))]
    ++ omitempty "groups" (bool_decide (Groups r = [])) (json_strings (Groups r))
    ++ omitempty "ttl_seconds" (TTLSeconds r =? 0) (JInt (TTLSeconds r))).

(** [api.RestyClient]: one HTTP call with a JSON body and a decoded reply. *)
Class RestyClient := {
  R : Client → string (* method *) → string (* path *) → json → outcome string SignResponse
}.

Section Calls.
Context `{RestyClient}.

Definition SignUserCert (c : Client) (req : SignUserRequest) : outcome string SignResponse :=
  map_err (λ e, "sign-user: " +:+ e) (R c "POST" "/api/v1/ssh/sign-user" (user_body req)).
Definition SignHostCert (c : Client) (req : SignHostRequest) : outcome string SignResponse :=
  map_err (λ e, "sign-host: " +:+ e) (R c "POST" "/api/v1/ssh/sign-host" (host_body req)).
End Calls.

Lemma NewClient_no_trailing_slash baseURL tlsCfg c :
  NewClient baseURL tlsCfg = Ret c → last (chars (base_url c)) ≠ Some "/"%char.
Proof.
  unfold NewClient. intros H. inv_outcome. cbn. unfold TrimRightByte. rewrite chars_of_chars.
  intros Hl. apply drop_while_end_last in Hl. by apply bool_decide_eq_false in Hl.
Qed.
