(* ===== verification/HostCert.v ===== *)
(** * Package [hostcert]: the host-certificate renewer

    [internal/tunneld/hostcert/renewer.go].  The disk is a map from cleaned
    paths to files, observed after every system call; parsing a private key is
    the class [HostKeys]; certd's answer, the clock, the faults of the system
    calls and the random names of [os.CreateTemp] are the data of a round. *)

From Stdlib Require Import ZArith Lia Ascii.
From Stdlib Require Import Floats.SpecFloat.
From stdpp Require Import prelude strings gmap list.
From S2P Require Import Prelude GoStrings GoTime GoOs CertClient.

Local Open Scope Z_scope.
Local Open Scope go_scope.

(** ** Configuration *)
Record Config := {
  Signer : option nat; HostKeyPath : string; CertOutputPath : string; CfgKeyID : string;
  CfgPrincipals : list string; RequestedTTL : Z; RenewFraction : spec_float;
  MinRenewInterval : Z; RetryBackoff : Z; OnRenewed : option nat
}.

Definition DefaultRenewFraction : spec_float := f64_div (f64_of_Z 6) (f64_of_Z 10).
Definition DefaultMinRenewInterval : Z := 1 * minute.
Definition DefaultRetryBackoff : Z := 30 * second.

Inductive ConfigError :=
  | SignerRequired | HostKeyPathRequired | CertOutputPathRequired | KeyIDRequired
  | PrincipalRequired | RenewFractionRange.

Definition or_default (z d : Z) : Z := if z =? 0 then d else z.

Definition New (cfg : Config) : outcome ConfigError Config :=
  require bool_decide (is_Some (Signer cfg)) else SignerRequired;;
  require negb (bool_decide (HostKeyPath cfg = "")) else HostKeyPathRequired;;
  require negb (bool_decide (CertOutputPath cfg = "")) else CertOutputPathRequired;;
  require negb (bool_decide (CfgKeyID cfg = "")) else KeyIDRequired;;
  require negb (bool_decide (CfgPrincipals cfg = [])) else PrincipalRequired;;
  let fraction := if f64_is_zero (RenewFraction cfg) then DefaultRenewFraction else RenewFraction cfg in
  require negb (f64_le fraction f64_zero || f64_le (f64_of_Z 1) fraction) else RenewFractionRange;;
  Ret {| Signer := Signer cfg; HostKeyPath := HostKeyPath cfg; CertOutputPath := CertOutputPath cfg;
         CfgKeyID := CfgKeyID cfg; CfgPrincipals := CfgPrincipals cfg; RequestedTTL := RequestedTTL cfg;
         RenewFraction := fraction;
         MinRenewInterval := or_default (MinRenewInterval cfg) DefaultMinRenewInterval;
         RetryBackoff := or_default (RetryBackoff cfg) DefaultRetryBackoff;
         OnRenewed := OnRenewed cfg |}.

Lemma renewer_New_fields cfg c :
  New cfg = Ret c →
  c = {| Signer := Signer cfg; HostKeyPath := HostKeyPath cfg; CertOutputPath := CertOutputPath cfg;
         CfgKeyID := CfgKeyID cfg; CfgPrincipals := CfgPrincipals cfg; RequestedTTL := RequestedTTL cfg;
         RenewFraction := if f64_is_zero (RenewFraction cfg) then DefaultRenewFraction else RenewFraction cfg;
         MinRenewInterval := or_default (MinRenewInterval cfg) DefaultMinRenewInterval;
         RetryBackoff := or_default (RetryBackoff cfg) DefaultRetryBackoff; OnRenewed := OnRenewed cfg |} ∧
  CfgPrincipals cfg ≠ [].
Proof.
  unfold New. intros H. inv_outcome. split; [done|].
  match goal with Hx : negb (bool_decide (CfgPrincipals _ = [])) = true |- _ =>
    by apply negb_true_iff, bool_decide_eq_false in Hx end.
Qed.

(** ** [writeAtomic] *)

(** [synced] says whether the data have reached stable storage. *)
Record file := { data : list ascii; mode : Z; synced : bool }.
#[export] Instance file_eq_dec : EqDecision file.
Proof. solve_decision. Defined.
Abbreviation disk := (gmap string file).

Definition private_mode : Z := 6 * 64. (* 0600 *)
Definition public_mode : Z := 6 * 64 + 4 * 8 + 4. (* 0644 *)

(** The faults of one call: a write fails after some bytes; [chunks] are the
    lengths on disk while a write is under way. *)
Record io := {
  create_err : option string; chunks : list nat; write_err : option (nat * string);
  chmod_err : option string; sync_err : option string; close_err : option string;
  rename_err : option string; remove_fails : bool;
  draws : list string (* the random parts [os.CreateTemp] tries *)
}.

(** [filepath.Dir] *)
Definition Dir (path : string) : string :=
  Clean (match LastIndexByte path "/" with Some i => str_take (S i) path | None => "" end).

(** A name [os.CreateTemp(dir, ".hostcert-*.tmp")] tries. *)
Definition temp_name (dir rand : string) : string :=
  (if bool_decide (last (chars dir) = Some "/"%char) then dir else dir +:+ "/") +:+ ".hostcert-" +:+ rand +:+ ".tmp".

Definition temp_attempts : nat := 100 * 100.

(** [os.CreateTemp] opens with O_EXCL and draws again on a name that exists,
    [temp_attempts] times at most. *)
Definition CreateTemp (t : disk) (dir : string) (f : io) : outcome string (disk * string) :=
  match create_err f with
  | Some e => Err e
  | None =>
      match find_first (λ r, bool_decide (t !! Clean (temp_name dir r) = None)) (take temp_attempts (draws f)) with
      | Some r => Ret (<[Clean (temp_name dir r) := {| data := []; mode := private_mode; synced := false |}]> t,
                       temp_name dir r)
      | None => Err "file exists"
      end
  end.

(** A call on the temporary file: what it leaves of the file, and its error. *)
Definition step : Type := (file → file) * option string.
Definition set_data (b : list ascii) (x : file) : file := {| data := b; mode := mode x; synced := false |}.
Definition set_mode (m : Z) (x : file) : file := {| data := data x; mode := m; synced := synced x |}.
Definition set_synced (x : file) : file := {| data := data x; mode := mode x; synced := true |}.
Definition unless (err : option string) (g : file → file) : file → file :=
  match err with Some _ => id | None => g end.

(** Write, Chmod, Sync and Close. *)
Definition temp_steps (b : list ascii) (f : io) : list step :=
  ((λ n, (set_data (take n b), None)) <$> chunks f) ++
  [(set_data (match write_err f with Some (n, _) => take n b | None => b end), snd <$> write_err f);
   (unless (chmod_err f) (set_mode public_mode), chmod_err f);
   (unless (sync_err f) set_synced, sync_err f);
   (id, close_err f)].

(** The calls in order, up to the first that fails: the files seen, the file
    left, and the error. *)
Fixpoint temp_run (x : file) (steps : list step) : list file * file * option string :=
  match steps with
  | [] => ([], x, None)
  | (g, Some e) :: _ => ([g x], g x, Some e)
  | (g, None) :: rest => let '(xs, y, err) := temp_run (g x) rest in (g x :: xs, y, err)
  end.

(** The disks seen while the call runs, in order, and what it returns. *)
Definition writeAtomic (t : disk) (path : string) (b : list ascii) (f : io)
    : list disk * outcome string unit :=
  match CreateTemp t (Dir path) f with
  | Err e => ([t], Err e)
  | Panic => ([t], Panic)
  | Ret (t1, tmpName) =>
      let tmp := Clean tmpName in
      let put (x : file) : disk := <[tmp := x]> t1 in
      let '(xs, x, err) := temp_run {| data := []; mode := private_mode; synced := false |} (temp_steps b f) in
      let seen := t1 :: (put <$> xs) in
      let cleanup := if remove_fails f then put x else delete tmp (put x) in
      match err with
      | Some e => (seen ++ [cleanup], Err e)
      | None =>
          match rename_err f with
          | Some e => (seen ++ [cleanup], Err e)
          | None => (seen ++ [<[Clean path := x]> (delete tmp (put x))], Ret tt)
          end
      end
  end.

(** A power failure keeps synced files; the others hold any bytes. *)
Definition power_loss (u v : disk) : Prop :=
  ∀ p, match u !! p with
       | Some x => ∃ y, v !! p = Some y ∧ (synced x = true → y = x)
       | None => v !! p = None
       end.

Definition certificate_file (b : list ascii) : file := {| data := b; mode := public_mode; synced := true |}.

(** ** [SignOnce] *)

(** [gossh.ParsePrivateKey] and [gossh.MarshalAuthorizedKey] of its public
    half. *)
Class HostKeys := { host_public_key : list ascii → outcome string string }.

Inductive SignError :=
  | ReadHostKey (e : string) | SignHostCertErr (e : string) | EmptyCertificate | WriteCert (e : string).

Inductive effect :=
  | AskCertd (req : SignHostRequest)
  | WriteFile (path : string)
  | Renewed (validAfter validBefore : Z).

(** What one call meets: the host key file, certd, the disk's faults. *)
Record round := {
  key_file : outcome string (list ascii);
  certd : SignHostRequest → outcome string SignResponse;
  disk_io : io
}.

Section Renewer.
Context `{HostKeys} (cfg : Config).

Definition readHostPublicKey (file : outcome string (list ascii)) : outcome string string :=
  let! keyBytes := file in
  map_err (λ e, "parse private key at " +:+ HostKeyPath cfg +:+ ": " +:+ e) (host_public_key keyBytes).

Definition sign_request (pub : string) : SignHostRequest :=
  {| PublicKey := pub; KeyID := CfgKeyID cfg; Principals := CfgPrincipals cfg; Groups := [];
     TTLSeconds := if 0 <? RequestedTTL cfg then int_of_f64 (Seconds (RequestedTTL cfg)) else 0 |}.

Definition SignOnce (t : disk) (r : round) : list effect * list disk * outcome SignError (Z * Z) :=
  match readHostPublicKey (key_file r) with
  | Err e => ([], [t], Err (ReadHostKey e))
  | Panic => ([], [t], Panic)
  | Ret pub =>
      let req := sign_request pub in
      match certd r req with
      | Err e => ([AskCertd req], [t], Err (SignHostCertErr e))
      | Panic => ([AskCertd req], [t], Panic)
      | Ret resp =>
          if bool_decide (Certificate resp = "") then ([AskCertd req], [t], Err EmptyCertificate)
          else
            match writeAtomic t (CertOutputPath cfg) (chars (Certificate resp)) (disk_io r) with
            | (seen, Err e) => ([AskCertd req; WriteFile (CertOutputPath cfg)], seen, Err (WriteCert e))
            | (seen, Panic) => ([AskCertd req; WriteFile (CertOutputPath cfg)], seen, Panic)
            | (seen, Ret _) =>
                ([AskCertd req; WriteFile (CertOutputPath cfg)]
                   ++ (if bool_decide (is_Some (OnRenewed cfg)) then [Renewed (ValidAfter resp) (ValidBefore resp)] else []),
                 seen, Ret (ValidAfter resp, ValidBefore resp))
            end
      end
  end.

(** ** [Run] *)
Definition nextRenewalDelay (validAfter validBefore now : Z) : Z :=
  let lifetime := Time_Sub validBefore validAfter in
  let renewAfter := int_of_f64 (f64_mul (f64_of_Z lifetime) (RenewFraction cfg)) in
  let deadline := Time_Add validAfter renewAfter in
  let wait := Time_Sub deadline now in
  if wait <? MinRenewInterval cfg then MinRenewInterval cfg else wait.

(** One turn of the loop: the round, the clock when the delay is computed, and
    whether the context ends during the wait. *)
Record turn := { what : round; now : Z; cancelled : bool }.

Definition run_delay (now : Z) (res : outcome SignError (Z * Z)) : option Z :=
  match res with
  | Ret (validAfter, validBefore) => Some (nextRenewalDelay validAfter validBefore now)
  | Err _ => Some (RetryBackoff cfg)
  | Panic => None
  end.

(** The waits of [Run] and the certificate validity each follows, the disk at
    the end, and whether it returned. *)
Fixpoint Run (t : disk) (turns : list turn) : list (outcome SignError (Z * Z) * Z) * disk * bool :=
  match turns with
  | [] => ([], t, false)
  | x :: rest =>
      let '(_, seen, res) := SignOnce t (what x) in
      let t' := default t (last seen) in
      match run_delay (now x) res with
      | None => ([], t', false)
      | Some d =>
          if cancelled x then ([(res, d)], t', true)
          else let '(ws, t'', ret) := Run t' rest in ((res, d) :: ws, t'', ret)
      end
  end.
End Renewer.

(** ** Facts *)
Section WriteAtomic.
Implicit Types (t u : disk).

(** No drawn temporary name is the certificate's own path. *)
Definition names_apart (path : string) (f : io) : Prop :=
  Forall (λ r, Clean (temp_name (Dir path) r) ≠ Clean path) (draws f).

Lemma CreateTemp_spec t path f t1 name :
  names_apart path f → CreateTemp t (Dir path) f = Ret (t1, name) →
  t !! Clean name = None ∧ Clean name ≠ Clean path ∧
  t1 = <[Clean name := {| data := []; mode := private_mode; synced := false |}]> t.
Proof.
  intros Hap. unfold CreateTemp. destruct (create_err f); [done|].
  destruct (find_first _ _) as [r|] eqn:Hr; [|done]. intros [= <- <-].
  apply find_first_Some in Hr as (l1 & l2 & Hl & Hr & _). apply bool_decide_eq_true in Hr.
  split; [done|]. split; [|done]. eapply (proj1 (Forall_forall _ _) Hap).
  eapply (subseteq_take _ (draws f)). rewrite Hl. set_solver.
Qed.

(** What the disk may be while [writeAtomic] replaces [t]'s certificate: [t]
    with a temporary file, or [t] with the whole new certificate. *)
Definition in_progress t path b u : Prop :=
  u = t ∨ (∃ tmp x, t !! tmp = None ∧ tmp ≠ Clean path ∧ u = <[tmp := x]> t) ∨
  u = <[Clean path := certificate_file b]> t.

Lemma in_progress_cert t path b u :
  in_progress t path b u →
  u !! Clean path = t !! Clean path ∨ u !! Clean path = Some (certificate_file b).
Proof.
  intros [->|[(tmp & x & _ & Hne & ->)| ->]]; [by left|left; by rewrite lookup_insert_ne|right].
  by rewrite lookup_insert_eq.
Qed.

Lemma temp_run_final b f x :
  mode x = private_mode →
  let '(_, y, err) := temp_run x (temp_steps b f) in err = None → y = certificate_file b.
Proof.
  unfold temp_steps. revert x. induction (chunks f) as [|n ns IH]; intros x Hx.
  - cbn. destruct (write_err f) as [[n e]|], (chmod_err f), (sync_err f), (close_err f); cbn; done.
  - csimpl. specialize (IH (set_data (take n b) x) Hx).
    destruct (temp_run _ _) as [[xs y] err]. done.
Qed.

Lemma writeAtomic_in_progress t path b f :
  names_apart path f →
  let '(seen, res) := writeAtomic t path b f in
  Forall (in_progress t path b) seen ∧
  match res with
  | Ret _ => last seen = Some (<[Clean path := certificate_file b]> t)
  | Err _ => (∃ u, last seen = Some u ∧ u !! Clean path = t !! Clean path) ∧
             (remove_fails f = false → last seen = Some t)
  | Panic => False
  end.
Proof.
  intros Hap. unfold writeAtomic.
  destruct (CreateTemp t (Dir path) f) as [[t1 name]|e|] eqn:Hc.
  - destruct (CreateTemp_spec _ _ _ _ _ Hap Hc) as (Hfresh & Hne & ->). set (tmp := Clean name) in *.
    pose proof (temp_run_final b f {| data := []; mode := private_mode; synced := false |}) as Hfin.
    destruct (temp_run _ _) as [[xs x] err]. cbn in Hfin. rewrite insert_insert_eq.
    assert (∀ y, in_progress t path b (<[tmp := y]> t)) as Hput by (intros y; right; left; by exists tmp, y).
    assert (Forall (in_progress t path b) (<[tmp := {| data := []; mode := private_mode; synced := false |}]> t
      :: ((λ y, <[tmp := y]> (<[tmp := {| data := []; mode := private_mode; synced := false |}]> t)) <$> xs))) as Hseen.
    { constructor; [apply Hput|]. apply Forall_fmap, Forall_true. intros y. cbn.
      rewrite insert_insert_eq. apply Hput. }
    set (cleanup := if remove_fails f then _ else _).
    assert (in_progress t path b cleanup ∧ cleanup !! Clean path = t !! Clean path ∧
      (remove_fails f = false → cleanup = t)) as (Hcp & Hcl & Hct).
    { unfold cleanup. rewrite delete_insert_id by done. destruct (remove_fails f).
      - split; [apply Hput|]. split; [by rewrite lookup_insert_ne|done].
      - split; [by left|done]. }
    clearbody cleanup.
    destruct err as [e|]; [|destruct (rename_err f) as [e|]].
    1,2: split; [apply Forall_app; split; [done|by constructor]|]; rewrite last_snoc; split;
      [by exists cleanup|intros; f_equal; auto].
    rewrite delete_insert_id, Hfin by done. split; [|by rewrite last_snoc].
    apply Forall_app. split; [done|]. constructor; [|done]. by right; right.
  - split; [constructor; [by left|done]|]. split; [by exists t|done].
  - unfold CreateTemp in Hc. destruct (create_err f); [done|]. by destruct (find_first _ _).
Qed.

(** C30: the host certificate is replaced atomically and durably.  Whatever
    system call fails, every disk another process can see holds, at the
    certificate's path, the previous file or the whole new certificate, and so
    does every disk a power failure can leave when the previous certificate had
    been synced.  On success the disk is the old one with just that file
    replaced, mode 0644; on an error the certificate is the old one and, when
    the temporary file could be removed, so is the disk. *)
Theorem cert_replaced_atomically t path b f :
  names_apart path f →
  let '(seen, res) := writeAtomic t path b f in
  Forall (λ u, u !! Clean path = t !! Clean path ∨ u !! Clean path = Some (certificate_file b)) seen ∧
  Forall (λ u, ∀ v, power_loss u v → (∀ x, t !! Clean path = Some x → synced x = true) →
    v !! Clean path = t !! Clean path ∨ v !! Clean path = Some (certificate_file b)) seen ∧
  match res with
  | Ret _ => last seen = Some (<[Clean path := certificate_file b]> t)
  | Err _ => (∃ u, last seen = Some u ∧ u !! Clean path = t !! Clean path) ∧
             (remove_fails f = false → last seen = Some t)
  | Panic => False
  end.
Proof.
  intros Hap. pose proof (writeAtomic_in_progress t path b f Hap) as H.
  destruct (writeAtomic t path b f) as [seen res]. destruct H as [Hseen Hres].
  split; [eapply Forall_impl; [done|]; apply in_progress_cert|]. split; [|done].
  eapply Forall_impl; [done|]. intros u Hu v Hv Hold. specialize (Hv (Clean path)).
  destruct (in_progress_cert _ _ _ _ Hu) as [Heq|Heq]; rewrite Heq in Hv.
  - left. destruct (t !! Clean path) as [x|] eqn:Ht; [|done].
    destruct Hv as (y & -> & Hy). by rewrite Hy by auto.
  - right. destruct Hv as (y & -> & Hy). by rewrite Hy.
Qed.
End WriteAtomic.


(** What [New] leaves of the schedule's settings. *)
Lemma New_schedule raw cfg :
  New raw = Ret cfg → valid_binary 53 1024 (RenewFraction cfg) = true → RenewFraction cfg ≠ S754_nan →
  proper_fraction (RenewFraction cfg) ∧ MinRenewInterval cfg = or_default (MinRenewInterval raw) DefaultMinRenewInterval.
Proof.
  unfold New. intros Hnew Hvalid Hnan. inv_outcome. cbn [RenewFraction MinRenewInterval] in *. split; [|done].
  apply negb_true_iff, orb_false_iff in Hnew_m4 as [H0 H1]. by apply proper_fraction_compare.
Qed.

(** The delay for a proper fraction and a positive floor. *)
Lemma nextRenewalDelay_bounds (cfg : Config) (validAfter validBefore now : Z) :
  proper_fraction (RenewFraction cfg) → 0 < MinRenewInterval cfg →
  validAfter ≤ validBefore < validAfter + 2 ^ 53 →
  let d := nextRenewalDelay cfg validAfter validBefore now in
  MinRenewInterval cfg ≤ d ∧ now + d ≤ Z.max validBefore (now + MinRenewInterval cfg) ∧
  (validBefore ≤ now → d = MinRenewInterval cfg).
Proof.
  intros Hf Hpos Hlife d. unfold d, nextRenewalDelay. clear d.
  assert (Time_Sub validBefore validAfter = validBefore - validAfter) as ->
    by (unfold Time_Sub, minDuration, maxDuration; lia).
  destruct (f64_fraction_le (validBefore - validAfter) (RenewFraction cfg)) as [H1 H2]; [lia|done|].
  set (r := int_of_f64 _) in *. clearbody r. unfold Time_Sub, Time_Add, minDuration, maxDuration.
  destruct (Z.ltb_spec (Z.max (-2^63) (Z.min (2^63 - 1) (validAfter + r - now))) (MinRenewInterval cfg)); lia.
Qed.

(** The renewal delay.  It is at least the configured floor; after a
    certificate whose lifetime is below 2^53 nanoseconds (104 days) the next
    signing starts before the certificate expires, unless the floor forbids
    it; and after expiry the delay is the floor, not zero.  The fraction is a
    number: [New] accepts NaN. *)
Theorem renewal_before_expiry (raw cfg : Config) (validAfter validBefore now : Z) :
  New raw = Ret cfg → valid_binary 53 1024 (RenewFraction cfg) = true → RenewFraction cfg ≠ S754_nan →
  0 ≤ MinRenewInterval raw → validAfter ≤ validBefore < validAfter + 2 ^ 53 →
  let d := nextRenewalDelay cfg validAfter validBefore now in
  0 < MinRenewInterval cfg ≤ d ∧
  now + d ≤ Z.max validBefore (now + MinRenewInterval cfg) ∧
  (validBefore ≤ now → d = MinRenewInterval cfg).
Proof.
  intros Hnew Hvalid Hnan Hmin Hlife d.
  destruct (New_schedule raw cfg Hnew Hvalid Hnan) as [Hf Hm].
  assert (0 < MinRenewInterval cfg) as Hpos
    by (rewrite Hm; unfold or_default, DefaultMinRenewInterval, minute, second;
        destruct (Z.eqb_spec (MinRenewInterval raw) 0); lia).
  split; [split; [done|]|]; by apply nextRenewalDelay_bounds.
Qed.

(** [New] checks the renewal fraction with two comparisons that NaN passes:
    such a configuration is accepted as it is. *)
Theorem renew_fraction_nan_accepted (cfg : Config) :
  is_Some (Signer cfg) → HostKeyPath cfg ≠ "" → CertOutputPath cfg ≠ "" → CfgKeyID cfg ≠ "" →
  CfgPrincipals cfg ≠ [] → RenewFraction cfg = S754_nan →
  ∃ cfg', New cfg = Ret cfg' ∧ RenewFraction cfg' = S754_nan.
Proof.
  intros H1 H2 H3 H4 H5 H6. unfold New. rewrite H6.
  rewrite bool_decide_eq_true_2, !bool_decide_eq_false_2 by done. cbn. by eexists.
Qed.

(** One round leaves the old certificate or one certd answered in it. *)
Lemma SignOnce_cert `{HostKeys} cfg t r :
  names_apart (CertOutputPath cfg) (disk_io r) →
  let u := default t (last (SignOnce cfg t r).1.2) in
  u !! Clean (CertOutputPath cfg) = t !! Clean (CertOutputPath cfg) ∨
  ∃ pub resp, certd r (sign_request cfg pub) = Ret resp ∧
    u !! Clean (CertOutputPath cfg) = Some (certificate_file (chars (Certificate resp))).
Proof.
  intros Hap. unfold SignOnce. destruct (readHostPublicKey cfg (key_file r)) as [pub|e|]; [|by left..].
  destruct (certd r (sign_request cfg pub)) as [resp|e|] eqn:Hc; [|by left..].
  case_bool_decide; [by left|].
  pose proof (writeAtomic_in_progress t (CertOutputPath cfg) (chars (Certificate resp)) (disk_io r) Hap) as Hw.
  destruct (writeAtomic _ _ _ _) as [seen [v|e|]]; destruct Hw as [_ Hw]; [| |done]; cbn.
  - right. exists pub, resp. rewrite Hw. cbn. by rewrite lookup_insert_eq.
  - left. destruct Hw as [(u & -> & ?) _]. done.
Qed.

Lemma SignOnce_no_panic `{HostKeys} cfg t r :
  names_apart (CertOutputPath cfg) (disk_io r) → key_file r ≠ Panic →
  (∀ k, host_public_key k ≠ Panic) → (∀ q, certd r q ≠ Panic) → (SignOnce cfg t r).2 ≠ Panic.
Proof.
  intros Hap Hk Hh Hc. unfold SignOnce, readHostPublicKey.
  destruct (key_file r) as [key|e|]; [|done..]. cbn [obind]. specialize (Hh key).
  destruct (host_public_key key) as [pub|e|]; [|done..]. cbn [map_err]. specialize (Hc (sign_request cfg pub)).
  destruct (certd r (sign_request cfg pub)) as [resp|e|]; [|done..].
  case_bool_decide; [done|].
  pose proof (writeAtomic_in_progress t (CertOutputPath cfg) (chars (Certificate resp)) (disk_io r) Hap) as Hw.
  destruct (writeAtomic _ _ _ _) as [seen [v|e|]]; by destruct Hw.
Qed.

Section RunFacts.
Context `{HostKeys} (cfg : Config).

(** The wait a result of [SignOnce] calls for, in some turn of the loop. *)
Definition follows (turns : list turn) (w : outcome SignError (Z * Z) * Z) : Prop :=
  match w.1 with
  | Ret (validAfter, validBefore) => ∃ x, x ∈ turns ∧ w.2 = nextRenewalDelay cfg validAfter validBefore (now x)
  | Err _ => w.2 = RetryBackoff cfg
  | Panic => False
  end.

Lemma follows_run_delay x turns res d : run_delay cfg (now x) res = Some d → follows (x :: turns) (res, d).
Proof. destruct res as [[va vb]|e|]; intros [= <-]; cbn; [|done]. exists x. set_solver. Qed.
Lemma follows_mono x turns w : follows turns w → follows (x :: turns) w.
Proof. destruct w as [[[va vb]| |] d]; cbn; [|done..]. intros (y & ? & ?). exists y. set_solver. Qed.

End RunFacts.

(** ** Witnesses *)
Definition cfg1 : Config :=
  {| Signer := Some 1%nat; HostKeyPath := "/etc/ssh/ssh_host_ed25519_key";
     CertOutputPath := "/etc/ssh/ssh_host_ed25519_key-cert.pub"; CfgKeyID := "host:web1";
     CfgPrincipals := ["web1"]; RequestedTTL := 3600 * second; RenewFraction := f64_zero;
     MinRenewInterval := 0; RetryBackoff := 0; OnRenewed := Some 1%nat |}.
Definition run_cfg1 : Config := match New cfg1 with Ret c => c | _ => cfg1 end.
Definition resp1 : SignResponse :=
  {| Certificate := "cert-2"; Serial := 7; RespKeyID := "host:web1"; RespPrincipals := ["web1"];
     ValidAfter := 0; ValidBefore := 3600 * second |}.
Definition no_faults : io :=
  {| create_err := None; chunks := [3%nat]; write_err := None; chmod_err := None; sync_err := None;
     close_err := None; rename_err := None; remove_fails := false; draws := ["123"; "456"] |}.
Definition sync_fault : io :=
  {| create_err := None; chunks := [3%nat]; write_err := None; chmod_err := None; sync_err := Some "EIO";
     close_err := None; rename_err := None; remove_fails := false; draws := ["123"] |}.
Definition disk1 : disk := {[ CertOutputPath cfg1 := certificate_file (chars "cert-1") ]}.
Definition keys1 : HostKeys := {| host_public_key := λ b, Ret (of_chars b) |}.
Definition round1 : round := {| key_file := Ret (chars "pub"); certd := λ _, Ret resp1; disk_io := no_faults |}.

Lemma apart_no_faults : names_apart (CertOutputPath cfg1) no_faults.
Proof. repeat constructor; by vm_compute. Qed.
Lemma apart_sync_fault : names_apart (CertOutputPath cfg1) sync_fault.
Proof. repeat constructor; by vm_compute. Qed.

Lemma cert_replaced_atomically_witness :
  last (writeAtomic disk1 (CertOutputPath cfg1) (chars "cert-2") sync_fault).1 = Some disk1.
Proof.
  pose proof (cert_replaced_atomically disk1 (CertOutputPath cfg1) (chars "cert-2") sync_fault) as H.
  destruct (writeAtomic _ _ _ _) as [seen res] eqn:Hw.
  destruct H as (_ & _ & H); [exact apart_sync_fault|].
  assert (res = Err "EIO") as -> by (change res with (seen, res).2; rewrite <-Hw; vm_compute; reflexivity).
  destruct H as [_ H]. apply H. reflexivity.
Defined.


Lemma renewal_before_expiry_witness :
  nextRenewalDelay run_cfg1 0 (3600 * second) (10 * second) = 2150 * second ∧
  10 * second + nextRenewalDelay run_cfg1 0 (3600 * second) (10 * second) ≤ 3600 * second.
Proof.
  split; [vm_compute; reflexivity|].
  destruct (renewal_before_expiry cfg1 run_cfg1 0 (3600 * second) (10 * second)) as (_ & H & _);
    [reflexivity|vm_compute; reflexivity|discriminate|vm_compute; discriminate|
     vm_compute; split; [discriminate|reflexivity]|].
  etransitivity; [exact H|]. vm_compute. discriminate.
Defined.

