(* ===== verification/ProxyMain.v ===== *)
(** * Command ssh-proxyd

    [cmd/ssh-proxyd/main.go]: from the environment to the configured server,
    and the minting of per-session certificates.  The SSH library, the TLS
    reloader, the NATS sources and the file reads are parameters; [runServe]
    is everything up to the start of the components. *)

From Stdlib Require Import ZArith Lia Ascii.
From stdpp Require Import prelude strings gmap list.
From S2P Require Import Prelude GoStrings GoTime GoEnv CertClient NetAddr Rbac Routing Listener GoSsh Revcheck GoCalendar GoOs Recording Target Channel SshServer Portal Pages Trackers.

Local Open Scope Z_scope.
Local Open Scope go_scope.

(** ** What the libraries provide *)

(** golang.org/x/crypto/ssh, crypto/ed25519 and knownhosts; a private key, a
    signer and a callback are handles. *)
Class SshLibrary := {
  ParsePrivateKey : list ascii → outcome string nat;
  ParseAuthorizedKey : list ascii → outcome string PublicKey;
  MarshalKey : PublicKey → string;
  KnownHosts : string → outcome string nat;
  NewPublicKey : nat → outcome string PublicKey;
  MarshalAuthorizedKey : PublicKey → string;
  NewSignerFromKey : nat → outcome string nat;
  NewCertSigner : Certificate → nat → outcome string nat
}.

(** The base library's TLS reloader and NATS plumbing. *)
Inductive ClientAuthType := NoClientCert | RequireAndVerifyClientCert.
Definition VersionTLS12 : Z := 0x0303.
Record ServerTLSConfig := {
  CertFile : string; KeyFile : string; ClientCAFile : string; ClientAuth : ClientAuthType; MinVersion : Z
}.
Class BaseLibrary := {
  reloader_New : string → string → list (string * string) → outcome string nat;
  reloader_TLSConfig : nat → string → nat;
  ServerTLS : ServerTLSConfig → outcome string nat;
  nats_url : environ → string;
  AuditSink : environ → outcome string nat;
  AuditSource : environ → outcome string nat;
  base_journal :: Journal
}.

(** ** Errors: the stage of the start that failed, and why *)
Inductive cause :=
  | Text (s : string)
  | FromSink (e : SinkError) | FromCast (e : CastError) | FromListener (e : ListenerError)
  | FromRevcheck (e : Revcheck.ConfigError) | FromClient (e : ClientError) | FromSsh (e : SshServer.ConfigError)
  | FromPages (e : PageError).
Inductive StartError :=
  | HostKey (c : cause) | UserCA (c : cause) | TargetHostKey (c : cause) | RecordingSinkErr (c : cause)
  | AuditSinkErr (c : cause) | CertdTLS (c : cause) | TunnelTLS (c : cause) | ClientSigner (c : cause)
  | TunnelListenerErr (c : cause) | RevocationCheckerErr (c : cause) | SshServerErr (c : cause)
  | PortalSessions (c : cause) | PortalAudit (c : cause) | PortalCast (c : cause) | PortalErr (c : cause).

(** ** What the loaders return *)
Inductive host_signer := LoadedKey (signer : nat) | EphemeralKey.
Inductive host_key_check := VerifyKnownHosts (callback : nat) | InsecureIgnoreHostKey.
Inductive client_signer := CertdMinter (client : Client) (ttl : Z) | StaticKey (signer : nat).

Definition DefaultRevocationPollInterval : Z := 30 * second.

(** What one mint draws: a fresh key pair and a session id. *)
Record mint_draw := { fresh_key : outcome string nat; session_uuid : string }.

Section Main.
Context `{EnvUtil, SshLibrary, BaseLibrary, RestyClient}.
Context (ReadFile : string → outcome string (list ascii)) (cwd : string).
Context (e : environ).

Definition loadSSHPrivateKey (path : string) : outcome cause nat :=
  let! b := map_err (λ x, Text ("read " +:+ path +:+ ": " +:+ x)) (ReadFile path) in
  map_err (λ x, Text ("parse " +:+ path +:+ ": " +:+ x)) (ParsePrivateKey b).

(** [generated] is what generating and wrapping the ephemeral key returned. *)
Definition loadHostKey (generated : outcome string unit) : outcome cause host_signer :=
  let path := Getenv e "SSH_PROXYD_HOST_KEY" in
  if is_set e "SSH_PROXYD_HOST_KEY" then
    let! signer := loadSSHPrivateKey path in Ret (LoadedKey signer)
  else let! _ := map_err Text generated in Ret EphemeralKey.

Definition loadUserCA : outcome cause PublicKey :=
  let path := Getenv e "SSH_PROXYD_USER_CA" in
  require is_set e "SSH_PROXYD_USER_CA" else Text "SSH_PROXYD_USER_CA is required";;
  let! b := map_err (λ x, Text ("read " +:+ path +:+ ": " +:+ x)) (ReadFile path) in
  map_err (λ x, Text ("parse " +:+ path +:+ ": " +:+ x)) (ParseAuthorizedKey b).

Definition loadTargetHostKeyCallback : outcome cause host_key_check :=
  let path := Getenv e "SSH_PROXYD_TARGET_KNOWN_HOSTS" in
  if is_set e "SSH_PROXYD_TARGET_KNOWN_HOSTS" then
    let! cb := map_err (λ x, Text ("load " +:+ path +:+ ": " +:+ x)) (KnownHosts path) in
    Ret (VerifyKnownHosts cb)
  else Ret InsecureIgnoreHostKey.

Definition loadRecordingSink (t : fs) : fs * outcome cause (option string) :=
  let dir := Getenv e "SSH_PROXYD_CAST_DIR" in
  if is_set e "SSH_PROXYD_CAST_DIR" then
    let '(t, r) := NewLocalDirSink cwd t dir in
    (t, let! sink := map_err FromSink r in Ret (Some sink))
  else (t, Ret None).

Definition loadPortalCastStore (t : fs) : outcome cause (option LocalCastStore) :=
  let dir := Getenv e "SSH_PROXYD_CAST_DIR" in
  if is_set e "SSH_PROXYD_CAST_DIR" then
    let! store := map_err FromCast (NewLocalCastStore cwd t dir) in Ret (Some store)
  else Ret None.

(** The reloader shared by the minter and the poller; [None] when neither
    talks to certd. *)
Definition buildCertdReloader : outcome cause (option nat) :=
  if is_set e "CERTD_URL" || is_set e "CERTD_REVOCATIONS_URL" then
    let certCfg := Getenv e "CERTD_MTLS_CERT" in
    let keyCfg := Getenv e "CERTD_MTLS_KEY" in
    require is_set e "CERTD_MTLS_CERT" && is_set e "CERTD_MTLS_KEY"
      else Text "CERTD_MTLS_CERT and CERTD_MTLS_KEY are required when CERTD_URL is set";;
    let! r := map_err Text (reloader_New certCfg keyCfg [("ca", Getenv e "CERTD_CA_BUNDLE")]) in
    Ret (Some r)
  else Ret None.

(** A positive integer read from a variable. *)
Definition positive_env (k : string) (d : Z) : outcome cause Z :=
  if is_set e k then
    match ParseInt (Getenv e k) with
    | Some n => if n <=? 0 then Err (Text (k +:+ ": must be positive integer")) else Ret n
    | None => Err (Text (k +:+ ": must be positive integer"))
    end
  else Ret d.

Definition buildRevocationChecker (r : option nat) : outcome cause (option PollingChecker) :=
  let url := Getenv e "CERTD_REVOCATIONS_URL" in
  if negb (is_set e "CERTD_REVOCATIONS_URL") then Ret None
  else match r with
  | None => Err (Text "certd-client reloader is required when CERTD_REVOCATIONS_URL is set")
  | Some r =>
      let! period :=
        (if is_set e "CERTD_REVOCATIONS_POLL_SECONDS"
         then let! n := positive_env "CERTD_REVOCATIONS_POLL_SECONDS" 0 in Ret (wrap64 (n * second))
         else Ret DefaultRevocationPollInterval) in
      let! checker := map_err FromRevcheck
        (NewPollingChecker {| CfgURL := url; PollInterval := period; HTTPTimeout := 0 |}) in
      Ret (Some checker)
  end.

Definition buildTunnelServerTLS : outcome cause (option (ServerTLSConfig * nat)) :=
  if negb (is_set e "SSH_PROXYD_TUNNEL_ADDR") then Ret None
  else
    let certFile := Getenv e "SSH_PROXYD_TUNNEL_TLS_CERT" in
    let keyFile := Getenv e "SSH_PROXYD_TUNNEL_TLS_KEY" in
    let caFile := First e ["SSH_PROXYD_TUNNEL_CLIENT_CA"; "SSH_PROXYD_WORKLOAD_CA"] in
    require negb (bool_decide (certFile = "") || bool_decide (keyFile = "") || bool_decide (caFile = ""))
      else Text "SSH_PROXYD_TUNNEL_TLS_CERT/_KEY and a tunnel client CA are required when SSH_PROXYD_TUNNEL_ADDR is set";;
    let cfg := {| CertFile := certFile; KeyFile := keyFile; ClientCAFile := caFile;
                  ClientAuth := RequireAndVerifyClientCert; MinVersion := VersionTLS12 |} in
    let! tls := map_err Text (ServerTLS cfg) in Ret (Some (cfg, tls)).

(** The registry handle [1] is the one the listener is given. *)
Definition buildTunnelListener (tlsConfig : option nat) : outcome cause (option (Registry * ListenerConfig)) :=
  if negb (is_set e "SSH_PROXYD_TUNNEL_ADDR") then Ret None
  else match tlsConfig with
  | None => Err (Text "tunnel server TLS config is required when SSH_PROXYD_TUNNEL_ADDR is set")
  | Some tls =>
      let! listener := map_err FromListener
        (NewListener {| Listener.Addr := Getenv e "SSH_PROXYD_TUNNEL_ADDR"; TLSConfig := Some tls;
                        CfgRegistry := Some 1%nat; HostExtractor := None |}) in
      Ret (Some (Routing.New, listener))
  end.

(** *** The per-session minter *)
Definition newCertdMinter (certdURL : string) (r : nat) : outcome cause client_signer :=
  let! client := map_err FromClient (NewClient certdURL (Some (reloader_TLSConfig r "ca"))) in
  let! ttl := positive_env "CERTD_SESSION_TTL_SECONDS" 300 in
  Ret (CertdMinter client ttl).

Definition loadClientSignerFunc (r : option nat) : outcome cause client_signer :=
  if is_set e "CERTD_URL" then
    match r with
    | None => Err (Text "certd-client reloader is required when CERTD_URL is set")
    | Some r => newCertdMinter (Getenv e "CERTD_URL") r
    end
  else
    let path := Getenv e "SSH_PROXYD_CLIENT_KEY" in
    require is_set e "SSH_PROXYD_CLIENT_KEY"
      else Text "either CERTD_URL or SSH_PROXYD_CLIENT_KEY is required for target-side authentication";;
    let! signer := loadSSHPrivateKey path in Ret (StaticKey signer).

Definition mint_request (ttl : Z) (d : mint_draw) (pub : PublicKey) (principal : string) : SignUserRequest :=
  {| UserPublicKey := TrimRightByte (MarshalAuthorizedKey pub) "010"%char;
     UserKeyID := "session:" +:+ session_uuid d +:+ ":principal:" +:+ principal;
     UserPrincipals := [principal]; UserGroups := []; CertClient.Extensions := [];
     CertClient.CriticalOptions := []; UserTTLSeconds := ttl |}.

Definition mint (client : Client) (ttl : Z) (d : mint_draw) (principal : string) : outcome string nat :=
  let! priv := map_err (λ x, "generate session key: " +:+ x) (fresh_key d) in
  let! sshPub := map_err (λ x, "wrap session pubkey: " +:+ x) (NewPublicKey priv) in
  let! resp := map_err (λ x, "certd sign-user: " +:+ x) (SignUserCert client (mint_request ttl d sshPub principal)) in
  let! parsed := map_err (λ x, "parse minted cert: " +:+ x) (ParseAuthorizedKey (chars (CertClient.Certificate resp))) in
  match parsed with
  | RawKey _ => Err "certd response is not a Certificate"
  | CertKey cert =>
      let! baseSigner := map_err (λ x, "wrap session private key: " +:+ x) (NewSignerFromKey priv) in
      map_err (λ x, "build cert signer: " +:+ x) (NewCertSigner cert baseSigner)
  end.

(** [Config.ClientSignerFunc] applied for one session; [pssh.StaticSigner]. *)
Definition signer_for (s : client_signer) (d : mint_draw) (principal : string) : outcome string nat :=
  match s with
  | StaticKey signer => Ret signer
  | CertdMinter client ttl => mint client ttl d principal
  end.

(** ** The start of the server *)
Record portal_plan := {
  portal_addr : string; session_store : option (TrackerConfig Session); audit_store : option (TrackerConfig AuditEvent);
  cast_store : option LocalCastStore; basic_auth : string * string; read_header_timeout : Z
}.
Inductive poller := RevocationPoller | SessionTrackerRun | AuditTrackerRun | CertdCAPoller.
Inductive component := SshListen | TunnelListen | PortalServe.

(** Everything the components are started with.  [srv_revocations] is the
    interface field of [pssh.Config]. *)
Record serving := {
  srv : SshServer.Config;
  srv_client : client_signer;
  srv_host_keys : host_key_check;
  srv_sink : option string;
  srv_registry : option Registry;
  srv_revocations : Checker;
  srv_tunnel : option (ServerTLSConfig * ListenerConfig);
  srv_portal : option portal_plan;
  pollers : list poller;
  components : list component
}.

(** The trackers with their defaults; a nil source gives a nil tracker. *)
Definition newSessionTracker (source : option nat) : outcome string (option (TrackerConfig Session)) :=
  match source with
  | None => Ret None
  | Some _ => let! t := NewSessionTracker {| SessionSource := source; MaxSessions := 0 |} in Ret (Some t)
  end.
Definition newAuditTracker (source : option nat) : outcome string (option (TrackerConfig AuditEvent)) :=
  match source with
  | None => Ret None
  | Some _ => let! t := NewAuditTracker {| EventSource := source; MaxEvents := 0 |} in Ret (Some t)
  end.

Definition buildPortal (t : fs) : outcome StartError (option portal_plan) :=
  if negb (is_set e "SSH_PROXYD_PORTAL_ADDR") then Ret None
  else
    let! stores :=
      (if bool_decide (nats_url e = "") then Ret (None, None)
       else let! sessionSource := map_err (λ x, PortalSessions (Text x)) (AuditSource e) in
            let! sessionTracker := map_err (λ x, PortalSessions (Text x)) (newSessionTracker (Some sessionSource)) in
            let! auditSource := map_err (λ x, PortalAudit (Text x)) (AuditSource e) in
            let! auditTracker := map_err (λ x, PortalAudit (Text x)) (newAuditTracker (Some auditSource)) in
            Ret (sessionTracker, auditTracker)) in
    let! casts := map_err PortalCast (loadPortalCastStore t) in
    let! _ := map_err (λ x, PortalErr (FromPages x)) parsePages in
    Ret (Some {| portal_addr := Getenv e "SSH_PROXYD_PORTAL_ADDR";
                 session_store := stores.1; audit_store := stores.2; cast_store := casts;
                 basic_auth := (Getenv e "SSH_PROXYD_PORTAL_USERNAME", Getenv e "SSH_PROXYD_PORTAL_PASSWORD");
                 read_header_timeout := 10 * second |}).

Definition ssh_config (host : host_signer) (ca : GoSsh.PublicKey) (cb : host_key_check) : SshServer.Config :=
  {| SshServer.Addr := Or e "SSH_PROXYD_ADDR" ":2222";
     HostSigner := Some (match host with LoadedKey s => s | EphemeralKey => 0%nat end);
     CfgTrustedUserCA := Some (MarshalKey ca); ClientSignerFunc := Some 0%nat;
     TargetHostKeyCallback := Some (match cb with VerifyKnownHosts n => n | InsecureIgnoreHostKey => 0%nat end);
     HandshakeTimeout := 0 |}.

Definition opt {A} (b : bool) (a : A) : list A := if b then [a] else [].

(** The background goroutines, and the components [run.Group] runs. *)
Definition start_pollers (revocationChecker : option PollingChecker) (portal : option portal_plan)
    (certdReloader : option nat) : list poller :=
  opt (bool_decide (is_Some revocationChecker)) RevocationPoller
  ++ opt (bool_decide (is_Some (portal ≫= session_store))) SessionTrackerRun
  ++ opt (bool_decide (is_Some (portal ≫= audit_store))) AuditTrackerRun
  ++ opt (bool_decide (is_Some certdReloader)) CertdCAPoller.
Definition start_components (tunnel : option (Registry * ListenerConfig)) (portal : option portal_plan)
    : list component :=
  SshListen :: opt (bool_decide (is_Some tunnel)) TunnelListen
  ++ opt (bool_decide (is_Some portal)) PortalServe.

(** From the audit sink to the list of components. *)
Definition startup (t : fs) (host : host_signer) (ca : GoSsh.PublicKey) (cb : host_key_check)
    (sink : option string) : outcome StartError serving :=
  let! _ := map_err (λ x, AuditSinkErr (Text x)) (AuditSink e) in
  let! certdReloader := map_err CertdTLS buildCertdReloader in
  let! tunnelTLS := map_err TunnelTLS buildTunnelServerTLS in
  let! signerFunc := map_err ClientSigner (loadClientSignerFunc certdReloader) in
  let! tunnel := map_err TunnelListenerErr (buildTunnelListener (snd <$> tunnelTLS)) in
  let! revocationChecker := map_err RevocationCheckerErr (buildRevocationChecker certdReloader) in
  let! server := map_err (λ x, SshServerErr (FromSsh x)) (SshServer.New (ssh_config host ca cb)) in
  let! portal := buildPortal t in
  Ret {| srv := server; srv_client := signerFunc; srv_host_keys := cb; srv_sink := sink;
         srv_registry := fst <$> tunnel;
         srv_revocations := Polling revocationChecker;
         srv_tunnel := tls ← tunnelTLS; l ← tunnel; Some (tls.1, l.2);
         srv_portal := portal;
         pollers := start_pollers revocationChecker portal certdReloader;
         components := start_components tunnel portal |}.

Definition runServe (generated : outcome string unit) (t : fs) : fs * outcome StartError serving :=
  match (let! host := map_err HostKey (loadHostKey generated) in
         let! ca := map_err UserCA loadUserCA in
         let! cb := map_err TargetHostKey loadTargetHostKeyCallback in
         Ret (host, ca, cb)) with
  | Err x => (t, Err x)
  | Panic => (t, Panic)
  | Ret (host, ca, cb) =>
      let '(t, sink) := loadRecordingSink t in
      (t, let! sink := map_err RecordingSinkErr sink in startup t host ca cb sink)
  end.
End Main.

(** ** Inverting the stages of a start *)
Lemma map_err_Ret {E F A} (f : E → F) (m : outcome E A) a : map_err f m = Ret a → m = Ret a.
Proof. destruct m; intros; simplify_eq/=; done. Qed.

Ltac inv_start :=
  repeat (progress inv_outcome ||
    match goal with H : map_err _ _ = Ret _ |- _ => apply map_err_Ret in H end).

Section Facts.
Context `{EnvUtil, SshLibrary, BaseLibrary, RestyClient}.
Context (ReadFile : string → outcome string (list ascii)) (cwd : string).
Implicit Types (e : environ) (t : fs) (s : serving).

Lemma elem_of_opt {A} (b : bool) (a x : A) : x ∈ opt b a ↔ b = true ∧ x = a.
Proof. destruct b; cbn; set_solver. Qed.

Lemma loadPortalCastStore_None e t casts :
  loadPortalCastStore cwd e t = Ret casts → casts = None ↔ Getenv e "SSH_PROXYD_CAST_DIR" = "".
Proof.
  unfold loadPortalCastStore. destruct (is_set e "SSH_PROXYD_CAST_DIR") eqn:Hs.
  - intros Hc. inv_start. apply is_set_true in Hs. by split.
  - intros [= <-]. apply is_set_false in Hs. by split.
Qed.

Lemma positive_env_pos e k d n : positive_env e k d = Ret n → 0 < d → 0 < n.
Proof. clear ReadFile cwd.
  unfold positive_env. destruct (is_set e k); [|by intros [= <-]].
  destruct (ParseInt (Getenv e k)) as [z|]; [|done]. destruct (Z.leb_spec z 0); [done|]. by intros [= <-].
Qed.

(** What a start that reached the components has read. *)
Lemma runServe_inv e generated t t' s :
  runServe ReadFile cwd e generated t = (t', Ret s) →
  ∃ host ca cb sink,
    loadUserCA ReadFile e = Ret ca ∧ loadTargetHostKeyCallback e = Ret cb ∧
    loadHostKey ReadFile e generated = Ret host ∧ loadRecordingSink cwd e t = (t', Ret sink) ∧
    startup ReadFile cwd e t' host ca cb sink = Ret s.
Proof.
  unfold runServe. intros Hr.
  destruct (obind _ _) as [[[host ca] cb]|x|] eqn:Hl; [|done..]. inv_start.
  destruct (loadRecordingSink cwd e t) as [t1 sink] eqn:Hs. simplify_eq/=.
  match goal with Hx : obind _ _ = Ret s |- _ => apply obind_Ret_inv in Hx as (sk & Hk & Hx);
    apply map_err_Ret in Hk; subst end.
  by exists host, ca, cb, sk.
Qed.

Lemma startup_inv e t host ca cb sink s :
  startup ReadFile cwd e t host ca cb sink = Ret s →
  ∃ reloader tls signerFunc tunnel checker portal,
    buildCertdReloader e = Ret reloader ∧ buildTunnelServerTLS e = Ret tls ∧
    loadClientSignerFunc ReadFile e reloader = Ret signerFunc ∧
    buildTunnelListener e (snd <$> tls) = Ret tunnel ∧
    buildRevocationChecker e reloader = Ret checker ∧ buildPortal cwd e t = Ret portal ∧
    SshServer.New (ssh_config e host ca cb) = Ret (srv s) ∧
    srv_client s = signerFunc ∧ srv_host_keys s = cb ∧ srv_sink s = sink ∧
    srv_registry s = fst <$> tunnel ∧ srv_revocations s = Polling checker ∧
    srv_tunnel s = (x ← tls; l ← tunnel; Some (x.1, l.2)) ∧ srv_portal s = portal ∧
    (RevocationPoller ∈ pollers s ↔ is_Some checker) ∧
    (TunnelListen ∈ components s ↔ is_Some tunnel) ∧ (PortalServe ∈ components s ↔ is_Some portal).
Proof.
  unfold startup. intros Hr. inv_start.
  do 6 eexists. repeat (split; [done|]). cbn [pollers components].
  unfold start_pollers, start_components.
  rewrite !elem_of_app, !elem_of_cons, !elem_of_app, !elem_of_opt, !bool_decide_eq_true.
  repeat split; naive_solver.
Qed.

Lemma buildTunnelServerTLS_spec e tls n :
  buildTunnelServerTLS e = Ret (Some (tls, n)) →
  is_set e "SSH_PROXYD_TUNNEL_ADDR" = true ∧ ClientAuth tls = RequireAndVerifyClientCert ∧
  CertFile tls ≠ "" ∧ KeyFile tls ≠ "" ∧ ClientCAFile tls ≠ "" ∧
  ClientCAFile tls = First e ["SSH_PROXYD_TUNNEL_CLIENT_CA"; "SSH_PROXYD_WORKLOAD_CA"].
Proof. clear ReadFile cwd.
  unfold buildTunnelServerTLS. destruct (is_set e "SSH_PROXYD_TUNNEL_ADDR"); cbn [negb]; [|done].
  intros Hb. inv_start. cbn [ClientAuth CertFile KeyFile ClientCAFile].
  match goal with Hx : negb _ = true |- _ =>
    rewrite negb_true_iff, !orb_false_iff, !bool_decide_eq_false in Hx end.
  naive_solver.
Qed.

Lemma buildTunnelListener_spec e tls x :
  buildTunnelListener e tls = Ret x →
  match x with
  | None => is_set e "SSH_PROXYD_TUNNEL_ADDR" = false
  | Some (r, l) => is_set e "SSH_PROXYD_TUNNEL_ADDR" = true ∧ is_Some tls ∧ r = Routing.New ∧
      Listener.Addr l = Getenv e "SSH_PROXYD_TUNNEL_ADDR" ∧ HostExtractor l = Some defaultHostExtractor
  end.
Proof. clear ReadFile cwd.
  unfold buildTunnelListener. destruct (is_set e "SSH_PROXYD_TUNNEL_ADDR"); cbn [negb]; [|by intros [= <-]].
  destruct tls as [n|]; [|done]. intros Hb. inv_start.
  match goal with Hx : NewListener _ = Ret _ |- _ => unfold NewListener in Hx; inv_outcome end. done.
Qed.

Lemma buildRevocationChecker_spec e r c :
  buildRevocationChecker e r = Ret c → is_Some c ↔ is_set e "CERTD_REVOCATIONS_URL" = true.
Proof. clear ReadFile cwd.
  unfold buildRevocationChecker. destruct (is_set e "CERTD_REVOCATIONS_URL"); cbn [negb].
  - destruct r as [r|]; [|done]. intros Hb. inv_start. split; [done|by eexists].
  - intros [= <-]. split; [by intros []|done].
Qed.

Lemma loadClientSignerFunc_spec e r c :
  buildCertdReloader e = Ret r → loadClientSignerFunc ReadFile e r = Ret c →
  match c with
  | CertdMinter client ttl =>
      is_set e "CERTD_URL" = true ∧ is_set e "CERTD_MTLS_CERT" = true ∧ is_set e "CERTD_MTLS_KEY" = true ∧
      base_url client = TrimRightByte (Getenv e "CERTD_URL") "/" ∧ 0 < ttl
  | StaticKey signer =>
      is_set e "CERTD_URL" = false ∧ is_set e "SSH_PROXYD_CLIENT_KEY" = true ∧
      ∃ b, ReadFile (Getenv e "SSH_PROXYD_CLIENT_KEY") = Ret b ∧ ParsePrivateKey b = Ret signer
  end.
Proof. clear cwd.
  unfold loadClientSignerFunc, buildCertdReloader. intros Hr Hc. destruct (is_set e "CERTD_URL"); cbn [orb] in Hr.
  - destruct r as [r|]; [|done]. unfold newCertdMinter in Hc. inv_start.
    match goal with Hx : (_ && _) = true |- _ => apply andb_true_iff in Hx as [-> ->] end.
    match goal with Hx : NewClient _ _ = Ret _ |- _ => unfold NewClient in Hx; inv_start end.
    do 4 (split; [done|]). eapply positive_env_pos; [done|lia].
  - inv_start. split; [done|]. split; [done|]. unfold loadSSHPrivateKey in *. inv_start. by eexists.
Qed.

Lemma loadRecordingSink_spec e t t' sink :
  loadRecordingSink cwd e t = (t', Ret sink) → is_Some sink ↔ is_set e "SSH_PROXYD_CAST_DIR" = true.
Proof. clear ReadFile.
  unfold loadRecordingSink. destruct (is_set e "SSH_PROXYD_CAST_DIR").
  - destruct (NewLocalDirSink cwd t (Getenv e "SSH_PROXYD_CAST_DIR")) as [t1 r]. intros [= _ Hx]. inv_start.
    split; [done|by eexists].
  - intros [= _ <-]. split; [by intros []|done].
Qed.

Lemma loadTargetHostKeyCallback_spec e cb :
  loadTargetHostKeyCallback e = Ret cb → cb = InsecureIgnoreHostKey ↔ is_set e "SSH_PROXYD_TARGET_KNOWN_HOSTS" = false.
Proof. clear ReadFile cwd.
  unfold loadTargetHostKeyCallback. destruct (is_set e "SSH_PROXYD_TARGET_KNOWN_HOSTS"); intros Hx; inv_start; done.
Qed.

Lemma New_userCA host ca cb cfg e : SshServer.New (ssh_config e host ca cb) = Ret cfg → CfgTrustedUserCA cfg = Some (MarshalKey ca).
Proof. clear ReadFile cwd. unfold SshServer.New. intros Hx. inv_start. done. Qed.

Lemma loadUserCA_spec e key :
  loadUserCA ReadFile e = Ret key →
  ∃ b, is_set e "SSH_PROXYD_USER_CA" = true ∧ ReadFile (Getenv e "SSH_PROXYD_USER_CA") = Ret b ∧
       ParseAuthorizedKey b = Ret key.
Proof. clear cwd. unfold loadUserCA. intros Hx. inv_start. by eexists. Qed.
End Facts.

(** ** Properties of the start *)
Section StartProperties.
Context `{EnvUtil, SshLibrary, BaseLibrary, RestyClient}.
Context (ReadFile : string → outcome string (list ascii)) (cwd : string).
Context (e : environ) (generated : outcome string unit) (t t' : fs) (s : serving).



(** C7: without CERTD_REVOCATIONS_URL the proxy crashes on its first user.  A
    server started with the variable unset carries a non-nil interface around
    a nil poller, so every certificate of the trusted CA, however valid, makes
    the authentication callback panic; with the variable set the checker is
    live and its poller runs. *)
Theorem unset_revocations_url_panics {A : CertAuthority} {AL : CertAuthorityLaws A}
    (ca : string) (meta : ConnMetadata) (c : Certificate) :
  runServe ReadFile cwd e generated t = (t', Ret s) →
  CfgTrustedUserCA (srv s) = Some ca → is_ret (ParseTarget (MetaUser meta)) = true →
  CertType c = UserCert → SignatureKey c = ca →
  if is_set e "CERTD_REVOCATIONS_URL"
  then RevocationPoller ∈ pollers s ∧ ∃ p, srv_revocations s = Polling (Some p)
  else publicKeyCallback ca (srv_revocations s) meta (CertKey c) = Panic.
Proof.
  intros (host & cak & cb & sink & _ & _ & _ & _ & Hst)%runServe_inv _ [[ru th] Hp]%is_ret_true Ht Hca.
  apply startup_inv in Hst as (r & tls & sf & tn & ck & po & _ & _ & _ & _ & Hck & _ & _ & _ & _ & _ & _ & -> & _ & _ & Hpoll & _).
  apply buildRevocationChecker_spec in Hck.
  destruct (is_set e "CERTD_REVOCATIONS_URL"), ck as [p|].
  - split; [apply Hpoll; by eexists|]. by eexists.
  - destruct (proj2 Hck eq_refl) as [? [=]].
  - assert (false = true) by (apply Hck; by eexists). done.
  - by eapply typed_nil_panics.
Qed.

(** The revocation poll interval.  A positive number of seconds is taken as
    it is up to 9223372036, and the poller then never panics; above that, and
    up to twice as much, the product in nanoseconds overflows, the poller is
    built with a negative period, and its loop panics when it makes its
    ticker. *)
Theorem revocation_period_overflows (r : nat) (n : Z) :
  is_set e "CERTD_REVOCATIONS_URL" = true → is_set e "CERTD_REVOCATIONS_POLL_SECONDS" = true →
  ParseInt (Getenv e "CERTD_REVOCATIONS_POLL_SECONDS") = Some n → 0 < n →
  ∃ p, buildRevocationChecker e (Some r) = Ret (Some p) ∧
    (n ≤ 9223372036 → period p = n * second ∧ ∀ now reply evs, (Run p now reply evs).2 ≠ RunPanic) ∧
    (9223372036 < n ≤ 18446744073 → period p < 0 ∧ ∀ now reply evs, (Run p now reply evs).2 = RunPanic).
Proof.
  intros Hu Hs Hn Hpos. unfold buildRevocationChecker, positive_env. rewrite Hu, Hs, Hn.
  destruct (Z.leb_spec n 0); [lia|]. cbn [negb obind]. apply is_set_true in Hu.
  set (cfg := {| CfgURL := _; PollInterval := _; HTTPTimeout := _ |}).
  assert (∃ p, NewPollingChecker cfg = Ret p ∧
    period p = if PollInterval cfg =? 0 then DefaultPollInterval else PollInterval cfg) as (p & Hp & Hper).
  { unfold NewPollingChecker. subst cfg. cbn [CfgURL]. rewrite bool_decide_eq_false_2 by done. by eexists. }
  rewrite Hp. exists p. split; [done|].
  assert (∀ now reply evs, (Run p now reply evs).2 = RunPanic ↔ PollInterval cfg < 0) as Hrun
    by (intros; by apply run_period_positive).
  assert (PollInterval cfg = wrap64 (n * second)) as Hi by done. clearbody cfg.
  unfold wrap64, second in Hi. split; intros Hr.
  - rewrite Z.mod_small in Hi by lia. split; [|intros now reply evs; rewrite Hrun; lia].
    rewrite Hper. unfold second. destruct (Z.eqb_spec (PollInterval cfg) 0); lia.
  - assert ((n * 10 ^ 9 + 2 ^ 63) mod 2 ^ 64 = n * 10 ^ 9 + 2 ^ 63 - 2 ^ 64) as Hm
      by (symmetry; apply Z.mod_unique with 1; lia).
    split; [|intros now reply evs; apply Hrun; lia].
    rewrite Hper. destruct (Z.eqb_spec (PollInterval cfg) 0); lia.
Qed.

(** The portal's stores.  Without a NATS URL both pages are left without a
    store; with one, each has a tracker over the audit stream: the sessions
    page the newest 200 recordings, the audit page a ring whose limit is not
    given, which leaves it to the journal.  Replay is off exactly when no cast
    directory is set. *)
Theorem portal_trackers (plan : portal_plan) :
  buildPortal cwd e t = Ret (Some plan) →
  match session_store plan, audit_store plan with
  | None, None => nats_url e = ""
  | Some st, Some at' =>
      nats_url e ≠ "" ∧ Decode st = decodeSession ∧ Less st = None ∧ Max st = DefaultMaxSessions ∧
      Decode at' = decodeAuditEvent ∧ Less at' = Some later ∧ Max at' = 0
  | _, _ => False
  end ∧ (cast_store plan = None ↔ Getenv e "SSH_PROXYD_CAST_DIR" = "").
Proof.
  unfold buildPortal, newSessionTracker, newAuditTracker, NewSessionTracker, NewAuditTracker.
  destruct parsePages_ret as [pages ->].
  intros Hb. case_match; [done|]. case_bool_decide as Hu; inv_start.
  - split; [done|]. cbn [cast_store]. by eapply loadPortalCastStore_None.
  - split; [done|]. cbn [cast_store]. by eapply loadPortalCastStore_None.
Qed.
End StartProperties.

(** ** The minted identity *)
Section MintProperties.
Context `{EnvUtil, SshLibrary, BaseLibrary, RestyClient}.

End MintProperties.

(** ** Witnesses: libraries, environments and starts *)
Definition lib_ssh : SshLibrary := {|
  ParsePrivateKey b := Ret (length b);
  ParseAuthorizedKey b := match b with
    | "C"%char :: _ => Ret (CertKey cert1)
    | [] => Err "no key"
    | _ => Ret (RawKey (of_chars b)) end;
  MarshalKey k := match k with RawKey b => b | CertKey c => KeyId c end;
  KnownHosts _ := Ret 5%nat;
  NewPublicKey _ := Ret (RawKey "ssh-ed25519 AAAA");
  MarshalAuthorizedKey k := match k with RawKey b => b +:+ String "010" "" | CertKey c => KeyId c end;
  NewSignerFromKey k := Ret k;
  NewCertSigner _ k := Ret (S k)
|}.
Definition lib_base : BaseLibrary := {|
  reloader_New _ _ _ := Ret 3%nat; reloader_TLSConfig r _ := r; ServerTLS _ := Ret 4%nat;
  nats_url e := Getenv e "SSH_PROXYD_NATS_URL"; AuditSink _ := Ret 0%nat; AuditSource _ := Ret 1%nat;
  base_journal := ring_journal
|}.
Definition lib_certd : RestyClient := {|
  R _ _ _ _ := Ret {| CertClient.Certificate := "C..."; CertClient.Serial := 1; RespKeyID := ""; RespPrincipals := ["alice"];
                       ValidAfter := 0; ValidBefore := 300 * second |}
|}.
Definition files (p : string) : outcome string (list ascii) :=
  if bool_decide (p = "/etc/user_ca.pub") then Ret (chars "ca") else Err "no such file".

Definition env_base : environ := {[ "SSH_PROXYD_USER_CA" := "/etc/user_ca.pub" ]}.
Definition env_min : environ :=
  <["CERTD_URL" := "https://certd/"]> (<["CERTD_MTLS_CERT" := "/c.pem"]> (<["CERTD_MTLS_KEY" := "/k.pem"]> env_base)).
Definition env_tunnel : environ :=
  <["SSH_PROXYD_TUNNEL_ADDR" := ":2223"]> (<["SSH_PROXYD_TUNNEL_TLS_CERT" := "/t.pem"]>
  (<["SSH_PROXYD_TUNNEL_TLS_KEY" := "/tk.pem"]> (<["SSH_PROXYD_WORKLOAD_CA" := "/ca.pem"]> env_min))).
Definition env_poll : environ :=
  <["CERTD_REVOCATIONS_URL" := "https://certd/rev"]> (<["CERTD_REVOCATIONS_POLL_SECONDS" := "9223372037"]> env_min).

Section Witnesses.
#[local] Existing Instance simple_envutil.
#[local] Existing Instance lib_ssh.
#[local] Existing Instance lib_base.
#[local] Existing Instance lib_certd.
#[local] Existing Instance simple_authority.
#[local] Existing Instance simple_authority_laws.
#[local] Existing Instance rfc_wire.

(** A start that succeeds, and what it started. *)
Definition serving_of (e : environ) : option serving :=
  match runServe files "/" e (Ret tt) ∅ with (_, Ret s) => Some s | _ => None end.

Lemma serving_of_Some e s : serving_of e = Some s → ∃ t', runServe files "/" e (Ret tt) ∅ = (t', Ret s).
Proof. unfold serving_of. destruct (runServe _ _ _ _ _) as [t' [x|x|]]; intros [= ->]. by eexists. Qed.

Lemma starts e : bool_decide (is_Some (serving_of e)) = true → ∃ t' s, runServe files "/" e (Ret tt) ∅ = (t', Ret s).
Proof. intros [s Hs]%bool_decide_eq_true. destruct (serving_of_Some e s Hs) as [t' Ht]. by exists t', s. Qed.



Definition ca_cert : GoSsh.Certificate :=
  {| GoSsh.Serial := 7; CertType := UserCert; KeyId := "user:alice"; ValidPrincipals := ["alice"];
     CertPermissions := {| Rbac.CriticalOptions := None; Rbac.Extensions := None |}; SignatureKey := "ca" |}.

Lemma unset_revocations_url_panics_witness :
  ∃ s, serving_of env_min = Some s ∧
    publicKeyCallback "ca" (srv_revocations s) conn_meta1 (CertKey ca_cert) = Panic.
Proof.
  destruct (starts env_min ltac:(vm_compute; reflexivity)) as (t' & s & Hs). exists s.
  assert (serving_of env_min = Some s) as Hso by (unfold serving_of; rewrite Hs; reflexivity).
  split; [exact Hso|].
  assert (CfgTrustedUserCA (srv s) = Some "ca") as Hca.
  { assert ((CfgTrustedUserCA ∘ srv) <$> serving_of env_min = Some (Some "ca")) as Hx by (vm_compute; reflexivity).
    rewrite Hso in Hx. injection Hx as Hx. exact Hx. }
  exact (unset_revocations_url_panics files "/" env_min (Ret tt) ∅ t' s "ca" conn_meta1 ca_cert Hs Hca
    ltac:(vm_compute; reflexivity) eq_refl eq_refl).
Defined.

Lemma revocation_period_overflows_witness :
  ∃ p, buildRevocationChecker env_poll (Some 3%nat) = Ret (Some p) ∧ period p < 0 ∧
    (Run p 0 (TransportError "refused") []).2 = RunPanic.
Proof.
  destruct (revocation_period_overflows env_poll 3 9223372037) as (p & Hp & _ & Hneg);
    [vm_compute; reflexivity..|].
  destruct Hneg as [H1 H2]; [split; [reflexivity|discriminate]|].
  exists p. split; [exact Hp|]. split; [exact H1|]. apply H2.
Defined.

End Witnesses.
