(* ===== verification/TunnelMain.v ===== *)
(** * Command ssh-tunneld

    [cmd/ssh-tunneld/main.go]: from the environment to the dialer, the
    forwarder and the host-certificate renewer.  The TLS reloader is a
    parameter, and so is what [os.Hostname] answered. *)

From Stdlib Require Import ZArith Lia Ascii.
From Stdlib Require Import Floats.SpecFloat.
From stdpp Require Import prelude strings gmap list.
From S2P Require Import Prelude GoStrings GoTime GoEnv NetAddr GoOs CertClient Tunneld HostCert.

Local Open Scope Z_scope.
Local Open Scope go_scope.

(** [reloader.New] and [TLSConfig] of a pool, optionally with a server name. *)
Class AgentTLS := {
  agent_reloader : string → string → list (string * string) → outcome string nat;
  agent_tls_config : nat → string → option string → nat
}.

Inductive AgentError :=
  | MissingEnv (k : string) | NoCertdCA | ReloaderFailed (e : string)
  | DialerFailed (e : Dialer.ConfigError)
  | CertdURLRequired | CertdClientFailed (e : ClientError) | RenewerFailed (e : HostCert.ConfigError).

Inductive agent_component := DialerRun | ReloaderPoll | RenewerRun.
Record agent := {
  agent_dialer : Dialer.Config; server_name : string; agent_forwarder : Forward.Config;
  agent_renewer : option HostCert.Config; agent_components : list agent_component
}.

Section Agent.
Context `{EnvUtil, AgentTLS}.
Context (e : environ) (Hostname : outcome string string).

Definition resolveProxyServerName (proxyAddr : string) : string :=
  if is_set e "SSH_TUNNELD_PROXY_SERVER_NAME" then Getenv e "SSH_TUNNELD_PROXY_SERVER_NAME"
  else match SplitHostPort proxyAddr with Ret (host, _) => host | _ => proxyAddr end.

(** [strings.SplitSeq] at commas, each part trimmed, empty parts dropped. *)
Definition parsePrincipals (raw : string) : list string :=
  filter (.≠ "") (TrimSpace <$> Split raw ",").

Definition host_principals (hostname : string) : list string :=
  if is_set e "SSH_TUNNELD_HOST_PRINCIPALS" then parsePrincipals (Getenv e "SSH_TUNNELD_HOST_PRINCIPALS")
  else [hostname].

Definition renewer_config (hostname : string) (signer : nat) : HostCert.Config :=
  let hostKeyPath := Getenv e "SSH_TUNNELD_HOST_KEY" in
  {| Signer := Some signer; HostKeyPath := hostKeyPath;
     CertOutputPath := Or e "SSH_TUNNELD_HOST_CERT" (hostKeyPath +:+ "-cert.pub");
     CfgKeyID := Or e "SSH_TUNNELD_HOST_KEY_ID" ("host:" +:+ hostname);
     CfgPrincipals := host_principals hostname; RequestedTTL := 0; RenewFraction := f64_zero;
     MinRenewInterval := 0; RetryBackoff := 0; OnRenewed := None |}.

Definition buildHostCertRenewer (r : nat) : outcome AgentError (option HostCert.Config) :=
  if negb (is_set e "SSH_TUNNELD_HOST_KEY") then Ret None
  else
    require is_set e "SSH_TUNNELD_CERTD_URL" else CertdURLRequired;;
    let! _ := map_err CertdClientFailed
      (NewClient (Getenv e "SSH_TUNNELD_CERTD_URL") (Some (agent_tls_config r "certd" None))) in
    let hostname := match Hostname with Ret h => h | _ => "localhost" end in
    let! cfg := map_err RenewerFailed (HostCert.New (renewer_config hostname r)) in
    Ret (Some cfg).

Definition forwarder_config : Forward.Config :=
  {| Forward.LocalAddr := Or e "SSH_TUNNELD_LOCAL_SSHD" Forward.DefaultLocalAddr; Forward.DialTimeout := 0 |}.
Definition dialer_config (proxyAddr : string) (r : nat) : Dialer.Config :=
  {| Dialer.Target := proxyAddr;
     Dialer.TLSConfig := Some (agent_tls_config r "proxy" (Some (resolveProxyServerName proxyAddr)));
     Dialer.Handler := Some 0%nat; Dialer.DialTimeout := 0; Dialer.InitialBackoff := 0;
     Dialer.MaxBackoff := 0; Dialer.BackoffJitter := f64_zero |}.

(** [runAgent] up to the start of its components; a required variable that is
    unset ends the process in [MustEnv]. *)
Definition runAgent : outcome AgentError agent :=
  let must k := map_err MissingEnv (MustEnv e k) in
  let! proxyAddr := must "SSH_TUNNELD_PROXY_ADDR" in
  let! certPath := must "SSH_TUNNELD_TLS_CERT" in
  let! keyPath := must "SSH_TUNNELD_TLS_KEY" in
  let! proxyCAPath := must "SSH_TUNNELD_TLS_CA" in
  let certdCAPath := First e ["SSH_TUNNELD_CERTD_CA"; "SSH_TUNNELD_TLS_CA"] in
  require negb (bool_decide (certdCAPath = "")) else NoCertdCA;;
  let! r := map_err ReloaderFailed
    (agent_reloader certPath keyPath [("proxy", proxyCAPath); ("certd", certdCAPath)]) in
  let fwd := Forward.New forwarder_config in
  let! dialer := map_err DialerFailed (Dialer.New (dialer_config proxyAddr r)) in
  let! renewer := buildHostCertRenewer r in
  Ret {| agent_dialer := dialer; server_name := resolveProxyServerName proxyAddr;
         agent_forwarder := fwd; agent_renewer := renewer;
         agent_components := [DialerRun; ReloaderPoll] ++ (if renewer is Some _ then [RenewerRun] else []) |}.
End Agent.

(** ** Facts *)
Ltac inv_agent :=
  repeat (progress inv_outcome ||
    match goal with
    | H : map_err ?f ?m = Ret _ |- _ => destruct m eqn:?; [|discriminate H..]; cbn [map_err] in H
    end).

Lemma parsePrincipals_spec raw p :
  p ∈ parsePrincipals raw ↔ p ≠ "" ∧ ∃ part, part ∈ Split raw "," ∧ p = TrimSpace part.
Proof.
  unfold parsePrincipals. rewrite list_elem_of_filter, list_elem_of_fmap. naive_solver.
Qed.

Section Facts.
Context `{E : EnvUtil} {EL : EnvUtilLaws E} `{AgentTLS}.
Context (e : environ) (Hostname : outcome string string).

Lemma buildHostCertRenewer_spec r x :
  buildHostCertRenewer e Hostname r = Ret x →
  (is_Some x ↔ is_set e "SSH_TUNNELD_HOST_KEY" = true) ∧
  ∀ cfg, x = Some cfg →
    ∃ hostname, HostCert.New (renewer_config e hostname r) = Ret cfg ∧
      (∀ h, Hostname = Ret h → hostname = h) ∧ is_set e "SSH_TUNNELD_CERTD_URL" = true.
Proof.
  unfold buildHostCertRenewer. destruct (is_set e "SSH_TUNNELD_HOST_KEY"); cbn [negb].
  - intros Hb. inv_agent. split; [split; [done|by eexists]|]. intros cfg [= <-].
    eexists. split; [done|]. split; [|done]. intros h ->. done.
  - intros [= <-]. split; [split; [by intros []|done]|done].
Qed.

(** What a started agent has read. *)
Lemma runAgent_inv a :
  runAgent e Hostname = Ret a →
  ∃ r, is_set e "SSH_TUNNELD_PROXY_ADDR" = true ∧
    Dialer.New (dialer_config e (Getenv e "SSH_TUNNELD_PROXY_ADDR") r) = Ret (agent_dialer a) ∧
    buildHostCertRenewer e Hostname r = Ret (agent_renewer a) ∧
    server_name a = resolveProxyServerName e (Getenv e "SSH_TUNNELD_PROXY_ADDR") ∧
    agent_forwarder a = Forward.New (forwarder_config e) ∧
    (RenewerRun ∈ agent_components a ↔ is_Some (agent_renewer a)).
Proof using EL.
  unfold runAgent. intros Hr. inv_agent.
  repeat match goal with Hm : MustEnv _ _ = Ret _ |- _ => apply must_spec in Hm as [? ->] end.
  eexists. do 5 (split; [done|]). cbn [agent_components agent_renewer].
  match goal with |- context [if ?x is Some _ then _ else _] => destruct x end.
  - split; [by eexists|]. set_solver.
  - split; [set_solver|by intros []].
Qed.

Lemma agent_dialer_eq a r :
  Dialer.New (dialer_config e (Getenv e "SSH_TUNNELD_PROXY_ADDR") r) = Ret (agent_dialer a) →
  Dialer.InitialBackoff (agent_dialer a) = 1 * second ∧ Dialer.MaxBackoff (agent_dialer a) = 30 * second ∧
  Dialer.Target (agent_dialer a) = Getenv e "SSH_TUNNELD_PROXY_ADDR".
Proof. clear EL. intros (-> & -> & ->)%Dialer.New_fields. done. Qed.

Lemma renewer_config_New hostname r cfg :
  HostCert.New (renewer_config e hostname r) = Ret cfg →
  cfg = {| Signer := Some r; HostKeyPath := Getenv e "SSH_TUNNELD_HOST_KEY";
           CertOutputPath := Or e "SSH_TUNNELD_HOST_CERT" (Getenv e "SSH_TUNNELD_HOST_KEY" +:+ "-cert.pub");
           CfgKeyID := Or e "SSH_TUNNELD_HOST_KEY_ID" ("host:" +:+ hostname);
           CfgPrincipals := host_principals e hostname; RequestedTTL := 0;
           RenewFraction := DefaultRenewFraction; MinRenewInterval := DefaultMinRenewInterval;
           RetryBackoff := DefaultRetryBackoff; OnRenewed := None |} ∧
  host_principals e hostname ≠ [].
Proof.
  clear EL. intros [-> Hne]%HostCert.renewer_New_fields. split; [reflexivity|exact Hne].
Qed.

Lemma default_fraction_proper : proper_fraction DefaultRenewFraction.
Proof. apply proper_fraction_compare; by vm_compute. Qed.
End Facts.

(** ** Properties of the agent *)
Section Properties.
Context `{E : EnvUtil} {EL : EnvUtilLaws E} `{AgentTLS}.
Context (e : environ) (Hostname : outcome string string) (a : agent).

(** C33: the host certificate never lapses by the agent's own schedule.  A
    started agent renews exactly when a host key is configured; it then asks
    for at least one principal, all of them non-empty and without surrounding
    blanks when the variable lists them; writes next to the key unless told
    otherwise; and after any certificate of under 104 days the next signing
    starts before it expires, or one minute from now when that is later. *)
Theorem agent_host_certificate :
  runAgent e Hostname = Ret a →
  (RenewerRun ∈ agent_components a ↔ is_set e "SSH_TUNNELD_HOST_KEY" = true) ∧
  ∀ cfg, agent_renewer a = Some cfg →
    is_set e "SSH_TUNNELD_CERTD_URL" = true ∧ CfgPrincipals cfg ≠ [] ∧
    (is_set e "SSH_TUNNELD_HOST_PRINCIPALS" = true →
       Forall (λ p, p ≠ "" ∧ TrimSpace p = p) (CfgPrincipals cfg)) ∧
    (is_set e "SSH_TUNNELD_HOST_CERT" = false →
       CertOutputPath cfg = Getenv e "SSH_TUNNELD_HOST_KEY" +:+ "-cert.pub") ∧
    ∀ validAfter validBefore now, validAfter ≤ validBefore < validAfter + 2 ^ 53 →
      now + nextRenewalDelay cfg validAfter validBefore now ≤ Z.max validBefore (now + minute).
Proof using EL.
  intros (r & _ & _ & Hrn & _ & _ & Hc)%runAgent_inv.
  apply buildHostCertRenewer_spec in Hrn as [Hset Hcfg]. split; [by rewrite Hc|].
  intros cfg (hostname & Hnew & _ & Hurl)%Hcfg. split; [done|].
  apply renewer_config_New in Hnew as [-> Hne]. cbn [CfgPrincipals CertOutputPath].
  split; [done|]. split; [|split].
  - intros Hp. unfold host_principals. rewrite Hp. apply Forall_forall.
    intros p (? & part & _ & ->)%parsePrincipals_spec. split; [done|apply TrimSpace_idem].
  - intros Hcert. by rewrite or_spec, Hcert.
  - intros va vb now Hlife. eapply nextRenewalDelay_bounds; [apply default_fraction_proper|done|done].
Qed.

End Properties.

(** ** Witnesses *)
Definition agent_tls1 : AgentTLS := {| agent_reloader _ _ _ := Ret 1%nat; agent_tls_config r _ _ := r |}.
Definition env_agent : environ :=
  <["SSH_TUNNELD_PROXY_ADDR" := "proxy.internal:2223"]> (<["SSH_TUNNELD_TLS_CERT" := "/c.pem"]>
  (<["SSH_TUNNELD_TLS_KEY" := "/k.pem"]> (<["SSH_TUNNELD_TLS_CA" := "/ca.pem"]>
  (<["SSH_TUNNELD_HOST_KEY" := "/etc/ssh/key"]> (<["SSH_TUNNELD_CERTD_URL" := "https://certd"]>
  {[ "SSH_TUNNELD_HOST_PRINCIPALS" := " web1, ,web1.lan " ]}))))).

Section Witnesses.
#[local] Existing Instance simple_envutil.
#[local] Existing Instance simple_envutil_laws.
#[local] Existing Instance agent_tls1.

Lemma agent_starts : ∃ a, runAgent env_agent (Ret "web1") = Ret a.
Proof. apply is_ret_true. vm_compute. reflexivity. Qed.

Lemma agent_host_certificate_witness :
  ∃ a cfg, runAgent env_agent (Ret "web1") = Ret a ∧ agent_renewer a = Some cfg ∧
    CertOutputPath cfg = "/etc/ssh/key-cert.pub".
Proof.
  destruct agent_starts as [a Ha].
  destruct (agent_host_certificate env_agent (Ret "web1") a Ha) as [Hrun Hcfg].
  destruct (agent_renewer a) as [cfg|] eqn:Hr.
  - exists a, cfg. split; [exact Ha|]. split; [exact Hr|].
    destruct (Hcfg cfg eq_refl) as (_ & _ & _ & Hout & _). apply Hout. vm_compute. reflexivity.
  - exfalso.
    assert (match runAgent env_agent (Ret "web1") with Ret a => bool_decide (is_Some (agent_renewer a)) | _ => true end = true)
      as Hx by (vm_compute; reflexivity).
    rewrite Ha, Hr in Hx. discriminate Hx.
Defined.

End Witnesses.
