(* ===== verification/Commands.v ===== *)
(** * The commands

    The entry points of [cmd/ssh-proxyd/main.go] and [cmd/ssh-tunneld/main.go]:
    the command trees, what each command does from its start to its end, and the
    exit status.  The cobra library is a class, [run.Group] and [version.Resolve]
    are parameters. *)

From Stdlib Require Import ZArith Lia Ascii.
From stdpp Require Import prelude strings gmap list.
From S2P Require Import Prelude GoStrings GoEnv CertClient GoOs ProxyMain Tunneld HostCert TunnelMain.

Local Open Scope go_scope.

(** ** Command trees *)

(** The fields of [cobra.Command] in use; [R] is what running a command is. *)
Inductive Command (R : Type) : Type :=
  Cmd (Use Short : string) (Run : option R) (commands : list (Command R)).
Arguments Cmd {R} _ _ _ _.
Definition Use {R} (c : Command R) : string := let 'Cmd u _ _ _ := c in u.
Definition RunE {R} (c : Command R) : option R := let 'Cmd _ _ r _ := c in r.
Definition commands {R} (c : Command R) : list (Command R) := let 'Cmd _ _ _ cs := c in cs.

(** [Execute] with the command line: what is run, or a usage error. *)
Class Cobra := { Execute {R : Type} : Command R → list string → outcome string R }.
Class CobraLaws (C : Cobra) : Prop := {
  (** the name of a subcommand runs it *)
  execute_named {R} (root c : Command R) r :
    c ∈ commands root → NoDup (Use <$> commands root) → RunE c = Some r → Execute root [Use c] = Ret r;
  (** nothing is run but a command of the tree *)
  execute_ran {R} (root : Command R) args r :
    Execute root args = Ret r → (∀ c, c ∈ commands root → commands c = []) →
    RunE root = Some r ∨ ∃ c, c ∈ commands root ∧ RunE c = Some r
}.

(** ** ssh-proxyd *)
Module Proxyd.
Inductive serve_error := StartFailed (e : StartError) | ServeFailed (e : string).

Section Proxyd.
Context `{EnvUtil, SshLibrary, BaseLibrary, RestyClient}.
Context (ReadFile : string → outcome string (list ascii)) (cwd : string) (e : environ).
Context (Group : list component → outcome string unit) (Resolve : string → string).

Definition appName : string := "ssh-proxyd".

(** All of [runServe]: the start, then the components until the group ends. *)
Definition serve (generated : outcome string unit) (t : fs) : fs * outcome serve_error unit :=
  let '(t, s) := runServe ReadFile cwd e generated t in
  (t, let! s := map_err StartFailed s in map_err ServeFailed (Group (components s))).

(** What a command does: it serves, or prints a line. *)
Inductive action := Serve | PrintLine (line : string).
Definition serveCmd : Command action := Cmd "serve" "Start the SSH gateway" (Some Serve) [].
Definition versionCmd (Version : string) : Command action :=
  Cmd "version" "Print version and exit" (Some (PrintLine (appName +:+ " " +:+ Resolve Version))) [].
Definition rootCmd (Version : string) : Command action :=
  Cmd appName "tokyo3-ssh-proxy SSH gateway and session recorder" None [serveCmd; versionCmd Version].

(** The exit status: 1 when the command failed; a panic ends the process with 2. *)
Definition main `{Cobra} (Version : string) (args : list string) (generated : outcome string unit) (t : fs) : nat :=
  match Execute (rootCmd Version) args with
  | Err _ => 1
  | Panic => 2
  | Ret (PrintLine _) => 0
  | Ret Serve => match (serve generated t).2 with Ret _ => 0 | Err _ => 1 | Panic => 2 end
  end.
End Proxyd.
End Proxyd.

(** ** ssh-tunneld *)
Module Tunneld.
(** What [run.Group] returns: an error that is [context.Canceled], or another. *)
Inductive group_error := Canceled | Failed (e : string).
Inductive run_error := StartFailed (e : AgentError) | AgentFailed (e : string).

Section Tunneld.
Context `{EnvUtil, AgentTLS}.
Context (e : environ) (Hostname : outcome string string).
Context (Group : list agent_component → outcome group_error unit) (Resolve : string → string).

Definition appName : string := "ssh-tunneld".

(** All of [runAgent]: a cancelled group is a clean end. *)
Definition run : outcome run_error unit :=
  let! a := map_err StartFailed (runAgent e Hostname) in
  match Group (agent_components a) with
  | Ret _ => Ret tt
  | Err Canceled => Ret tt
  | Err (Failed x) => Err (AgentFailed x)
  | Panic => Panic
  end.

Inductive action := Run | PrintLine (line : string).
Definition runCmd : Command action := Cmd "run" "Run the tunnel agent in the foreground" (Some Run) [].
Definition versionCmd (Version : string) : Command action :=
  Cmd "version" "Print version and exit" (Some (PrintLine (appName +:+ " " +:+ Resolve Version))) [].
Definition rootCmd (Version : string) : Command action :=
  Cmd appName "tokyo3-ssh-proxy reverse-tunnel agent" None [runCmd; versionCmd Version].

Definition main `{Cobra} (Version : string) (args : list string) : nat :=
  match Execute (rootCmd Version) args with
  | Err _ => 1
  | Panic => 2
  | Ret (PrintLine _) => 0
  | Ret Run => match run with Ret _ => 0 | Err _ => 1 | Panic => 2 end
  end.
End Tunneld.
End Tunneld.

(** ** What the exit status says *)

(** A gateway that cannot start exits with 1 and runs nothing: [Group] is not
    called. *)
Theorem proxyd_start_error_exits `{EnvUtil, SshLibrary, BaseLibrary, RestyClient, CobraLaws}
    ReadFile cwd e Group Resolve Version generated t x :
  (runServe ReadFile cwd e generated t).2 = Err x →
  Proxyd.main ReadFile cwd e Group Resolve Version ["serve"] generated t = 1.
Proof.
  intros Hs. unfold Proxyd.main.
  change ["serve"] with [Use Proxyd.serveCmd].
  rewrite (execute_named _ Proxyd.serveCmd Proxyd.Serve); [|by left|by apply (bool_decide_unpack _)|done].
  unfold Proxyd.serve. destruct (runServe _ _ _ _ _) as [t' s]. cbn in Hs. by subst s.
Qed.

(** An agent told to stop exits with 0, whichever component noticed. *)
Theorem tunneld_cancel_exits_clean `{EnvUtil, AgentTLS, CobraLaws} e Hostname Group Resolve Version a :
  runAgent e Hostname = Ret a → Group (agent_components a) = Err Tunneld.Canceled →
  Tunneld.main e Hostname Group Resolve Version ["run"] = 0.
Proof.
  intros Ha Hg. unfold Tunneld.main.
  change ["run"] with [Use Tunneld.runCmd].
  rewrite (execute_named _ Tunneld.runCmd Tunneld.Run); [|by left|by apply (bool_decide_unpack _)|done].
  unfold Tunneld.run. by rewrite Ha, <-?Hg; cbn; rewrite Hg.
Qed.

(** ** A dispatcher at which the laws hold *)
Definition find_command {R} (u : string) (cs : list (Command R)) : option (Command R) :=
  snd <$> list_find (λ c, Use c = u) cs.
Definition simple_cobra : Cobra := {|
  Execute R root args :=
    match args with
    | [] => from_option Ret (Err "usage") (RunE root)
    | u :: _ => from_option Ret (Err ("unknown command " +:+ u)) (find_command u (commands root) ≫= RunE)
    end
|}.

Lemma simple_cobra_laws : CobraLaws simple_cobra.
Proof.
  split.
  - intros R root c r Hc Hdup Hr. cbn. unfold find_command.
    apply list_elem_of_lookup in Hc as [i Hi].
    destruct (list_find (λ c0, Use c0 = Use c) (commands root)) as [[j c']|] eqn:Hf.
    + apply list_find_Some in Hf as (Hj & Hu & _).
      assert (j = i) as -> by (apply (NoDup_lookup _ j i (Use c) Hdup); by rewrite list_lookup_fmap, ?Hi, ?Hj; cbn; rewrite ?Hu).
      rewrite Hj in Hi. injection Hi as ->. cbn. by rewrite Hr.
    + apply list_find_None in Hf. rewrite Forall_lookup in Hf. by destruct (Hf i c Hi).
  - intros R root [|u args] r; cbn.
    + destruct (RunE root) as [x|] eqn:Hr; [|done]. intros [= ->] _. by left.
    + intros He _. right. unfold find_command in He.
      destruct (list_find (λ c0, Use c0 = u) (commands root)) as [[j c]|] eqn:Hf; [|done]. cbn in He.
      apply list_find_Some in Hf as (Hj & _). destruct (RunE c) as [x|] eqn:Hr; [|done]. injection He as ->.
      exists c. split; [by eapply list_elem_of_lookup_2|done].
Qed.
